(* ===== verification/_CoqProject ===== *)
-Q . S2P
Prelude.v
Opus.v
Uplink.v
Speakers.v
Bridge.v
Net.v
Relay.v
Stream.v
Credentials.v
Text.v
Config.v
Deserialize.v
Messages.v
Json.v
Proto.v
MumbleClient.v
Voice.v
Negotiation.v
Semaphore.v
TurnService.v
Session.v
Await.v
Media.v
EventLoop.v
Manager.v
EventTask.v
Handler.v
Deadlines.v
Api.v
Server.v
System.v
Shutdown.v
Connection.v
EndToEnd.v
Conformance.v
