(* ===== verification/Prelude.v ===== *)
(** * MumDota: a verification library for the Mumble to WebRTC bridge

    The program ([src/src], Rust) lets a browser take part in a Mumble voice server. A
    browser opens a WebSocket and sends its user name; the server logs that user into
    Mumble over TLS, relays the roster and the chat, and carries voice between the
    browser's WebRTC peer connection and Mumble's encrypted UDP voice. A built-in TURN
    server relays the media of browsers that cannot reach the media port directly.

    ** The parts and where they are modelled

    - Opus packets ([bridge.rs], [opus_packet_*]): file [Opus]. A packet is its bytes; the
      duration comes from the first two, and is compared with the tables of RFC 6716.
    - The uplink ([bridge.rs], [UplinkClock] and the uplink task of [AudioBridge]): file
      [Uplink]. RTP packets of the browser become numbered Mumble frames. Counters are kept
      at their width; [MediaTime] is the specification on unbounded time.
    - Speakers ([webrtc/speakers.rs]): file [Speakers]. One RTP track and one media clock
      per Mumble speaker; [f64] arithmetic is the standard library's [SpecFloat].
    - The audio bridge ([AudioBridge] in [bridge.rs]): file [Bridge] runs both tasks
      interleaved, from their start to their end.
    - The TURN relay filter ([turn/relay.rs]): files [Net], [Relay]. The UDP socket of the
      library is the class [UdpConn].
    - TURN over streams ([turn/stream.rs]): file [Stream]. A byte stream is the list
      of the chunks in which it arrives, read across their borders by a small reader monad.
    - TURN credentials ([turn/credentials.rs]): file [Credentials]. The hash map is a
      [gmap]; its iteration order is the class [MapValues] of this file.
    - Configuration ([config.rs]): files [Text], [Config]. Placeholders, environment
      overrides, validation and loading; the parsing of TOML text is an argument. File
      [Deserialize] reads the parsed table into the configuration, as [serde] derives it.
    - Messages ([ws/messages.rs], [mumble/proto.rs]): files [Messages], [Proto]; file [Json]
      has the JSON trees [serde] derives for them, written with the class [Codec].
    - The Mumble control connection ([mumble/client.rs]): file [MumbleClient]. The whole of
      [handle_control_packet] and the connection task as a transition function.
    - The voice socket and the audio path ([mumble/voice.rs], [webrtc/audio.rs], the
      downlink of [bridge.rs]): file [Voice], which also composes both directions.
    - Negotiation ([webrtc/mod.rs], [WebrtcSession]): file [Negotiation]. The library's peer
      connection is the class [PeerConnection] with the laws of the signalling state
      machine.
    - The TURN service ([turn/mod.rs]) and [session_ice_config]: files [Semaphore],
      [TurnService].
    - Sessions ([session.rs]): file [Session] models one [UserSession] (every operation
      under its mutex, the event loop's reactions, the voice setup, the teardown); file
      [Await] the voice requests await by await, as they can be cut off; file [EventLoop] the loop of [process_events] with its biased [select!], channels and
      notifications; file [Manager] models [SessionManager] as a step relation whose steps
      are the critical sections of the code, so that its runs are the interleavings of the
      tasks. File [EventTask] shows the task of [EventLoop] to be such a run.
    - The media API, [initialize_media] and the callbacks of a peer connection
      ([webrtc/mod.rs]): file [Media].
    - The WebSocket handler ([ws/handler.rs]): file [Handler]; its calls on the manager are
      part of its output. File [Api] puts the manager's methods in their place, with the
      dialling of [MumbleClient::connect]. File [Deadlines] adds the clock: when frames
      arrive, how long they take and when the loop gives up.
    - The HTTP server and the entry point ([server.rs], [main.rs]): file [Server].
    - The server as a whole: file [System], one transition system of the handlers, the event
      tasks and the main task over the manager, the connection slots and the TURN service;
      file [Shutdown] measures the work left in it and follows the main task to the end of
      the process ([main.rs] drops the runtime when [run] returns, so the runs of the process
      are those of [process_step]), and file [Connection] shows the handler of [Api] to be a
      path of the system.
    - Two users and the Mumble server between them: file [EndToEnd].
    - The unit tests inside the modules: file [Conformance] runs them on the model.

    ** What the theorems show

    - Audio: durations agree with RFC 6716; the uplink clock implements media time across
      loss, reordering and wrap-around; frames reach the server in order and unaltered
      ([Voice.uplink_pipeline]); each speaker is heard on a track of their own, unaltered
      and undisturbed by others ([Voice.downlink_pipeline], [Speakers]), with RTP timestamps
      that are the media time of what they say ([Speakers.media_clock_continuous]).
    - End to end: what one user says or types reaches the browsers of the others unaltered,
      on that user's track and under that user's name, if the Mumble server relays it
      ([EndToEnd]).
    - Roster: the events of the Mumble connection let a listener reconstruct its caches
      exactly, starting with the login, and the session's speakers and names follow them
      ([MumbleClient], [Session]).
    - Negotiation: one offer in flight, nothing asked for while waiting is lost; a request
      dropped half-way leaves a sound session ([Await]).
    - Sessions: slots are conserved, an old event task cannot remove a newer session, a
      connect succeeds completely or leaves no trace, closing drains the server
      ([Manager]); every connection is cleaned up however it ends ([Handler]); a connection
      touches only its own session, and its chat, channel and mute requests arrive at the
      Mumble server as they were asked ([Api]); a silent one is disconnected in time
      ([Deadlines]).
    - Event loop: the loop follows the roster under its select order, ends when Mumble, its
      channel or the session does and reports why ([EventLoop]); a closed session stays down,
      but for a voice setup that was still running ([Manager]).
    - Levels of detail agree: the detailed event task is a run of the manager's steps
      ([EventTask.event_task_refines_manager]) and the detailed handler a path of the server
      ([Connection.connection_refines_system]), so what is proved of the runs of [Manager]
      and [System] holds of the code's own control flow.
    - The whole server: no TURN credential outlives its connection, a gone connection leaves
      nothing behind, an admitted connection finds a session slot ([System]); after the
      listener has stopped the tasks have a bounded number of steps of their own left, the
      main task always comes to its end, and by then every session it found is shut down or
      being shut down by its own connection ([Shutdown]).
    - Messages: server messages survive their JSON form, and an accepted browser message has
      its integers in range ([Json]).
    - TURN: relayed traffic reaches only the media port, stream framing round-trips in
      whatever chunks the bytes arrive, issued
      credentials authenticate until they expire, and revocation reaches every server.
    - Configuration: templates expand to their meaning, each of the 22 variables reaches its
      field or is refused ([Deserialize]), validated ports do not collide, and nothing is started on a configuration that was not
      validated ([Server.main_runs_validated]).

    What the program relies on of other crates is stated as classes with laws, against which
    the clients are proved and each with an instance to run the models on: [PeerConnection]
    (file [Negotiation]), [Semaphore] (file [Semaphore]), [UdpConn] (file [Relay]), and
    [MapValues] and [SetIter] for the iteration order of hash maps and sets.

    ** Conventions and bounds

    Machine integers are [Z] with explicit wrap-around ([wrap], [wrapping_add], ...); release
    builds of the crate wrap. Strings are UTF-8 bytes. Fallible code returns [result]. Clock
    readings, random identifiers, results of library calls and outcomes of channel sends are
    arguments of the step that uses them. No definition needs fuel: loops recurse on the
    list of their inputs, and filling a buffer from a stream on the list of its chunks. [Uplink] assumes at
    most 2^41 loop turns where frame numbers must not wrap (more than a century at the
    fastest packet rate); [Credentials] assumes Unix times below 2^63 s.

    ** Not modelled

    The bodies of other crates (tokio, webrtc, turn, mumble-protocol, axum, serde_json,
    native-tls, toml), JSON and TOML text and the array form [serde] also accepts for structs,
    CORS headers, logging, and the contents of the crypt state. The model does not cancel a
    teardown: the handler, the event task and the main task await it to the end, and that of
    a connect that lost a race is of a session nobody has; only the end of the process cuts it
    off ([Shutdown]). The task of the voice setup ends some time after its abort; when a
    session nobody points to any more is dropped, what is attached to it goes as well, and
    that is not modelled. A connect and the voice requests
    can be cut off by the handler's limit, and are ([api_cancel] in [Api]). In [System] the listening socket, TURN
    clients and RTP packets are not part of the state; the audio path is verified on its own.
    [setup_incoming_audio_handler] is modelled for one remote track: the theorems on the
    uplink are for a browser that sends one, and say nothing of how the packets of several
    would mix in the channel. [TurnService_revoke] records which deletions are asked for, of
    the user names the store still has: names that expired and were dropped by a later issue
    are not among them, and the one second each deletion may take is not modelled.
    The tests that open sockets or make real peer connections ([session/tests.rs],
    [turn/tests.rs], [webrtc/tests.rs]) are not run on the model. *)

From stdpp Require Import base tactics list gmap strings pretty fin_maps sets.
From Stdlib Require Import ZArith Lia.

(** ** Results

    Fallible Rust code returns [anyhow::Result<T>] or [Result<T, String>]; both are a
    value or an error that is only ever formatted, so the error is its message. *)

Inductive result (A : Type) : Type :=
| Ok (a : A)
| Err (e : string).
Arguments Ok {A} a.
Arguments Err {A} e.

#[export] Instance result_eq_dec {A} `{EqDecision A} : EqDecision (result A).
Proof. solve_decision. Defined.

#[export] Instance result_ret : MRet result := fun A a => Ok a.

#[export] Instance result_bind : MBind result := fun A B f r =>
  match r with Ok a => f a | Err e => Err e end.

#[export] Instance result_fmap : FMap result := fun A B f r =>
  match r with Ok a => Ok (f a) | Err e => Err e end.

(** [anyhow::ensure!(b, msg)] *)
Definition ensure (b : bool) (msg : string) : result unit :=
  if b then Ok tt else Err msg.

(** [Option::ok_or_else] and [anyhow::Context::context] on an [Option] *)
Definition ok_or {A} (o : option A) (msg : string) : result A :=
  match o with Some a => Ok a | None => Err msg end.

Definition is_ok {A} (r : result A) : bool :=
  match r with Ok _ => true | Err _ => false end.

Section ResultLemmas.
Context {A B : Type}.

Lemma bind_Ok (a : A) (f : A → result B) : (Ok a ≫= f) = f a.
Proof. done. Qed.

Lemma bind_Err e (f : A → result B) : (Err e ≫= f) = Err e.
Proof. done. Qed.

Lemma bind_Ok_iff (r : result A) (f : A → result B) b :
  (r ≫= f) = Ok b ↔ ∃ a, r = Ok a ∧ f a = Ok b.
Proof. destruct r; simpl; naive_solver. Qed.

Lemma ensure_Ok_iff b msg u : ensure b msg = Ok u ↔ b = true.
Proof. destruct b, u; simpl; naive_solver. Qed.

Lemma ok_or_Ok_iff (o : option A) msg a : ok_or o msg = Ok a ↔ o = Some a.
Proof. destruct o; simpl; naive_solver. Qed.

End ResultLemmas.

(** ** Machine integers

    A [w]-bit unsigned integer is a [Z] in [0, 2^w); arithmetic wraps (the crate sets no
    [overflow-checks], so release builds wrap; where the debug build would panic instead,
    a theorem shows that the operation does not overflow). *)

Definition wrap (w x : Z) : Z := x mod 2 ^ w.
Definition is_uint (w x : Z) : Prop := (0 ≤ x < 2 ^ w)%Z.
Definition wrapping_add (w a b : Z) : Z := wrap w (a + b).
Definition wrapping_sub (w a b : Z) : Z := wrap w (a - b).
Definition wrapping_mul (w a b : Z) : Z := wrap w (a * b).

Section Wrap.
Local Open Scope Z_scope.
Implicit Types w x y a b d : Z.

Lemma wrap_range w x : 0 ≤ w → is_uint w (wrap w x).
Proof. intros Hw. apply Z.mod_pos_bound. lia. Qed.

Lemma wrap_small w x : is_uint w x → wrap w x = x.
Proof. apply Z.mod_small. Qed.

(** Differences of wrapped counters are the true difference while it fits. *)
Lemma wrapping_sub_true w x y :
  0 ≤ x - y < 2 ^ w → wrapping_sub w (wrap w x) (wrap w y) = x - y.
Proof.
  intros H. unfold wrapping_sub, wrap. rewrite <- Zminus_mod. by apply Z.mod_small.
Qed.

Lemma wrapping_add_sub w a d :
  is_uint w d → wrapping_sub w (wrapping_add w a d) a = d.
Proof.
  intros Hd. unfold wrapping_sub, wrapping_add, wrap, is_uint in *.
  rewrite Zminus_mod_idemp_l. replace (a + d - a) with d by lia. by apply Z.mod_small.
Qed.

Lemma wrap_narrow w w' x : 0 ≤ w ≤ w' → wrap w (wrap w' x) = wrap w x.
Proof.
  intros Hw. unfold wrap. apply Z.mod_mod_divide.
  exists (2 ^ (w' - w)). rewrite <- Z.pow_add_r by lia. f_equal. lia.
Qed.

Lemma wrap_add_wrap_r w x y : wrap w (x + wrap w y) = wrap w (x + y).
Proof. unfold wrap. by rewrite Zplus_mod_idemp_r. Qed.

Lemma wrap_mul_wrap_l w x y : wrap w (wrap w x * y) = wrap w (x * y).
Proof. unfold wrap. by rewrite Zmult_mod_idemp_l. Qed.

Lemma wrapping_add_wrap w x d : wrapping_add w (wrap w x) d = wrap w (x + d).
Proof. unfold wrapping_add, wrap. by rewrite Zplus_mod_idemp_l. Qed.
End Wrap.

(** ** Time

    [Instant]s are nanoseconds on the monotonic clock; [Instant::duration_since] (and
    [elapsed]) saturates at zero. [SystemTime] readings enter the models as arguments. *)

Definition duration_since (now last : Z) : Z := Z.max 0 (now - last).
Definition as_millis (nanos : Z) : Z := nanos / 1000000.
Definition ms (n : Z) : Z := n * 1000000.

(** ** Strings *)

(** [str::starts_with] *)
Definition starts_with (s pre : string) : bool := String.prefix pre s.

Lemma starts_with_app pre s : starts_with (pre +:+ s) pre = true.
Proof.
  unfold starts_with. induction pre as [|c pre IH]; [by destruct s|].
  change (String c pre +:+ s) with (String c (pre +:+ s)). simpl.
  by case_match.
Qed.

(** [format!] of a [u16]/[u32]/[u64] *)
Definition show (n : Z) : string := pretty n.

(** ** Iteration order of a [HashMap]

    The order in which [HashMap::values] yields values is unspecified; a model that
    iterates takes the order as an instance of this class. *)

Class MapValues (K V : Type) `{Countable K} := {
  values : gmap K V → list V;
  values_perm : ∀ m, values m ≡ₚ (map_to_list m).*2
}.

(** One possible order, used in concrete runs. *)
#[export] Instance canonical_values {K V} `{Countable K} : MapValues K V | 100 :=
  {| values m := (map_to_list m).*2; values_perm m := Permutation_refl _ |}.

Section MapValuesLemmas.
Context {K V : Type} `{MapValues K V}.

Lemma elem_of_values (m : gmap K V) v : v ∈ values m ↔ ∃ k, m !! k = Some v.
Proof.
  rewrite values_perm, list_elem_of_fmap. split.
  - intros [[k v'] [-> Hin]]. exists k. by apply elem_of_map_to_list in Hin.
  - intros [k Hk]. exists (k, v). split; [done|]. by apply elem_of_map_to_list.
Qed.
End MapValuesLemmas.

(** ** Lists *)

Lemma list_filter_app {A} (P : A → Prop) `{∀ x, Decision (P x)} (l1 l2 : list A) :
  filter P (l1 ++ l2) = filter P l1 ++ filter P l2.
Proof.
  induction l1 as [|x l1 IH]; [done|]. simpl. rewrite !filter_cons, IH. by case_decide.
Qed.

Lemma Forall_weaken {A} (P Q : A → Prop) (l : list A) :
  (∀ x, P x → Q x) → Forall P l → Forall Q l.
Proof. induction 2; constructor; eauto. Qed.

(** ** Weights

    The sum of a weight over the values of a map, for counting and termination measures. *)

Definition map_weight {K A} `{Countable K} (w : A → nat) (m : gmap K A) : nat :=
  map_fold (λ _ a n, w a + n)%nat 0%nat m.

Section MapWeight.
Context {K A : Type} `{Countable K}.
Implicit Types (w : A → nat) (m : gmap K A).

Lemma map_weight_insert_new w m k a :
  m !! k = None → map_weight w (<[k := a]> m) = (w a + map_weight w m)%nat.
Proof.
  intros Hk. unfold map_weight. rewrite map_fold_insert_L; [done| |done].
  intros. lia.
Qed.

Lemma map_weight_delete w m k a :
  m !! k = Some a → map_weight w m = (w a + map_weight w (delete k m))%nat.
Proof.
  intros Hk. rewrite <- (map_weight_insert_new w (delete k m) k a) by apply lookup_delete_eq.
  by rewrite insert_delete_id.
Qed.

(** Replacing a value changes the sum by the difference of the two weights. *)
Lemma map_weight_insert w m k a a' :
  m !! k = Some a → (map_weight w (<[k := a']> m) + w a = map_weight w m + w a')%nat.
Proof.
  intros Hk. rewrite <- insert_delete_eq, map_weight_insert_new by apply lookup_delete_eq.
  rewrite (map_weight_delete w m k a Hk). lia.
Qed.

Lemma map_weight_zero w m k a : map_weight w m = 0%nat → m !! k = Some a → w a = 0%nat.
Proof. intros Hw Hk. rewrite (map_weight_delete w m k a Hk) in Hw. lia. Qed.

Lemma map_weight_pos w m :
  map_weight w m ≠ 0%nat → ∃ k a, m !! k = Some a ∧ w a ≠ 0%nat.
Proof.
  induction m as [|k a m Hk IH] using map_ind; [done|].
  rewrite map_weight_insert_new by done. intros Hw. destruct (decide (w a = 0%nat)) as [Ha|Ha].
  - destruct IH as (k' & a' & Hk' & Ha'); [lia|]. exists k', a'. split; [|done].
    rewrite lookup_insert_ne; [done|]. congruence.
  - exists k, a. by rewrite lookup_insert_eq.
Qed.

Lemma map_weight_le w m n : (∀ a, w a ≤ n)%nat → (map_weight w m ≤ n * size m)%nat.
Proof.
  intros Hw. induction m as [|k a m Hk IH] using map_ind; [rewrite map_size_empty; unfold map_weight; rewrite map_fold_empty; lia|].
  rewrite map_weight_insert_new, map_size_insert_None by done. specialize (Hw a). lia.
Qed.

(** Distinct keys of positive weight are at most as many as the weight. *)
Lemma map_weight_NoDup w (l : list K) : ∀ m,
  NoDup l → (∀ k, k ∈ l → ∃ a, m !! k = Some a ∧ (1 ≤ w a)%nat) →
  (length l ≤ map_weight w m)%nat.
Proof.
  induction l as [|k l IH]; intros m Hnd Hl; [simpl; lia|].
  apply NoDup_cons in Hnd as [Hk Hnd]. destruct (Hl k) as (a & Ha & Hw); [left|].
  rewrite (map_weight_delete w m k a Ha). simpl. specialize (IH (delete k m) Hnd).
  assert (length l ≤ map_weight w (delete k m))%nat; [|lia]. apply IH. intros k' Hk'.
  destruct (Hl k') as (a' & Ha' & Hw'); [by right|]. exists a'. split; [|done].
  rewrite lookup_delete_ne; [done|]. by intros ->.
Qed.
End MapWeight.

(** ** Automation *)

(** Turn boolean tests in hypotheses and goal into propositions. *)
Ltac bool_to_prop :=
  repeat match goal with
  | H : _ && _ = true |- _ => apply andb_true_iff in H as [? ?]
  | H : _ || _ = false |- _ => apply orb_false_iff in H as [? ?]
  | H : negb _ = true |- _ => apply negb_true_iff in H
  | H : negb _ = false |- _ => apply negb_false_iff in H
  | H : (_ =? _)%Z = true |- _ => apply Z.eqb_eq in H
  | H : (_ =? _)%Z = false |- _ => apply Z.eqb_neq in H
  | H : (_ <? _)%Z = true |- _ => apply Z.ltb_lt in H
  | H : (_ <? _)%Z = false |- _ => apply Z.ltb_ge in H
  | H : (_ <=? _)%Z = true |- _ => apply Z.leb_le in H
  | H : (_ <=? _)%Z = false |- _ => apply Z.leb_gt in H
  | H : bool_decide _ = true |- _ => apply bool_decide_eq_true_1 in H
  | H : bool_decide _ = false |- _ => apply bool_decide_eq_false_1 in H
  end.

(** Split a successful [result] computation into its steps. *)
Ltac result_inv :=
  repeat match goal with
  | H : (_ ≫= _) = Ok _ |- _ => apply bind_Ok_iff in H as (? & ? & H)
  | H : ensure _ _ = Ok _ |- _ => apply ensure_Ok_iff in H
  | H : ok_or _ _ = Ok _ |- _ => apply ok_or_Ok_iff in H
  | H : Ok _ = Ok _ |- _ => injection H as H
  | H : Err _ = Ok _ |- _ => discriminate H
  | H : Ok _ = Err _ |- _ => discriminate H
  end.

(** Run a [result] computation forward with known steps. *)
Ltac result_run := rewrite ?bind_Ok, ?bind_Err.

Create HintDb mumdota.
#[export] Hint Resolve wrap_range : mumdota.
#[export] Hint Extern 1 (0 ≤ _)%Z => lia : mumdota.
