(* ===== verification/Opus.v ===== *)
(** * Opus packet headers ([src/src/bridge.rs], lines 10 to 70)

    The bridge forwards Opus without transcoding; all it needs of a packet is its
    duration, read from the TOC byte and, for code 3 packets, the frame-count byte
    (RFC 6716, section 3). *)

From stdpp Require Import base tactics list strings sets.
From Stdlib Require Import ZArith Lia.
From S2P Require Import Prelude.
Local Open Scope Z_scope.

Definition OPUS_SAMPLE_RATE : Z := 48000.
Definition MAX_OPUS_PACKET_SAMPLES : Z := OPUS_SAMPLE_RATE / 1000 * 120.

(** A packet is a byte slice. *)
Definition is_byte (b : Z) : Prop := is_uint 8 b.

Definition opus_packet_frame_count (packet : list Z) : result Z :=
  match packet !! 0%nat with
  | None => Err "empty Opus packet"
  | Some toc =>
      let code := Z.land toc 0x03 in
      if code =? 0 then Ok 1
      else if (code =? 1) || (code =? 2) then Ok 2
      else if code =? 3 then
        match packet !! 1%nat with
        | None => Err "Opus packet with VBR/CBR frame count is missing the count byte"
        | Some count_byte =>
            let frame_count := Z.land count_byte 0x3F in
            if frame_count =? 0 then Err "Opus packet declares zero frames"
            else Ok frame_count
        end
      else Err "invalid Opus frame count code"
  end.

Definition opus_packet_samples_per_frame (packet : list Z) : result Z :=
  match packet !! 0%nat with
  | None => Err "empty Opus packet"
  | Some toc =>
      let config := Z.shiftr toc 3 in
      Ok (if 16 <=? config then
            wrap 32 (Z.shiftl OPUS_SAMPLE_RATE (Z.land config 0x03)) / 400
          else if 12 <=? config then
            wrap 32 (Z.shiftl OPUS_SAMPLE_RATE (Z.land config 0x01)) / 100
          else if Z.land config 0x03 =? 0x03 then
            wrapping_mul 32 OPUS_SAMPLE_RATE 60 / 1000
          else
            wrap 32 (Z.shiftl OPUS_SAMPLE_RATE (Z.land config 0x03)) / 100)
  end.

Definition opus_packet_total_samples (packet : list Z) : result Z :=
  frame_count ← opus_packet_frame_count packet;
  samples_per_frame ← opus_packet_samples_per_frame packet;
  let total_samples := wrapping_mul 32 frame_count samples_per_frame in
  if MAX_OPUS_PACKET_SAMPLES <? total_samples then Err "Opus packet duration exceeds 120ms"
  else Ok total_samples.

(** [opus_packet_duration], in nanoseconds *)
Definition opus_packet_duration (packet : list Z) : result Z :=
  total_samples ← opus_packet_total_samples packet;
  Ok (wrapping_mul 64 1000000000 total_samples / OPUS_SAMPLE_RATE).

(** ** Reference: RFC 6716, table 2

    Frame sizes of the 32 configurations, in samples at 48 kHz: SILK-only modes
    (configurations 0 to 11) have 10, 20, 40 and 60 ms frames, hybrid modes (12 to 15) 10
    and 20 ms, CELT-only modes (16 to 31) 2.5, 5, 10 and 20 ms. *)

Definition rfc6716_frame_samples (config : Z) : Z :=
  if config <? 12 then nth (Z.to_nat (config mod 4)) [480; 960; 1920; 2880] 0
  else if config <? 16 then nth (Z.to_nat (config mod 2)) [480; 960] 0
  else nth (Z.to_nat (config mod 4)) [120; 240; 480; 960] 0.

(** Frames in a packet with the given TOC byte and rest (RFC 6716, section 3.2). *)
Definition rfc6716_frames (toc : Z) (rest : list Z) : option Z :=
  match toc mod 4 with
  | 0 => Some 1
  | 3 => match rest with
         | [] => None
         | c :: _ => if c mod 64 =? 0 then None else Some (c mod 64)
         end
  | _ => Some 2
  end.

(** ** Lemmas *)

Lemma byte_forallb (P : Z → bool) :
  forallb P (Z.of_nat <$> seq 0 256) = true → ∀ b, is_byte b → P b = true.
Proof.
  intros HP b Hb. rewrite forallb_forall in HP. apply HP.
  apply list_elem_of_In, list_elem_of_fmap. exists (Z.to_nat b).
  unfold is_byte, is_uint in Hb. split; [lia|]. apply elem_of_seq. lia.
Qed.

Lemma land_3 b : Z.land b 0x03 = b mod 4.
Proof. change 0x03 with (Z.ones 2). by rewrite Z.land_ones. Qed.

Lemma land_3F b : Z.land b 0x3F = b mod 64.
Proof. change 0x3F with (Z.ones 6). by rewrite Z.land_ones. Qed.

(** The function on a non-empty packet depends only on the TOC byte. *)
Lemma samples_per_frame_table toc rest :
  is_byte toc →
  opus_packet_samples_per_frame (toc :: rest) = Ok (rfc6716_frame_samples (toc / 8)).
Proof.
  intros Hb.
  pose proof (byte_forallb
    (λ b, match opus_packet_samples_per_frame [b] with
          | Ok n => n =? rfc6716_frame_samples (b / 8) | Err _ => false end)
    ltac:(vm_compute; reflexivity) toc Hb) as H.
  unfold opus_packet_samples_per_frame in *. simpl in *. f_equal. lia.
Qed.

Lemma frame_samples_range config :
  rfc6716_frame_samples config ∈ [120; 240; 480; 960; 1920; 2880].
Proof.
  unfold rfc6716_frame_samples.
  assert (config mod 4 = 0 ∨ config mod 4 = 1 ∨ config mod 4 = 2 ∨ config mod 4 = 3) as H4.
  { pose proof (Z.mod_pos_bound config 4). lia. }
  assert (config mod 2 = 0 ∨ config mod 2 = 1) as H2.
  { pose proof (Z.mod_pos_bound config 2). lia. }
  repeat case_match; destruct_or?;
    repeat match goal with H : _ mod _ = _ |- _ => rewrite H; clear H end;
    simpl; set_solver.
Qed.

Lemma frame_samples_cases config :
  let s := rfc6716_frame_samples config in
  s = 120 ∨ s = 240 ∨ s = 480 ∨ s = 960 ∨ s = 1920 ∨ s = 2880.
Proof. pose proof (frame_samples_range config). set_solver. Qed.

Lemma frame_count_table toc rest :
  match rfc6716_frames toc rest with
  | Some n => opus_packet_frame_count (toc :: rest) = Ok n
  | None => ∃ e, opus_packet_frame_count (toc :: rest) = Err e
  end.
Proof.
  unfold opus_packet_frame_count, rfc6716_frames. simpl. rewrite land_3.
  pose proof (Z.mod_pos_bound toc 4 ltac:(lia)) as Hm.
  assert (toc mod 4 = 0 ∨ toc mod 4 = 1 ∨ toc mod 4 = 2 ∨ toc mod 4 = 3) as Hc by lia.
  destruct Hc as [-> | [-> | [-> | ->]]]; simpl; try done.
  destruct rest as [|c rest]; simpl; [by eexists|].
  rewrite land_3F. destruct (c mod 64 =? 0); [by eexists|done].
Qed.

Lemma rfc6716_frames_range toc rest n :
  rfc6716_frames toc rest = Some n → 1 ≤ n ≤ 63.
Proof.
  unfold rfc6716_frames. intros H. repeat case_match; simplify_eq; try lia.
  bool_to_prop. pose proof (Z.mod_pos_bound z 64). lia.
Qed.

(** On a non-empty packet the total is the product of the two RFC quantities; the [u32]
    multiplication never wraps (63 frames of 60 ms at most). *)
Lemma total_samples_product toc rest n :
  is_byte toc → rfc6716_frames toc rest = Some n →
  opus_packet_total_samples (toc :: rest) =
    (if MAX_OPUS_PACKET_SAMPLES <? n * rfc6716_frame_samples (toc / 8)
     then Err "Opus packet duration exceeds 120ms"
     else Ok (n * rfc6716_frame_samples (toc / 8))).
Proof.
  intros Hb Hn. unfold opus_packet_total_samples.
  pose proof (frame_count_table toc rest) as Hc. rewrite Hn in Hc. rewrite Hc, bind_Ok.
  rewrite samples_per_frame_table, bind_Ok by done.
  pose proof (rfc6716_frames_range _ _ _ Hn) as Hr.
  pose proof (frame_samples_cases (toc / 8)) as Hs. simpl in Hs.
  unfold wrapping_mul. rewrite wrap_small; [done|].
  unfold is_uint. nia.
Qed.

(** ** Properties *)

(** C35: On every byte string, [opus_packet_total_samples] computes exactly what RFC 6716
    prescribes: it succeeds with [n] if and only if the packet has a TOC byte, a
    well-formed frame count [k], and [k] frames of the configuration's frame size last at
    most 120 ms, and then [n] is [k] times that frame size. *)
Theorem opus_total_samples_rfc6716 packet n :
  Forall is_byte packet →
  opus_packet_total_samples packet = Ok n ↔
  ∃ toc rest k, packet = toc :: rest ∧ rfc6716_frames toc rest = Some k ∧
    n = k * rfc6716_frame_samples (toc / 8) ∧ n ≤ 5760.
Proof.
  intros Hbs. destruct packet as [|toc rest].
  { split; [discriminate | naive_solver]. }
  apply Forall_cons in Hbs as [Hb _].
  destruct (rfc6716_frames toc rest) as [k|] eqn:Hk.
  - rewrite (total_samples_product _ _ _ Hb Hk). change MAX_OPUS_PACKET_SAMPLES with 5760.
    destruct (Z.ltb_spec 5760 (k * rfc6716_frame_samples (toc / 8))); naive_solver lia.
  - pose proof (frame_count_table toc rest) as Hc. rewrite Hk in Hc.
    destruct Hc as [e He]. unfold opus_packet_total_samples. rewrite He.
    split; [discriminate | naive_solver].
Qed.

Lemma opus_total_samples_rfc6716_witness :
  opus_packet_total_samples [0xF3; 0x03] = Ok 1440.
Proof.
  apply (opus_total_samples_rfc6716 [0xF3; 0x03] 1440).
  - repeat constructor; unfold is_byte, is_uint; lia.
  - exists 0xF3, [0x03], 3. vm_compute. naive_solver.
Defined.

Lemma total_samples_Ok_bounds packet n :
  Forall is_byte packet → opus_packet_total_samples packet = Ok n →
  120 ≤ n ≤ 5760 ∧ n mod 120 = 0.
Proof.
  intros Hbs H. destruct packet as [|toc rest]; [discriminate|].
  apply Forall_cons in Hbs as [Hb _].
  destruct (rfc6716_frames toc rest) as [k|] eqn:Hk.
  - rewrite (total_samples_product _ _ _ Hb Hk) in H. case_match; simplify_eq.
    bool_to_prop. change MAX_OPUS_PACKET_SAMPLES with 5760 in *.
    pose proof (rfc6716_frames_range _ _ _ Hk).
    pose proof (frame_samples_cases (toc / 8)) as Hs. simpl in Hs.
    split; [nia|].
    assert (∃ q, rfc6716_frame_samples (toc / 8) = q * 120) as [q ->].
    { exists (rfc6716_frame_samples (toc / 8) / 120).
      by destruct Hs as [-> | [-> | [-> | [-> | [-> | ->]]]]]. }
    rewrite Z.mul_assoc. apply Z_mod_mult.
  - pose proof (frame_count_table toc rest) as Hc. rewrite Hk in Hc.
    destruct Hc as [e He]. unfold opus_packet_total_samples in H. by rewrite He in H.
Qed.

(** A packet the parser accepts lasts between 2.5 and 120 ms in whole multiples of
    2.5 ms, and its duration in nanoseconds is [10^9 * samples / 48000] computed without
    [u64] overflow, so at most 120 ms. *)
Theorem opus_duration_bounds packet n :
  Forall is_byte packet → opus_packet_total_samples packet = Ok n →
  120 ≤ n ≤ MAX_OPUS_PACKET_SAMPLES ∧ n mod 120 = 0 ∧
  opus_packet_duration packet = Ok (1000000000 * n / 48000) ∧
  2500000 ≤ 1000000000 * n / 48000 ≤ 120000000.
Proof.
  intros Hbs H. destruct (total_samples_Ok_bounds _ _ Hbs H) as [Hn Hm].
  change MAX_OPUS_PACKET_SAMPLES with 5760.
  split; [done|]. split; [done|]. split.
  - unfold opus_packet_duration. rewrite H. simpl. unfold wrapping_mul.
    rewrite wrap_small; [done|]. unfold is_uint. lia.
  - split; [apply Z.div_le_lower_bound | apply Z.div_le_upper_bound]; lia.
Qed.

Lemma opus_duration_bounds_witness :
  opus_packet_duration [0xF8] = Ok 20000000.
Proof.
  apply (opus_duration_bounds [0xF8] 960).
  - repeat constructor; unfold is_byte, is_uint; lia.
  - reflexivity.
Defined.
