(* ===== verification/Uplink.v ===== *)
(** * Browser to Mumble audio ([src/src/bridge.rs], lines 72 to 148)

    [UplinkClock] turns the RTP timestamps and sequence numbers of the browser's Opus
    packets into Mumble frame numbers (units of 10 ms); the uplink task of
    [AudioBridge::start] reads packets, stamps them and hands them to the Mumble voice
    task, and ends a talk spurt after 200 ms of silence. *)

From Stdlib Require Import ZArith Lia Sorted.
From stdpp Require Import base tactics list strings option.
From S2P Require Import Prelude Opus.
Local Open Scope Z_scope.

(** ** The uplink clock *)

Record UplinkClock := mkUplinkClock {
  uc_last_timestamp : option Z;   (* u32 *)
  uc_last_sequence : option Z;    (* u16 *)
  uc_frame : Z;                   (* u64 *)
  uc_samples : Z                  (* u32 *)
}.

(** [#[derive(Default)]] *)
Definition UplinkClock_default : UplinkClock := mkUplinkClock None None 0 0.

(** The first guard of [packet]: a duplicate or a packet from the past. *)
Definition sequence_stale (c : UplinkClock) (sequence : Z) : bool :=
  match uc_last_sequence c with
  | Some last =>
      let delta := wrapping_sub 16 sequence last in
      (delta =? 0) || (0x8000 <=? delta)
  | None => false
  end.

(** [UplinkClock::packet]: the new state and the frame number, [None] when the packet is
    refused (the state is then unchanged). *)
Definition UplinkClock_packet (c : UplinkClock) (timestamp sequence samples : Z)
    : UplinkClock * option Z :=
  if sequence_stale c sequence then (c, None)
  else
    match uc_last_timestamp c with
    | Some last =>
        let delta := wrapping_sub 32 timestamp last in
        if (delta =? 0) || (0x80000000 <=? delta) || negb (delta mod 480 =? 0)
        then (c, None)
        else
          let frame := wrapping_add 64 (uc_frame c) (delta / 480) in
          (mkUplinkClock (Some timestamp) (Some sequence) frame samples, Some frame)
    | None =>
        (mkUplinkClock (Some timestamp) (Some sequence) (uc_frame c) samples,
         Some (uc_frame c))
    end.

(** [UplinkClock::end_frame] *)
Definition UplinkClock_end_frame (c : UplinkClock) : Z :=
  wrapping_add 64 (uc_frame c) (uc_samples c / 480).

(** ** The uplink task *)

(** [webrtc::audio::IncomingAudioPacket] *)
Record IncomingAudioPacket := mkIncoming {
  ia_opus_data : list Z;
  ia_seq_num : Z;        (* u16 *)
  ia_timestamp : Z;      (* u32 *)
  ia_received_at : Z     (* Instant *)
}.

(** [mumble::voice::WebrtcVoiceData] *)
Record WebrtcVoiceData := mkVoiceData {
  wv_seq_num : Z;        (* u64 *)
  wv_opus_data : list Z;
  wv_last_frame : bool
}.

(** What [mpsc::Sender::try_send] reports; the channel decides, so the outcome is an
    input of the step. *)
Inductive try_send_outcome := Sent | Full | Closed.

(** The local variables of the task. *)
Record UplinkTask := mkUplinkTask {
  ut_clock : UplinkClock;
  ut_last_packet : option Z;      (* Option<Instant> *)
  ut_running : bool
}.

Definition UplinkTask_start : UplinkTask := mkUplinkTask UplinkClock_default None true.

(** One turn of the [select!] loop: a receive ([None] when the channel is closed), with
    the readings of the monotonic clock at the staleness test and after acceptance, or a
    tick of the 50 ms interval. *)
Inductive UplinkEvent :=
| RecvPacket (packet : option IncomingAudioPacket) (now accepted_at : Z)
             (outcome : try_send_outcome)
| Tick (now : Z) (outcome : try_send_outcome).

Definition deliver (outcome : try_send_outcome) (f : WebrtcVoiceData)
    : list WebrtcVoiceData :=
  match outcome with Sent => [f] | _ => [] end.

(** The duration gate of the loop: well-formed Opus in whole 10 ms units. *)
Definition whole_frames (opus_data : list Z) : option Z :=
  match opus_packet_total_samples opus_data with
  | Ok samples => if samples mod 480 =? 0 then Some samples else None
  | Err _ => None
  end.

(** One iteration; the second component is what enters the Mumble voice channel. *)
Definition uplink_step (t : UplinkTask) (ev : UplinkEvent)
    : UplinkTask * list WebrtcVoiceData :=
  match ev with
  | RecvPacket None _ _ _ => (mkUplinkTask (ut_clock t) (ut_last_packet t) false, [])
  | RecvPacket (Some p) now accepted_at outcome =>
      if 120 <? as_millis (duration_since now (ia_received_at p)) then (t, [])
      else
        match whole_frames (ia_opus_data p) with
        | None => (t, [])
        | Some samples =>
            match UplinkClock_packet (ut_clock t) (ia_timestamp p) (ia_seq_num p) samples with
            | (clock, None) => (mkUplinkTask clock (ut_last_packet t) (ut_running t), [])
            | (clock, Some seq_num) =>
                let frame := mkVoiceData seq_num (ia_opus_data p) false in
                (mkUplinkTask clock (Some accepted_at)
                   (match outcome with Closed => false | _ => ut_running t end),
                 deliver outcome frame)
            end
        end
  | Tick now outcome =>
      match ut_last_packet t with
      | Some last =>
          if ms 200 <=? duration_since now last then
            (mkUplinkTask (ut_clock t) None (ut_running t),
             deliver outcome (mkVoiceData (UplinkClock_end_frame (ut_clock t)) [] true))
          else (t, [])
      | None => (t, [])
      end
  end.

(** The loop, until it breaks. *)
Fixpoint uplink_run (t : UplinkTask) (evs : list UplinkEvent)
    : UplinkTask * list WebrtcVoiceData :=
  match evs with
  | [] => (t, [])
  | ev :: evs =>
      if ut_running t then
        let '(t1, out1) := uplink_step t ev in
        let '(t2, out2) := uplink_run t1 evs in
        (t2, out1 ++ out2)
      else (t, [])
  end.

(** ** Specification of the clock on unbounded time

    [mt_time] and [mt_seq] are the media time and packet index of the newest accepted
    packet as unbounded integers; [mt_origin] is the media time of the first. *)

Record MediaTime := mkMediaTime { mt_origin : Z; mt_time : Z; mt_seq : Z }.

(** A packet is accepted when it is newer in both respects and a whole number of 10 ms
    frames away; its frame number is the media time since the first packet. *)
Definition spec_packet (s : option MediaTime) (time seq : Z) : option MediaTime * option Z :=
  match s with
  | None => (Some (mkMediaTime time time seq), Some 0)
  | Some m =>
      if (mt_seq m <? seq) && (mt_time m <? time) && ((time - mt_time m) mod 480 =? 0)
      then (Some (mkMediaTime (mt_origin m) time seq), Some ((time - mt_origin m) / 480))
      else (s, None)
  end.

(** RTP counters are 16 and 32 bits wide, so a packet must lie within half a period of
    the newest accepted one for its place in time to be determined. *)
Definition in_window (s : option MediaTime) (time seq : Z) : Prop :=
  match s with
  | None => True
  | Some m => - 2 ^ 15 ≤ seq - mt_seq m < 2 ^ 15 ∧ - 2 ^ 31 ≤ time - mt_time m < 2 ^ 31
  end.

Fixpoint spec_run (s : option MediaTime) (pkts : list (Z * Z)) : list (option Z) :=
  match pkts with
  | [] => []
  | (time, seq) :: pkts =>
      let '(s', o) := spec_packet s time seq in o :: spec_run s' pkts
  end.

Fixpoint in_windows (s : option MediaTime) (pkts : list (Z * Z)) : Prop :=
  match pkts with
  | [] => True
  | (time, seq) :: pkts =>
      in_window s time seq ∧ in_windows (spec_packet s time seq).1 pkts
  end.

(** The same packets as the code sees them: truncated counters. *)
Fixpoint clock_run (c : UplinkClock) (pkts : list (Z * Z)) (samples : Z) : list (option Z) :=
  match pkts with
  | [] => []
  | (time, seq) :: pkts =>
      let '(c', o) := UplinkClock_packet c (wrap 32 time) (wrap 16 seq) samples in
      o :: clock_run c' pkts samples
  end.

(** Simulation relation between the code's clock and the unbounded one. *)
Definition clock_rel (c : UplinkClock) (s : option MediaTime) : Prop :=
  match s with
  | None => uc_last_timestamp c = None ∧ uc_last_sequence c = None ∧ uc_frame c = 0
  | Some m =>
      uc_last_timestamp c = Some (wrap 32 (mt_time m)) ∧
      uc_last_sequence c = Some (wrap 16 (mt_seq m)) ∧
      uc_frame c = wrap 64 ((mt_time m - mt_origin m) / 480) ∧
      (mt_time m - mt_origin m) mod 480 = 0
  end.

(** Inside the window, the sign of the true difference is the code's half-range test. *)
Lemma half_range_test w x y :
  0 < w → - 2 ^ (w - 1) ≤ x - y < 2 ^ (w - 1) →
  (wrapping_sub w (wrap w x) (wrap w y) =? 0)
  || (2 ^ (w - 1) <=? wrapping_sub w (wrap w x) (wrap w y)) = negb (y <? x).
Proof.
  intros Hw Hx.
  assert (2 ^ w = 2 * 2 ^ (w - 1)) as Hp.
  { rewrite <- Z.pow_succ_r by lia. f_equal. lia. }
  destruct (Z.ltb_spec y x) as [Hlt|Hge].
  - rewrite wrapping_sub_true by lia. simpl.
    apply orb_false_iff. rewrite Z.eqb_neq, Z.leb_gt. lia.
  - destruct (decide (x = y)) as [->|Hne].
    { rewrite wrapping_sub_true, Z.sub_diag by lia. done. }
    assert (wrapping_sub w (wrap w x) (wrap w y) = x - y + 2 ^ w) as ->.
    { unfold wrapping_sub, wrap. rewrite <- Zminus_mod.
      replace (x - y) with (x - y + 2 ^ w + (-1) * 2 ^ w) at 1 by lia.
      rewrite Z_mod_plus_full. apply Z.mod_small. lia. }
    apply orb_true_iff. right. apply Z.leb_le. lia.
Qed.

Lemma div_480_add a b : a mod 480 = 0 → b mod 480 = 0 → (a + b) / 480 = a / 480 + b / 480.
Proof. intros. Z.div_mod_to_equations. lia. Qed.

Lemma clock_step_simulates c s time seq samples :
  clock_rel c s → in_window s time seq →
  let r := UplinkClock_packet c (wrap 32 time) (wrap 16 seq) samples in
  let r' := spec_packet s time seq in
  clock_rel r.1 r'.1 ∧ r.2 = (wrap 64 <$> r'.2).
Proof.
  destruct s as [m|]; simpl; unfold UplinkClock_packet, sequence_stale.
  - intros (Ht & Hs & Hf & Hm) [Hws Hwt]. rewrite Ht, Hs. cbn zeta.
    pose proof (half_range_test 16 seq (mt_seq m) ltac:(lia) Hws) as Hh.
    pose proof (half_range_test 32 time (mt_time m) ltac:(lia) Hwt) as Hh'.
    change (2 ^ (16 - 1)) with 0x8000 in Hh. change (2 ^ (32 - 1)) with 0x80000000 in Hh'.
    rewrite Hh, Hh'.
    destruct (Z.ltb_spec (mt_seq m) seq), (Z.ltb_spec (mt_time m) time);
      simpl; try by repeat split.
    rewrite wrapping_sub_true by lia.
    destruct (Z.eqb_spec ((time - mt_time m) mod 480) 0) as [Hz|]; simpl; [|by repeat split].
    assert (time - mt_origin m = (mt_time m - mt_origin m) + (time - mt_time m)) as Heq by lia.
    rewrite Hf, wrapping_add_wrap, Heq, div_480_add by done.
    repeat split; try done. rewrite Zplus_mod, Hm, Hz. done.
  - intros (Ht & Hs & Hf) _. rewrite Ht, Hs, Hf. simpl. rewrite Z.sub_diag. by repeat split.
Qed.

Lemma clock_run_simulates c s pkts samples :
  clock_rel c s → in_windows s pkts →
  clock_run c pkts samples = fmap (M:=option) (wrap 64) <$> spec_run s pkts.
Proof.
  revert c s. induction pkts as [|[time seq] pkts IH]; intros c s Hrel Hwin; [done|].
  simpl in *. destruct Hwin as [Hw Hws].
  pose proof (clock_step_simulates c s time seq samples Hrel Hw) as Hstep.
  destruct (UplinkClock_packet _ _ _ _) as [c' o], (spec_packet s time seq) as [s' o'].
  simpl in *. destruct Hstep as [Hrel' ->]. f_equal. by apply IH.
Qed.

(** C10: The uplink clock implements media time. Whatever loss, duplication, reordering,
    DTX gap or counter wrap-around the packets show, as long as each lies within half an
    RTP period of the newest accepted packet, the code accepts exactly the packets that
    are newer in sequence and time and aligned to 10 ms, and numbers each with the 10 ms
    frames elapsed since the first packet. *)
Theorem uplink_clock_refines_media_time pkts samples :
  in_windows None pkts →
  clock_run UplinkClock_default pkts samples = fmap (M:=option) (wrap 64) <$> spec_run None pkts.
Proof. by apply clock_run_simulates. Qed.

(** The wrap-around, loss and reordering scenario of the unit test of [bridge.rs]. *)
Lemma uplink_clock_refines_media_time_witness :
  let start := 4294966816 in
  clock_run UplinkClock_default
    [(start, 65534); (start + 960, 65535); (start + 2880, 65536); (start + 5760, 65539);
     (start + 4800, 65538); (start + 53760, 65540)] 960
  = [Some 0; Some 2; Some 6; Some 12; None; Some 112].
Proof.
  intros start. rewrite uplink_clock_refines_media_time.
  - vm_compute. reflexivity.
  - vm_compute. intuition discriminate.
Defined.

(** ** Ordering of what reaches the Mumble channel *)

(** The least frame number the clock can still produce. *)
Definition clock_floor (c : UplinkClock) : Z :=
  match uc_last_timestamp c with None => uc_frame c | Some _ => uc_frame c + 1 end.

(** The largest step of one packet: just under half the RTP period. *)
Definition max_frame_step : Z := 2 ^ 31 / 480.

Lemma packet_accepts_above_floor c ts seq smp c' f :
  UplinkClock_packet c ts seq smp = (c', Some f) →
  0 ≤ uc_frame c → uc_frame c + max_frame_step < 2 ^ 64 →
  clock_floor c ≤ f ≤ uc_frame c + max_frame_step ∧ uc_frame c' = f ∧
  clock_floor c' = f + 1 ∧ uc_samples c' = smp.
Proof.
  unfold UplinkClock_packet, clock_floor. change max_frame_step with 4473924.
  intros H Hf Hm. destruct (sequence_stale c seq); [done|].
  destruct (uc_last_timestamp c) as [last|]; [|simplify_eq/=; lia].
  pose proof (wrap_range 32 (ts - last) ltac:(lia)) as Hr.
  change (wrap 32 (ts - last)) with (wrapping_sub 32 ts last) in Hr.
  destruct (orb _ _) eqn:Hg; [done|]. simplify_eq/=. bool_to_prop.
  unfold wrapping_add. unfold is_uint in Hr.
  assert (0 < wrapping_sub 32 ts last / 480 ≤ 4473924).
  { Z.div_mod_to_equations. lia. }
  rewrite wrap_small by (unfold is_uint; lia). lia.
Qed.

Lemma packet_refused_unchanged c ts seq smp c' :
  UplinkClock_packet c ts seq smp = (c', None) → c' = c.
Proof. unfold UplinkClock_packet. intros. repeat case_match; by simplify_eq. Qed.

(** What a frame in the channel must look like. *)
Definition voice_frame_ok (f : WebrtcVoiceData) : Prop :=
  if wv_last_frame f then wv_opus_data f = []
  else ∃ n, opus_packet_total_samples (wv_opus_data f) = Ok n ∧ n mod 480 = 0.

Definition audio_numbers (out : list WebrtcVoiceData) : list Z :=
  wv_seq_num <$> filter (λ f, wv_last_frame f = false) out.

Lemma whole_frames_Some data n :
  whole_frames data = Some n ↔ opus_packet_total_samples data = Ok n ∧ n mod 480 = 0.
Proof.
  unfold whole_frames. destruct (opus_packet_total_samples data); [|naive_solver].
  destruct (Z.eqb_spec (a mod 480) 0); naive_solver.
Qed.

(** One step delivers nothing, a terminator, or one audio frame at or above the floor. *)
Lemma uplink_step_cases t ev t' out :
  uplink_step t ev = (t', out) →
  0 ≤ uc_frame (ut_clock t) → uc_frame (ut_clock t) + max_frame_step < 2 ^ 64 →
  Forall voice_frame_ok out ∧
  uc_frame (ut_clock t) ≤ uc_frame (ut_clock t') ≤ uc_frame (ut_clock t) + max_frame_step ∧
  clock_floor (ut_clock t) ≤ clock_floor (ut_clock t') ∧
  (audio_numbers out = [] ∨
   ∃ f, audio_numbers out = [f] ∧ clock_floor (ut_clock t) ≤ f < clock_floor (ut_clock t')).
Proof.
  intros H Hf Hm.
  assert (0 ≤ max_frame_step) by done.
  destruct ev as [[p|] now at_ o|now o]; simpl in H.
  - case_match; simplify_eq; [split_and!; try lia; by constructor || left|].
    destruct (whole_frames (ia_opus_data p)) as [n|] eqn:Hw; simplify_eq;
      [|split_and!; try lia; by constructor || left].
    destruct (UplinkClock_packet _ _ _ _) as [c' [f|]] eqn:Hp; simplify_eq/=.
    + apply packet_accepts_above_floor in Hp as (Hfl & Hc' & Hfl' & _); [|done..].
      apply whole_frames_Some in Hw.
      assert (clock_floor (ut_clock t) = uc_frame (ut_clock t) ∨
              clock_floor (ut_clock t) = uc_frame (ut_clock t) + 1).
      { unfold clock_floor. case_match; auto. }
      destruct o; simpl; split_and!; try lia; try by constructor; try by left.
      * constructor; [|constructor]. unfold voice_frame_ok. simpl. eauto.
      * right. exists f. split; [done|lia].
    + apply packet_refused_unchanged in Hp as ->.
      split_and!; try lia; by constructor || left.
  - simplify_eq/=. split_and!; try lia; by constructor || left.
  - destruct (ut_last_packet t); [|simplify_eq; split_and!; try lia; by constructor || left].
    case_match; simplify_eq/=; [|split_and!; try lia; by constructor || left].
    destruct o; simpl; split_and!; try lia; try by constructor; try by left.
Qed.

Lemma audio_numbers_app out1 out2 :
  audio_numbers (out1 ++ out2) = audio_numbers out1 ++ audio_numbers out2.
Proof. unfold audio_numbers. by rewrite list_filter_app, fmap_app. Qed.

Lemma uplink_run_ordered t evs :
  0 ≤ uc_frame (ut_clock t) →
  uc_frame (ut_clock t) + max_frame_step * Z.of_nat (length evs) < 2 ^ 64 →
  let out := (uplink_run t evs).2 in
  StronglySorted Z.lt (audio_numbers out) ∧
  Forall (λ f, clock_floor (ut_clock t) ≤ f) (audio_numbers out) ∧
  Forall voice_frame_ok out.
Proof.
  revert t. induction evs as [|ev evs IH]; intros t Hf Hb; simpl.
  { split_and!; constructor. }
  destruct (ut_running t); [|split_and!; constructor].
  destruct (uplink_step t ev) as [t1 out1] eqn:Hs.
  change max_frame_step with 4473924 in *. simpl in Hb.
  apply uplink_step_cases in Hs as (Hok & Hfr & Hfl & Haud); [|done|change max_frame_step with 4473924; lia].
  change max_frame_step with 4473924 in *.
  specialize (IH t1 ltac:(lia) ltac:(lia)).
  destruct (uplink_run t1 evs) as [t2 out2]. simpl in *. destruct IH as (Hs2 & Hf2 & Hok2).
  rewrite audio_numbers_app.
  assert (Forall (λ f, clock_floor (ut_clock t) ≤ f) (audio_numbers out2)).
  { eapply Forall_weaken; [|exact Hf2]. simpl. lia. }
  split_and!; [| |by apply Forall_app].
  - destruct Haud as [-> | (f & -> & Hlt)]; [done|]. simpl. constructor; [done|].
    eapply Forall_weaken; [|exact Hf2]. simpl. lia.
  - destruct Haud as [-> | (f & -> & Hlt)]; [done|]. simpl. constructor; [lia|done].
Qed.

(** In any run of the uplink task (any packets, timings and channel outcomes, up to
    2^41 loop turns, which at the fastest packet rate of 2.5 ms is over a century), the
    audio frames that enter the Mumble channel carry strictly increasing frame numbers
    and well-formed Opus data in whole 10 ms units, and end-of-talk frames carry none. *)
Theorem uplink_delivers_in_order evs :
  Z.of_nat (length evs) ≤ 2 ^ 41 →
  let out := (uplink_run UplinkTask_start evs).2 in
  StronglySorted Z.lt (audio_numbers out) ∧ Forall voice_frame_ok out.
Proof.
  intros Hlen. destruct (uplink_run_ordered UplinkTask_start evs) as (H1 & _ & H2).
  - done.
  - change max_frame_step with 4473924. simpl. lia.
  - done.
Qed.

Lemma uplink_delivers_in_order_witness :
  StronglySorted Z.lt (audio_numbers (uplink_run UplinkTask_start
    [RecvPacket (Some (mkIncoming [0xF8] 1 480 0)) 0 0 Sent;
     RecvPacket (Some (mkIncoming [0xF8] 2 1440 0)) 0 0 Sent;
     Tick (ms 250) Sent]).2)
  ∧ audio_numbers (uplink_run UplinkTask_start
    [RecvPacket (Some (mkIncoming [0xF8] 1 480 0)) 0 0 Sent;
     RecvPacket (Some (mkIncoming [0xF8] 2 1440 0)) 0 0 Sent;
     Tick (ms 250) Sent]).2 = [0; 2].
Proof.
  split; [|reflexivity].
  apply (uplink_delivers_in_order
    [RecvPacket (Some (mkIncoming [0xF8] 1 480 0)) 0 0 Sent;
     RecvPacket (Some (mkIncoming [0xF8] 2 1440 0)) 0 0 Sent;
     Tick (ms 250) Sent]).
  vm_compute. discriminate.
Defined.

(** ** End of a talk spurt *)

Definition tick_event (tick : Z * try_send_outcome) : UplinkEvent := Tick tick.1 tick.2.

Lemma ticks_without_packet c ticks :
  uplink_run (mkUplinkTask c None true) (tick_event <$> ticks) = (mkUplinkTask c None true, []).
Proof.
  induction ticks as [|[now o] ticks IH]; [done|].
  rewrite fmap_cons. cbn [uplink_run ut_running uplink_step tick_event fst snd ut_last_packet].
  by rewrite IH.
Qed.

Lemma due_iff now last : (ms 200 <=? duration_since now last) = (last + ms 200 <=? now).
Proof.
  unfold duration_since, ms. apply eq_true_iff_eq. rewrite !Z.leb_le. lia.
Qed.

(** After the last accepted packet, however many ticks follow, the task emits exactly
    one end-of-talk frame: at the first tick at least 200 ms later, numbered with the
    frame after the last packet. It reaches Mumble if the channel takes it at that tick;
    a full channel loses it, and no later tick repeats it. *)
Theorem uplink_silence_ends_spurt_once c last ticks :
  (uplink_run (mkUplinkTask c (Some last) true) (tick_event <$> ticks)).2 =
  match find (λ tick, last + ms 200 <=? tick.1) ticks with
  | Some tick => deliver tick.2 (mkVoiceData (UplinkClock_end_frame c) [] true)
  | None => []
  end.
Proof.
  induction ticks as [|[now o] ticks IH]; [done|].
  rewrite fmap_cons.
  cbn [find uplink_run tick_event fst snd ut_running uplink_step ut_last_packet ut_clock].
  rewrite due_iff. destruct (last + ms 200 <=? now).
  - rewrite ticks_without_packet. by rewrite app_nil_r.
  - rewrite <- IH. by destruct (uplink_run _ _).
Qed.

(** The end-of-talk frame is tried once: when the channel is full it is dropped, and the
    task forgets that it still owes it. *)
Example end_of_talk_lost_when_full :
  let t := mkUplinkTask (mkUplinkClock (Some 0) (Some 0) 5 960) (Some 0) true in
  uplink_run t [Tick (ms 250) Full; Tick (ms 300) Sent; Tick (ms 900) Sent]
  = (mkUplinkTask (ut_clock t) None true, []).
Proof. vm_compute. reflexivity. Qed.
