(* ===== verification/Speakers.v ===== *)
(** * Mumble to browser audio ([src/src/webrtc/speakers.rs])

    Every Mumble speaker has an RTP track of their own with a [MediaClock] that turns
    Mumble frame numbers (10 ms units) into RTP sequence numbers and 48 kHz timestamps.
    The WebRTC engine behind a track is outside the repository: what it returns is an
    argument of the operations that call it. *)

From Corelib Require Import SpecFloat.
From Stdlib Require Import ZArith Lia Sorted.
From stdpp Require Import base tactics list gmap strings option sets.
From S2P Require Import Prelude Opus.
Local Open Scope Z_scope.

(** ** Elapsed samples

    [(now.duration_since(t).as_secs_f64() * 48000.0) as u32] in IEEE 754 double
    precision: [as_secs_f64] is [secs as f64 + nanos as f64 / 1e9], the cast truncates
    and saturates. *)

Definition f64_of_Z (n : Z) : spec_float := binary_normalize 53 1024 n 0 false.
Definition f64_add : spec_float → spec_float → spec_float := SFadd 53 1024.
Definition f64_mul : spec_float → spec_float → spec_float := SFmul 53 1024.
Definition f64_div : spec_float → spec_float → spec_float := SFdiv 53 1024.

Definition f64_as_u32 (x : spec_float) : Z :=
  match x with
  | S754_zero _ | S754_nan | S754_infinity true | S754_finite true _ _ => 0
  | S754_infinity false => 2 ^ 32 - 1
  | S754_finite false m e => Z.min (2 ^ 32 - 1) (Z.shiftl (Z.pos m) e)
  end.

Definition as_secs_f64 (nanos : Z) : spec_float :=
  f64_add (f64_of_Z (nanos / 1000000000))
          (f64_div (f64_of_Z (nanos mod 1000000000)) (f64_of_Z 1000000000)).

Definition elapsed_samples (nanos : Z) : Z :=
  f64_as_u32 (f64_mul (as_secs_f64 nanos) (f64_of_Z 48000)).

(** ** The media clock *)

Record MediaClock := mkMediaClock {
  mc_last_frame : option Z;     (* u64 *)
  mc_timestamp : Z;             (* u32 *)
  mc_sequence : Z;              (* u16 *)
  mc_samples : Z;               (* u32 *)
  mc_ended : bool;
  mc_received_at : option Z     (* Instant *)
}.

Definition MediaClock_default : MediaClock := mkMediaClock None 0 0 0 false None.

(** The [new_talk] flag of [packet]. *)
Definition new_talk (c : MediaClock) (now : Z) : bool :=
  negb (bool_decide (is_Some (mc_last_frame c)))
  || mc_ended c
  || match mc_received_at c with
     | Some last => 500 <? as_millis (duration_since now last)
     | None => false
     end.

(** How far a new talk spurt moves the timestamp. *)
Definition talk_gap (c : MediaClock) (now : Z) : Z :=
  Z.max (match mc_received_at c with
         | Some t => elapsed_samples (duration_since now t)
         | None => 0
         end) (mc_samples c).

(** [MediaClock::packet]: RTP sequence number, timestamp and marker, or [None] for a late
    packet (the state is then unchanged). *)
Definition MediaClock_packet (c : MediaClock) (frame samples : Z) (ended : bool) (now : Z)
    : MediaClock * option (Z * Z * bool) :=
  let accept timestamp :=
    let sequence := wrapping_add 16 (mc_sequence c) 1 in
    (mkMediaClock (Some frame) timestamp sequence samples ended (Some now),
     Some (sequence, timestamp, new_talk c now)) in
  match mc_last_frame c with
  | Some last =>
      if new_talk c now then accept (wrapping_add 32 (mc_timestamp c) (talk_gap c now))
      else if frame <=? last then (c, None)
      else accept (wrapping_add 32 (mc_timestamp c)
                     (wrap 32 (wrapping_mul 64 (wrapping_sub 64 frame last) 480)))
  | None => accept (mc_timestamp c)
  end.

(** ** Tracks *)

(** [mumble::voice::MumbleVoiceData] *)
Record MumbleVoiceData := mkMumbleVoice {
  mv_session_id : Z;       (* u32 *)
  mv_seq_num : Z;          (* u64 *)
  mv_opus_data : list Z;
  mv_last_frame : bool;
  mv_received_at : Z       (* Instant *)
}.

(** The fields of a [TrackLocalStaticRTP] that the code sets. *)
Record Track := mkTrack {
  tr_mime_type : string; tr_clock_rate : Z; tr_channels : Z; tr_fmtp : string;
  tr_id : string; tr_stream_id : string
}.

Definition speaker_track (session : Z) : Track :=
  mkTrack "audio/opus" 48000 2 "minptime=10;useinbandfec=1"
    ("mumble-user-" +:+ show session) ("mumble-stream-" +:+ show session).

(** The RTP packet handed to [write_rtp]; the other header fields are default. *)
Record RtpPacket := mkRtp {
  rp_sequence_number : Z; rp_timestamp : Z; rp_marker : bool; rp_payload : list Z
}.

Section Tracks.
Context {Sender : Type}.

Record Speaker := mkSpeaker {
  sp_track : Track; sp_sender : Sender; sp_clock : MediaClock
}.

(** [SpeakerTracks::new]: no speaker yet; the peer connection is seen through [add_track] and
    [remove_track]. *)
Definition SpeakerTracks_new : gmap Z Speaker := ∅.

(** [SpeakerTracks::add]; [add_track] is what [RTCPeerConnection::add_track] returns. *)
Definition SpeakerTracks_add (speakers : gmap Z Speaker) (session : Z)
    (add_track : Track → result Sender) : gmap Z Speaker * result unit :=
  match speakers !! session with
  | Some _ => (speakers, Ok tt)
  | None =>
      let track := speaker_track session in
      match add_track track with
      | Err e => (speakers, Err e)
      | Ok sender =>
          (<[session := mkSpeaker track sender MediaClock_default]> speakers, Ok tt)
      end
  end.

(** [SpeakerTracks::remove]; the entry is gone even when [remove_track] fails. *)
Definition SpeakerTracks_remove (speakers : gmap Z Speaker) (session : Z)
    (remove_track : Sender → result unit) : gmap Z Speaker * result unit :=
  match speakers !! session with
  | Some speaker => (delete session speakers, remove_track (sp_sender speaker))
  | None => (speakers, Ok tt)
  end.

Definition set_clock (s : Speaker) (c : MediaClock) : Speaker :=
  mkSpeaker (sp_track s) (sp_sender s) c.

(** [speaker.clock.ended |= last_frame] *)
Definition clock_end (c : MediaClock) (last_frame : bool) : MediaClock :=
  mkMediaClock (mc_last_frame c) (mc_timestamp c) (mc_sequence c) (mc_samples c)
    (mc_ended c || last_frame) (mc_received_at c).

(** What [SpeakerTracks::write] does to one speaker's clock: the new clock, and the RTP
    packet to write or the parse error. *)
Definition clock_write (c : MediaClock) (data : MumbleVoiceData) (now : Z)
    : MediaClock * result (option RtpPacket) :=
  match mv_opus_data data with
  | [] => (clock_end c (mv_last_frame data), Ok None)
  | _ =>
      match opus_packet_total_samples (mv_opus_data data) with
      | Err e => (c, Err e)
      | Ok samples =>
          match MediaClock_packet c (mv_seq_num data) samples (mv_last_frame data) now with
          | (c', None) => (c', Ok None)
          | (c', Some (sequence_number, timestamp, marker)) =>
              (c', Ok (Some (mkRtp sequence_number timestamp marker (mv_opus_data data))))
          end
      end
  end.

(** [SpeakerTracks::write]: [checked_at] is the clock reading of the staleness test,
    [now] the one passed to the media clock. The second component is the packet given to
    a track, if any; the third is the result, an error of [write_rtp] included. *)
Definition SpeakerTracks_write (speakers : gmap Z Speaker) (data : MumbleVoiceData)
    (checked_at now : Z) (write_rtp : Track → RtpPacket → result unit)
    : gmap Z Speaker * option (Track * RtpPacket) * result unit :=
  if 120 <? as_millis (duration_since checked_at (mv_received_at data))
  then (speakers, None, Ok tt)
  else
    match speakers !! mv_session_id data with
    | None => (speakers, None, Ok tt)
    | Some speaker =>
        let '(clock, r) := clock_write (sp_clock speaker) data now in
        let speakers' := <[mv_session_id data := set_clock speaker clock]> speakers in
        match r with
        | Err e => (speakers', None, Err e)
        | Ok None => (speakers', None, Ok tt)
        | Ok (Some packet) =>
            (speakers', Some (sp_track speaker, packet), write_rtp (sp_track speaker) packet)
        end
    end.
End Tracks.
Arguments Speaker : clear implicits.

Example elapsed_one_second : elapsed_samples 1000000000 = 48000.
Proof. vm_compute. reflexivity. Qed.

(** ** Lemmas on the clock *)

Lemma elapsed_samples_range nanos : 0 ≤ elapsed_samples nanos < 2 ^ 32.
Proof.
  unfold elapsed_samples, f64_as_u32. repeat case_match; try lia.
  pose proof (proj2 (Z.shiftl_nonneg (Z.pos m) e) ltac:(lia)). lia.
Qed.

(** Inside a talk spurt the timestamp moves by 480 samples per Mumble frame. *)
Lemma frame_gap_wrap t frame last :
  wrap 32 (t + wrap 32 (wrapping_mul 64 (wrapping_sub 64 frame last) 480))
  = wrap 32 (t + 480 * (frame - last)).
Proof.
  unfold wrapping_mul, wrapping_sub.
  rewrite wrap_mul_wrap_l, wrap_narrow, wrap_add_wrap_r by lia. f_equal. lia.
Qed.

(** ** The media time of a speaker

    The reference the clock is compared with: unbounded integers, and the last packet that
    was sent instead of the fields of the clock. *)

Record SentPacket := mkSentPacket { st_frame : Z; st_samples : Z; st_ended : bool; st_at : Z }.

(** A talk spurt is over when its last packet said so or half a second has passed. *)
Definition talk_over (last : SentPacket) (now : Z) : bool :=
  st_ended last || (500 <? as_millis (duration_since now (st_at last))).

(** From one packet to the next: 10 ms per Mumble frame within a talk spurt; between two, the
    time that has passed, but never less than the audio of the packet before. *)
Definition media_gap (last : SentPacket) (frame now : Z) : Z :=
  if talk_over last now then Z.max (elapsed_samples (duration_since now (st_at last))) (st_samples last)
  else 480 * (frame - st_frame last).

(** What a speaker's Mumble packets should become: for each one sent, its media time, whether
    it starts a talk spurt, and its audio. Packets without audio end the talk spurt if they
    say so; a frame that is not later than the last one of its talk spurt, and one whose
    length cannot be told, is left out. *)
Fixpoint media_plan (last : option SentPacket) (T : Z) (ins : list (MumbleVoiceData * Z))
    : list (Z * bool * list Z) :=
  match ins with
  | [] => []
  | (data, now) :: ins =>
      let frame := mv_seq_num data in
      match mv_opus_data data, opus_packet_total_samples (mv_opus_data data) with
      | [], _ =>
          media_plan ((λ l, mkSentPacket (st_frame l) (st_samples l) (st_ended l || mv_last_frame data)
                              (st_at l)) <$> last) T ins
      | _, Err _ => media_plan last T ins
      | _, Ok samples =>
          let sent := mkSentPacket frame samples (mv_last_frame data) now in
          match last with
          | None => (T, true, mv_opus_data data) :: media_plan (Some sent) T ins
          | Some l =>
              if negb (talk_over l now) && (frame <=? st_frame l) then media_plan last T ins
              else let T' := T + media_gap l frame now in
                   (T', talk_over l now, mv_opus_data data) :: media_plan (Some sent) T' ins
          end
      end
  end.

(** A media time, number and marker as the browser sees them. *)
Definition rtp_at (N : Z) (i : nat) (p : Z * bool * list Z) : RtpPacket :=
  mkRtp (wrap 16 (N + 1 + Z.of_nat i)) (wrap 32 p.1.1) p.1.2 p.2.

(** What the clock of one speaker makes of their packets. *)
Fixpoint media_clock_run (c : MediaClock) (ins : list (MumbleVoiceData * Z)) : list RtpPacket :=
  match ins with
  | [] => []
  | (data, now) :: ins =>
      let '(c', r) := clock_write c data now in
      match r with Ok (Some packet) => [packet] | _ => [] end ++ media_clock_run c' ins
  end.

(** The clock stands for the last packet sent, the media time [T] and [N] packets. *)
Definition clock_at (c : MediaClock) (last : option SentPacket) (T N : Z) : Prop :=
  mc_timestamp c = wrap 32 T ∧ mc_sequence c = wrap 16 N ∧
  match last with
  | None => mc_last_frame c = None
  | Some l => mc_last_frame c = Some (st_frame l) ∧ mc_samples c = st_samples l ∧
      mc_ended c = st_ended l ∧ mc_received_at c = Some (st_at l) ∧ 1 ≤ st_samples l
  end.

(** A clock that stands for [last] sends the next packet when the reference does. *)
Lemma media_packet_step c last T N frame samples ended now :
  clock_at c last T N → 1 ≤ samples →
  match last with
  | Some l =>
      if negb (talk_over l now) && (frame <=? st_frame l)
      then MediaClock_packet c frame samples ended now = (c, None)
      else ∃ c', clock_at c' (Some (mkSentPacket frame samples ended now)) (T + media_gap l frame now) (N + 1) ∧
        MediaClock_packet c frame samples ended now
        = (c', Some (wrap 16 (N + 1), wrap 32 (T + media_gap l frame now), talk_over l now))
  | None => ∃ c', clock_at c' (Some (mkSentPacket frame samples ended now)) T (N + 1) ∧
      MediaClock_packet c frame samples ended now = (c', Some (wrap 16 (N + 1), wrap 32 T, true))
  end.
Proof.
  unfold MediaClock_packet, clock_at. intros (Ht & Hq & Hl) Hs. destruct last as [l|].
  - destruct Hl as (Hf & Hn & He & Hr & _).
    assert (new_talk c now = talk_over l now) as Hnew.
    { unfold new_talk, talk_over. by rewrite Hf, He, Hr, bool_decide_eq_true_2 by eauto. }
    assert (talk_gap c now = Z.max (elapsed_samples (duration_since now (st_at l))) (st_samples l)) as Hgap.
    { unfold talk_gap. by rewrite Hr, Hn. }
    rewrite Hf, Hnew, Hgap, Ht, Hq, !wrapping_add_wrap, frame_gap_wrap. unfold media_gap.
    destruct (talk_over l now); simpl; [|destruct (frame <=? st_frame l); simpl; [done|]];
      (eexists; split; [|reflexivity]; by split_and!).
  - rewrite Hl, Ht, Hq, wrapping_add_wrap. unfold new_talk. rewrite Hl. simpl.
    eexists; split; [|reflexivity]; by split_and!.
Qed.

Lemma clock_at_end c last T N e :
  clock_at c last T N →
  clock_at (clock_end c e)
    ((λ l, mkSentPacket (st_frame l) (st_samples l) (st_ended l || e) (st_at l)) <$> last) T N.
Proof. unfold clock_at, clock_end. destruct last; simpl; naive_solver congruence. Qed.

Lemma rtp_at_shift N (l : list (Z * bool * list Z)) :
  imap (rtp_at N ∘ S) l = imap (rtp_at (N + 1)) l.
Proof. apply imap_ext. intros i x _. unfold rtp_at. simpl. do 2 f_equal. lia. Qed.

Lemma media_clock_run_plan ins : ∀ c last T N,
  clock_at c last T N → Forall (λ i, Forall is_byte (mv_opus_data i.1)) ins →
  media_clock_run c ins = imap (rtp_at N) (media_plan last T ins).
Proof.
  induction ins as [|[data now] ins IH]; intros c last T N Hc Hb; [done|].
  apply list.Forall_cons in Hb as [Hb1 Hb]. simpl in Hb1. cbn [media_clock_run media_plan]. unfold clock_write.
  destruct (mv_opus_data data) as [|b bs] eqn:Hd; [by apply IH, Hb; apply clock_at_end|].
  destruct (opus_packet_total_samples (b :: bs)) as [samples|e] eqn:Hs; [|by apply IH].
  apply total_samples_Ok_bounds in Hs as [Hs _]; [|done].
  pose proof (media_packet_step c last T N (mv_seq_num data) samples (mv_last_frame data) now Hc
    ltac:(lia)) as Hstep.
  destruct last as [l|]; [destruct (negb _ && _)|].
  - rewrite Hstep. by apply IH.
  - destruct Hstep as (c' & Hc' & ->). cbn [imap app]. rewrite rtp_at_shift. f_equal; [|by apply IH].
    unfold rtp_at. simpl. by rewrite Z.add_0_r.
  - destruct Hstep as (c' & Hc' & ->). cbn [imap app]. rewrite rtp_at_shift. f_equal; [|by apply IH].
    unfold rtp_at. simpl. by rewrite Z.add_0_r.
Qed.

(** Time moves on from packet to packet. *)
Lemma media_gap_positive l frame now :
  1 ≤ st_samples l → negb (talk_over l now) && (frame <=? st_frame l) = false →
  0 < media_gap l frame now.
Proof. unfold media_gap. destruct (talk_over l now); simpl; lia. Qed.

Lemma media_plan_sorted ins : ∀ last T,
  (∀ l, last = Some l → 1 ≤ st_samples l) → Forall (λ i, Forall is_byte (mv_opus_data i.1)) ins →
  StronglySorted Z.lt (media_plan last T ins).*1.*1 ∧
  Forall (λ t, match last with Some _ => T < t | None => T ≤ t end) (media_plan last T ins).*1.*1.
Proof.
  induction ins as [|[data now] ins IH]; intros last T Hl Hb; [split; constructor|].
  apply list.Forall_cons in Hb as [Hb1 Hb]. simpl in Hb1. cbn [media_plan].
  destruct (mv_opus_data data) as [|b bs] eqn:Hd.
  { destruct (IH ((λ l, mkSentPacket (st_frame l) (st_samples l) (st_ended l || mv_last_frame data)
      (st_at l)) <$> last) T) as [Hso Hlo]; [|done|split; [exact Hso|]; destruct last; exact Hlo].
    intros l' (l & Hlast & ->)%fmap_Some. apply (Hl l Hlast). }
  destruct (opus_packet_total_samples (b :: bs)) as [samples|e] eqn:Hs; [|by apply IH].
  apply total_samples_Ok_bounds in Hs as [Hs _]; [|done].
  assert (Hnext : ∀ T', let plan := media_plan (Some (mkSentPacket (mv_seq_num data) samples
      (mv_last_frame data) now)) T' ins in
    StronglySorted Z.lt (T' :: plan.*1.*1) ∧ Forall (λ t, T' < t) plan.*1.*1).
  { intros T'. destruct (IH (Some (mkSentPacket (mv_seq_num data) samples (mv_last_frame data) now)) T')
      as [Hso Hlo]; [by intros ? [= <-]; simpl; lia|done|]. by repeat constructor. }
  destruct last as [l|].
  - destruct (negb _ && _) eqn:Hlate; [by apply IH|].
    pose proof (media_gap_positive l _ _ (Hl l eq_refl) Hlate) as Hgap.
    destruct (Hnext (T + media_gap l (mv_seq_num data) now)) as [Hso Hlo]. split; [exact Hso|].
    constructor; [simpl; lia|]. eapply Forall_impl; [exact Hlo|]. simpl. lia.
  - destruct (Hnext T) as [Hso Hlo]. split; [exact Hso|].
    constructor; [simpl; lia|]. eapply Forall_impl; [exact Hlo|]. simpl. lia.
Qed.

(** ** Properties of the clock *)

(** C20: the RTP stream of a speaker carries their media time. Whatever the frame numbers,
    talk spurts, losses, late and broken packets, the packets sent are those of the
    reference, in order and with their audio: numbered from 1 on, with the marker at the
    start of a talk spurt, and with the media time of the reference modulo 2^32 as
    timestamp, so that it moves by 480 samples per Mumble frame inside a talk spurt and by
    the length of the pause, or at least the last packet's audio, between two; and that
    media time strictly increases. *)
Theorem media_clock_continuous ins :
  Forall (λ i, Forall is_byte (mv_opus_data i.1)) ins →
  media_clock_run MediaClock_default ins = imap (rtp_at 0) (media_plan None 0 ins) ∧
  StronglySorted Z.lt (media_plan None 0 ins).*1.*1.
Proof.
  intros Hb. split; [by apply media_clock_run_plan|]. by apply media_plan_sorted.
Qed.

(** A packet that ends its talk spurt, a second talk spurt a second later that loses a frame,
    a late packet and a pause. *)
Lemma media_clock_continuous_witness :
  let audio frame ended := mkMumbleVoice 5 frame [0x78; 1] ended 0 in
  let ins := [(audio 10 true, 0); (audio 0 false, ms 1000); (audio 4 false, ms 1040);
              (audio 1 false, ms 1050); (mkMumbleVoice 5 6 [] true 0, ms 1060);
              (audio 0 false, ms 1070)] in
  media_plan None 0 ins = [(0, true, [0x78; 1]); (48000, true, [0x78; 1]);
                           (49920, false, [0x78; 1]); (51360, true, [0x78; 1])] ∧
  media_clock_run MediaClock_default ins = imap (rtp_at 0) (media_plan None 0 ins) ∧
  StronglySorted Z.lt (media_plan None 0 ins).*1.*1.
Proof.
  split; [vm_compute; reflexivity|]. apply media_clock_continuous.
  repeat constructor; simpl; unfold is_byte, is_uint; lia.
Defined.

(** Between two consecutive packets of a speaker, the RTP timestamp moves by exactly 480
    samples per Mumble frame inside a talk spurt (so gaps are preserved) and only for a
    later frame; a new talk spurt is marked, and starts no earlier than the end of the
    previous packet's samples. *)
Theorem media_clock_gap c f1 n1 e1 now1 c1 q1 t1 m1 f2 n2 e2 now2 c2 q2 t2 m2 :
  1 ≤ n1 < 2 ^ 32 →
  MediaClock_packet c f1 n1 e1 now1 = (c1, Some (q1, t1, m1)) →
  MediaClock_packet c1 f2 n2 e2 now2 = (c2, Some (q2, t2, m2)) →
  if m2 then n1 ≤ wrapping_sub 32 t2 t1
  else f1 < f2 ∧ wrapping_sub 32 t2 t1 = wrap 32 (480 * (f2 - f1)).
Proof.
  intros Hn H1 H2.
  assert (∃ s, c1 = mkMediaClock (Some f1) t1 s n1 e1 (Some now1)) as [s ->].
  { unfold MediaClock_packet in H1. repeat case_match; simplify_eq; eauto. }
  unfold MediaClock_packet in H2. cbn [mc_last_frame mc_timestamp] in H2.
  set (cl := mkMediaClock _ _ _ _ _ _) in H2. destruct (new_talk cl now2) eqn:Ht.
  - simplify_eq. rewrite wrapping_add_sub; [unfold talk_gap; simpl; lia|].
    unfold talk_gap, is_uint. simpl.
    pose proof (elapsed_samples_range (duration_since now2 now1)). lia.
  - destruct (Z.leb_spec f2 f1); [done|]. simplify_eq. split; [done|].
    unfold wrapping_add. rewrite frame_gap_wrap. unfold wrapping_sub, wrap.
    rewrite Zminus_mod_idemp_l. f_equal. lia.
Qed.

Lemma media_clock_gap_witness :
  wrapping_sub 32 1920 0 = wrap 32 (480 * (9 - 5)).
Proof.
  pose proof (media_clock_gap MediaClock_default 5 960 false 0
    (mkMediaClock (Some 5) 0 1 960 false (Some 0)) 1 0 true
    9 960 false (ms 40) (mkMediaClock (Some 9) 1920 2 960 false (Some (ms 40))) 2 1920 false
    ltac:(lia) eq_refl eq_refl) as H.
  exact (proj2 H).
Defined.

(** The double-precision conversion of a pause into samples is exact up to one sample of
    truncation, for every pause of a whole number of milliseconds up to two seconds. *)
Theorem elapsed_samples_accurate k :
  0 ≤ k ≤ 2000 → 48 * k - 1 ≤ elapsed_samples (ms k) ≤ 48 * k.
Proof.
  intros Hk.
  assert (forallb (λ n, let s := elapsed_samples (ms (Z.of_nat n)) in
            (48 * Z.of_nat n - 1 <=? s) && (s <=? 48 * Z.of_nat n)) (seq 0 2001) = true) as H
    by (vm_compute; reflexivity).
  rewrite forallb_forall in H. specialize (H (Z.to_nat k)).
  rewrite Z2Nat.id in H by lia.
  assert (In (Z.to_nat k) (seq 0 2001)) as Hin by (apply in_seq; lia).
  specialize (H Hin). simpl in H. lia.
Qed.

Lemma elapsed_samples_accurate_witness :
  48 * 1001 - 1 ≤ elapsed_samples (ms 1001) ≤ 48 * 1001 ∧ elapsed_samples (ms 1001) = 48047.
Proof.
  split; [apply (elapsed_samples_accurate 1001); lia | vm_compute; reflexivity].
Defined.

(** ** Properties of the tracks *)

Section TrackProperties.
Context {Sender : Type}.
Implicit Types speakers : gmap Z (Speaker Sender).

(** A sequence of incoming voice packets, each with the two clock readings of its write;
    the output is labelled with the session it came from. *)
Fixpoint tracks_run (write_rtp : Track → RtpPacket → result unit) speakers
    (ins : list (MumbleVoiceData * Z * Z)) : gmap Z (Speaker Sender) * list (Z * Track * RtpPacket) :=
  match ins with
  | [] => (speakers, [])
  | (data, checked_at, now) :: ins =>
      let '(speakers', o, _) := SpeakerTracks_write speakers data checked_at now write_rtp in
      let '(speakers'', os) := tracks_run write_rtp speakers' ins in
      (speakers'', match o with
                   | Some (t, p) => [(mv_session_id data, t, p)]
                   | None => []
                   end ++ os)
  end.

Definition of_session (k : Z) (i : MumbleVoiceData * Z * Z) : Prop := mv_session_id i.1.1 = k.
#[local] Instance of_session_dec k i : Decision (of_session k i) := Z.eq_dec _ _.

(** A write touches only the speaker it is for. *)
Lemma write_other speakers data checked_at now write_rtp k :
  k ≠ mv_session_id data →
  (SpeakerTracks_write speakers data checked_at now write_rtp).1.1 !! k = speakers !! k.
Proof.
  intros Hne. unfold SpeakerTracks_write. case_match; [done|].
  destruct (speakers !! mv_session_id data) as [s|]; [|done].
  destruct (clock_write _ _ _) as [c r].
  destruct r as [[p|]|e]; simpl; by rewrite lookup_insert_ne.
Qed.

(** A write's effect is a function of that speaker alone. *)
Lemma write_local speakers1 speakers2 data checked_at now write_rtp :
  speakers1 !! mv_session_id data = speakers2 !! mv_session_id data →
  let r1 := SpeakerTracks_write speakers1 data checked_at now write_rtp in
  let r2 := SpeakerTracks_write speakers2 data checked_at now write_rtp in
  r1.1.1 !! mv_session_id data = r2.1.1 !! mv_session_id data ∧
  r1.1.2 = r2.1.2 ∧ r1.2 = r2.2.
Proof.
  intros Heq. unfold SpeakerTracks_write. case_match; [done|]. rewrite Heq.
  destruct (speakers2 !! mv_session_id data) as [s|] eqn:H2; [|simpl; by rewrite ?Heq, ?H2].
  destruct (clock_write _ _ _) as [c r].
  destruct r as [[p|]|e]; simpl; by rewrite !lookup_insert_eq.
Qed.

Lemma tracks_run_local write_rtp ins : ∀ speakers1 speakers2 k,
  speakers1 !! k = speakers2 !! k →
  (tracks_run write_rtp speakers1 ins).1 !! k
    = (tracks_run write_rtp speakers2 (filter (of_session k) ins)).1 !! k ∧
  filter (λ o, o.1.1 = k) (tracks_run write_rtp speakers1 ins).2
    = (tracks_run write_rtp speakers2 (filter (of_session k) ins)).2.
Proof.
  induction ins as [|[[data checked_at] now] ins IH]; intros speakers1 speakers2 k Heq;
    [done|].
  rewrite filter_cons. unfold of_session at 1 3. simpl.
  destruct (decide _) as [Hk|Hk]; simpl in Hk; subst.
  - destruct (write_local speakers1 speakers2 data checked_at now write_rtp Heq)
      as (Hst & Ho & _). simpl.
    destruct (SpeakerTracks_write speakers1 _ _ _ _) as [[s1 o1] r1].
    destruct (SpeakerTracks_write speakers2 _ _ _ _) as [[s2 o2] r2]. simpl in *. subst.
    specialize (IH s1 s2 _ Hst) as [IH1 IH2].
    destruct (tracks_run write_rtp s1 ins), (tracks_run write_rtp s2 _). simpl in *.
    split; [done|]. rewrite list_filter_app, IH2. f_equal.
    destruct o2 as [[t p]|]; [|done]. rewrite filter_cons. by rewrite decide_True.
  - pose proof (write_other speakers1 data checked_at now write_rtp k (not_eq_sym Hk)) as Hst.
    destruct (SpeakerTracks_write speakers1 _ _ _ _) as [[s1 o1] r1]. simpl in *.
    rewrite Heq in Hst. specialize (IH s1 speakers2 _ Hst) as [IH1 IH2].
    destruct (tracks_run write_rtp s1 ins). simpl in *.
    split; [done|]. rewrite list_filter_app, IH2.
    destruct o1 as [[t p]|]; [|done]. rewrite filter_cons. by rewrite decide_False.
Qed.

(** C29: Speakers do not disturb each other. For any interleaving of voice packets, the RTP
    packets of one speaker (and that speaker's final clock) are exactly those the bridge
    would have produced had it received that speaker's packets alone. *)
Theorem speakers_independent write_rtp speakers ins k :
  filter (λ o, o.1.1 = k) (tracks_run write_rtp speakers ins).2
    = (tracks_run write_rtp speakers (filter (of_session k) ins)).2 ∧
  (tracks_run write_rtp speakers ins).1 !! k
    = (tracks_run write_rtp speakers (filter (of_session k) ins)).1 !! k.
Proof. by destruct (tracks_run_local write_rtp ins speakers speakers k eq_refl). Qed.

(** Every entry has the track named after its session. *)
Definition tracks_wf speakers : Prop :=
  map_Forall (λ k s, sp_track s = speaker_track k) speakers.

Lemma write_wf speakers data checked_at now write_rtp :
  tracks_wf speakers →
  tracks_wf (SpeakerTracks_write speakers data checked_at now write_rtp).1.1.
Proof.
  intros Hwf. unfold SpeakerTracks_write. case_match; [done|].
  destruct (speakers !! mv_session_id data) as [s|] eqn:Hs; [|done].
  assert (∀ c, tracks_wf (<[mv_session_id data := set_clock s c]> speakers)) as Hins.
  { intros c. apply map_Forall_insert_2; [|done]. exact (Hwf _ _ Hs). }
  destruct (clock_write _ _ _) as [c r]. destruct r as [[p|]|e]; apply Hins.
Qed.

(** Adding, removing and writing keep every speaker on a track of their own, named
    [mumble-user-<id>] in stream [mumble-stream-<id>]: adding a known speaker keeps the
    clock (and so the RTP continuity), a refused track leaves the map as it was, and a
    removed speaker is gone even when the engine reports an error. *)
Theorem speaker_tracks_invariant speakers session add_track remove_track :
  tracks_wf speakers →
  let a := SpeakerTracks_add speakers session add_track in
  let r := SpeakerTracks_remove speakers session remove_track in
  (tracks_wf a.1 ∧
   a.1 = match speakers !! session, add_track (speaker_track session) with
         | None, Ok sender =>
             <[session := mkSpeaker (speaker_track session) sender MediaClock_default]> speakers
         | _, _ => speakers
         end ∧
   (is_ok a.2 = true ↔ is_Some (a.1 !! session))) ∧
  (tracks_wf r.1 ∧ r.1 = delete session speakers) ∧
  (∀ data checked_at now write_rtp,
     tracks_wf (SpeakerTracks_write speakers data checked_at now write_rtp).1.1).
Proof.
  intros Hwf. simpl. split_and!.
  - unfold SpeakerTracks_add. destruct (speakers !! session); [done|].
    destruct (add_track _); [|done]. by apply map_Forall_insert_2.
  - unfold SpeakerTracks_add. destruct (speakers !! session); [done|].
    by destruct (add_track _).
  - unfold SpeakerTracks_add. destruct (speakers !! session) eqn:Hs.
    { simpl. rewrite Hs. naive_solver. }
    destruct (add_track _); simpl; [rewrite lookup_insert_eq; naive_solver|].
    rewrite Hs. split; [done|]. by intros [? ?].
  - unfold SpeakerTracks_remove. destruct (speakers !! session); [|done].
    by apply map_Forall_delete.
  - unfold SpeakerTracks_remove. destruct (speakers !! session) eqn:Hs; [done|].
    by rewrite delete_id.
  - intros. by apply write_wf.
Qed.
End TrackProperties.

Lemma speaker_tracks_invariant_witness :
  tracks_wf (SpeakerTracks_add (∅ : gmap Z (Speaker nat)) 7 (λ _, Ok 0%nat)).1.
Proof.
  exact (proj1 (proj1 (speaker_tracks_invariant (∅ : gmap Z (Speaker nat)) 7
    (λ _, Ok 0%nat) (λ _, Ok tt) (map_Forall_empty _)))).
Defined.
