(* ===== verification/Bridge.v ===== *)
(** * The audio bridge as a whole ([AudioBridge] in [src/src/bridge.rs])

    Two tasks, spawned together and aborted together: the downlink writes Mumble's frames to
    the speakers' tracks, the uplink numbers the browser's packets. Here they run interleaved
    in any order until [shutdown] (or [drop]) ends both. *)

From Stdlib Require Import ZArith Lia.
From stdpp Require Import base tactics list gmap strings option.
From S2P Require Import Prelude Opus Uplink Speakers.
Local Open Scope Z_scope.

Section Bridge.
Context {Sender : Type}.
Variable write_rtp : Track → RtpPacket → result unit.

(** The tasks of the bridge; a task that returned or was aborted is not running. The
    downlink works on the shared tracks. *)
Record AudioBridge := mkAudioBridge {
  ab_downlink : bool;
  ab_speakers : gmap Z (Speaker Sender);
  ab_uplink : UplinkTask
}.
Implicit Types b : AudioBridge.

Definition AudioBridge_start (speakers : gmap Z (Speaker Sender)) : AudioBridge :=
  mkAudioBridge true speakers UplinkTask_start.

Definition abort_uplink (t : UplinkTask) : UplinkTask :=
  mkUplinkTask (ut_clock t) (ut_last_packet t) false.

(** [shutdown] aborts both tasks and waits for them; [Drop] aborts them. *)
Definition AudioBridge_shutdown b : AudioBridge :=
  mkAudioBridge false (ab_speakers b) (abort_uplink (ab_uplink b)).

(** What wakes a task: a voice packet of Mumble with the clock readings of its write ([None]
    when the channel is closed), or an event of the uplink. *)
Inductive BridgeEvent :=
| BrDownlink (data : option (MumbleVoiceData * Z * Z))
| BrUplink (ev : UplinkEvent).

Record bridge_output := mkBridgeOutput {
  bo_tracks : list (Z * Track * RtpPacket);
  bo_frames : list WebrtcVoiceData
}.

Definition bridge_step b (ev : BridgeEvent) : AudioBridge * bridge_output :=
  match ev with
  | BrDownlink None => (mkAudioBridge false (ab_speakers b) (ab_uplink b), mkBridgeOutput [] [])
  | BrDownlink (Some i) =>
      if ab_downlink b then
        let '(speakers, out) := tracks_run write_rtp (ab_speakers b) [i] in
        (mkAudioBridge true speakers (ab_uplink b), mkBridgeOutput out [])
      else (b, mkBridgeOutput [] [])
  | BrUplink ev =>
      let '(t, out) := uplink_run (ab_uplink b) [ev] in
      (mkAudioBridge (ab_downlink b) (ab_speakers b) t, mkBridgeOutput [] out)
  end.

Fixpoint bridge_run b (evs : list BridgeEvent) : AudioBridge * bridge_output :=
  match evs with
  | [] => (b, mkBridgeOutput [] [])
  | ev :: evs =>
      let '(b1, o1) := bridge_step b ev in
      let '(b2, o2) := bridge_run b1 evs in
      (b2, mkBridgeOutput (bo_tracks o1 ++ bo_tracks o2) (bo_frames o1 ++ bo_frames o2))
  end.

(** The inputs of each task; the downlink sees nothing behind the end of its channel. *)
Fixpoint downlink_inputs (evs : list BridgeEvent) : list (MumbleVoiceData * Z * Z) :=
  match evs with
  | [] | BrDownlink None :: _ => []
  | BrDownlink (Some i) :: evs => i :: downlink_inputs evs
  | BrUplink _ :: evs => downlink_inputs evs
  end.

Definition uplink_inputs (evs : list BridgeEvent) : list UplinkEvent :=
  omap (λ ev, match ev with BrUplink ev => Some ev | _ => None end) evs.

Lemma tracks_run_cons (speakers : gmap Z (Speaker Sender)) i ins :
  tracks_run write_rtp speakers (i :: ins)
  = let '(s1, o1) := tracks_run write_rtp speakers [i] in
    let '(s2, o2) := tracks_run write_rtp s1 ins in (s2, o1 ++ o2).
Proof.
  destruct i as [[data checked_at] now]. simpl.
  destruct (SpeakerTracks_write _ _ _ _ _) as [[s1 o] r].
  destruct (tracks_run write_rtp s1 ins) as [s2 os]. by rewrite app_nil_r.
Qed.

Lemma uplink_run_cons t ev evs :
  uplink_run t (ev :: evs)
  = let '(t1, o1) := uplink_run t [ev] in let '(t2, o2) := uplink_run t1 evs in (t2, o1 ++ o2).
Proof.
  simpl. destruct (ut_running t) eqn:Hr.
  - destruct (uplink_step t ev) as [t1 o1].
    destruct (ut_running t1); destruct (uplink_run t1 evs) as [t2 o2]; by rewrite app_nil_r.
  - destruct evs as [|ev' evs]; simpl; [done|by rewrite Hr].
Qed.

Lemma downlink_stopped evs : ∀ b, ab_downlink b = false →
  bo_tracks (bridge_run b evs).2 = [] ∧ ab_speakers (bridge_run b evs).1 = ab_speakers b.
Proof.
  induction evs as [|[[i|]|ev] evs IH]; intros b Hb; [done|..]; cbn [bridge_run bridge_step].
  - rewrite Hb. specialize (IH b Hb). by destruct (bridge_run b evs).
  - specialize (IH (mkAudioBridge false (ab_speakers b) (ab_uplink b)) eq_refl).
    by destruct (bridge_run _ evs).
  - destruct (uplink_run (ab_uplink b) [ev]) as [t out].
    specialize (IH (mkAudioBridge (ab_downlink b) (ab_speakers b) t) Hb).
    by destruct (bridge_run _ evs).
Qed.

Lemma bridge_uplink evs : ∀ b,
  (ab_uplink (bridge_run b evs).1, bo_frames (bridge_run b evs).2)
  = uplink_run (ab_uplink b) (uplink_inputs evs).
Proof.
  induction evs as [|[i|ev] evs IH]; intros b; [done|..]; cbn [bridge_run bridge_step].
  - assert (Hs : ∃ b1 o, bridge_step b (BrDownlink i) = (b1, mkBridgeOutput o []) ∧ ab_uplink b1 = ab_uplink b).
    { destruct i as [i|]; cbn [bridge_step]; [|by eexists _, _]. destruct (ab_downlink b); [|by eexists _, _].
      destruct (tracks_run write_rtp (ab_speakers b) [i]). by eexists _, _. }
    destruct Hs as (b1 & o & Hs & Hu). cbn [bridge_step] in Hs. rewrite Hs, <- Hu.
    change (uplink_inputs (BrDownlink i :: evs)) with (uplink_inputs evs).
    rewrite <- (IH b1). by destruct (bridge_run b1 evs).
  - change (uplink_inputs (BrUplink ev :: evs)) with (ev :: uplink_inputs evs).
    rewrite (uplink_run_cons _ ev (uplink_inputs evs)). destruct (uplink_run (ab_uplink b) [ev]) as [t out].
    specialize (IH (mkAudioBridge (ab_downlink b) (ab_speakers b) t)). cbn [ab_uplink] in IH.
    rewrite <- IH. by destruct (bridge_run _ evs) as [b2 o2].
Qed.

Lemma bridge_downlink evs : ∀ b, ab_downlink b = true →
  (ab_speakers (bridge_run b evs).1, bo_tracks (bridge_run b evs).2)
  = tracks_run write_rtp (ab_speakers b) (downlink_inputs evs).
Proof.
  induction evs as [|[[i|]|ev] evs IH]; intros b Hb; [done|..].
  - cbn [bridge_run bridge_step downlink_inputs]. rewrite Hb, (tracks_run_cons _ i (downlink_inputs evs)).
    destruct (tracks_run write_rtp (ab_speakers b) [i]) as [s1 o1].
    specialize (IH (mkAudioBridge true s1 (ab_uplink b)) eq_refl). cbn [ab_speakers] in IH.
    rewrite <- IH. by destruct (bridge_run _ evs) as [b2 o2].
  - cbn [bridge_run bridge_step downlink_inputs].
    destruct (downlink_stopped evs (mkAudioBridge false (ab_speakers b) (ab_uplink b)) eq_refl)
      as [Ho Hs].
    destruct (bridge_run _ evs) as [b2 o2]. simpl in *. by rewrite Ho, Hs.
  - cbn [bridge_run bridge_step downlink_inputs].
    destruct (uplink_run (ab_uplink b) [ev]) as [t out].
    specialize (IH (mkAudioBridge (ab_downlink b) (ab_speakers b) t) Hb).
    destruct (bridge_run _ evs) as [b2 o2]. simpl in *. by rewrite <- IH.
Qed.

(** The tasks do not disturb each other: in any interleaving of their events, the tracks get
    what the downlink alone would write and the Mumble socket what the uplink alone would
    send. *)
Theorem bridge_directions_independent speakers evs :
  let r := bridge_run (AudioBridge_start speakers) evs in
  bo_tracks r.2 = (tracks_run write_rtp speakers (downlink_inputs evs)).2 ∧
  bo_frames r.2 = (uplink_run UplinkTask_start (uplink_inputs evs)).2.
Proof.
  intros r. pose proof (bridge_downlink evs (AudioBridge_start speakers) eq_refl) as Hd.
  pose proof (bridge_uplink evs (AudioBridge_start speakers)) as Hu. simpl in Hd, Hu.
  by rewrite <- Hd, <- Hu.
Qed.

(** After [shutdown] nothing moves in either direction, whatever arrives. *)
Theorem bridge_shutdown_silent b evs :
  let r := bridge_run (AudioBridge_shutdown b) evs in
  bo_tracks r.2 = [] ∧ bo_frames r.2 = [] ∧ ab_speakers r.1 = ab_speakers b.
Proof.
  intros r. destruct (downlink_stopped evs (AudioBridge_shutdown b) eq_refl) as [Ho Hs].
  split_and!; [done| |done]. pose proof (bridge_uplink evs (AudioBridge_shutdown b)) as Hu.
  assert (Hstop : uplink_run (abort_uplink (ab_uplink b)) (uplink_inputs evs)
    = (abort_uplink (ab_uplink b), [])) by by destruct (uplink_inputs evs).
  simpl in Hu. rewrite Hstop in Hu. by injection Hu.
Qed.
End Bridge.
