(* ===== verification/Net.v ===== *)
(** * Socket addresses

    The parts of [std::net] the program uses: IPv4 addresses as 32-bit integers with the
    predicates of [Ipv4Addr], and socket addresses with their equality. *)

From Stdlib Require Import ZArith Lia.
From stdpp Require Import base tactics decidable strings.
From S2P Require Import Prelude.
Local Open Scope Z_scope.

(** [Ipv4Addr::new] *)
Definition ipv4 (a b c d : Z) : Z := ((a * 256 + b) * 256 + c) * 256 + d.

Definition LOCALHOST : Z := ipv4 127 0 0 1.
Definition UNSPECIFIED : Z := 0.

Definition is_unspecified (ip : Z) : bool := ip =? 0.
Definition first_octet (ip : Z) : Z := Z.shiftr ip 24.
Definition is_multicast (ip : Z) : bool := (224 <=? first_octet ip) && (first_octet ip <=? 239).

Definition is_loopback (ip : Z) : bool := first_octet ip =? 127.

(** [Ipv4Addr]'s [Display] *)
Definition octet (ip n : Z) : Z := Z.land (Z.shiftr ip (8 * n)) 255.

Definition ipv4_to_string (ip : Z) : string :=
  show (octet ip 3) +:+ "." +:+ show (octet ip 2) +:+ "." +:+ show (octet ip 1) +:+ "."
  +:+ show (octet ip 0).

Inductive IpAddr := V4 (ip : Z) | V6 (ip : Z).

#[export] Instance IpAddr_eq_dec : EqDecision IpAddr.
Proof. solve_decision. Defined.

(** [std::net::SocketAddr]; an IPv6 address also has flow information and a scope. *)
Inductive SocketAddr :=
| SocketV4 (ip port : Z)
| SocketV6 (ip port flowinfo scope_id : Z).

#[export] Instance SocketAddr_eq_dec : EqDecision SocketAddr.
Proof. solve_decision. Defined.

Definition addr_ip (a : SocketAddr) : IpAddr :=
  match a with SocketV4 ip _ => V4 ip | SocketV6 ip _ _ _ => V6 ip end.

Definition addr_port (a : SocketAddr) : Z :=
  match a with SocketV4 _ port => port | SocketV6 _ port _ _ => port end.

Lemma addr_v4_iff a ip port : addr_ip a = V4 ip ∧ addr_port a = port ↔ a = SocketV4 ip port.
Proof. destruct a; simpl; naive_solver. Qed.
