(* ===== verification/Relay.v ===== *)
(** * The relay restriction of the built-in TURN server ([src/src/turn/relay.rs])

    [MediaRelayConn] wraps the UDP socket of a TURN allocation so that a browser can reach
    MumDota's own media endpoint and nothing else. The socket is outside the repository;
    it is an instance of [UdpConn], whose laws state where its datagrams go. *)

From Stdlib Require Import ZArith Lia.
From stdpp Require Import base tactics list strings.
From S2P Require Import Prelude Net.
Local Open Scope Z_scope.

(** ** The wrapped connection

    [conn_peer] is the connected peer, [conn_sent] the destinations of the datagrams sent
    so far, newest first. *)

Class UdpConn (C : Type) := {
  conn_connect : C → SocketAddr → C * result unit;
  conn_send : C → list Z → C * result Z;
  conn_send_to : C → list Z → SocketAddr → C * result Z;
  conn_local_addr : C → result SocketAddr;
  conn_remote_addr : C → option SocketAddr;
  conn_close : C → C * result unit;
  conn_peer : C → option SocketAddr;
  conn_sent : C → list SocketAddr;
  connect_sent : ∀ c a, conn_sent (conn_connect c a).1 = conn_sent c;
  connect_peer : ∀ c a,
    conn_peer (conn_connect c a).1 = Some a ∨ conn_peer (conn_connect c a).1 = conn_peer c;
  close_sent : ∀ c, conn_sent (conn_close c).1 = conn_sent c;
  close_peer : ∀ c, conn_peer (conn_close c).1 = conn_peer c;
  send_peer : ∀ c b, conn_peer (conn_send c b).1 = conn_peer c;
  send_sent : ∀ c b,
    conn_sent (conn_send c b).1 = conn_sent c ∨
    ∃ p, conn_peer c = Some p ∧ conn_sent (conn_send c b).1 = p :: conn_sent c;
  send_to_peer : ∀ c b a, conn_peer (conn_send_to c b a).1 = conn_peer c;
  send_to_sent : ∀ c b a,
    conn_sent (conn_send_to c b a).1 = conn_sent c ∨
    conn_sent (conn_send_to c b a).1 = a :: conn_sent c
}.

Section Relay.
Context {C : Type} `{UdpConn C}.

Record MediaRelayConn := mkRelayConn {
  mr_conn : C;
  mr_public_ip : Z;       (* Ipv4Addr *)
  mr_media_port : Z       (* u16 *)
}.

Definition set_conn (r : MediaRelayConn) (c : C) : MediaRelayConn :=
  mkRelayConn c (mr_public_ip r) (mr_media_port r).

(** The media socket behind the relay, and the endpoint browsers know it by. *)
Definition media_endpoint (r : MediaRelayConn) : SocketAddr :=
  SocketV4 LOCALHOST (mr_media_port r).
Definition public_endpoint (r : MediaRelayConn) : SocketAddr :=
  SocketV4 (mr_public_ip r) (mr_media_port r).

(** [MediaRelayConn::target] *)
Definition MediaRelayConn_target (r : MediaRelayConn) (target : SocketAddr)
    : result SocketAddr :=
  if negb (addr_port target =? mr_media_port r)
     || negb (bool_decide (addr_ip target = V4 (mr_public_ip r)))
  then Err "TURN may relay only to MumDota media"
  else Ok (media_endpoint r).

(** The [Conn] implementation *)

Definition MediaRelayConn_connect (r : MediaRelayConn) (addr : SocketAddr)
    : MediaRelayConn * result unit :=
  match MediaRelayConn_target r addr with
  | Err e => (r, Err e)
  | Ok a => let '(c, res) := conn_connect (mr_conn r) a in (set_conn r c, res)
  end.

Definition MediaRelayConn_send (r : MediaRelayConn) (buf : list Z)
    : MediaRelayConn * result Z :=
  let '(c, res) := conn_send (mr_conn r) buf in (set_conn r c, res).

Definition MediaRelayConn_send_to (r : MediaRelayConn) (buf : list Z) (addr : SocketAddr)
    : MediaRelayConn * result Z :=
  match MediaRelayConn_target r addr with
  | Err e => (r, Err e)
  | Ok a => let '(c, res) := conn_send_to (mr_conn r) buf a in (set_conn r c, res)
  end.

(** The rest is the wrapped socket's. *)
Definition MediaRelayConn_local_addr (r : MediaRelayConn) : result SocketAddr :=
  conn_local_addr (mr_conn r).
Definition MediaRelayConn_remote_addr (r : MediaRelayConn) : option SocketAddr :=
  conn_remote_addr (mr_conn r).
Definition MediaRelayConn_close (r : MediaRelayConn) : MediaRelayConn * result unit :=
  let '(c, res) := conn_close (mr_conn r) in (set_conn r c, res).

(** [recv_from]: the loop over what successive calls of the wrapped [recv_from] return
    (datagram and source, or an error); [None] while it is still waiting. The rest is
    what later calls will receive. *)
Fixpoint MediaRelayConn_recv_from (r : MediaRelayConn)
    (arrivals : list (result (list Z * SocketAddr)))
    : option (result (list Z * SocketAddr) * list (result (list Z * SocketAddr))) :=
  match arrivals with
  | [] => None
  | Err e :: arrivals => Some (Err e, arrivals)
  | Ok (data, from) :: arrivals =>
      if bool_decide (from = media_endpoint r)
      then Some (Ok (data, public_endpoint r), arrivals)
      else MediaRelayConn_recv_from r arrivals
  end.

(** [recv] drops the source. *)
Definition MediaRelayConn_recv (r : MediaRelayConn)
    (arrivals : list (result (list Z * SocketAddr))) : option (result (list Z)) :=
  match MediaRelayConn_recv_from r arrivals with
  | Some (Ok (data, _), _) => Some (Ok data)
  | Some (Err e, _) => Some (Err e)
  | None => None
  end.

(** [MediaRelayGenerator::allocate_conn]; [inner] is the range allocator of the [turn]
    crate. *)
Record MediaRelayGenerator := mkRelayGenerator {
  mg_min_port : Z; mg_max_port : Z; mg_public_ip : Z; mg_media_port : Z
}.

Definition MediaRelayGenerator_allocate_conn (g : MediaRelayGenerator)
    (inner : bool → Z → result (C * SocketAddr)) (is_ipv4 : bool) (port : Z)
    : result (MediaRelayConn * SocketAddr) :=
  if negb is_ipv4
     || (negb (port =? 0) && negb ((mg_min_port g <=? port) && (port <=? mg_max_port g)))
  then Err "unsupported relay address or port"
  else
    '(conn, addr) ← inner is_ipv4 port;
    Ok (mkRelayConn conn (mg_public_ip g) (mg_media_port g), addr).

(** ** What the TURN server can do with an allocation *)

Inductive relay_op :=
| OpConnect (addr : SocketAddr)
| OpSend (buf : list Z)
| OpSendTo (buf : list Z) (addr : SocketAddr)
| OpClose.

Definition relay_step (r : MediaRelayConn) (op : relay_op) : MediaRelayConn :=
  match op with
  | OpConnect addr => (MediaRelayConn_connect r addr).1
  | OpSend buf => (MediaRelayConn_send r buf).1
  | OpSendTo buf addr => (MediaRelayConn_send_to r buf addr).1
  | OpClose => (MediaRelayConn_close r).1
  end.

Definition relay_run (r : MediaRelayConn) (ops : list relay_op) : MediaRelayConn :=
  foldl relay_step r ops.

(** ** Lemmas *)

Lemma target_cases r a :
  (a = public_endpoint r ∧ MediaRelayConn_target r a = Ok (media_endpoint r)) ∨
  (a ≠ public_endpoint r ∧
   MediaRelayConn_target r a = Err "TURN may relay only to MumDota media").
Proof.
  unfold MediaRelayConn_target, public_endpoint.
  destruct (Z.eqb_spec (addr_port a) (mr_media_port r)) as [Hp|Hp]; simpl.
  - destruct (bool_decide_reflect (addr_ip a = V4 (mr_public_ip r))) as [Hi|Hi]; simpl.
    + left. split; [|done]. by apply addr_v4_iff.
    + right. split; [|done]. intros ->. by apply Hi.
  - right. split; [|done]. intros ->. by apply Hp.
Qed.

(** Only the media socket has ever been addressed. *)
Definition relay_confined (r : MediaRelayConn) : Prop :=
  Forall (λ a, a = media_endpoint r) (conn_sent (mr_conn r)) ∧
  (conn_peer (mr_conn r) = None ∨ conn_peer (mr_conn r) = Some (media_endpoint r)).

Lemma relay_step_confined r op :
  relay_confined r → relay_confined (relay_step r op) ∧
  mr_media_port (relay_step r op) = mr_media_port r.
Proof.
  intros [Hs Hp]. destruct op as [addr|buf|buf addr|]; simpl.
  - unfold MediaRelayConn_connect. destruct (target_cases r addr) as [[_ ->]|[_ ->]]; [|done].
    pose proof (connect_sent (mr_conn r) (media_endpoint r)) as H1.
    pose proof (connect_peer (mr_conn r) (media_endpoint r)) as H2.
    destruct (conn_connect _ _) as [c res]. simpl in *. split; [|done].
    split; simpl; rewrite ?H1; [done|]. destruct H2 as [H2|H2]; rewrite H2; auto.
  - unfold MediaRelayConn_send.
    pose proof (send_sent (mr_conn r) buf) as H1. pose proof (send_peer (mr_conn r) buf) as H2.
    destruct (conn_send _ _) as [c res]. simpl in *. split; [|done].
    split; simpl; rewrite ?H2; [|done].
    destruct H1 as [->|(p & Hpeer & ->)]; [done|]. constructor; [|done].
    rewrite Hpeer in Hp. destruct Hp; by simplify_eq.
  - unfold MediaRelayConn_send_to.
    destruct (target_cases r addr) as [[_ ->]|[_ ->]]; [|done].
    pose proof (send_to_sent (mr_conn r) buf (media_endpoint r)) as H1.
    pose proof (send_to_peer (mr_conn r) buf (media_endpoint r)) as H2.
    destruct (conn_send_to _ _ _) as [c res]. simpl in *. split; [|done].
    split; simpl; rewrite ?H2; [|done].
    destruct H1 as [->| ->]; [done|]. by constructor.
  - unfold MediaRelayConn_close.
    pose proof (close_sent (mr_conn r)) as H1. pose proof (close_peer (mr_conn r)) as H2.
    destruct (conn_close _) as [c res]. simpl in *. split; [|done]. by split; simpl; rewrite ?H1, ?H2.
Qed.

(** ** Properties *)

(** C24: Credentials for the built-in TURN cannot be used to reach anything but MumDota's
    media socket: whatever sequence of connects, sends and closes a TURN client causes on an
    allocation, every datagram that leaves it is addressed to the loopback media port. *)
Theorem relay_reaches_only_media r ops :
  conn_sent (mr_conn r) = [] → conn_peer (mr_conn r) = None →
  Forall (λ a, a = SocketV4 LOCALHOST (mr_media_port r))
    (conn_sent (mr_conn (relay_run r ops))).
Proof.
  intros Hs Hp.
  assert (relay_confined r) as Hr by (split; [rewrite Hs; constructor | by left]).
  clear Hs Hp. revert r Hr.
  induction ops as [|op ops IH]; intros r Hr; simpl; [apply Hr|].
  destruct (relay_step_confined r op Hr) as [Hr' Hport].
  specialize (IH _ Hr'). by rewrite Hport in IH.
Qed.

(** The relay maps addresses consistently: exactly the advertised public media endpoint
    is accepted as a destination and becomes the loopback media socket, and a datagram is
    accepted exactly when it comes from that socket and is reported as coming from the
    advertised endpoint. *)
Theorem relay_endpoint_mapping r a data from :
  (MediaRelayConn_target r a = Ok (media_endpoint r) ↔ a = public_endpoint r) ∧
  (is_ok (MediaRelayConn_target r a) = true → a = public_endpoint r) ∧
  (MediaRelayConn_recv_from r [Ok (data, from)] =
     if bool_decide (from = media_endpoint r)
     then Some (Ok (data, public_endpoint r), []) else None).
Proof.
  split_and!.
  - destruct (target_cases r a) as [[-> ->]|[? ->]]; naive_solver.
  - destruct (target_cases r a) as [[-> ->]|[? ->]]; naive_solver.
  - simpl. by case_bool_decide.
Qed.

(** [recv_from] skips every datagram that does not come from the media socket, in
    order and without losing later ones: it returns as soon as the media socket's next
    datagram (or an error of the socket) arrives after any number of foreign datagrams. *)
Theorem relay_recv_skips_foreign r foreign next later :
  Forall (λ x, ∃ data from, x = Ok (data, from) ∧ from ≠ media_endpoint r) foreign →
  ((∃ e, next = Err e) ∨ ∃ data, next = Ok (data, media_endpoint r)) →
  MediaRelayConn_recv_from r (foreign ++ next :: later) =
  Some (match next with
        | Ok (data, _) => Ok (data, public_endpoint r)
        | Err e => Err e
        end, later).
Proof.
  intros Hf Hn. induction Hf as [|x foreign (data & from & -> & Hne) _ IH]; simpl.
  - destruct Hn as [[e ->]|[data ->]]; [done|]. by rewrite bool_decide_eq_true_2.
  - by rewrite bool_decide_eq_false_2.
Qed.

(** An allocation is only ever made for IPv4 and for a port in the configured relay
    range (or a port left to the allocator); every other request is refused without
    touching the allocator, and an allocated connection carries the generator's media
    endpoint. *)
Theorem allocate_conn_guard g inner is_ipv4 port r addr :
  MediaRelayGenerator_allocate_conn g inner is_ipv4 port = Ok (r, addr) →
  is_ipv4 = true ∧ (port = 0 ∨ mg_min_port g ≤ port ≤ mg_max_port g) ∧
  inner true port = Ok (mr_conn r, addr) ∧
  public_endpoint r = SocketV4 (mg_public_ip g) (mg_media_port g).
Proof.
  unfold MediaRelayGenerator_allocate_conn. intros Ha. case_match eqn:Hg; [done|].
  bool_to_prop. subst. apply bind_Ok_iff in Ha as ([c a] & Hi & Ha). simplify_eq.
  split_and!; try done. destruct (Z.eqb_spec port 0); [by left|right]. simpl in *. lia.
Qed.
End Relay.
Arguments MediaRelayConn : clear implicits.

(** ** A concrete socket *)

Record test_socket := mkSocket { ts_peer : option SocketAddr; ts_sent : list SocketAddr }.

Definition ts_send (c : test_socket) (b : list Z) : test_socket * result Z :=
  match ts_peer c with
  | Some p => (mkSocket (Some p) (p :: ts_sent c), Ok (Z.of_nat (length b)))
  | None => (c, Err "not connected")
  end.

#[export] Instance test_socket_conn : UdpConn test_socket.
Proof.
  refine {|
    conn_connect c a := (mkSocket (Some a) (ts_sent c), Ok tt);
    conn_send := ts_send;
    conn_send_to c b a := (mkSocket (ts_peer c) (a :: ts_sent c), Ok (Z.of_nat (length b)));
    conn_local_addr c := Ok (SocketV4 LOCALHOST 40000);
    conn_remote_addr c := ts_peer c;
    conn_close c := (c, Ok tt);
    conn_peer := ts_peer;
    conn_sent := ts_sent
  |}; unfold ts_send; simpl; auto; intros c b; destruct (ts_peer c) eqn:Hp; simpl; eauto.
Defined.

Definition test_relay : MediaRelayConn test_socket :=
  mkRelayConn (mkSocket None []) (ipv4 203 0 113 7) 50000.

Lemma relay_reaches_only_media_witness :
  Forall (λ a, a = SocketV4 LOCALHOST 50000)
    (conn_sent (mr_conn (relay_run test_relay
      [OpSendTo [1] (SocketV4 (ipv4 169 254 169 254) 80);
       OpSendTo [2] (SocketV4 (ipv4 203 0 113 7) 50000);
       OpConnect (SocketV4 (ipv4 203 0 113 7) 50000); OpSend [3]])))
  ∧ length (conn_sent (mr_conn (relay_run test_relay
      [OpSendTo [1] (SocketV4 (ipv4 169 254 169 254) 80);
       OpSendTo [2] (SocketV4 (ipv4 203 0 113 7) 50000);
       OpConnect (SocketV4 (ipv4 203 0 113 7) 50000); OpSend [3]]))) = 2%nat.
Proof.
  split; [|reflexivity].
  apply (relay_reaches_only_media test_relay
      [OpSendTo [1] (SocketV4 (ipv4 169 254 169 254) 80);
       OpSendTo [2] (SocketV4 (ipv4 203 0 113 7) 50000);
       OpConnect (SocketV4 (ipv4 203 0 113 7) 50000); OpSend [3]]); reflexivity.
Defined.

Lemma relay_recv_skips_foreign_witness :
  MediaRelayConn_recv_from test_relay
    ([Ok ([1], SocketV4 (ipv4 10 0 0 1) 50000)] ++
     [Ok ([2], SocketV4 LOCALHOST 50000); Ok ([3], SocketV4 LOCALHOST 50000)])
  = Some (Ok ([2], SocketV4 (ipv4 203 0 113 7) 50000), [Ok ([3], SocketV4 LOCALHOST 50000)]).
Proof.
  apply (relay_recv_skips_foreign test_relay [Ok ([1], SocketV4 (ipv4 10 0 0 1) 50000)]
    (Ok ([2], SocketV4 LOCALHOST 50000)) [Ok ([3], SocketV4 LOCALHOST 50000)]).
  - constructor; [|constructor]. exists [1], (SocketV4 (ipv4 10 0 0 1) 50000).
    split; [reflexivity | vm_compute; discriminate].
  - right. exists [2]. reflexivity.
Defined.

Lemma allocate_conn_guard_witness :
  let g := mkRelayGenerator 49160 49999 (ipv4 203 0 113 7) 50000 in
  let inner := λ (_ : bool) (p : Z), Ok (mkSocket None [], SocketV4 (ipv4 203 0 113 7) p) in
  49160 ≤ 49200 ≤ 49999 ∧ inner true 49200 = Ok (mkSocket None [], SocketV4 (ipv4 203 0 113 7) 49200).
Proof.
  intros g inner.
  pose proof (allocate_conn_guard g inner true 49200 test_relay
    (SocketV4 (ipv4 203 0 113 7) 49200) eq_refl) as (_ & Hp & Hi & _).
  split; [simpl in Hp; lia | exact Hi].
Defined.
