(* ===== verification/Stream.v ===== *)
(** * TURN framing over TCP and TLS ([src/src/turn/stream.rs])

    A stream carries STUN messages (length field plus 20 byte header) and ChannelData
    messages (length field plus 4 byte header, padded to 32 bits). [StreamConn] turns the
    byte stream into datagrams for the TURN server and back. The bytes arrive in pieces that
    have nothing to do with the messages. *)

From Stdlib Require Import ZArith Lia.
From stdpp Require Import base tactics list strings.
From S2P Require Import Prelude Opus Net.
Local Open Scope Z_scope.

(** ** Reading *)

(** What the peer will send before it closes, in the pieces in which it arrives: one read of
    the stream gives bytes of the first piece only. *)
Definition chunks : Type := list (list Z).

(** A reader consumes them, also when it fails. *)
Definition reader (A : Type) : Type := chunks → result A * chunks.

#[export] Instance reader_ret : MRet reader := λ A a s, (Ok a, s).
#[export] Instance reader_bind : MBind reader := λ A B f m s,
  match m s with
  | (Ok a, s') => f a s'
  | (Err e, s') => (Err e, s')
  end.

Definition of_result {A} (r : result A) : reader A := λ s, (r, s).

(** The loop of [AsyncReadExt::read_exact]: it reads until the buffer is full, a read that
    takes part of a piece leaves the rest of it for the next one, and a read of no bytes is
    the end of the stream. *)
Fixpoint fill_buffer (n : nat) (stream : chunks) : result (list Z) * chunks :=
  match n, stream with
  | O, _ => (Ok [], stream)
  | _, [] => (Err "early eof", [])
  | _, [] :: stream => (Err "early eof", stream)
  | _, chunk :: stream =>
      if (n <? length chunk)%nat then (Ok (take n chunk), drop n chunk :: stream)
      else
        let '(r, rest) := fill_buffer (n - length chunk) stream in
        ((λ bytes, chunk ++ bytes) <$> r, rest)
  end.

Definition read_exact (n : Z) : reader (list Z) := fill_buffer (Z.to_nat n).

(** [u16::from_be_bytes] *)
Definition u16_from_be (hi lo : Z) : Z := Z.lor (Z.shiftl hi 8) lo.

(** The lengths announced by a 4 byte header: of the frame, and of what it takes in the
    stream. *)
Definition frame_lengths (header : list Z) : result (Z * Z) :=
  match header with
  | [h0; _; h2; h3] =>
      let payload_len := u16_from_be h2 h3 in
      let tag := Z.shiftr h0 6 in
      if tag =? 0 then
        if negb (payload_len mod 4 =? 0) then Err "unaligned STUN length"
        else Ok (20 + payload_len, 20 + payload_len)
      else if tag =? 1 then
        Ok (4 + payload_len, Z.land (4 + payload_len + 3) (Z.lnot 3))
      else Err "invalid TURN frame type"
  | _ => Err "early eof"
  end.

(** [StreamConn::read_frame] with a buffer of [buf_len] bytes. *)
Definition read_frame (buf_len : Z) : reader (list Z) :=
  header ← read_exact 4;
  '(len, padded_len) ← of_result (frame_lengths header);
  if buf_len <? len then of_result (Err "TURN frame exceeds MTU")
  else
    body ← read_exact (len - 4);
    _ ← read_exact (padded_len - len);
    mret (header ++ body).

(** ** Writing *)

Definition is_channel_data (buf : list Z) : bool :=
  match buf with b :: _ => Z.shiftr b 6 =? 1 | [] => false end.

(** The bytes [StreamConn::send] writes for a datagram. *)
Definition wire_bytes (buf : list Z) : list Z :=
  if is_channel_data buf
  then buf ++ take (Z.to_nat ((4 - Z.of_nat (length buf) mod 4) mod 4)) [0; 0; 0]
  else buf.

(** ** The connection

    [sc_input] is what the peer still has to deliver, [sc_output] what has been written,
    [sc_closed] the watch flag that ends the connection's task. *)

Record StreamConn := mkStreamConn {
  sc_input : chunks;
  sc_output : list Z;
  sc_local : SocketAddr;
  sc_remote : SocketAddr;
  sc_closed : bool
}.

(** [StreamConn::new] on a stream that will deliver [stream]. *)
Definition StreamConn_new (stream : chunks) (local remote : SocketAddr) : StreamConn :=
  mkStreamConn stream [] local remote false.

(** [closed] returns once the flag is set, at once when it already is. *)
Definition StreamConn_closed_returns (c : StreamConn) : bool := sc_closed c.

Definition StreamConn_local_addr (c : StreamConn) : result SocketAddr := Ok (sc_local c).
Definition StreamConn_remote_addr (c : StreamConn) : option SocketAddr := Some (sc_remote c).

(** Which branch of [recv]'s race completes first; when the read is cancelled, the bytes
    it had already taken are [lost]. *)
Inductive recv_race := FrameFirst | IdleTimeout (lost : nat) | ClosedFirst (lost : nat).

Definition StreamConn_recv (c : StreamConn) (buf_len : Z) (race : recv_race)
    : StreamConn * result (list Z) :=
  let '(r, rest) :=
    match race with
    | FrameFirst => read_frame buf_len (sc_input c)
    | IdleTimeout lost => (Err "idle TURN stream", (fill_buffer lost (sc_input c)).2)
    | ClosedFirst lost => (Err "closed", (fill_buffer lost (sc_input c)).2)
    end in
  (mkStreamConn rest (sc_output c) (sc_local c) (sc_remote c) (sc_closed c || negb (is_ok r)), r).

(** [recv_from] adds the fixed peer. *)
Definition StreamConn_recv_from (c : StreamConn) (buf_len : Z) (race : recv_race)
    : StreamConn * result (list Z * SocketAddr) :=
  let '(c', r) := StreamConn_recv c buf_len race in
  (c', (λ f, (f, sc_remote c)) <$> r).

Definition StreamConn_connect (c : StreamConn) (addr : SocketAddr) : result unit :=
  if negb (bool_decide (addr = sc_remote c))
  then Err "connected TURN stream cannot change peer" else Ok tt.

(** [send]: [written] is [None] when everything was written and flushed in time, or the
    error (a failed write or the 5 s timeout) with the bytes that got out before it. *)
Definition StreamConn_send (c : StreamConn) (buf : list Z)
    (failed : option (string * list Z)) : StreamConn * result Z :=
  match failed with
  | None =>
      (mkStreamConn (sc_input c) (sc_output c ++ wire_bytes buf) (sc_local c) (sc_remote c) (sc_closed c),
       Ok (Z.of_nat (length buf)))
  | Some (e, partial) =>
      (mkStreamConn (sc_input c) (sc_output c ++ partial) (sc_local c) (sc_remote c) true, Err e)
  end.

Definition StreamConn_send_to (c : StreamConn) (buf : list Z) (target : SocketAddr)
    (failed : option (string * list Z)) : StreamConn * result Z :=
  match StreamConn_connect c target with
  | Err e => (c, Err e)
  | Ok _ => StreamConn_send c buf failed
  end.

Definition StreamConn_close (c : StreamConn) : StreamConn * result unit :=
  (mkStreamConn (sc_input c) (sc_output c) (sc_local c) (sc_remote c) true, Ok tt).

(** ** Frames *)

(** A complete TURN datagram: a STUN message or a ChannelData message whose length field
    matches its size. *)
Definition turn_frame (f : list Z) : Prop :=
  ∃ h0 h1 h2 h3 body,
    f = h0 :: h1 :: h2 :: h3 :: body ∧ Forall is_byte f ∧
    let payload_len := 256 * h2 + h3 in
    (h0 / 64 = 0 ∧ payload_len mod 4 = 0 ∧ Z.of_nat (length body) = 16 + payload_len) ∨
    (h0 / 64 = 1 ∧ Z.of_nat (length body) = payload_len).

(** ** Lemmas *)

#[local] Arguments frame_lengths : simpl never.
#[local] Arguments read_exact : simpl never.

Lemma u16_from_be_value hi lo : is_byte hi → is_byte lo → u16_from_be hi lo = 256 * hi + lo.
Proof.
  intros Hh Hl. unfold u16_from_be, is_byte, is_uint in *.
  rewrite <- Z.add_nocarry_lor.
  - rewrite Z.shiftl_mul_pow2 by lia. lia.
  - apply Z.bits_inj_0. intros n. rewrite Z.land_spec.
    destruct (Z.ltb_spec n 8).
    + by rewrite Z.shiftl_spec_low.
    + destruct (Z.ltb_spec n 0); [lia|].
      rewrite (Z.bits_above_log2 lo n); [by rewrite andb_false_r|lia|].
      destruct (decide (lo = 0)) as [->|]; [change (Z.log2 0) with 0; lia|].
      apply Z.log2_lt_pow2; [lia|]. apply Z.lt_le_trans with (2 ^ 8); [lia|].
      apply Z.pow_le_mono_r; lia.
Qed.

(** Rounding up to a multiple of four. *)
Lemma pad_to_4 n : 0 ≤ n → Z.land (n + 3) (Z.lnot 3) = n + (4 - n mod 4) mod 4.
Proof.
  intros Hn.
  assert (Z.land (n + 3) (Z.lnot 3) = 4 * ((n + 3) / 4)) as ->.
  { rewrite <- Z.ldiff_land. change 3 with (Z.ones 2).
    rewrite Z.ldiff_ones_r, Z.shiftl_mul_pow2, Z.shiftr_div_pow2 by lia.
    change (2 ^ 2) with 4. change (Z.ones 2) with 3. lia. }
  Z.div_mod_to_equations. lia.
Qed.

Lemma reader_bind_run {A B} (m : reader A) (f : A → reader B) s a s' :
  m s = (Ok a, s') → (m ≫= f) s = f a s'.
Proof. intros H. unfold mbind, reader_bind. by rewrite H. Qed.

Lemma reader_bind_of_Ok {A B} (a : A) (f : A → reader B) s :
  (of_result (Ok a) ≫= f) s = f a s.
Proof. done. Qed.

Lemma reader_bind_Ok {A B} (m : reader A) (f : A → reader B) s b s'' :
  (m ≫= f) s = (Ok b, s'') → ∃ a s', m s = (Ok a, s') ∧ f a s' = (Ok b, s'').
Proof. unfold mbind, reader_bind. destruct (m s) as [[a|e] s']; naive_solver. Qed.

(** The pieces carry [bytes], none of them empty. *)
Definition delivers (s : chunks) (bytes : list Z) : Prop :=
  concat s = bytes ∧ Forall (λ chunk, chunk ≠ []) s.

(** Filling a buffer takes bytes of the whole stream, however it is cut into pieces. *)
Lemma fill_buffer_spec s : ∀ n bytes, delivers s bytes → (n ≤ length bytes)%nat →
  ∃ s', fill_buffer n s = (Ok (take n bytes), s') ∧ delivers s' (drop n bytes).
Proof.
  induction s as [|chunk s IH]; intros n bytes [<- Hne] Hn; [by destruct n; [exists []|simpl in Hn; lia]|].
  pose proof Hne as [Hne1 Hs]%list.Forall_cons. simpl in Hn. rewrite length_app in Hn.
  destruct n as [|n]; [by exists (chunk :: s)|]. cbn [fill_buffer concat].
  destruct chunk as [|b chunk]; [done|]. rewrite take_app, drop_app.
  destruct (Nat.ltb_spec (S n) (length (b :: chunk))) as [Hlt|Hge].
  - replace (S n - length (b :: chunk))%nat with 0%nat by lia. rewrite take_0, app_nil_r.
    eexists. split; [done|]. split; [done|]. constructor; [|done].
    intros Hd%(f_equal length). rewrite length_drop in Hd. simpl in *. lia.
  - destruct (IH (S n - length (b :: chunk))%nat (concat s)) as (s' & -> & Hs'); [done|lia|].
    exists s'. rewrite (take_ge (b :: chunk)), (drop_ge (b :: chunk)) by lia. by split.
Qed.

Lemma read_exact_app n (l1 l2 : list Z) s :
  Z.of_nat (length l1) = n → delivers s (l1 ++ l2) →
  ∃ s', read_exact n s = (Ok l1, s') ∧ delivers s' l2.
Proof.
  intros <- Hs. unfold read_exact. rewrite Nat2Z.id.
  destruct (fill_buffer_spec s (length l1) _ Hs) as (s' & -> & Hs'); [rewrite length_app; lia|].
  exists s'. by rewrite take_app_length, drop_app_length in *.
Qed.

Lemma fill_buffer_Ok s : ∀ n a s', fill_buffer n s = (Ok a, s') →
  concat s = a ++ concat s' ∧ length a = n.
Proof.
  induction s as [|chunk s IH]; intros [|n] a s'; cbn [fill_buffer]; try (by intros [= <- <-]).
  destruct chunk as [|b bs]; [done|]. generalize (b :: bs). clear b bs. intros chunk.
  destruct (Nat.ltb_spec (S n) (length chunk)) as [Hlt|Hge].
  - intros [= <- <-]. cbn [concat]. rewrite app_assoc, take_drop, length_take. split; [done|lia].
  - destruct (fill_buffer (S n - length chunk) s) as [[a1|e] s1] eqn:Hf; [|done].
    intros [= <- <-]. destruct (IH _ _ _ Hf) as [Hc Hl]. cbn [concat].
    rewrite Hc, app_assoc, length_app. split; [done|lia].
Qed.

Lemma read_exact_Ok n stream a b :
  0 ≤ n → read_exact n stream = (Ok a, b) →
  concat stream = a ++ concat b ∧ Z.of_nat (length a) = n.
Proof. intros Hn [Hc Hl]%fill_buffer_Ok. split; [done|lia]. Qed.

Lemma frame_lengths_cases h0 h1 h2 h3 :
  Forall is_byte [h0; h1; h2; h3] →
  let p := 256 * h2 + h3 in
  0 ≤ p < 65536 ∧
  frame_lengths [h0; h1; h2; h3] =
    (if h0 / 64 =? 0 then
       if p mod 4 =? 0 then Ok (20 + p, 20 + p) else Err "unaligned STUN length"
     else if h0 / 64 =? 1 then Ok (4 + p, 4 + p + (4 - (4 + p) mod 4) mod 4)
     else Err "invalid TURN frame type").
Proof.
  intros Hb p. rewrite !Forall_cons in Hb. destruct Hb as (H0 & H1 & H2 & H3 & _).
  unfold frame_lengths. rewrite u16_from_be_value, Z.shiftr_div_pow2 by (done || lia).
  change (2 ^ 6) with 64. fold p.
  assert (0 ≤ p < 65536) by (unfold p, is_byte, is_uint in *; lia).
  split; [done|]. rewrite pad_to_4 by lia.
  destruct (h0 / 64 =? 0); [by destruct (p mod 4 =? 0)|done].
Qed.

Lemma is_channel_data_cons h0 rest : is_channel_data (h0 :: rest) = (h0 / 64 =? 1).
Proof. simpl. by rewrite Z.shiftr_div_pow2. Qed.

(** The bytes of a frame on the wire: the frame and its zero padding. *)
Lemma wire_bytes_padding f : ∃ pad, wire_bytes f = f ++ pad ∧
  Z.of_nat (length pad) =
    if is_channel_data f then (4 - Z.of_nat (length f) mod 4) mod 4 else 0.
Proof.
  unfold wire_bytes. destruct (is_channel_data f).
  - eexists. split; [done|]. rewrite length_take. simpl.
    pose proof (Z.mod_pos_bound (4 - Z.of_nat (length f) mod 4) 4 ltac:(lia)). lia.
  - exists []. by rewrite app_nil_r.
Qed.

(** A frame [send] wrote is read back, whatever follows it in the stream. *)
Lemma read_frame_wire f rest buf_len s :
  turn_frame f → Z.of_nat (length f) ≤ buf_len → delivers s (wire_bytes f ++ rest) →
  ∃ s', read_frame buf_len s = (Ok f, s') ∧ delivers s' rest.
Proof.
  intros (h0 & h1 & h2 & h3 & body & -> & Hb & Hshape) Hlen.
  destruct (wire_bytes_padding (h0 :: h1 :: h2 :: h3 :: body)) as (pad & -> & Hpad).
  rewrite is_channel_data_cons in Hpad.
  assert (Forall is_byte [h0; h1; h2; h3]) as Hh.
  { rewrite !Forall_cons in *. naive_solver. }
  destruct (frame_lengths_cases h0 h1 h2 h3 Hh) as [Hp Hfl]. simpl in Hshape, Hp, Hfl.
  set (p := 256 * h2 + h3) in *.
  change (h0 :: h1 :: h2 :: h3 :: body) with ([h0; h1; h2; h3] ++ body).
  rewrite <- !app_assoc. intros Hs.
  destruct (read_exact_app 4 [h0; h1; h2; h3] _ _ eq_refl Hs) as (s1 & Hr1 & Hs1).
  unfold read_frame. rewrite (reader_bind_run _ _ _ _ _ Hr1), Hfl.
  change (length (h0 :: h1 :: h2 :: h3 :: body)) with (4 + length body)%nat in Hpad, Hlen.
  destruct Hshape as [(Ht & Hp4 & Hl)|(Ht & Hl)]; rewrite Ht in *; cbn [Z.eqb Pos.eqb] in *.
  - rewrite Hp4. cbn [Z.eqb]. rewrite reader_bind_of_Ok.
    destruct (Z.ltb_spec buf_len (20 + p)); [lia|].
    destruct (read_exact_app (20 + p - 4) body _ _ ltac:(lia) Hs1) as (s2 & Hr2 & Hs2).
    destruct (read_exact_app (20 + p - (20 + p)) pad _ _ ltac:(lia) Hs2) as (s3 & Hr3 & Hs3).
    exists s3. by rewrite (reader_bind_run _ _ _ _ _ Hr2), (reader_bind_run _ _ _ _ _ Hr3).
  - rewrite reader_bind_of_Ok.
    destruct (Z.ltb_spec buf_len (4 + p)); [lia|].
    replace (Z.of_nat (4 + length body)) with (4 + p) in Hpad by lia.
    destruct (read_exact_app (4 + p - 4) body _ _ ltac:(lia) Hs1) as (s2 & Hr2 & Hs2).
    destruct (read_exact_app (4 + p + (4 - (4 + p) mod 4) mod 4 - (4 + p)) pad _ _ ltac:(lia) Hs2)
      as (s3 & Hr3 & Hs3).
    exists s3. by rewrite (reader_bind_run _ _ _ _ _ Hr2), (reader_bind_run _ _ _ _ _ Hr3).
Qed.

(** The tail of [read_frame], once the header has announced consistent lengths. *)
Lemma read_body_sound h0 h1 h2 h3 len plen s1 body s2 pad rest :
  Forall is_byte ([h0; h1; h2; h3] ++ concat s1) →
  frame_lengths [h0; h1; h2; h3] = Ok (len, plen) →
  read_exact (len - 4) s1 = (Ok body, s2) → read_exact (plen - len) s2 = (Ok pad, rest) →
  let f := [h0; h1; h2; h3] ++ body in
  turn_frame f ∧ Z.of_nat (length f) = len ∧ concat s1 = body ++ pad ++ concat rest ∧
  Z.of_nat (length pad) = if is_channel_data f then (4 - len mod 4) mod 4 else 0.
Proof.
  intros [Hh Hb]%Forall_app Hlens Hr2 Hr3 f.
  destruct (frame_lengths_cases h0 h1 h2 h3 Hh) as [Hp Hfl]. rewrite Hfl in Hlens. clear Hfl.
  set (p := 256 * h2 + h3) in *.
  change (is_channel_data f) with (is_channel_data (h0 :: h1 :: h2 :: h3 :: body)).
  rewrite is_channel_data_cons.
  assert (Z.of_nat (length f) = 4 + Z.of_nat (length body)) as ->
    by (unfold f; rewrite length_app; simpl; lia).
  pose proof (Z.mod_pos_bound (4 - (4 + p) mod 4) 4 ltac:(lia)).
  assert (Forall is_byte body → turn_frame f ↔
    (h0 / 64 = 0 ∧ p mod 4 = 0 ∧ Z.of_nat (length body) = 16 + p) ∨
    (h0 / 64 = 1 ∧ Z.of_nat (length body) = p)) as Hturn.
  { intros Hbody. split.
    - intros (? & ? & ? & ? & ? & Heq & _ & Hs). unfold f in Heq. by simplify_eq/=.
    - intros Hs. exists h0, h1, h2, h3, body. split; [done|]. split; [|done].
      by apply Forall_app. }
  destruct (Z.eqb_spec (h0 / 64) 0) as [H0|H0];
    [destruct (Z.eqb_spec (p mod 4) 0); [|done]
    |destruct (Z.eqb_spec (h0 / 64) 1); [|done]]; simplify_eq;
    apply read_exact_Ok in Hr2 as [Hs1 Hl2]; try lia;
    apply read_exact_Ok in Hr3 as [Hs2 Hl3]; try lia; rewrite Hs1, Hs2 in *;
    apply Forall_app in Hb as [Hb2 _]; rewrite Hturn by done.
  - rewrite (proj2 (Z.eqb_neq (h0 / 64) 1)) by lia. split_and!; [left|..]; try lia; done.
  - split_and!; [right|..]; try lia; done.
Qed.

Lemma read_frame_sound buf_len stream f rest :
  Forall is_byte (concat stream) → read_frame buf_len stream = (Ok f, rest) →
  turn_frame f ∧ Z.of_nat (length f) ≤ buf_len ∧
  ∃ pad, concat stream = f ++ pad ++ concat rest ∧
    Z.of_nat (length pad) =
      if is_channel_data f then (4 - Z.of_nat (length f) mod 4) mod 4 else 0.
Proof.
  intros Hb H. unfold read_frame in H.
  apply reader_bind_Ok in H as (hd & s1 & Hr1 & H).
  apply read_exact_Ok in Hr1 as [Hs0 Hl1]; [|lia]. rewrite Hs0 in *.
  destruct hd as [|h0 [|h1 [|h2 [|h3 [|]]]]]; simpl in Hl1; try lia.
  apply reader_bind_Ok in H as ([len plen] & s1' & Hlens & H). injection Hlens as Hlens <-.
  destruct (Z.ltb_spec buf_len len) as [|Hfit]; [done|].
  apply reader_bind_Ok in H as (body & s2 & Hr2 & H).
  apply reader_bind_Ok in H as (pad & s3 & Hr3 & H).
  injection H as <- <-.
  destruct (read_body_sound _ _ _ _ _ _ _ _ _ _ _ Hb Hlens Hr2 Hr3) as (Hf & Hlen & Hs1 & Hp).
  rewrite <- Hlen in Hfit, Hp. rewrite Hs1.
  split; [exact Hf|]. split; [exact Hfit|]. exists pad. by split.
Qed.

(** ** Properties *)

(** [n] calls of [recv] in a row, each of which gets its frame within the 90 seconds it
    waits. *)
Fixpoint recv_all (n : nat) (c : StreamConn) (buf_len : Z) : StreamConn * list (result (list Z)) :=
  match n with
  | O => (c, [])
  | S n =>
      let '(c, r) := StreamConn_recv c buf_len FrameFirst in
      let '(c, rs) := recv_all n c buf_len in (c, r :: rs)
  end.

(** The bytes a connection has written after sending some datagrams. *)
Definition send_all (c : StreamConn) (fs : list (list Z)) : StreamConn :=
  foldl (λ c f, (StreamConn_send c f None).1) c fs.

Lemma send_all_output c fs :
  sc_output (send_all c fs) = sc_output c ++ concat (wire_bytes <$> fs).
Proof.
  revert c. induction fs as [|f fs IH]; intros c; simpl; [by rewrite app_nil_r|].
  unfold send_all in *. simpl. rewrite IH. simpl. by rewrite <- app_assoc.
Qed.

Lemma recv_all_wire fs rest buf_len : ∀ d,
  Forall turn_frame fs → Forall (λ f, Z.of_nat (length f) ≤ buf_len) fs →
  delivers (sc_input d) (concat (wire_bytes <$> fs) ++ rest) → sc_closed d = false →
  ∃ d', recv_all (length fs) d buf_len = (d', Ok <$> fs) ∧ delivers (sc_input d') rest ∧
    sc_closed d' = false.
Proof.
  induction fs as [|f fs IH]; intros d Hf Hl Hin Hopen; [by exists d|].
  apply Forall_cons in Hf as [Hf Hfs]. apply Forall_cons in Hl as [Hl Hls].
  rewrite fmap_cons in Hin. cbn [concat] in Hin. rewrite <- app_assoc in Hin.
  destruct (read_frame_wire f _ buf_len _ Hf Hl Hin) as (s' & Hr & Hs').
  cbn [length recv_all]. unfold StreamConn_recv. rewrite Hr, Hopen. simpl.
  destruct (IH (mkStreamConn s' (sc_output d) (sc_local d) (sc_remote d) false) Hfs Hls Hs' eq_refl)
    as (d' & -> & Hd' & Ho'). by exists d'.
Qed.

(** C25: Framing round trip. Any sequence of STUN and ChannelData messages that one end
    sends is received by the other end as the same sequence, message boundaries intact, in
    whatever pieces the stream delivers the bytes (a message cut in many, many in one) and
    whatever follows them. This is for messages that fit the receiver's buffer and a stream
    that never leaves a [recv] waiting for 90 seconds; the connection is then still open,
    and what follows is still to be received. *)
Theorem stream_framing_roundtrip c d fs later buf_len :
  Forall turn_frame fs → Forall (λ f, Z.of_nat (length f) ≤ buf_len) fs →
  sc_output c = [] → sc_closed d = false →
  Forall (λ chunk, chunk ≠ []) (sc_input d) →
  concat (sc_input d) = sc_output (send_all c fs) ++ later →
  ∃ d', recv_all (length fs) d buf_len = (d', Ok <$> fs) ∧
    concat (sc_input d') = later ∧ sc_closed d' = false.
Proof.
  intros Hf Hl Hc Hopen Hne Hin. rewrite send_all_output, Hc in Hin.
  destruct (recv_all_wire fs later buf_len d) as (d' & Hr & [Hd' _] & Ho); [done..|by split|done|].
  by exists d'.
Qed.

(** A ChannelData message cut in its header, and the end of it in one piece with a STUN
    message and what follows. *)
Lemma stream_framing_roundtrip_witness :
  let c := StreamConn_new [] (SocketV4 LOCALHOST 2) (SocketV4 LOCALHOST 1) in
  let stun := [0; 1; 0; 0] ++ repeat 0 16 in
  let d := StreamConn_new [[0x40; 0]; [0]; [1; 7; 0; 0; 0] ++ stun ++ [9]]
             (SocketV4 LOCALHOST 1) (SocketV4 LOCALHOST 2) in
  ∃ d', recv_all 2 d 1500 = (d', [Ok [0x40; 0; 0; 1; 7]; Ok stun]) ∧
    concat (sc_input d') = [9] ∧ sc_closed d' = false.
Proof.
  intros c stun d.
  apply (stream_framing_roundtrip c d [[0x40; 0; 0; 1; 7]; stun] [9] 1500); try reflexivity.
  - constructor; [|constructor; [|constructor]].
    + exists 0x40, 0, 0, 1, [7]. split; [reflexivity|]. split.
      * repeat constructor; unfold is_byte, is_uint; lia.
      * right. split; reflexivity.
    + exists 0, 1, 0, 0, (repeat 0 16). split; [reflexivity|]. split.
      * repeat constructor; unfold is_byte, is_uint; lia.
      * left. repeat split; reflexivity.
  - repeat constructor; vm_compute; discriminate.
  - by repeat constructor.
Defined.

(** What [read_frame] returns is always a complete TURN message that fits the caller's
    buffer, and together with its padding it is exactly the next bytes of the stream, a
    whole number of 32-bit words: the reader never loses frame alignment. *)
Theorem read_frame_aligned buf_len stream f rest :
  Forall is_byte (concat stream) → read_frame buf_len stream = (Ok f, rest) →
  turn_frame f ∧ Z.of_nat (length f) ≤ buf_len ∧
  ∃ pad, concat stream = f ++ pad ++ concat rest ∧ (length pad ≤ 3)%nat ∧
    (Z.of_nat (length f) + Z.of_nat (length pad)) mod 4 = 0.
Proof.
  intros Hb H. destruct (read_frame_sound _ _ _ _ Hb H) as (Hf & Hl & pad & Hs & Hp).
  split_and!; [done|done|]. exists pad. split; [done|].
  destruct Hf as (h0 & h1 & h2 & h3 & body & -> & _ & Hshape).
  rewrite is_channel_data_cons in Hp.
  change (length (h0 :: h1 :: h2 :: h3 :: body)) with (4 + length body)%nat in *.
  set (n := Z.of_nat (4 + length body)) in *. simpl in Hshape.
  destruct Hshape as [(H0 & Hp4 & Hb')|(H1 & Hb')].
  - rewrite H0 in Hp. simpl in Hp. split; [lia|].
    rewrite Hp. unfold n. Z.div_mod_to_equations. lia.
  - rewrite H1 in Hp. simpl in Hp.
    pose proof (Z.mod_pos_bound (4 - n mod 4) 4 ltac:(lia)). split; [lia|].
    rewrite Hp. Z.div_mod_to_equations. lia.
Qed.

Lemma read_frame_aligned_witness :
  read_frame 1500 [[0x40; 0; 0; 1; 7; 0]; [0; 0; 9]] = (Ok [0x40; 0; 0; 1; 7], [[9]]) ∧
  turn_frame [0x40; 0; 0; 1; 7].
Proof.
  split; [reflexivity|].
  apply (read_frame_aligned 1500 [[0x40; 0; 0; 1; 7; 0]; [0; 0; 9]] [0x40; 0; 0; 1; 7] [[9]]).
  - repeat constructor; unfold is_byte, is_uint; lia.
  - reflexivity.
Defined.

(** One operation on a connection. *)
Inductive conn_op :=
| ConnRecv (buf_len : Z) (race : recv_race)
| ConnSendTo (buf : list Z) (target : SocketAddr) (failed : option (string * list Z))
| ConnClose.

Definition conn_step (c : StreamConn) (op : conn_op) : StreamConn * bool :=
  match op with
  | ConnRecv n race => let '(c', r) := StreamConn_recv_from c n race in (c', is_ok r)
  | ConnSendTo buf target failed =>
      let '(c', r) := StreamConn_send_to c buf target failed in (c', is_ok r)
  | ConnClose => ((StreamConn_close c).1, true)
  end.

(** A stream connection that failed stays closed: any receive error (bad frame, end of
    stream, 90 s of silence) and any write error sets the closed flag that makes the
    server drop the connection, no operation ever clears the flag, and addressing another
    peer is refused without writing anything. *)
Theorem stream_failure_closes c op c' ok :
  conn_step c op = (c', ok) →
  (sc_closed c = true → sc_closed c' = true) ∧
  sc_remote c' = sc_remote c ∧
  (ok = false →
     sc_closed c' = true ∨
     ∃ buf target failed, op = ConnSendTo buf target failed ∧ target ≠ sc_remote c ∧ c' = c) ∧
  (op = ConnClose → sc_closed c' = true).
Proof.
  intros H. destruct op as [n race|buf target failed|]; simpl in H.
  - unfold StreamConn_recv_from, StreamConn_recv in H.
    destruct (match race with FrameFirst => _ | _ => _ end) as [[f|e] rest];
      simplify_eq/=; rewrite ?orb_false_r, ?orb_true_r; naive_solver.
  - unfold StreamConn_send_to, StreamConn_connect, StreamConn_send in H.
    case_bool_decide; simpl in H; [|simplify_eq; naive_solver].
    destruct failed as [[e p]|]; simplify_eq/=; naive_solver.
  - simplify_eq/=. naive_solver.
Qed.

Lemma stream_failure_closes_witness :
  sc_closed (conn_step (mkStreamConn [[0xC0; 0; 0; 0]] [] (SocketV4 LOCALHOST 2) (SocketV4 LOCALHOST 1) false)
               (ConnRecv 1500 FrameFirst)).1 = true.
Proof.
  destruct (stream_failure_closes
    (mkStreamConn [[0xC0; 0; 0; 0]] [] (SocketV4 LOCALHOST 2) (SocketV4 LOCALHOST 1) false) (ConnRecv 1500 FrameFirst)
    (mkStreamConn [] [] (SocketV4 LOCALHOST 2) (SocketV4 LOCALHOST 1) true) false eq_refl) as (_ & _ & H & _).
  destruct (H eq_refl) as [Hc|(? & ? & ? & Hop & _)]; [exact Hc|discriminate Hop].
Defined.
