(* ===== verification/Credentials.v ===== *)
(** * TURN credentials ([src/src/turn/credentials.rs])

    Short-lived TURN credentials bound to a WebSocket session: issued with an expiry,
    reused while they have more than 90 s left, checked by the TURN server on every
    authentication and revoked with the session. The key derivation of the [turn] crate
    and the UUIDs are arguments; [now] is the Unix time in seconds. *)

From Stdlib Require Import ZArith Lia.
From stdpp Require Import base tactics list gmap strings fin_maps sets.
From S2P Require Import Prelude.
Local Open Scope Z_scope.

Record IceServer := mkIceServer {
  is_urls : string;
  is_username : option string;
  is_credential : option string
}.

Record IceConfig := mkIceConfig {
  ic_ice_servers : list IceServer;
  ic_expires_at : option Z
}.

Record Credential := mkCredential {
  cr_session : string;
  cr_username : string;
  cr_password : string;
  cr_key : list Z;
  cr_expires_at : Z      (* u64 *)
}.

Record Credentials := mkCredentials {
  cs_realm : string;
  cs_ttl : Z;            (* u64 *)
  cs_entries : gmap string Credential
}.

Definition Credentials_new (realm : string) (ttl : Z) : Credentials :=
  mkCredentials realm ttl ∅.

Section Credentials.
(** [turn::auth::generate_auth_key(username, realm, password)] *)
Variable generate_auth_key : string → string → string → list Z.
Context `{!MapValues string Credential}.

(** The three UUIDs drawn for a new credential: one in hyphenated form, two simple. *)
Definition uuids : Type := string * string * string.

(** [entries.retain(|_, c| c.expires_at > now)] *)
Definition live (now : Z) (entries : gmap string Credential) : gmap string Credential :=
  filter (λ kc, now < cr_expires_at kc.2) entries.

(** The credential an [issue_at] may reuse. *)
Definition reusable (session : string) (now : Z) (c : Credential) : bool :=
  bool_decide (cr_session c = session) && (wrapping_add 64 now 90 <? cr_expires_at c).

Definition fresh_credential (s : Credentials) (session : string) (now : Z) (u : uuids)
    : Credential :=
  let '(u1, u2, u3) := u in
  let username := show (wrapping_add 64 now (cs_ttl s)) +:+ ":" +:+ u1 in
  let password := u2 +:+ u3 in
  mkCredential session username password
    (generate_auth_key username (cs_realm s) password) (wrapping_add 64 now (cs_ttl s)).

(** The [IceServer] entry of a URL: only [turn:] and [turns:] URLs carry the secret. *)
Definition ice_server (c : Credential) (url : string) : IceServer :=
  if starts_with url "turn"
  then mkIceServer url (Some (cr_username c)) (Some (cr_password c))
  else mkIceServer url None None.

(** The entries after [issue_at], and the credential handed out. *)
Definition issue_credential (s : Credentials) (session : string) (now : Z) (u : uuids)
    : gmap string Credential * Credential :=
  let entries := live now (cs_entries s) in
  match List.find (reusable session now) (values entries) with
  | Some c => (entries, c)
  | None =>
      let c := fresh_credential s session now u in
      (<[cr_username c := c]> entries, c)
  end.

Definition Credentials_issue_at (s : Credentials) (session : string) (urls : list string)
    (now : Z) (u : uuids) : Credentials * IceConfig :=
  let '(entries, c) := issue_credential s session now u in
  (mkCredentials (cs_realm s) (cs_ttl s) entries,
   mkIceConfig (ice_server c <$> urls) (Some (cr_expires_at c))).

Definition Credentials_revoke (s : Credentials) (session : string)
    : Credentials * list string :=
  (mkCredentials (cs_realm s) (cs_ttl s)
     (filter (λ kc, cr_session kc.2 ≠ session) (cs_entries s)),
   cr_username <$> filter (λ c, cr_session c = session) (values (cs_entries s))).

(** [unix_time], from the seconds since the epoch ([None]: the clock is before it). *)
Definition unix_time (since_epoch : option Z) : Z := default 0 since_epoch.

(** [issue] *)
Definition Credentials_issue (s : Credentials) (session : string) (urls : list string)
    (clock : option Z) (u : uuids) : Credentials * IceConfig :=
  Credentials_issue_at s session urls (unix_time clock) u.

(** [authenticate_at] *)
Definition Credentials_authenticate_at (s : Credentials) (username realm : string) (now : Z)
    : result (list Z) :=
  if negb (bool_decide (realm = cs_realm s)) then Err "invalid realm"
  else
    match cs_entries s !! username with
    | Some c =>
        if now <? cr_expires_at c then Ok (cr_key c)
        else Err "expired or unknown session credential"
    | None => Err "expired or unknown session credential"
    end.

(** [AuthHandler::auth_handle]; the source address is ignored. *)
Definition Credentials_auth_handle (s : Credentials) (username realm : string)
    (clock : option Z) : result (list Z) :=
  Credentials_authenticate_at s username realm (unix_time clock).

(** ** Well-formed stores *)

Definition credential_ok (realm k : string) (c : Credential) : Prop :=
  cr_username c = k ∧ cr_key c = generate_auth_key k realm (cr_password c).

Definition creds_wf (s : Credentials) : Prop :=
  map_Forall (credential_ok (cs_realm s)) (cs_entries s).

(** The times at which the store is used: no [u64] overflow ([validate] bounds the TTL by
    a day, and Unix time stays far below 2^63). *)
Definition time_ok (s : Credentials) (now : Z) : Prop :=
  0 ≤ now < 2 ^ 63 ∧ 180 ≤ cs_ttl s ≤ 2 ^ 32.

(** ** Lemmas *)

Lemma live_lookup now entries k c :
  live now entries !! k = Some c ↔ entries !! k = Some c ∧ now < cr_expires_at c.
Proof. unfold live. by rewrite map_lookup_filter_Some. Qed.

Lemma add_90 s now : time_ok s now → wrapping_add 64 now 90 = now + 90.
Proof. intros [??]. apply wrap_small. unfold is_uint. lia. Qed.

Lemma add_ttl s now : time_ok s now → wrapping_add 64 now (cs_ttl s) = now + cs_ttl s.
Proof. intros [??]. apply wrap_small. unfold is_uint. lia. Qed.

Lemma fresh_expires s session now u :
  time_ok s now → cr_expires_at (fresh_credential s session now u) = now + cs_ttl s.
Proof. intros Ht. destruct u as [[u1 u2] u3]. simpl. by apply add_ttl. Qed.

Lemma fresh_session s session now u : cr_session (fresh_credential s session now u) = session.
Proof. by destruct u as [[u1 u2] u3]. Qed.

Lemma reusable_spec s session now c :
  time_ok s now →
  reusable session now c = true ↔ cr_session c = session ∧ now + 90 < cr_expires_at c.
Proof.
  intros Ht. unfold reusable. rewrite (add_90 s), andb_true_iff by done.
  by rewrite bool_decide_eq_true, Z.ltb_lt.
Qed.

(** The two ways an [issue_at] can go. *)
Lemma issue_cases s session now u :
  time_ok s now →
  let '(entries, c) := issue_credential s session now u in
  cr_session c = session ∧
  ((∃ k, cs_entries s !! k = Some c ∧ now + 90 < cr_expires_at c ∧
         entries = live now (cs_entries s)) ∨
   ((∀ k c', cs_entries s !! k = Some c' → cr_session c' = session →
             cr_expires_at c' ≤ now + 90) ∧
    c = fresh_credential s session now u ∧
    entries = <[cr_username c := c]> (live now (cs_entries s)))).
Proof.
  intros Ht. unfold issue_credential.
  destruct (List.find _ _) as [c|] eqn:Hf.
  - apply find_some in Hf as [Hin Hr].
    apply list_elem_of_In, elem_of_values in Hin as [k Hk].
    apply live_lookup in Hk as [Hk _]. apply (reusable_spec s) in Hr as [Hs He]; [|done].
    split; [done|]. left. eauto.
  - split; [apply fresh_session|]. right. split; [|done].
    intros k c' Hk Hs.
    destruct (Z.le_gt_cases (cr_expires_at c') (now + 90)) as [|Hgt]; [done|exfalso].
    assert (c' ∈ values (live now (cs_entries s))) as Hin.
    { apply elem_of_values. exists k. apply live_lookup. split; [done|lia]. }
    apply list_elem_of_In in Hin. pose proof (find_none _ _ Hf _ Hin) as Hn.
    rewrite (proj2 (reusable_spec s session now c' Ht)) in Hn; [done|]. split; [done|lia].
Qed.

Lemma issue_in_store s session now u :
  time_ok s now → creds_wf s →
  let '(entries, c) := issue_credential s session now u in
  entries !! cr_username c = Some c ∧ credential_ok (cs_realm s) (cr_username c) c ∧
  now < cr_expires_at c.
Proof.
  intros Ht Hwf. pose proof (issue_cases s session now u Ht) as Hc.
  destruct (issue_credential s session now u) as [entries c].
  destruct Hc as [_ [(k & Hk & He & ->)|(_ & -> & ->)]].
  - destruct (Hwf _ _ Hk) as [Hu Hkey]. rewrite Hu. split_and!; [|done|lia].
    apply live_lookup. split; [done|lia].
  - rewrite lookup_insert_eq, fresh_expires by done.
    split_and!; [done| |destruct Ht; lia]. by destruct u as [[u1 u2] u3].
Qed.

Lemma issue_ttl s session urls now u :
  cs_ttl (Credentials_issue_at s session urls now u).1 = cs_ttl s.
Proof. unfold Credentials_issue_at. by destruct (issue_credential _ _ _ _). Qed.

Lemma issue_wf s session urls now u :
  time_ok s now → creds_wf s → creds_wf (Credentials_issue_at s session urls now u).1.
Proof.
  intros Ht Hwf. pose proof (issue_cases s session now u Ht) as Hc.
  pose proof (issue_in_store s session now u Ht Hwf) as Hi.
  unfold Credentials_issue_at. destruct (issue_credential s session now u) as [entries c].
  simpl. assert (map_Forall (credential_ok (cs_realm s)) (live now (cs_entries s))) as Hl.
  { intros k c' [Hk _]%live_lookup. by apply Hwf. }
  destruct Hi as (_ & Hok & _), Hc as [_ [(k & _ & _ & ->)|(_ & _ & ->)]]; [done|].
  by apply map_Forall_insert_2.
Qed.

Lemma revoke_wf s session : creds_wf s → creds_wf (Credentials_revoke s session).1.
Proof. intros Hwf k c [Hk _]%map_lookup_filter_Some. by apply Hwf. Qed.

(** ** Runs *)

Inductive cred_op :=
| OpIssue (session : string) (urls : list string) (now : Z) (u : uuids)
| OpRevoke (session : string).

Definition cred_step (s : Credentials) (op : cred_op) : Credentials :=
  match op with
  | OpIssue session urls now u => (Credentials_issue_at s session urls now u).1
  | OpRevoke session => (Credentials_revoke s session).1
  end.

Definition cred_run (s : Credentials) (ops : list cred_op) : Credentials :=
  foldl cred_step s ops.

(** The wall clock does not run backwards between issues, starting from [t]. *)
Fixpoint clock_monotone (t : Z) (ops : list cred_op) : Prop :=
  match ops with
  | [] => True
  | OpIssue _ _ now _ :: ops => t ≤ now < 2 ^ 63 ∧ clock_monotone now ops
  | OpRevoke _ :: ops => clock_monotone t ops
  end.

(** Time of the last issue in a run that started at [t]. *)
Fixpoint last_issue (t : Z) (ops : list cred_op) : Z :=
  match ops with
  | [] => t
  | OpIssue _ _ now _ :: ops => last_issue now ops
  | OpRevoke _ :: ops => last_issue t ops
  end.

(** Credentials of one session expire at least [ttl - 90] seconds apart, and all of them
    within [ttl] of the last issue. *)
Definition spaced (s : Credentials) : Prop :=
  ∀ k1 k2 c1 c2, k1 ≠ k2 → cs_entries s !! k1 = Some c1 → cs_entries s !! k2 = Some c2 →
    cr_session c1 = cr_session c2 →
    cr_expires_at c1 + (cs_ttl s - 90) ≤ cr_expires_at c2 ∨
    cr_expires_at c2 + (cs_ttl s - 90) ≤ cr_expires_at c1.

Definition within (s : Credentials) (t : Z) : Prop :=
  map_Forall (λ _ c, t < cr_expires_at c ≤ t + cs_ttl s) (cs_entries s).

Definition store_inv (s : Credentials) (t : Z) : Prop :=
  creds_wf s ∧ spaced s ∧ within s t ∧ 0 ≤ t < 2 ^ 63 ∧ 180 ≤ cs_ttl s ≤ 2 ^ 32.

Lemma issue_store_inv s t session urls now u :
  store_inv s t → t ≤ now < 2 ^ 63 →
  store_inv (Credentials_issue_at s session urls now u).1 now.
Proof.
  intros (Hwf & Hsp & Hin & Ht & Httl) Hnow.
  assert (time_ok s now) as Hok by (split; [lia|done]).
  split; [by apply issue_wf|]. split; [|split; [|rewrite issue_ttl; lia]].
  - pose proof (issue_cases s session now u Hok) as Hc.
    unfold Credentials_issue_at, spaced.
    destruct (issue_credential s session now u) as [entries c]. simpl.
    destruct Hc as [Hses [(k & _ & _ & ->)|(Hold & Hc & ->)]].
    { intros k1 k2 c1 c2 Hne [H1 _]%live_lookup [H2 _]%live_lookup. by apply (Hsp k1 k2). }
    intros k1 k2 c1 c2 Hne H1 H2 Heq.
    assert (cr_expires_at c = now + cs_ttl s) as He by (rewrite Hc; by apply fresh_expires).
    apply lookup_insert_Some in H1 as [[<- <-]|[? [H1 _]%live_lookup]];
      apply lookup_insert_Some in H2 as [[<- <-]|[? [H2 _]%live_lookup]]; try done.
    + right. specialize (Hold _ _ H2). rewrite <- Heq, Hses in Hold. specialize (Hold eq_refl). lia.
    + left. specialize (Hold _ _ H1). rewrite Heq, Hses in Hold. specialize (Hold eq_refl). lia.
    + by apply (Hsp k1 k2).
  - pose proof (issue_cases s session now u Hok) as Hc. unfold Credentials_issue_at, within.
    destruct (issue_credential s session now u) as [entries c]. simpl.
    assert (map_Forall (λ _ c, now < cr_expires_at c ≤ now + cs_ttl s)
              (live now (cs_entries s))) as Hl.
    { intros k c' [Hk He]%live_lookup. specialize (Hin _ _ Hk). simpl in *. lia. }
    destruct Hc as [_ [(k & _ & _ & ->)|(_ & -> & ->)]]; [done|].
    apply map_Forall_insert_2; [|done]. rewrite fresh_expires by done. lia.
Qed.

Lemma revoke_store_inv s t session :
  store_inv s t → store_inv (Credentials_revoke s session).1 t.
Proof.
  intros (Hwf & Hsp & Hin & Ht & Httl). split_and!; try (simpl; lia); [by apply revoke_wf| |].
  - intros k1 k2 c1 c2 Hne [H1 _]%map_lookup_filter_Some [H2 _]%map_lookup_filter_Some.
    by apply (Hsp k1 k2).
  - intros k c [Hk _]%map_lookup_filter_Some. exact (Hin k c Hk).
Qed.

Lemma run_store_inv ops : ∀ s t,
  store_inv s t → clock_monotone t ops → store_inv (cred_run s ops) (last_issue t ops).
Proof.
  induction ops as [|op ops IH]; intros s t Hs Hm; [done|].
  destruct op as [session urls now u|session]; simpl in *.
  - destruct Hm as [Hn Hm]. apply IH; [|done]. by eapply issue_store_inv.
  - apply IH; [|done]. by apply revoke_store_inv.
Qed.

Lemma new_store_inv realm ttl :
  180 ≤ ttl ≤ 2 ^ 32 → store_inv (Credentials_new realm ttl) 0.
Proof.
  intros Ht. split_and!; simpl; try lia; try apply map_Forall_empty.
  intros k1 k2 c1 c2 _ H1. simpl in H1. by rewrite lookup_empty in H1.
Qed.

Definition session_entries (s : Credentials) (session : string) : gmap string Credential :=
  filter (λ kc, cr_session kc.2 = session) (cs_entries s).

Lemma three_keys {V} (m : gmap string V) :
  (3 ≤ size m)%nat → ∃ k1 k2 k3 v1 v2 v3,
    k1 ≠ k2 ∧ k1 ≠ k3 ∧ k2 ≠ k3 ∧ m !! k1 = Some v1 ∧ m !! k2 = Some v2 ∧ m !! k3 = Some v3.
Proof.
  rewrite <- length_map_to_list. intros Hlen.
  pose proof (NoDup_fst_map_to_list m) as Hnd.
  assert (∀ k v, (k, v) ∈ map_to_list m → m !! k = Some v) as Hm.
  { intros. by apply elem_of_map_to_list. }
  destruct (map_to_list m) as [|[k1 v1] [|[k2 v2] [|[k3 v3] l]]]; simpl in Hlen; try lia.
  exists k1, k2, k3, v1, v2, v3. simpl in Hnd. rewrite !NoDup_cons in Hnd.
  split_and!; try (apply Hm; set_solver); set_solver.
Qed.

Lemma inv_two_per_session s t session :
  store_inv s t → (size (session_entries s session) ≤ 2)%nat.
Proof.
  intros (_ & Hsp & Hin & _ & Httl).
  destruct (decide (size (session_entries s session) ≤ 2)%nat) as [|Hgt]; [done|exfalso].
  destruct (three_keys (session_entries s session)) as
    (k1 & k2 & k3 & c1 & c2 & c3 & H12 & H13 & H23 & H1 & H2 & H3); [lia|].
  apply map_lookup_filter_Some in H1 as [H1 S1], H2 as [H2 S2], H3 as [H3 S3]. simpl in *.
  pose proof (Hin _ _ H1). pose proof (Hin _ _ H2). pose proof (Hin _ _ H3). simpl in *.
  pose proof (Hsp _ _ _ _ H12 H1 H2). pose proof (Hsp _ _ _ _ H13 H1 H3).
  pose proof (Hsp _ _ _ _ H23 H2 H3). rewrite S1, S2, S3 in *. intuition lia.
Qed.

(** ** Properties *)

(** C26: What [issue_at] hands to the browser works at the TURN server. Every [turn:] or
    [turns:] URL of the configuration carries a user name and password whose derived key
    is what authentication returns, at exactly the times before the announced expiry,
    which lies in the future; [stun:] URLs carry no secret. *)
Theorem issued_credential_authenticates s session urls now u :
  creds_wf s → time_ok s now →
  let '(s', cfg) := Credentials_issue_at s session urls now u in
  is_urls <$> ic_ice_servers cfg = urls ∧
  ∃ expiry, ic_expires_at cfg = Some expiry ∧ now < expiry ∧
    Forall (λ srv,
      if starts_with (is_urls srv) "turn" then
        ∃ name password, is_username srv = Some name ∧ is_credential srv = Some password ∧
          ∀ t, Credentials_authenticate_at s' name (cs_realm s) t =
               if t <? expiry then Ok (generate_auth_key name (cs_realm s) password)
               else Err "expired or unknown session credential"
      else is_username srv = None ∧ is_credential srv = None) (ic_ice_servers cfg).
Proof.
  intros Hwf Ht. pose proof (issue_in_store s session now u Ht Hwf) as Hi.
  unfold Credentials_issue_at. destruct (issue_credential s session now u) as [entries c].
  destruct Hi as (Hk & [_ Hkey] & He). simpl. split.
  { rewrite <- list_fmap_compose. rewrite <- (list_fmap_id urls) at 2.
    apply list_fmap_ext. intros i url _. simpl. unfold ice_server. by destruct (starts_with _ _). }
  exists (cr_expires_at c). split_and!; [done|done|].
  apply Forall_fmap, Forall_true. intros url. simpl. unfold ice_server.
  destruct (starts_with url "turn") eqn:Hu; simpl; rewrite Hu; [|done].
  exists (cr_username c), (cr_password c). split_and!; [done..|]. intros t.
  unfold Credentials_authenticate_at. simpl. rewrite bool_decide_eq_true_2 by done.
  simpl. by rewrite Hk, Hkey.
Qed.

(** However often a browser asks for ICE configuration, a session never has more than two
    credentials in memory (the current one and the one it replaces), provided the wall
    clock does not run backwards and the TTL is at least 180 s ([validate] asks for 300). *)
Theorem credentials_bounded realm ttl ops session :
  180 ≤ ttl ≤ 2 ^ 32 → clock_monotone 0 ops →
  (size (session_entries (cred_run (Credentials_new realm ttl) ops) session) ≤ 2)%nat.
Proof.
  intros Httl Hm. eapply inv_two_per_session, run_store_inv; [|exact Hm].
  by apply new_store_inv.
Qed.

(** The user names a revocation returns, and what they are good for afterwards. *)
Lemma revoke_names s session :
  creds_wf s → ∀ name, name ∈ (Credentials_revoke s session).2 ↔
    ∃ c, cs_entries s !! name = Some c ∧ cr_session c = session.
Proof.
  intros Hwf name. simpl. rewrite list_elem_of_fmap. split.
  - intros (c & -> & [Hs Hin]%list_elem_of_filter).
    apply elem_of_values in Hin as [k Hk]. destruct (Hwf _ _ Hk) as [-> _]. eauto.
  - intros (c & Hk & Hs). exists c. destruct (Hwf _ _ Hk) as [-> _]. split; [done|].
    apply list_elem_of_filter. split; [done|]. apply elem_of_values. eauto.
Qed.

Lemma revoke_no_auth s session name c :
  cs_entries s !! name = Some c → cr_session c = session →
  ∀ realm t, is_ok (Credentials_authenticate_at (Credentials_revoke s session).1 name realm t) = false.
Proof.
  intros Hk Hs realm t. unfold Credentials_authenticate_at. simpl. destruct (negb _); [done|].
  rewrite (proj2 (map_lookup_filter_None _ _ _)); [done|].
  right. intros c' Hk'. simplify_eq/=. naive_solver.
Qed.

(** Revoking a session returns exactly the user names of its credentials and makes every
    one of them unusable at once, while the credentials of all other sessions
    authenticate as before. *)
Theorem revoke_exact s session :
  creds_wf s →
  let '(s', names) := Credentials_revoke s session in
  (∀ name, name ∈ names ↔
     ∃ c, cs_entries s !! name = Some c ∧ cr_session c = session) ∧
  (∀ name realm t, name ∈ names → is_ok (Credentials_authenticate_at s' name realm t) = false) ∧
  (∀ name realm t, name ∉ names →
     Credentials_authenticate_at s' name realm t = Credentials_authenticate_at s name realm t).
Proof.
  intros Hwf. pose proof (revoke_names s session Hwf) as Hn. simpl in *.
  set (names := cr_username <$> _) in *.
  split_and!; [done|..]; intros name realm t Hin; apply Hn in Hin || idtac.
  - destruct Hin as (c & Hk & Hs). by apply (revoke_no_auth s session name c).
  - unfold Credentials_authenticate_at. simpl.
    destruct (negb _); [done|]. destruct (cs_entries s !! name) as [c|] eqn:Hk.
    + rewrite (proj2 (map_lookup_filter_Some _ _ _ c)); [done|]. split; [done|].
      simpl. intros Hs. apply Hin, Hn. eauto.
    + by rewrite (proj2 (map_lookup_filter_None _ _ _)); [|left].
Qed.

(** Issuing a new credential does not disturb the ones in use: until it expires by
    itself, every other user name authenticates exactly as before the issue (so an ICE
    restart can still use the old credential while the new one takes over). *)
Theorem issue_keeps_old_credentials s session urls now u name realm t :
  time_ok s now → now ≤ t → name ≠ cr_username (fresh_credential s session now u) →
  Credentials_authenticate_at (Credentials_issue_at s session urls now u).1 name realm t
  = Credentials_authenticate_at s name realm t.
Proof.
  intros Hok Ht Hname. pose proof (issue_cases s session now u Hok) as Hc.
  unfold Credentials_issue_at. destruct (issue_credential s session now u) as [entries c].
  unfold Credentials_authenticate_at. simpl. destruct (negb _); [done|].
  assert (entries !! name = live now (cs_entries s) !! name) as ->.
  { destruct Hc as [_ [(k & _ & _ & ->)|(_ & -> & ->)]]; [done|].
    by rewrite lookup_insert_ne. }
  destruct (live now (cs_entries s) !! name) as [c'|] eqn:Hl.
  - apply live_lookup in Hl as [-> _]. done.
  - destruct (cs_entries s !! name) as [c'|] eqn:Hk; [|done].
    destruct (Z.ltb_spec t (cr_expires_at c')); [|done]. exfalso.
    assert (live now (cs_entries s) !! name = Some c') as Hl'.
    { apply live_lookup. split; [done|lia]. }
    congruence.
Qed.
End Credentials.

(** ** Independence of the iteration order *)

Lemma find_unique_perm {A} (f : A → bool) (l l' : list A) :
  (∀ x y, x ∈ l → y ∈ l → f x = true → f y = true → x = y) → l ≡ₚ l' →
  List.find f l = List.find f l'.
Proof.
  intros Huniq Hp.
  destruct (List.find f l) as [x|] eqn:Hx.
  - apply find_some in Hx as [Hin Hf].
    destruct (List.find f l') as [y|] eqn:Hy.
    + apply find_some in Hy as [Hin' Hf']. f_equal.
      apply Huniq; try done; apply list_elem_of_In; [done|].
      apply (Permutation_in (l := l')); [by symmetry|done].
    + pose proof (find_none _ _ Hy x) as Hn. rewrite Hn in Hf; [done|].
      by apply (Permutation_in (l := l)).
  - destruct (List.find f l') as [y|] eqn:Hy; [|done].
    apply find_some in Hy as [Hin' Hf'].
    rewrite (find_none _ _ Hx y) in Hf'; [done|].
    apply (Permutation_in (l := l')); [by symmetry|done].
Qed.

(** In a reachable store at most one credential of a session is reusable. *)
Lemma reusable_unique gen s t session now k1 k2 c1 c2 :
  store_inv gen s t → t ≤ now < 2 ^ 63 →
  cs_entries s !! k1 = Some c1 → cs_entries s !! k2 = Some c2 →
  reusable session now c1 = true → reusable session now c2 = true → c1 = c2.
Proof.
  intros (_ & Hsp & Hin & Ht & Httl) Hn H1 H2 Hr1 Hr2.
  assert (time_ok s now) as Hok by (split; [lia|done]).
  apply (reusable_spec s) in Hr1 as [S1 E1]; [|done].
  apply (reusable_spec s) in Hr2 as [S2 E2]; [|done].
  destruct (decide (k1 = k2)) as [->|Hne]; [congruence|exfalso].
  pose proof (Hin _ _ H1). pose proof (Hin _ _ H2). simpl in *.
  pose proof (Hsp _ _ _ _ Hne H1 H2). rewrite S1, S2 in *. intuition lia.
Qed.

(** [issue_at] searches a [HashMap] in an unspecified order, yet the order never shows:
    in every state a run can reach, any two orders give the same credential and the same
    store. *)
Theorem issue_order_independent gen (order1 order2 : MapValues string Credential)
    realm ttl ops session urls now u :
  180 ≤ ttl ≤ 2 ^ 32 → clock_monotone 0 ops → last_issue 0 ops ≤ now < 2 ^ 63 →
  let s := @cred_run gen order1 (Credentials_new realm ttl) ops in
  @Credentials_issue_at gen order1 s session urls now u
  = @Credentials_issue_at gen order2 s session urls now u.
Proof.
  intros Httl Hm Hn s.
  pose proof (@run_store_inv gen order1 ops _ _ (new_store_inv gen realm ttl Httl) Hm) as Hinv.
  fold s in Hinv. unfold Credentials_issue_at, issue_credential.
  rewrite (find_unique_perm _ (@values _ _ _ _ order1 (live now (cs_entries s)))
             (@values _ _ _ _ order2 (live now (cs_entries s)))); [done| |].
  - intros c1 c2 [k1 Hk1]%elem_of_values [k2 Hk2]%elem_of_values.
    apply live_lookup in Hk1 as [Hk1 _], Hk2 as [Hk2 _]. 
    by apply (reusable_unique gen s (last_issue 0 ops) session now k1 k2 c1 c2).
  - rewrite (@values_perm _ _ _ _ order1). symmetry. apply values_perm.
Qed.

(** ** Concrete runs *)

Definition test_auth_key (username realm password : string) : list Z :=
  Z.of_nat <$> [String.length username; String.length realm; String.length password].

Definition test_urls : list string := ["stun:localhost:3478"; "turn:localhost:3478"].

Definition test_ops : list cred_op :=
  [OpIssue "a" test_urls 1000 ("u1", "p1", "q1"); OpIssue "b" test_urls 1000 ("u2", "p2", "q2");
   OpIssue "a" test_urls 1250 ("u3", "p3", "q3")].

Definition test_store : Credentials :=
  cred_run test_auth_key (Credentials_new "test" 300) test_ops.

Lemma test_store_wf : creds_wf test_auth_key test_store ∧ time_ok test_store 1250.
Proof.
  split; [|split; vm_compute; intuition discriminate].
  pose proof (run_store_inv test_auth_key test_ops _ _
    (new_store_inv test_auth_key "test" 300 ltac:(lia)) ltac:(simpl; lia)) as H.
  apply H.
Qed.

Lemma issued_credential_authenticates_witness :
  ic_expires_at (Credentials_issue_at test_auth_key test_store "c" test_urls 1250
    ("u4", "p4", "q4")).2 = Some 1550.
Proof.
  pose proof (issued_credential_authenticates test_auth_key test_store "c" test_urls 1250
    ("u4", "p4", "q4") (proj1 test_store_wf) (proj2 test_store_wf)) as H.
  destruct (Credentials_issue_at _ _ _ _ _ _) as [s' cfg] eqn:E.
  destruct H as (_ & e & He & _). vm_compute in E. injection E as _ <-. reflexivity.
Defined.

Lemma credentials_bounded_witness :
  (size (session_entries test_store "a") ≤ 2)%nat ∧ size (session_entries test_store "a") = 2%nat.
Proof.
  split; [|vm_compute; reflexivity].
  apply (credentials_bounded test_auth_key "test" 300 test_ops "a"); simpl; lia.
Defined.

Lemma revoke_exact_witness :
  length (Credentials_revoke test_store "a").2 = 2%nat ∧
  (∀ realm t, is_ok (Credentials_authenticate_at (Credentials_revoke test_store "a").1
     "1300:u1" realm t) = false).
Proof.
  split; [vm_compute; reflexivity|].
  pose proof (revoke_exact test_auth_key test_store "a" (proj1 test_store_wf)) as H.
  destruct H as (Hn & Hout & _). intros realm t. apply Hout, Hn.
  eexists. split; vm_compute; reflexivity.
Defined.

Lemma issue_keeps_old_credentials_witness :
  is_ok (Credentials_authenticate_at
    (Credentials_issue_at test_auth_key test_store "a" test_urls 1250 ("u5", "p5", "q5")).1
    "1300:u1" "test" 1299) = true.
Proof.
  rewrite (issue_keeps_old_credentials test_auth_key test_store "a" test_urls 1250
    ("u5", "p5", "q5") "1300:u1" "test" 1299 (proj2 test_store_wf));
    [vm_compute; reflexivity | lia | vm_compute; discriminate].
Defined.

(** Another iteration order: the canonical one reversed. *)
Definition reversed_values : MapValues string Credential.
Proof.
  refine {| values m := reverse (map_to_list m).*2 |}.
  intros m. by rewrite reverse_Permutation.
Defined.

Lemma issue_order_independent_witness :
  @Credentials_issue_at test_auth_key canonical_values test_store "a" test_urls 1260
    ("u6", "p6", "q6")
  = @Credentials_issue_at test_auth_key reversed_values test_store "a" test_urls 1260
    ("u6", "p6", "q6").
Proof.
  apply (issue_order_independent test_auth_key canonical_values reversed_values "test" 300
    test_ops "a" test_urls 1260 ("u6", "p6", "q6")); simpl; lia.
Defined.
