(* ===== verification/Text.v ===== *)
(** * Text processing of the Rust standard library

    Rust strings are UTF-8; here a [string] is its bytes. The functions below are the ones
    the program calls ([str::trim], [str::split(',')], [str::parse::<i64>],
    [str::to_lowercase] as far as ASCII letters go), defined on bytes. *)

From Stdlib Require Import ZArith Lia Ascii.
From stdpp Require Import base tactics list strings.
From S2P Require Import Prelude.
Local Open Scope Z_scope.

(** ** Concatenation *)

#[local] Arguments String.append : simpl nomatch.

Lemma string_app_assoc (s1 s2 s3 : string) : (s1 +:+ s2) +:+ s3 = s1 +:+ (s2 +:+ s3).
Proof. induction s1; simpl; congruence. Qed.

Lemma string_app_nil_r (s : string) : s +:+ EmptyString = s.
Proof. induction s; simpl; congruence. Qed.

(** ** White space

    The UTF-8 encodings of the characters with the Unicode property [White_Space], which
    [char::is_whitespace] tests. *)

Definition bytes (l : list nat) : string :=
  foldr (λ n s, String (ascii_of_nat n) s) EmptyString l.

Definition white_space : list string :=
  bytes <$>
  [[0x09]; [0x0A]; [0x0B]; [0x0C]; [0x0D]; [0x20]; [0xC2; 0x85]; [0xC2; 0xA0];
   [0xE1; 0x9A; 0x80]; [0xE2; 0x80; 0x80]; [0xE2; 0x80; 0x81]; [0xE2; 0x80; 0x82];
   [0xE2; 0x80; 0x83]; [0xE2; 0x80; 0x84]; [0xE2; 0x80; 0x85]; [0xE2; 0x80; 0x86];
   [0xE2; 0x80; 0x87]; [0xE2; 0x80; 0x88]; [0xE2; 0x80; 0x89]; [0xE2; 0x80; 0x8A];
   [0xE2; 0x80; 0xA8]; [0xE2; 0x80; 0xA9]; [0xE2; 0x80; 0xAF]; [0xE2; 0x81; 0x9F];
   [0xE3; 0x80; 0x80]]%nat.

(** Remove one prefix out of a list, if one matches. *)
Fixpoint strip_prefix (pre s : string) : option string :=
  match pre, s with
  | EmptyString, _ => Some s
  | String a pre, String b s => if Ascii.eqb a b then strip_prefix pre s else None
  | String _ _, EmptyString => None
  end.

Fixpoint strip_one (pres : list string) (s : string) : option string :=
  match pres with
  | [] => None
  | pre :: pres =>
      match strip_prefix pre s with Some s' => Some s' | None => strip_one pres s end
  end.

(** Every strip removes at least a byte, so the length is enough fuel. *)
Fixpoint strip_all (fuel : nat) (pres : list string) (s : string) : string :=
  match fuel with
  | O => s
  | S fuel => match strip_one pres s with Some s' => strip_all fuel pres s' | None => s end
  end.

Definition string_rev (s : string) : string := String.rev s.

Definition trim_start (s : string) : string := strip_all (String.length s) white_space s.
Definition trim_end (s : string) : string :=
  string_rev (strip_all (String.length s) (string_rev <$> white_space) (string_rev s)).

(** [str::trim] *)
Definition trim (s : string) : string := trim_end (trim_start s).

(** [str::is_empty] *)
Definition is_empty (s : string) : bool :=
  match s with EmptyString => true | String _ _ => false end.

(** ** Splitting at commas *)

Fixpoint split_comma (s : string) : list string :=
  match s with
  | EmptyString => [EmptyString]
  | String c s =>
      if Ascii.eqb c "," then EmptyString :: split_comma s
      else match split_comma s with
           | [] => [String c EmptyString]
           | x :: xs => String c x :: xs
           end
  end.

(** ** [str::parse::<i64>] *)

Definition digit_value (c : ascii) : option Z :=
  let n := Z.of_N (N_of_ascii c) in
  if (48 <=? n) && (n <=? 57) then Some (n - 48) else None.

Fixpoint parse_digits (acc : Z) (s : string) : option Z :=
  match s with
  | EmptyString => Some acc
  | String c s =>
      match digit_value c with Some d => parse_digits (10 * acc + d) s | None => None end
  end.

Definition i64_range (n : Z) : option Z :=
  if (- 2 ^ 63 <=? n) && (n <? 2 ^ 63) then Some n else None.

Definition parse_i64 (s : string) : option Z :=
  match s with
  | EmptyString => None
  | String c rest =>
      if Ascii.eqb c "-" then
        if is_empty rest then None
        else match parse_digits 0 rest with Some n => i64_range (- n) | None => None end
      else if Ascii.eqb c "+" then
        if is_empty rest then None
        else match parse_digits 0 rest with Some n => i64_range n | None => None end
      else match parse_digits 0 s with Some n => i64_range n | None => None end
  end.

(** ** Lower case of ASCII letters *)

Definition ascii_lower (c : ascii) : ascii :=
  let n := nat_of_ascii c in
  if (65 <=? n)%nat && (n <=? 90)%nat then ascii_of_nat (n + 32) else c.

Fixpoint to_lowercase (s : string) : string :=
  match s with
  | EmptyString => EmptyString
  | String c s => String (ascii_lower c) (to_lowercase s)
  end.

(** [u8::is_ascii_alphanumeric] *)
Definition is_ascii_alphanumeric (c : ascii) : bool :=
  let n := nat_of_ascii c in
  ((48 <=? n) && (n <=? 57) || (65 <=? n) && (n <=? 90) || (97 <=? n) && (n <=? 122))%nat.

Fixpoint string_forall (P : ascii → bool) (s : string) : bool :=
  match s with EmptyString => true | String c s => P c && string_forall P s end.

Example trim_example : trim ("  a b" +:+ bytes [0xC2; 0xA0; 0x0A]%nat) = "a b".
Proof. vm_compute. reflexivity. Qed.

Example parse_i64_example :
  (parse_i64 "-9223372036854775808", parse_i64 "9223372036854775808", parse_i64 "+7",
   parse_i64 "80a", parse_i64 "") = (Some (- 2 ^ 63), None, Some 7, None, None).
Proof. vm_compute. reflexivity. Qed.
