(* ===== verification/Config.v ===== *)
(** * Configuration ([src/src/config.rs])

    The TOML file goes through [${VAR}] expansion, parsing, [MUMDOTA_*] overrides,
    deserialization and validation. The environment is a function from names to values;
    the [toml] crate (parser and deserializer) and the file system are arguments. *)

From Stdlib Require Import ZArith Lia Ascii.
From stdpp Require Import base tactics list gmap strings option fin_maps.
From S2P Require Import Prelude Net Text.
Local Open Scope Z_scope.

(** ** The configuration record *)

Record ServerConfig := mkServerConfig {
  sv_listen_addr : string;
  sv_listen_port : Z;               (* u16 *)
  sv_max_connections : Z;           (* usize *)
  sv_allowed_origins : list string
}.

Record MumbleConfig := mkMumbleConfig {
  mb_host : string;
  mb_port : Z;                      (* u16 *)
  mb_accept_invalid_certs : bool
}.

Definition default_media_port : Z := 50000.

Record WebrtcConfig := mkWebrtcConfig {
  wr_stun_servers : list string;
  wr_udp_port : Z;                  (* u16 *)
  wr_public_ip : option Z           (* Ipv4Addr *)
}.

Record TurnConfig := mkTurnConfig {
  tn_enabled : bool;
  tn_listen_addr : Z;               (* Ipv4Addr *)
  tn_port : Z;                      (* u16 *)
  tn_public_ip : option Z;          (* Ipv4Addr *)
  tn_public_host : string;
  tn_realm : string;
  tn_relay_min_port : Z;            (* u16 *)
  tn_relay_max_port : Z;            (* u16 *)
  tn_credential_ttl_secs : Z;       (* u64 *)
  tn_tls_port : Z;                  (* u16 *)
  tn_tls_cert : option string;
  tn_tls_key : option string
}.

Definition TurnConfig_default : TurnConfig :=
  mkTurnConfig false UNSPECIFIED 3478 None "" "mumdota" 49160 49999 3600 5349 None None.

Record Config := mkConfig {
  server : ServerConfig;
  mumble : MumbleConfig;
  webrtc : WebrtcConfig;
  turn : TurnConfig
}.

(** ** Environment placeholders *)

(** [std::env::var]: [None] when the variable is unset (or not Unicode). *)
Definition environment : Type := string → option string.

(** [inner.find(":-")], and the two sides. *)
Fixpoint split_default (inner : string) : string * option string :=
  match inner with
  | EmptyString => (EmptyString, None)
  | String c rest =>
      match rest with
      | String d rest' =>
          if Ascii.eqb c ":" && Ascii.eqb d "-" then (EmptyString, Some rest')
          else let '(name, def) := split_default rest in (String c name, def)
      | EmptyString => (String c EmptyString, None)
      end
  end.

(** The value of one [${...}] placeholder. *)
Definition expand_placeholder (env : environment) (inner : string) : result string :=
  let '(var_name, default_val) := split_default inner in
  _ ← ensure (negb (is_empty var_name)) "empty variable name in config placeholder";
  match env var_name with
  | Some val => Ok val
  | None =>
      match default_val with
      | Some def => Ok def
      | None =>
          Err ("environment variable '" +:+ var_name +:+ "' is not set and has no default value")
      end
  end.

(** The loop of [expand_env_vars]. [inner] is [None] outside a placeholder and the text
    collected so far inside one (the inner [for] loop). *)
Fixpoint expand_scan (env : environment) (inner : option string) (input : string)
    : result string :=
  match inner with
  | None =>
      match input with
      | EmptyString => Ok EmptyString
      | String ch rest =>
          match rest with
          | String next rest' =>
              if Ascii.eqb ch "$" && Ascii.eqb next "{" then
                expand_scan env (Some EmptyString) rest'
              else out ← expand_scan env None rest; Ok (String ch out)
          | EmptyString => Ok (String ch EmptyString)
          end
      end
  | Some acc =>
      match input with
      | EmptyString => Err "unclosed '${' in config"
      | String c rest =>
          if Ascii.eqb c "}" then
            val ← expand_placeholder env acc;
            out ← expand_scan env None rest;
            Ok (val +:+ out)
          else expand_scan env (Some (acc +:+ String c EmptyString)) rest
      end
  end.

Definition expand_env_vars (env : environment) (input : string) : result string :=
  expand_scan env None input.

(** ** Overrides *)

(** [toml::Value] *)
Inductive Value :=
| VString (s : string)
| VInteger (n : Z)
| VFloat (repr : string)
| VBoolean (b : bool)
| VDatetime (repr : string)
| VArray (vs : list Value)
| VTable (t : gmap string Value).

(** [table.entry(section).or_insert_with(..).as_table_mut().unwrap().insert(key, v)];
    [None] when the section exists and is not a table, where [unwrap] panics. *)
Definition set_key (table : gmap string Value) (section key : string) (v : Value)
    : option (gmap string Value) :=
  match table !! section with
  | None => Some (<[section := VTable {[key := v]}]> table)
  | Some (VTable t) => Some (<[section := VTable (<[key := v]> t)]> table)
  | Some _ => None
  end.

(** The forms of override: [override_str!], [override_int!], [override_bool!], and the two
    comma-separated lists, of which [allowed_origins] drops empty items. *)
Inductive override_kind := OverrideStr | OverrideInt | OverrideBool | OverrideList | OverrideOrigins.

Record override := mkOverride {
  ov_section : string; ov_key : string; ov_env : string; ov_kind : override_kind
}.

(** The value an override writes; [None] when it writes nothing (an integer that does not
    parse). *)
Definition override_value (kind : override_kind) (val : string) : option Value :=
  match kind with
  | OverrideStr => Some (VString val)
  | OverrideInt => VInteger <$> parse_i64 val
  | OverrideBool =>
      let v := to_lowercase val in
      Some (VBoolean (String.eqb v "1" || String.eqb v "true" || String.eqb v "yes"))
  | OverrideList => Some (VArray ((λ s, VString (trim s)) <$> split_comma val))
  | OverrideOrigins =>
      Some (VArray (VString <$> List.filter (λ s, negb (is_empty s)) (trim <$> split_comma val)))
  end.

(** The calls of [apply_env_overrides], in order. *)
Definition overrides : list override := [
  mkOverride "server" "listen_addr" "MUMDOTA_SERVER_LISTEN_ADDR" OverrideStr;
  mkOverride "server" "listen_port" "MUMDOTA_SERVER_LISTEN_PORT" OverrideInt;
  mkOverride "server" "max_connections" "MUMDOTA_SERVER_MAX_CONNECTIONS" OverrideInt;
  mkOverride "mumble" "host" "MUMDOTA_MUMBLE_HOST" OverrideStr;
  mkOverride "mumble" "port" "MUMDOTA_MUMBLE_PORT" OverrideInt;
  mkOverride "mumble" "accept_invalid_certs" "MUMDOTA_MUMBLE_ACCEPT_INVALID_CERTS" OverrideBool;
  mkOverride "webrtc" "stun_servers" "MUMDOTA_WEBRTC_STUN_SERVERS" OverrideList;
  mkOverride "webrtc" "udp_port" "MUMDOTA_WEBRTC_UDP_PORT" OverrideInt;
  mkOverride "webrtc" "public_ip" "MUMDOTA_WEBRTC_PUBLIC_IP" OverrideStr;
  mkOverride "turn" "enabled" "MUMDOTA_TURN_ENABLED" OverrideBool;
  mkOverride "turn" "listen_addr" "MUMDOTA_TURN_LISTEN_ADDR" OverrideStr;
  mkOverride "turn" "public_ip" "MUMDOTA_TURN_PUBLIC_IP" OverrideStr;
  mkOverride "turn" "public_host" "MUMDOTA_TURN_PUBLIC_HOST" OverrideStr;
  mkOverride "turn" "realm" "MUMDOTA_TURN_REALM" OverrideStr;
  mkOverride "turn" "tls_cert" "MUMDOTA_TURN_TLS_CERT" OverrideStr;
  mkOverride "turn" "tls_key" "MUMDOTA_TURN_TLS_KEY" OverrideStr;
  mkOverride "turn" "port" "MUMDOTA_TURN_PORT" OverrideInt;
  mkOverride "turn" "tls_port" "MUMDOTA_TURN_TLS_PORT" OverrideInt;
  mkOverride "turn" "relay_min_port" "MUMDOTA_TURN_RELAY_MIN_PORT" OverrideInt;
  mkOverride "turn" "relay_max_port" "MUMDOTA_TURN_RELAY_MAX_PORT" OverrideInt;
  mkOverride "turn" "credential_ttl_secs" "MUMDOTA_TURN_CREDENTIAL_TTL_SECS" OverrideInt;
  mkOverride "server" "allowed_origins" "MUMDOTA_SERVER_ALLOWED_ORIGINS" OverrideOrigins
].

(** What an override writes in a given environment. *)
Definition override_effect (env : environment) (o : override) : option Value :=
  match env (ov_env o) with Some val => override_value (ov_kind o) val | None => None end.

Definition apply_override (env : environment) (table : gmap string Value) (o : override)
    : option (gmap string Value) :=
  match override_effect env o with
  | Some v => set_key table (ov_section o) (ov_key o) v
  | None => Some table
  end.

Fixpoint apply_overrides (env : environment) (table : gmap string Value) (os : list override)
    : option (gmap string Value) :=
  match os with
  | [] => Some table
  | o :: os => table' ← apply_override env table o; apply_overrides env table' os
  end.

Definition apply_env_overrides (env : environment) (table : gmap string Value)
    : option (gmap string Value) :=
  apply_overrides env table overrides.

(** ** Validation *)

Definition port_in (lo hi port : Z) : bool := (lo <=? port) && (port <=? hi).

Definition host_byte (c : ascii) : bool :=
  is_ascii_alphanumeric c || Ascii.eqb c "." || Ascii.eqb c "-".

Definition Config_validate (c : Config) : result unit :=
  _ ← ensure (0 <? sv_max_connections (server c)) "max_connections must be positive";
  if tn_enabled (turn c) then
    let t := turn c in
    ip ← ok_or (tn_public_ip t) "TURN requires turn.public_ip";
    _ ← ensure (negb (is_unspecified ip) && negb (is_multicast ip)) "invalid TURN public IP";
    _ ← ensure (bool_decide (wr_public_ip (webrtc c) = Some ip))
          "TURN and WebRTC public_ip must match";
    _ ← ensure (negb (wr_udp_port (webrtc c) =? 0)) "TURN requires a fixed WebRTC udp_port";
    _ ← ensure (negb (tn_port t =? 0) && negb (tn_port t =? wr_udp_port (webrtc c))
                && negb (tn_port t =? sv_listen_port (server c)))
          "TURN/media ports must be distinct and nonzero";
    _ ← ensure (negb (is_empty (tn_realm t))) "TURN realm is required";
    _ ← ensure (negb (is_empty (tn_public_host t)) && string_forall host_byte (tn_public_host t))
          "TURN public_host must be an IPv4 address or hostname";
    _ ← ensure ((300 <=? tn_credential_ttl_secs t) && (tn_credential_ttl_secs t <=? 86400))
          "TURN credential TTL must be 300..86400 seconds";
    _ ← ensure ((0 <? tn_relay_min_port t) && (tn_relay_min_port t <=? tn_relay_max_port t)
                && negb (port_in (tn_relay_min_port t) (tn_relay_max_port t) (wr_udp_port (webrtc c)))
                && negb (port_in (tn_relay_min_port t) (tn_relay_max_port t) (tn_port t)))
          "invalid or overlapping TURN relay port range";
    _ ← ensure (Bool.eqb (bool_decide (is_Some (tn_tls_cert t))) (bool_decide (is_Some (tn_tls_key t))))
          "TURN TLS requires both certificate and key";
    if bool_decide (is_Some (tn_tls_cert t)) then
      ensure (negb (tn_tls_port t =? 0) && negb (tn_tls_port t =? tn_port t)
              && negb (tn_tls_port t =? sv_listen_port (server c)))
        "TURN TLS port conflicts with another TCP listener"
    else Ok tt
  else Ok tt.

Definition Config_mumble_addr (c : Config) : string :=
  mb_host (mumble c) +:+ ":" +:+ show (mb_port (mumble c)).

Definition Config_listen_addr (c : Config) : string :=
  sv_listen_addr (server c) +:+ ":" +:+ show (sv_listen_port (server c)).

(** ** Loading *)

(** The outcome of a call that may also panic. *)
Inductive outcome (A : Type) := Returned (r : result A) | Panicked.
Arguments Returned {A} r.
Arguments Panicked {A}.

Definition with_context {A} (r : result A) (context : string) : result A :=
  match r with Ok a => Ok a | Err _ => Err context end.

(** [Config::load]: [contents] is what reading the file gives. *)
Definition Config_load (parse_toml : string → result (gmap string Value))
    (deserialize : gmap string Value → result Config)
    (env : environment) (path : string) (contents : result string) : outcome Config :=
  match with_context contents ("failed to read config file: " +:+ path) with
  | Err e => Returned (Err e)
  | Ok raw =>
      match with_context (expand_env_vars env raw)
              "failed to expand environment variable placeholders in config" with
      | Err e => Returned (Err e)
      | Ok expanded =>
          match with_context (parse_toml expanded) "failed to parse config TOML" with
          | Err e => Returned (Err e)
          | Ok table =>
              match apply_env_overrides env table with
              | None => Panicked
              | Some table' =>
                  Returned (config ← with_context (deserialize table') "failed to deserialize config";
                            _ ← Config_validate config;
                            Ok config)
              end
          end
      end
  end.

(** ** Specification of placeholder expansion: templates *)

Inductive segment :=
| Lit (s : string)
| Var (name : string) (default : option string).

Definition print_segment (g : segment) : string :=
  match g with
  | Lit s => s
  | Var name None => "${" +:+ name +:+ "}"
  | Var name (Some def) => "${" +:+ name +:+ ":-" +:+ def +:+ "}"
  end.

Definition print_template (gs : list segment) : string :=
  foldr (λ g s, print_segment g +:+ s) EmptyString gs.

Definition eval_segment (env : environment) (g : segment) : result string :=
  match g with
  | Lit s => Ok s
  | Var name def =>
      ok_or (match env name with Some v => Some v | None => def end)
        ("environment variable '" +:+ name +:+ "' is not set and has no default value")
  end.

Fixpoint eval_template (env : environment) (gs : list segment) : result string :=
  match gs with
  | [] => Ok EmptyString
  | g :: gs => v ← eval_segment env g; out ← eval_template env gs; Ok (v +:+ out)
  end.

(** Text that does not open a placeholder, whatever follows. *)
Fixpoint literal_ok (s : string) : bool :=
  match s with
  | EmptyString => true
  | String c rest =>
      negb (Ascii.eqb c "$" &&
            match rest with EmptyString => true | String d _ => Ascii.eqb d "{" end)
      && literal_ok rest
  end.

Definition no_brace (s : string) : bool := string_forall (λ c, negb (Ascii.eqb c "}")) s.

Definition segment_ok (g : segment) : bool :=
  match g with
  | Lit s => literal_ok s
  | Var name def =>
      negb (is_empty name) && no_brace name
      && bool_decide (split_default name = (name, None))
      && match def with Some d => no_brace d | None => true end
  end.

(** ** Lemmas on expansion *)

#[local] Arguments String.append : simpl nomatch.

Lemma scan_literal env s rest :
  literal_ok s = true →
  expand_scan env None (s +:+ rest) = out ← expand_scan env None rest; Ok (s +:+ out).
Proof.
  induction s as [|c s IH]; intros Hok.
  { change (EmptyString +:+ rest) with rest. by destruct (expand_scan env None rest). }
  simpl in Hok. apply andb_true_iff in Hok as [Hc Hs]. specialize (IH Hs).
  assert (expand_scan env None (String c s +:+ rest) =
          out ← expand_scan env None (s +:+ rest); Ok (String c out)) as ->.
  { apply negb_true_iff in Hc. destruct s as [|d s]; simpl in Hc |- *.
    - rewrite andb_true_r in Hc. rewrite Hc. simpl. by destruct rest.
    - by rewrite Hc. }
  rewrite IH. by destruct (expand_scan env None rest).
Qed.

Lemma scan_inner env body acc rest :
  no_brace body = true →
  expand_scan env (Some acc) (body +:+ String "}" rest) =
  val ← expand_placeholder env (acc +:+ body);
  out ← expand_scan env None rest; Ok (val +:+ out).
Proof.
  revert acc. induction body as [|c body IH]; intros acc Hb.
  - simpl. by rewrite string_app_nil_r.
  - apply andb_true_iff in Hb as [Hc Hb]. apply negb_true_iff in Hc.
    cbn [String.append expand_scan]. rewrite Hc, IH by done.
    rewrite string_app_assoc. done.
Qed.

Lemma split_default_cons c d rest :
  split_default (String c (String d rest)) =
  if Ascii.eqb c ":" && Ascii.eqb d "-" then (EmptyString, Some rest)
  else let '(name, def) := split_default (String d rest) in (String c name, def).
Proof. done. Qed.

Lemma split_default_app name def :
  split_default name = (name, None) →
  split_default (name +:+ ":-" +:+ def) = (name, Some def).
Proof.
  induction name as [|c name IH]; intros H; [done|].
  destruct name as [|d name].
  - change (String c EmptyString +:+ ":-" +:+ def)
      with (String c (String ":" (String "-" def))).
    rewrite split_default_cons, andb_false_r. done.
  - change (String c (String d name) +:+ ":-" +:+ def)
      with (String c (String d (name +:+ ":-" +:+ def))).
    rewrite split_default_cons in H |- *.
    destruct (Ascii.eqb c ":" && Ascii.eqb d "-"); [done|].
    destruct (split_default (String d name)) as [n o] eqn:E. simplify_eq.
    specialize (IH eq_refl).
    change (String d name +:+ ":-" +:+ def) with (String d (name +:+ ":-" +:+ def)) in IH.
    by rewrite IH.
Qed.

Lemma no_brace_app s1 s2 : no_brace (s1 +:+ s2) = no_brace s1 && no_brace s2.
Proof. unfold no_brace. induction s1 as [|c s IH]; simpl; [done|]. by rewrite IH, andb_assoc. Qed.

Lemma expand_placeholder_eval env inner n def :
  split_default inner = (n, def) → is_empty n = false →
  expand_placeholder env inner = eval_segment env (Var n def).
Proof.
  intros Hs Hn. unfold expand_placeholder, eval_segment. rewrite Hs, Hn.
  destruct (env n); [done|]. by destruct def.
Qed.

Lemma scan_segment env g rest :
  segment_ok g = true →
  expand_scan env None (print_segment g +:+ rest) =
  v ← eval_segment env g; out ← expand_scan env None rest; Ok (v +:+ out).
Proof.
  intros Hok. destruct g as [s|name def]; [by apply scan_literal|].
  unfold segment_ok in Hok. bool_to_prop.
  assert (∀ inner rest, expand_scan env None (("${" +:+ inner +:+ "}") +:+ rest)
            = expand_scan env (Some EmptyString) (inner +:+ String "}" rest)) as Hopen.
  { intros inner r. rewrite !string_app_assoc. done. }
  destruct def as [def|].
  - assert (print_segment (Var name (Some def)) = "${" +:+ (name +:+ ":-" +:+ def) +:+ "}") as ->.
    { unfold print_segment. by rewrite !string_app_assoc. }
    rewrite Hopen, scan_inner by (by rewrite no_brace_app; simpl; apply andb_true_intro).
    change (EmptyString +:+ name +:+ ":-" +:+ def) with (name +:+ ":-" +:+ def).
    by rewrite (expand_placeholder_eval _ _ _ _ (split_default_app _ def ltac:(eassumption))).
  - change (print_segment (Var name None)) with ("${" +:+ name +:+ "}").
    rewrite Hopen, scan_inner by done. change (EmptyString +:+ name) with name.
    by erewrite expand_placeholder_eval.
Qed.

(** C36: Placeholder expansion does what the template says. For every configuration text
    written as literals and [${NAME}] or [${NAME:-default}] placeholders, the result is
    the literals with each placeholder replaced by the variable's value, else by its
    default, and an error names the first variable that has neither. Values are inserted
    verbatim: a [${...}] inside a value is not expanded again. *)
Theorem expand_env_vars_template env gs :
  forallb segment_ok gs = true →
  expand_env_vars env (print_template gs) = eval_template env gs.
Proof.
  unfold expand_env_vars. induction gs as [|g gs IH]; intros Hok; [done|].
  simpl in Hok. apply andb_true_iff in Hok as [Hg Hgs].
  cbn [print_template foldr eval_template]. rewrite scan_segment by done.
  change (foldr (λ g s, print_segment g +:+ s) EmptyString gs) with (print_template gs).
  by rewrite IH.
Qed.

Lemma expand_env_vars_template_witness :
  expand_env_vars (λ n, if String.eqb n "HOST" then Some "${X}.example" else None)
    (print_template [Lit "host = '"; Var "HOST" None; Lit "'; port = "; Var "PORT" (Some "64738")])
  = Ok "host = '${X}.example'; port = 64738".
Proof.
  rewrite (expand_env_vars_template _
    [Lit "host = '"; Var "HOST" None; Lit "'; port = "; Var "PORT" (Some "64738")]);
    vm_compute; reflexivity.
Defined.

(** ** Overrides *)

(** The value at [section.key]. *)
Definition get_key (table : gmap string Value) (section key : string) : option Value :=
  match table !! section with Some (VTable t) => t !! key | _ => None end.

(** The sections the overrides write to are tables where they exist. *)
Definition sections_ok (table : gmap string Value) (os : list override) : Prop :=
  Forall (λ o, match table !! ov_section o with
               | None | Some (VTable _) => True | Some _ => False end) os.

Lemma set_key_some table section key v :
  match table !! section with None | Some (VTable _) => True | Some _ => False end →
  ∃ table', set_key table section key v = Some table' ∧
    (∀ s k, get_key table' s k =
       if bool_decide (s = section ∧ k = key) then Some v else get_key table s k) ∧
    (∀ os, sections_ok table os → sections_ok table' os).
Proof.
  intros Hs. unfold set_key, get_key, sections_ok.
  destruct (table !! section) as [[]|] eqn:Ht; try done; eexists;
    (split; [done|]; split;
     [ intros s k; rewrite lookup_insert; case_decide as Hd;
       [ subst; rewrite ?lookup_insert, ?lookup_singleton; case_decide as Hk;
         [ subst; by rewrite bool_decide_eq_true_2
         | rewrite bool_decide_eq_false_2 by naive_solver; by rewrite Ht ]
       | by rewrite bool_decide_eq_false_2 by naive_solver ]
     | intros os; apply Forall_weaken; intros o Ho;
       rewrite lookup_insert; case_decide; [done|exact Ho] ]).
Qed.

Definition override_at (o : override) (section key : string) : bool :=
  bool_decide (section = ov_section o ∧ key = ov_key o).

(** What a list of overrides with distinct targets does at every place. *)
Lemma apply_overrides_spec env os : ∀ table,
  NoDup ((λ o, (ov_section o, ov_key o)) <$> os) → sections_ok table os →
  ∃ table', apply_overrides env table os = Some table' ∧
    ∀ s k, get_key table' s k =
      match List.find (λ o, override_at o s k) os ≫= override_effect env with
      | Some v => Some v
      | None => get_key table s k
      end.
Proof.
  induction os as [|o os IH]; intros table Hnd Hok; [by exists table|].
  apply NoDup_cons in Hnd as [Hnot Hnd]. apply Forall_cons in Hok as [Ho Hok].
  assert (∃ table1, apply_override env table o = Some table1 ∧ sections_ok table1 os ∧
    ∀ s k, get_key table1 s k =
      if override_at o s k then
        match override_effect env o with Some v => Some v | None => get_key table s k end
      else get_key table s k) as (table1 & Ha & Hok1 & Hg1).
  { unfold apply_override. destruct (override_effect env o) as [v|].
    - destruct (set_key_some table (ov_section o) (ov_key o) v Ho) as (t1 & -> & Hg & Hs).
      exists t1. split_and!; [done|by apply Hs|]. intros s k. rewrite Hg. done.
    - exists table. split_and!; [done..|]. intros s k. by destruct (override_at o s k). }
  destruct (IH table1 Hnd Hok1) as (table' & Ha' & Hg').
  exists table'. simpl. rewrite Ha. split; [done|]. intros s k. rewrite Hg', Hg1.
  destruct (override_at o s k) eqn:Hat; [|done].
  destruct (List.find (λ o, override_at o s k) os) as [o'|] eqn:Hf; [exfalso|done].
  apply find_some in Hf as [Hin Hat']. unfold override_at in Hat, Hat'. bool_to_prop.
  apply Hnot, list_elem_of_fmap. exists o'. split; [|by apply list_elem_of_In].
  destruct Hat as [<- <-], Hat' as [<- <-]. done.
Qed.

Lemma overrides_distinct : NoDup ((λ o, (ov_section o, ov_key o)) <$> overrides).
Proof. apply (bool_decide_unpack _). vm_compute. exact I. Qed.

(** Environment variables override the file, one place each. On a parsed file whose
    [server], [mumble], [webrtc] and [turn] entries are tables (or missing), applying the
    overrides never panics, and afterwards every [section.key] holds the value of its own
    variable if that is set (for integers: set to a valid [i64]) and otherwise what the
    file said; nothing else changes. *)
Theorem env_overrides_spec env table :
  sections_ok table overrides →
  ∃ table', apply_env_overrides env table = Some table' ∧
    ∀ section key, get_key table' section key =
      match List.find (λ o, override_at o section key) overrides ≫= override_effect env with
      | Some v => Some v
      | None => get_key table section key
      end.
Proof. intros Hok. apply apply_overrides_spec; [apply overrides_distinct | exact Hok]. Qed.

Lemma env_overrides_spec_witness :
  let env := λ n, if String.eqb n "MUMDOTA_TURN_PORT" then Some "4000"
                  else if String.eqb n "MUMDOTA_SERVER_ALLOWED_ORIGINS" then Some "https://a, ,https://b"
                  else None in
  let table := {[ "turn" := VTable {[ "port" := VInteger 3478; "realm" := VString "r" ]} ]} in
  ∃ table', apply_env_overrides env table = Some table' ∧
    get_key table' "turn" "port" = Some (VInteger 4000) ∧
    get_key table' "turn" "realm" = Some (VString "r") ∧
    get_key table' "server" "allowed_origins"
      = Some (VArray [VString "https://a"; VString "https://b"]).
Proof.
  intros env table.
  destruct (env_overrides_spec env table) as (table' & Ha & Hg).
  - repeat constructor.
  - exists table'. split; [exact Ha|]. rewrite !Hg. repeat split; vm_compute; reflexivity.
Defined.

(** ** Validation *)

Inductive protocol := Tcp | Udp.

(** The ports the process listens on when TURN is enabled: the HTTP server, the media
    socket, the TURN listeners and the relay allocations. *)
Definition listeners (c : Config) (relay_port : Z) : list (protocol * Z) :=
  [(Tcp, sv_listen_port (server c)); (Udp, wr_udp_port (webrtc c));
   (Udp, tn_port (turn c)); (Tcp, tn_port (turn c)); (Udp, relay_port)]
  ++ (if bool_decide (is_Some (tn_tls_cert (turn c)))
      then [(Tcp, tn_tls_port (turn c))] else []).

(** Everything [validate] checks of an enabled TURN section. *)
Lemma validate_turn c u :
  Config_validate c = Ok u → tn_enabled (turn c) = true →
  let t := turn c in
  0 < sv_max_connections (server c) ∧
  (∃ ip, tn_public_ip t = Some ip ∧ wr_public_ip (webrtc c) = Some ip ∧
         is_unspecified ip = false ∧ is_multicast ip = false) ∧
  wr_udp_port (webrtc c) ≠ 0 ∧ tn_port t ≠ 0 ∧
  tn_port t ≠ wr_udp_port (webrtc c) ∧ tn_port t ≠ sv_listen_port (server c) ∧
  is_empty (tn_realm t) = false ∧ is_empty (tn_public_host t) = false ∧
  string_forall host_byte (tn_public_host t) = true ∧
  300 ≤ tn_credential_ttl_secs t ≤ 86400 ∧
  0 < tn_relay_min_port t ≤ tn_relay_max_port t ∧
  (∀ p, tn_relay_min_port t ≤ p ≤ tn_relay_max_port t →
        p ≠ wr_udp_port (webrtc c) ∧ p ≠ tn_port t) ∧
  (is_Some (tn_tls_cert t) ↔ is_Some (tn_tls_key t)) ∧
  (is_Some (tn_tls_cert t) → tn_tls_port t ≠ 0 ∧ tn_tls_port t ≠ tn_port t ∧
                             tn_tls_port t ≠ sv_listen_port (server c)).
Proof.
  intros H He. unfold Config_validate in H. rewrite He in H. result_inv.
  unfold port_in in *. bool_to_prop.
  match goal with H : Bool.eqb _ _ = true |- _ => apply Bool.eqb_prop in H as Htls end.
  assert (∀ p, tn_relay_min_port (turn c) ≤ p ≤ tn_relay_max_port (turn c) →
    p ≠ wr_udp_port (webrtc c) ∧ p ≠ tn_port (turn c)) as Hrel.
  { intros p Hp. repeat match goal with H : _ && _ = false |- _ =>
      apply andb_false_iff in H; rewrite !Z.leb_gt in H end. lia. }
  assert (is_Some (tn_tls_cert (turn c)) ↔ is_Some (tn_tls_key (turn c))) as Hiff
    by (destruct (tn_tls_cert (turn c)), (tn_tls_key (turn c)); try discriminate Htls;
        split; eauto).
  assert (is_Some (tn_tls_cert (turn c)) → tn_tls_port (turn c) ≠ 0 ∧
    tn_tls_port (turn c) ≠ tn_port (turn c) ∧
    tn_tls_port (turn c) ≠ sv_listen_port (server c)) as Hport.
  { intros Hc. rewrite (bool_decide_eq_true_2 _ Hc) in H. result_inv. bool_to_prop. lia. }
  eauto 25.
Qed.

(** C37: A validated configuration with TURN enabled gives every listener of the process its
    own protocol and port: the HTTP port, the media port, the TURN ports, the TLS port
    and every port of the relay range never collide, so start-up cannot fail on a clash
    of the program with itself. *)
Theorem validated_listeners_distinct c u relay_port :
  Config_validate c = Ok u → tn_enabled (turn c) = true →
  tn_relay_min_port (turn c) ≤ relay_port ≤ tn_relay_max_port (turn c) →
  NoDup (listeners c relay_port).
Proof.
  intros H He Hr. pose proof (validate_turn c u H He) as Hv. simpl in Hv.
  destruct Hv as (_ & _ & _ & _ & Hpu & Hpl & _ & _ & _ & _ & _ & Hrel & _ & Htls).
  destruct (Hrel _ Hr) as [Hru Hrp]. unfold listeners.
  case_bool_decide as Hc.
  - destruct (Htls Hc) as (_ & Htp & Htl). simpl.
    repeat (constructor; [rewrite ?elem_of_cons, ?elem_of_nil; naive_solver|]). constructor.
  - simpl. repeat (constructor; [rewrite ?elem_of_cons, ?elem_of_nil; naive_solver|]). constructor.
Qed.

Definition test_config : Config :=
  mkConfig (mkServerConfig "0.0.0.0" 8080 100 ["https://example.com"])
    (mkMumbleConfig "m.example.com" 64738 true)
    (mkWebrtcConfig [] 50000 (Some (ipv4 203 0 113 10)))
    (mkTurnConfig true UNSPECIFIED 3478 (Some (ipv4 203 0 113 10)) "turn.example.com" "mumdota"
       49160 49999 3600 5349 (Some "/etc/mumdota/tls/tls.crt") (Some "/etc/mumdota/tls/tls.key")).

Lemma validated_listeners_distinct_witness : NoDup (listeners test_config 49160).
Proof.
  apply (validated_listeners_distinct test_config tt 49160).
  - vm_compute. reflexivity.
  - reflexivity.
  - simpl. lia.
Defined.

(** [Config::load] never returns an unchecked configuration: a returned configuration
    passed validation, was deserialized from the parsed file with the environment's
    overrides applied, and a missing file, an unexpandable placeholder, bad TOML or a
    failed check is an error, never a default. *)
Theorem load_validates parse_toml deserialize env path contents c :
  Config_load parse_toml deserialize env path contents = Returned (Ok c) →
  Config_validate c = Ok tt ∧
  ∃ raw expanded table table',
    contents = Ok raw ∧ expand_env_vars env raw = Ok expanded ∧
    parse_toml expanded = Ok table ∧ apply_env_overrides env table = Some table' ∧
    deserialize table' = Ok c.
Proof.
  unfold Config_load. intros H.
  destruct contents as [raw|]; simpl in H; [|done].
  destruct (expand_env_vars env raw) as [expanded|] eqn:H1; simpl in H; [|done].
  destruct (parse_toml expanded) as [table|] eqn:H2; simpl in H; [|done].
  destruct (apply_env_overrides env table) as [table'|] eqn:H3; [|done].
  injection H as H. destruct (deserialize table') as [cfg|] eqn:H4; simpl in H; [|done].
  apply bind_Ok_iff in H as ([] & Hv & H). simplify_eq.
  split; [done|]. by exists raw, expanded, table, table'.
Qed.

Lemma load_validates_witness :
  Config_validate test_config = Ok tt.
Proof.
  apply (load_validates (λ _, Ok ∅) (λ _, Ok test_config) (λ _, None) "config.toml" (Ok "")
    test_config).
  vm_compute. reflexivity.
Defined.
