(* ===== verification/Deserialize.v ===== *)
(** * From a TOML table to the configuration ([src/src/config.rs])

    [serde] derives the deserializer from the types of [config.rs] and their attributes:
    which keys must be there, which have a default, and the range of every integer. Here it
    is written out on TOML tables, and joined with the overrides: what the environment says
    is what the configuration has. Texts of errors are the library's, so an error is [None];
    an array in the place of a table, which [serde] would read by position, is not covered. *)

From Stdlib Require Import ZArith Lia Ascii.
From stdpp Require Import base tactics list gmap strings option fin_maps.
From S2P Require Import Prelude Opus Net Text Config.
Local Open Scope Z_scope.

(** ** IPv4 addresses as text *)

Fixpoint split_dot (s : string) : list string :=
  match s with
  | EmptyString => [EmptyString]
  | String c s =>
      if Ascii.eqb c "." then EmptyString :: split_dot s
      else match split_dot s with
           | [] => [String c EmptyString]
           | x :: xs => String c x :: xs
           end
  end.

(** One to three decimal digits, at most 255, and no leading zero. *)
Definition parse_octet (s : string) : option Z :=
  if (String.length s =? 0)%nat || (3 <? String.length s)%nat then None
  else if (1 <? String.length s)%nat && starts_with s "0" then None
  else match parse_digits 0 s with
       | Some n => if n <=? 255 then Some n else None
       | None => None
       end.

(** [Ipv4Addr::from_str] *)
Definition parse_ipv4 (s : string) : option Z :=
  match split_dot s with
  | [a; b; c; d] =>
      a ← parse_octet a; b ← parse_octet b; c ← parse_octet c; d ← parse_octet d; Some (ipv4 a b c d)
  | _ => None
  end.

(** ** Readers *)

Definition read_string (v : Value) : option string :=
  match v with VString s => Some s | _ => None end.
Definition read_bool (v : Value) : option bool :=
  match v with VBoolean b => Some b | _ => None end.
Definition read_uint (w : Z) (v : Value) : option Z :=
  match v with VInteger n => if (0 <=? n) && (n <? 2 ^ w) then Some n else None | _ => None end.
Definition read_strings (v : Value) : option (list string) :=
  match v with VArray vs => mapM read_string vs | _ => None end.
Definition read_ipv4 (v : Value) : option Z := read_string v ≫= parse_ipv4.
Definition read_table (v : Value) : option (gmap string Value) :=
  match v with VTable t => Some t | _ => None end.

(** A field without a default, with one, and an optional one; [v] is the value of its key. *)
Definition field {A} (v : option Value) (read : Value → option A) : option A := v ≫= read.
Definition field_or {A} (v : option Value) (read : Value → option A) (dflt : A) : option A :=
  match v with Some v => read v | None => Some dflt end.
Definition field_opt {A} (v : option Value) (read : Value → option A) : option (option A) :=
  match v with Some v => Some <$> read v | None => Some None end.

(** ** The structs *)

Definition ServerConfig_deserialize (get : string → option Value) : option ServerConfig :=
  listen_addr ← field (get "listen_addr") read_string;
  listen_port ← field (get "listen_port") (read_uint 16);
  max_connections ← field (get "max_connections") (read_uint 64);
  allowed_origins ← field_or (get "allowed_origins") read_strings [];
  Some (mkServerConfig listen_addr listen_port max_connections allowed_origins).

Definition MumbleConfig_deserialize (get : string → option Value) : option MumbleConfig :=
  host ← field (get "host") read_string;
  port ← field (get "port") (read_uint 16);
  accept_invalid_certs ← field (get "accept_invalid_certs") read_bool;
  Some (mkMumbleConfig host port accept_invalid_certs).

Definition WebrtcConfig_deserialize (get : string → option Value) : option WebrtcConfig :=
  stun_servers ← field_or (get "stun_servers") read_strings [];
  udp_port ← field_or (get "udp_port") (read_uint 16) default_media_port;
  public_ip ← field_opt (get "public_ip") read_ipv4;
  Some (mkWebrtcConfig stun_servers udp_port public_ip).

(** [#[serde(default)]] on the struct: a missing field is that of [TurnConfig::default]. *)
Definition TurnConfig_deserialize (get : string → option Value) : option TurnConfig :=
  let d := TurnConfig_default in
  enabled ← field_or (get "enabled") read_bool (tn_enabled d);
  listen_addr ← field_or (get "listen_addr") read_ipv4 (tn_listen_addr d);
  port ← field_or (get "port") (read_uint 16) (tn_port d);
  public_ip ← field_opt (get "public_ip") read_ipv4;
  public_host ← field_or (get "public_host") read_string (tn_public_host d);
  realm ← field_or (get "realm") read_string (tn_realm d);
  relay_min_port ← field_or (get "relay_min_port") (read_uint 16) (tn_relay_min_port d);
  relay_max_port ← field_or (get "relay_max_port") (read_uint 16) (tn_relay_max_port d);
  credential_ttl_secs ← field_or (get "credential_ttl_secs") (read_uint 64) (tn_credential_ttl_secs d);
  tls_port ← field_or (get "tls_port") (read_uint 16) (tn_tls_port d);
  tls_cert ← field_opt (get "tls_cert") read_string;
  tls_key ← field_opt (get "tls_key") read_string;
  Some (mkTurnConfig enabled listen_addr port public_ip public_host realm relay_min_port
          relay_max_port credential_ttl_secs tls_port tls_cert tls_key).

(** A section of the file. *)
Definition section {A} (table : gmap string Value) (name : string)
    (read : (string → option Value) → option A) : option A :=
  match table !! name with Some (VTable t) => read (λ key, t !! key) | _ => None end.

Definition Config_deserialize (table : gmap string Value) : option Config :=
  server ← section table "server" ServerConfig_deserialize;
  mumble ← section table "mumble" MumbleConfig_deserialize;
  webrtc ← section table "webrtc" WebrtcConfig_deserialize;
  turn ← match table !! "turn" with
         | None => Some TurnConfig_default
         | Some _ => section table "turn" TurnConfig_deserialize
         end;
  Some (mkConfig server mumble webrtc turn).

(** ** What the environment says *)

Definition truthy (val : string) : bool :=
  let v := to_lowercase val in String.eqb v "1" || String.eqb v "true" || String.eqb v "yes".

Section Environment.
Variable env : environment.

Definition env_str (name old : string) : string := default old (env name).
Definition env_opt_str (name : string) (old : option string) : option string :=
  match env name with Some val => Some val | None => old end.
Definition env_int (name : string) (old : Z) : Z := default old (env name ≫= parse_i64).
Definition env_bool (name : string) (old : bool) : bool :=
  match env name with Some val => truthy val | None => old end.
Definition env_ip (name : string) (old : Z) : Z :=
  match env name with Some val => default old (parse_ipv4 val) | None => old end.
Definition env_opt_ip (name : string) (old : option Z) : option Z :=
  match env name with Some val => parse_ipv4 val | None => old end.
Definition env_list (name : string) (old : list string) : list string :=
  match env name with Some val => trim <$> split_comma val | None => old end.
Definition env_origins (name : string) (old : list string) : list string :=
  match env name with
  | Some val => List.filter (λ s, negb (is_empty s)) (trim <$> split_comma val)
  | None => old
  end.

(** A section with every field overridden that has its variable set. *)
Definition override_server (s : ServerConfig) : ServerConfig :=
  mkServerConfig (env_str "MUMDOTA_SERVER_LISTEN_ADDR" (sv_listen_addr s))
    (env_int "MUMDOTA_SERVER_LISTEN_PORT" (sv_listen_port s))
    (env_int "MUMDOTA_SERVER_MAX_CONNECTIONS" (sv_max_connections s))
    (env_origins "MUMDOTA_SERVER_ALLOWED_ORIGINS" (sv_allowed_origins s)).

Definition override_mumble (m : MumbleConfig) : MumbleConfig :=
  mkMumbleConfig (env_str "MUMDOTA_MUMBLE_HOST" (mb_host m))
    (env_int "MUMDOTA_MUMBLE_PORT" (mb_port m))
    (env_bool "MUMDOTA_MUMBLE_ACCEPT_INVALID_CERTS" (mb_accept_invalid_certs m)).

Definition override_webrtc (w : WebrtcConfig) : WebrtcConfig :=
  mkWebrtcConfig (env_list "MUMDOTA_WEBRTC_STUN_SERVERS" (wr_stun_servers w))
    (env_int "MUMDOTA_WEBRTC_UDP_PORT" (wr_udp_port w))
    (env_opt_ip "MUMDOTA_WEBRTC_PUBLIC_IP" (wr_public_ip w)).

Definition override_turn (t : TurnConfig) : TurnConfig :=
  mkTurnConfig (env_bool "MUMDOTA_TURN_ENABLED" (tn_enabled t))
    (env_ip "MUMDOTA_TURN_LISTEN_ADDR" (tn_listen_addr t))
    (env_int "MUMDOTA_TURN_PORT" (tn_port t))
    (env_opt_ip "MUMDOTA_TURN_PUBLIC_IP" (tn_public_ip t))
    (env_str "MUMDOTA_TURN_PUBLIC_HOST" (tn_public_host t))
    (env_str "MUMDOTA_TURN_REALM" (tn_realm t))
    (env_int "MUMDOTA_TURN_RELAY_MIN_PORT" (tn_relay_min_port t))
    (env_int "MUMDOTA_TURN_RELAY_MAX_PORT" (tn_relay_max_port t))
    (env_int "MUMDOTA_TURN_CREDENTIAL_TTL_SECS" (tn_credential_ttl_secs t))
    (env_int "MUMDOTA_TURN_TLS_PORT" (tn_tls_port t))
    (env_opt_str "MUMDOTA_TURN_TLS_CERT" (tn_tls_cert t))
    (env_opt_str "MUMDOTA_TURN_TLS_KEY" (tn_tls_key t)).

Definition override_config (c : Config) : Config :=
  mkConfig (override_server (server c)) (override_mumble (mumble c))
    (override_webrtc (webrtc c)) (override_turn (turn c)).

(** The variables that must fit a type: an integer that parses must be in range, and an
    address must be one. *)
Definition env_uint_ok (w : Z) (name : string) : bool :=
  match env name ≫= parse_i64 with Some n => (0 <=? n) && (n <? 2 ^ w) | None => true end.
Definition env_ip_ok (name : string) : bool :=
  match env name with Some val => bool_decide (is_Some (parse_ipv4 val)) | None => true end.

Definition server_fits : bool :=
  env_uint_ok 16 "MUMDOTA_SERVER_LISTEN_PORT" && env_uint_ok 64 "MUMDOTA_SERVER_MAX_CONNECTIONS".
Definition mumble_fits : bool := env_uint_ok 16 "MUMDOTA_MUMBLE_PORT".
Definition webrtc_fits : bool :=
  env_uint_ok 16 "MUMDOTA_WEBRTC_UDP_PORT" && env_ip_ok "MUMDOTA_WEBRTC_PUBLIC_IP".
Definition turn_fits : bool :=
  env_ip_ok "MUMDOTA_TURN_LISTEN_ADDR" && env_uint_ok 16 "MUMDOTA_TURN_PORT"
  && env_ip_ok "MUMDOTA_TURN_PUBLIC_IP" && env_uint_ok 16 "MUMDOTA_TURN_RELAY_MIN_PORT"
  && env_uint_ok 16 "MUMDOTA_TURN_RELAY_MAX_PORT"
  && env_uint_ok 64 "MUMDOTA_TURN_CREDENTIAL_TTL_SECS" && env_uint_ok 16 "MUMDOTA_TURN_TLS_PORT".
Definition env_fits : bool := server_fits && mumble_fits && webrtc_fits && turn_fits.

(** ** Reading an overridden value *)

Definition overridden (name : string) (kind : override_kind) (v : option Value) : option Value :=
  match env name ≫= override_value kind with Some x => Some x | None => v end.

Lemma read_VStrings l : mapM read_string (VString <$> l) = Some l.
Proof. apply mapM_fmap_Forall_Some, Forall_true. done. Qed.

(** What a reader [F] makes of an overridden value, by kind. *)
Section Kinds.
Context {A : Type} (F : option Value → option A) (v : option Value) (old : A).
Hypothesis Hold : F v = Some old.

Lemma overridden_read name kind :
  F (overridden name kind v)
  = match env name ≫= override_value kind with Some x => F (Some x) | None => Some old end.
Proof. unfold overridden. by destruct (env name ≫= override_value kind). Qed.
End Kinds.

Lemma str_field v old name :
  field v read_string = Some old →
  field (overridden name OverrideStr v) read_string = Some (env_str name old).
Proof.
  intros Ho. rewrite (overridden_read (λ v, field v read_string) v old Ho).
  unfold env_str. by destruct (env name).
Qed.

Lemma str_field_or v d old name :
  field_or v read_string d = Some old →
  field_or (overridden name OverrideStr v) read_string d = Some (env_str name old).
Proof.
  intros Ho. rewrite (overridden_read (λ v, field_or v read_string d) v old Ho).
  unfold env_str. by destruct (env name).
Qed.

Lemma str_field_opt v old name :
  field_opt v read_string = Some old →
  field_opt (overridden name OverrideStr v) read_string = Some (env_opt_str name old).
Proof.
  intros Ho. rewrite (overridden_read (λ v, field_opt v read_string) v old Ho).
  unfold env_opt_str. by destruct (env name).
Qed.

Lemma bool_field v old name :
  field v read_bool = Some old →
  field (overridden name OverrideBool v) read_bool = Some (env_bool name old).
Proof.
  intros Ho. rewrite (overridden_read (λ v, field v read_bool) v old Ho).
  unfold env_bool. by destruct (env name).
Qed.

Lemma bool_field_or v d old name :
  field_or v read_bool d = Some old →
  field_or (overridden name OverrideBool v) read_bool d = Some (env_bool name old).
Proof.
  intros Ho. rewrite (overridden_read (λ v, field_or v read_bool d) v old Ho).
  unfold env_bool. by destruct (env name).
Qed.

Lemma int_field w v old name :
  field v (read_uint w) = Some old →
  field (overridden name OverrideInt v) (read_uint w)
  = if env_uint_ok w name then Some (env_int name old) else None.
Proof.
  intros Ho. rewrite (overridden_read (λ v, field v (read_uint w)) v old Ho).
  unfold env_int, env_uint_ok. destruct (env name) as [val|]; [|done]. simpl.
  by destruct (parse_i64 val).
Qed.

Lemma int_field_or w v d old name :
  field_or v (read_uint w) d = Some old →
  field_or (overridden name OverrideInt v) (read_uint w) d
  = if env_uint_ok w name then Some (env_int name old) else None.
Proof.
  intros Ho. rewrite (overridden_read (λ v, field_or v (read_uint w) d) v old Ho).
  unfold env_int, env_uint_ok. destruct (env name) as [val|]; [|done]. simpl.
  by destruct (parse_i64 val).
Qed.

Lemma ip_field_or v d old name :
  field_or v read_ipv4 d = Some old →
  field_or (overridden name OverrideStr v) read_ipv4 d
  = if env_ip_ok name then Some (env_ip name old) else None.
Proof.
  intros Ho. rewrite (overridden_read (λ v, field_or v read_ipv4 d) v old Ho).
  unfold env_ip, env_ip_ok. destruct (env name) as [val|]; [|done]. simpl.
  unfold read_ipv4. simpl. by destruct (parse_ipv4 val).
Qed.

Lemma ip_field_opt v old name :
  field_opt v read_ipv4 = Some old →
  field_opt (overridden name OverrideStr v) read_ipv4
  = if env_ip_ok name then Some (env_opt_ip name old) else None.
Proof.
  intros Ho. rewrite (overridden_read (λ v, field_opt v read_ipv4) v old Ho).
  unfold env_opt_ip, env_ip_ok. destruct (env name) as [val|]; [|done]. simpl.
  unfold read_ipv4. simpl. by destruct (parse_ipv4 val).
Qed.

Lemma list_field_or v old name :
  field_or v read_strings [] = Some old →
  field_or (overridden name OverrideList v) read_strings [] = Some (env_list name old).
Proof.
  intros Ho. rewrite (overridden_read (λ v, field_or v read_strings []) v old Ho).
  unfold env_list. destruct (env name) as [val|]; [|done]. simpl.
  rewrite <- (read_VStrings (trim <$> split_comma val)). by rewrite <- list_fmap_compose.
Qed.

Lemma origins_field_or v old name :
  field_or v read_strings [] = Some old →
  field_or (overridden name OverrideOrigins v) read_strings [] = Some (env_origins name old).
Proof.
  intros Ho. rewrite (overridden_read (λ v, field_or v read_strings []) v old Ho).
  unfold env_origins. destruct (env name) as [val|]; [|done]. simpl. apply read_VStrings.
Qed.

(** ** Tables *)

Definition is_table (v : option Value) : Prop := match v with Some (VTable _) => True | _ => False end.

Lemma set_key_tables table name key v table' sec :
  set_key table name key v = Some table' →
  (is_table (table !! sec) → is_table (table' !! sec)) ∧
  (table !! sec = None → table' !! sec = None ∨ is_table (table' !! sec)).
Proof.
  unfold set_key. destruct (decide (sec = name)) as [->|Hne].
  - destruct (table !! name) as [[]|]; try done; intros [= <-]; rewrite lookup_insert_eq; simpl; auto.
  - destruct (table !! name) as [[]|]; try done; intros [= <-]; rewrite lookup_insert_ne by done; auto.
Qed.

Lemma apply_overrides_tables os : ∀ table table' sec,
  apply_overrides env table os = Some table' →
  (is_table (table !! sec) → is_table (table' !! sec)) ∧
  (table !! sec = None → table' !! sec = None ∨ is_table (table' !! sec)).
Proof.
  induction os as [|o os IH]; intros table table' sec Ha; [injection Ha as <-; auto|].
  apply bind_Some in Ha as (t1 & Ho & Ha). destruct (IH _ _ sec Ha) as [H1 H2].
  unfold apply_override in Ho. destruct (override_effect env o) as [v|]; [|by injection Ho as <-].
  destruct (set_key_tables _ _ _ _ _ sec Ho) as [H3 H4]. split; [auto|].
  intros Hn. destruct (H4 Hn) as [?|?]; auto.
Qed.

(** Every override, at its own place. *)
Lemma overrides_at table table' :
  sections_ok table overrides → apply_env_overrides env table = Some table' →
  Forall (λ o, get_key table' (ov_section o) (ov_key o)
             = overridden (ov_env o) (ov_kind o) (get_key table (ov_section o) (ov_key o))) overrides.
Proof.
  intros Hok Ha. destruct (apply_overrides_spec env overrides table overrides_distinct Hok)
    as (t' & Ha' & Hg). unfold apply_env_overrides in Ha. rewrite Ha in Ha'. injection Ha' as <-.
  assert (Hfind : Forall (λ o, List.find (λ o', override_at o' (ov_section o) (ov_key o)) overrides
    = Some o) overrides) by (unfold overrides; repeat (constructor; [vm_compute; reflexivity|]); constructor).
  eapply Forall_impl; [exact Hfind|]. intros o Ho. cbv beta in Ho |- *. rewrite Hg, Ho. cbn.
  unfold overridden, override_effect. by destruct (env (ov_env o)).
Qed.
End Environment.

(** Reading a section is reading its keys. *)
Lemma section_get_key {A} table name (read : (string → option Value) → option A) :
  is_table (table !! name) → section table name read = read (get_key table name).
Proof. intros Ht. unfold section, get_key. by destruct (table !! name) as [[]|]. Qed.

Lemma section_Some {A} table name (read : (string → option Value) → option A) x :
  section table name read = Some x → is_table (table !! name).
Proof. unfold section. by destruct (table !! name) as [[]|]. Qed.

(** The deserializer in terms of the values at [section.key]. *)
Definition config_from (get : string → string → option Value) : option Config :=
  server ← ServerConfig_deserialize (get "server");
  mumble ← MumbleConfig_deserialize (get "mumble");
  webrtc ← WebrtcConfig_deserialize (get "webrtc");
  turn ← TurnConfig_deserialize (get "turn");
  Some (mkConfig server mumble webrtc turn).

Definition sections_present (table : gmap string Value) : Prop :=
  is_table (table !! "server") ∧ is_table (table !! "mumble") ∧ is_table (table !! "webrtc") ∧
  (table !! "turn" = None ∨ is_table (table !! "turn")).

Lemma deserialize_config_from table :
  sections_present table → Config_deserialize table = config_from (get_key table).
Proof.
  intros (Hs & Hm & Hw & Ht). unfold Config_deserialize, config_from.
  rewrite (section_get_key _ _ _ Hs).
  rewrite (section_get_key _ _ _ Hm).
  rewrite (section_get_key _ _ _ Hw).
  assert (Hturn : (match table !! "turn" with
    | None => Some TurnConfig_default
    | Some _ => section table "turn" TurnConfig_deserialize
    end) = TurnConfig_deserialize (get_key table "turn")); [|by rewrite Hturn].
  destruct Ht as [Ht|Ht].
  - unfold get_key. by rewrite Ht.
  - rewrite <- (section_get_key _ _ _ Ht).
    by destruct (table !! "turn") as [[]|].
Qed.

Lemma deserialize_sections table c : Config_deserialize table = Some c → sections_present table.
Proof.
  unfold Config_deserialize. intros Hd. apply bind_Some in Hd as (s & Hs & Hd).
  apply bind_Some in Hd as (m & Hm & Hd). apply bind_Some in Hd as (w & Hw & Hd).
  apply bind_Some in Hd as (t & Ht & _).
  split_and!; [by eapply section_Some..|].
  destruct (table !! "turn") as [v|] eqn:Hv; [right|by left]. apply section_Some in Ht. by rewrite <- Hv.
Qed.

(** ** Overriding the configuration *)

Lemma sections_present_ok table : sections_present table → sections_ok table overrides.
Proof.
  intros (Hs & Hm & Hw & Ht). unfold sections_ok.
  assert (Hsec : ∀ sec, table !! sec = None ∨ is_table (table !! sec) →
    match table !! sec with Some (VTable _) | None => True | Some _ => False end).
  { intros sec [->|H]; [done|]. by destruct (table !! sec) as [[]|]. }
  unfold overrides. repeat (constructor; [apply Hsec; auto|]). constructor.
Qed.

Ltac bind_inv :=
  repeat match goal with
  | H : _ ≫= _ = Some _ |- _ => let x := fresh "x" in let Hx := fresh "Hx" in
      apply bind_Some in H as (x & Hx & H)
  end; simplify_eq.

Section Overridden.
Context (env : environment) (get get' : string → string → option Value).
Hypothesis places : ∀ i o, overrides !! i = Some o →
  get' (ov_section o) (ov_key o)
  = overridden env (ov_env o) (ov_kind o) (get (ov_section o) (ov_key o)).

(** The key of the [i]-th override, in the goal. *)
Ltac place i :=
  let H := fresh in pose proof (places i _ eq_refl) as H;
  cbn [ov_section ov_key ov_env ov_kind] in H; rewrite H; clear H.

Ltac split_ok :=
  repeat match goal with |- context [if ?b then Some _ else None] =>
    match b with
    | env_uint_ok _ _ _ => destruct b | env_ip_ok _ _ => destruct b
    end; cbn [mbind option_bind andb] end.

Lemma server_overridden s :
  ServerConfig_deserialize (get "server") = Some s →
  ServerConfig_deserialize (get' "server")
  = if server_fits env then Some (override_server env s) else None.
Proof.
  unfold ServerConfig_deserialize, server_fits. intros Hs. bind_inv. place 0%nat; place 1%nat; place 2%nat; place 21%nat.
  erewrite str_field by eassumption. erewrite !int_field by eassumption. erewrite origins_field_or by eassumption.
  cbn [mbind option_bind]. by split_ok.
Qed.

Lemma mumble_overridden m :
  MumbleConfig_deserialize (get "mumble") = Some m →
  MumbleConfig_deserialize (get' "mumble")
  = if mumble_fits env then Some (override_mumble env m) else None.
Proof.
  unfold MumbleConfig_deserialize, mumble_fits. intros Hs. bind_inv. place 3%nat; place 4%nat; place 5%nat.
  erewrite str_field by eassumption. erewrite int_field by eassumption. erewrite bool_field by eassumption.
  cbn [mbind option_bind]. by split_ok.
Qed.

Lemma webrtc_overridden w :
  WebrtcConfig_deserialize (get "webrtc") = Some w →
  WebrtcConfig_deserialize (get' "webrtc")
  = if webrtc_fits env then Some (override_webrtc env w) else None.
Proof.
  unfold WebrtcConfig_deserialize, webrtc_fits. intros Hs. bind_inv. place 6%nat; place 7%nat; place 8%nat.
  erewrite list_field_or by eassumption. erewrite int_field_or by eassumption. erewrite ip_field_opt by eassumption.
  cbn [mbind option_bind]. by split_ok.
Qed.

Lemma turn_overridden t :
  TurnConfig_deserialize (get "turn") = Some t →
  TurnConfig_deserialize (get' "turn")
  = if turn_fits env then Some (override_turn env t) else None.
Proof.
  unfold TurnConfig_deserialize, turn_fits. intros Hs. bind_inv. place 9%nat; place 10%nat; place 11%nat; place 12%nat; place 13%nat; place 14%nat; place 15%nat; place 16%nat; place 17%nat; place 18%nat; place 19%nat; place 20%nat.
  erewrite bool_field_or by eassumption. erewrite !str_field_or by eassumption. erewrite !str_field_opt by eassumption.
  erewrite !int_field_or by eassumption. erewrite ip_field_or by eassumption. erewrite ip_field_opt by eassumption.
  cbn [mbind option_bind]. by split_ok.
Qed.
End Overridden.

(** The whole configuration: sections that stay tables, keys that are overridden. *)
Lemma config_from_overridden env get get' c :
  (∀ i o, overrides !! i = Some o → get' (ov_section o) (ov_key o)
     = overridden env (ov_env o) (ov_kind o) (get (ov_section o) (ov_key o))) →
  config_from get = Some c →
  config_from get' = if env_fits env then Some (override_config env c) else None.
Proof.
  unfold config_from, env_fits. intros places Hc. bind_inv.
  erewrite server_overridden by eassumption. erewrite mumble_overridden by eassumption.
  erewrite webrtc_overridden by eassumption. erewrite turn_overridden by eassumption.
  by destruct (server_fits env), (mumble_fits env), (webrtc_fits env), (turn_fits env).
Qed.

Lemma sections_present_overrides env table table' :
  apply_env_overrides env table = Some table' → sections_present table → sections_present table'.
Proof.
  intros Ha (Hs & Hm & Hw & Ht).
  pose proof (λ sec, apply_overrides_tables env overrides table table' sec Ha) as Hsec.
  split_and!; [by apply Hsec..|]. destruct Ht as [Ht|Ht]; [by apply Hsec|right; by apply Hsec].
Qed.

Lemma deserialize_overridden env table c :
  Config_deserialize table = Some c →
  ∃ table', apply_env_overrides env table = Some table' ∧
    Config_deserialize table' = if env_fits env then Some (override_config env c) else None.
Proof.
  intros Hd. pose proof (deserialize_sections table c Hd) as Hp.
  pose proof (sections_present_ok table Hp) as Hok.
  destruct (apply_overrides_spec env overrides table overrides_distinct Hok) as (table' & Ha & _).
  exists table'. split; [exact Ha|]. rewrite (deserialize_config_from table Hp) in Hd.
  rewrite deserialize_config_from by by eapply sections_present_overrides.
  eapply config_from_overridden; [|exact Hd].
  intros i o. apply (Forall_lookup_1 _ _ _ _ (overrides_at env table table' Hok Ha)).
Qed.

(** The [try_into] of [Config::load]; the library's message is not looked at. *)
Definition deserialize (table : gmap string Value) : result Config :=
  ok_or (Config_deserialize table) "invalid configuration".

(** C15: What the environment says is what the server runs with. A file whose placeholders
    expand and whose table deserializes to a configuration is loaded, in any environment,
    as that configuration with each of its 22 fields replaced by what its [MUMDOTA_*]
    variable says and every other field as the file has it, then validated: no override
    panics, none is lost between the table and the record, and deserialization fails
    exactly when an integer variable parses but is out of its type's range or an address
    variable is not an IPv4 address. *)
Theorem overrides_reach_config parse_toml env path raw expanded table c :
  expand_env_vars env raw = Ok expanded → parse_toml expanded = Ok table →
  Config_deserialize table = Some c →
  Config_load parse_toml deserialize env path (Ok raw)
  = Returned (if env_fits env
              then _ ← Config_validate (override_config env c); Ok (override_config env c)
              else Err "failed to deserialize config").
Proof.
  intros Hx Hp Hd. destruct (deserialize_overridden env table c Hd) as (table' & Ha & Ht).
  unfold Config_load, deserialize. cbn [with_context]. rewrite Hx. cbn [with_context].
  rewrite Hp. cbn [with_context]. rewrite Ha, Ht. by destruct (env_fits env).
Qed.

(** The shipped [config.toml], parsed with nothing set in the environment. *)
Definition shipped_table : gmap string Value :=
  {[ "server" := VTable {[ "listen_addr" := VString "0.0.0.0"; "listen_port" := VInteger 8080;
                           "max_connections" := VInteger 100 ]};
     "mumble" := VTable {[ "host" := VString "127.0.0.1"; "port" := VInteger 64738;
                           "accept_invalid_certs" := VBoolean true ]};
     "webrtc" := VTable {[ "stun_servers" := VArray []; "udp_port" := VInteger 50000 ]};
     "turn" := VTable {[ "enabled" := VBoolean false; "port" := VInteger 3478;
                         "relay_min_port" := VInteger 49160; "relay_max_port" := VInteger 49999;
                         "credential_ttl_secs" := VInteger 3600; "tls_port" := VInteger 5349 ]} ]}.

Definition shipped_config : Config :=
  mkConfig (mkServerConfig "0.0.0.0" 8080 100 []) (mkMumbleConfig "127.0.0.1" 64738 true)
    (mkWebrtcConfig [] 50000 None) TurnConfig_default.

Example shipped_config_loads :
  (Config_deserialize shipped_table, Config_validate shipped_config) = (Some shipped_config, Ok tt).
Proof. vm_compute. reflexivity. Qed.

Definition deployed_env : environment := λ name,
  if String.eqb name "MUMDOTA_TURN_ENABLED" then Some "True"
  else if String.eqb name "MUMDOTA_TURN_PUBLIC_IP" then Some "203.0.113.10"
  else if String.eqb name "MUMDOTA_WEBRTC_PUBLIC_IP" then Some "203.0.113.10"
  else if String.eqb name "MUMDOTA_TURN_PUBLIC_HOST" then Some "turn.example.com"
  else if String.eqb name "MUMDOTA_SERVER_LISTEN_PORT" then Some "9090"
  else if String.eqb name "MUMDOTA_TURN_PORT" then Some "https"
  else None.

Lemma overrides_reach_config_witness :
  Config_load (λ _, Ok shipped_table) deserialize deployed_env "config.toml"
    (Ok "# port ${MUMDOTA_SERVER_LISTEN_PORT:-8080}")
  = Returned (Ok
      (mkConfig (mkServerConfig "0.0.0.0" 9090 100 []) (mkMumbleConfig "127.0.0.1" 64738 true)
        (mkWebrtcConfig [] 50000 (Some (ipv4 203 0 113 10)))
        (mkTurnConfig true UNSPECIFIED 3478 (Some (ipv4 203 0 113 10)) "turn.example.com" "mumdota"
           49160 49999 3600 5349 None None))).
Proof.
  rewrite (overrides_reach_config (λ _, Ok shipped_table) deployed_env "config.toml"
    "# port ${MUMDOTA_SERVER_LISTEN_PORT:-8080}" "# port 9090" shipped_table shipped_config).
  - vm_compute. reflexivity.
  - vm_compute. reflexivity.
  - reflexivity.
  - vm_compute. reflexivity.
Defined.

(** A port that is no port, and an empty address, stop the start. *)
Example bad_override_fails :
  let env name val := λ n, if String.eqb n name then Some val else None in
  (env_fits (env "MUMDOTA_SERVER_LISTEN_PORT" "70000"),
   env_fits (env "MUMDOTA_WEBRTC_PUBLIC_IP" EmptyString),
   env_fits (env "MUMDOTA_SERVER_LISTEN_PORT" "http")) = (false, false, true).
Proof. vm_compute. reflexivity. Qed.

(** [MUMDOTA_WEBRTC_STUN_SERVERS] set to nothing is one server without a name, where
    [MUMDOTA_SERVER_ALLOWED_ORIGINS] set to nothing is no origin. *)
Example empty_stun_override : ∀ old,
  env_list (λ _, Some EmptyString) "MUMDOTA_WEBRTC_STUN_SERVERS" old = [EmptyString] ∧
  env_origins (λ _, Some EmptyString) "MUMDOTA_SERVER_ALLOWED_ORIGINS" old = [].
Proof. by vm_compute. Qed.

(** ** Addresses read back *)

Definition dotless (s : string) : bool := string_forall (λ c, negb (Ascii.eqb c ".")) s.

Lemma split_dot_cons c s xs x :
  Ascii.eqb c "." = false → split_dot s = x :: xs → split_dot (String c s) = String c x :: xs.
Proof. intros Hc Hs. cbn [split_dot]. by rewrite Hc, Hs. Qed.

Lemma split_dot_app s rest :
  dotless s = true → split_dot (s +:+ "." +:+ rest) = s :: split_dot rest.
Proof.
  induction s as [|c s IH]; intros Hs; [done|]. apply andb_true_iff in Hs as [Hc Hs].
  apply negb_true_iff in Hc. apply split_dot_cons; auto.
Qed.

Lemma split_dot_last s : dotless s = true → split_dot s = [s].
Proof.
  induction s as [|c s IH]; intros Hs; [done|]. apply andb_true_iff in Hs as [Hc Hs].
  apply negb_true_iff in Hc. apply split_dot_cons; auto.
Qed.

Lemma show_octet b : is_byte b → dotless (show b) = true ∧ parse_octet (show b) = Some b.
Proof.
  intros Hb. pose proof (byte_forallb
    (λ b, dotless (show b) && match parse_octet (show b) with Some n => n =? b | None => false end)
    ltac:(vm_compute; reflexivity) b Hb) as H. apply andb_true_iff in H as [Hd H].
  split; [exact Hd|]. destruct (parse_octet (show b)); [|done]. by apply Z.eqb_eq in H as ->.
Qed.

Lemma octet_byte ip n : is_byte (octet ip n).
Proof.
  unfold octet, is_byte, is_uint. change 255 with (Z.ones 8). rewrite Z.land_ones by lia.
  apply Z.mod_pos_bound. lia.
Qed.

Lemma ipv4_octets ip :
  is_uint 32 ip → ipv4 (octet ip 3) (octet ip 2) (octet ip 1) (octet ip 0) = ip.
Proof.
  intros Hip. unfold octet, is_uint in *. change 255 with (Z.ones 8). rewrite !Z.land_ones by lia.
  rewrite !Z.shiftr_div_pow2 by lia. unfold ipv4. cbn [Z.mul Pos.mul].
  change (2 ^ 32) with 4294967296 in Hip. change (2 ^ 8) with 256. change (2 ^ 24) with 16777216.
  change (2 ^ 16) with 65536. change (2 ^ 0) with 1. Z.div_mod_to_equations. lia.
Qed.

(** An address the program prints reads back: the text of any IPv4 address, as it goes
    into candidates and URLs, is accepted by the configuration as that same address. *)
Theorem ipv4_roundtrip ip : is_uint 32 ip → parse_ipv4 (ipv4_to_string ip) = Some ip.
Proof.
  intros Hip. unfold parse_ipv4, ipv4_to_string.
  destruct (show_octet _ (octet_byte ip 3)) as [D3 P3], (show_octet _ (octet_byte ip 2)) as [D2 P2],
    (show_octet _ (octet_byte ip 1)) as [D1 P1], (show_octet _ (octet_byte ip 0)) as [D0 P0].
  rewrite !split_dot_app, split_dot_last by done. rewrite P3, P2, P1, P0. cbn.
  by rewrite ipv4_octets.
Qed.

Lemma ipv4_roundtrip_witness : parse_ipv4 "203.0.113.10" = Some (ipv4 203 0 113 10).
Proof.
  change "203.0.113.10" with (ipv4_to_string (ipv4 203 0 113 10)).
  apply ipv4_roundtrip. unfold is_uint. vm_compute. split; congruence.
Defined.
