(* ===== verification/Messages.v ===== *)
(** * The browser protocol ([src/src/ws/messages.rs])

    Data types of the messages exchanged over the WebSocket; their JSON form is in [Json]. *)

From Stdlib Require Import ZArith.
From stdpp Require Import base strings list decidable option.
From S2P Require Import Prelude Credentials.
Local Open Scope Z_scope.

(** ** Client to server *)

Record IceCandidateData := mkIceCandidateData {
  icd_candidate : string;
  icd_sdp_mid : option string;
  icd_sdp_mline_index : option Z      (* u16 *)
}.

Inductive ClientMessage :=
| CmConnect (username : string)
| CmDisconnect
| CmOffer (sdp : string)
| CmAnswer (sdp : string)
| CmStartVoice
| CmIceRestart
| CmIceRefresh
| CmIceCandidate (data : IceCandidateData)
| CmChatSend (channel_id : Z) (message : string)
| CmChannelJoin (channel_id : Z)
| CmMute (muted : bool)
| CmDeafen (deafened : bool).

(** ** Server to client *)

Record ChannelInfo := mkChannelInfo {
  ch_id : Z; ch_name : string; ch_parent_id : Z; ch_description : string
}.

Record UserInfo := mkUserInfo {
  us_session_id : Z; us_name : string; us_channel_id : Z;
  us_mute : bool; us_deaf : bool; us_self_mute : bool; us_self_deaf : bool
}.

Record UserStateData := mkUserStateData {
  ud_session_id : Z; ud_channel_id : option Z; ud_name : option string;
  ud_mute : option bool; ud_deaf : option bool;
  ud_self_mute : option bool; ud_self_deaf : option bool
}.

Record ConnectedData := mkConnectedData {
  cd_protocol_version : Z; cd_ice : IceConfig; cd_session_id : Z;
  cd_channels : list ChannelInfo; cd_users : list UserInfo
}.

Record ChatReceivedData := mkChatReceivedData {
  cv_sender_session : Z; cv_sender_name : string; cv_channel_id : Z;
  cv_message : string; cv_timestamp : Z
}.

Inductive ServerMessage :=
| SmOffer (sdp : string)
| SmIceCandidate (data : IceCandidateData)
| SmIceConfig (config : IceConfig)
| SmConnected (data : ConnectedData)
| SmUserJoined (user : UserInfo)
| SmUserLeft (session_id : Z)
| SmUserState (state : UserStateData)
| SmChatReceived (data : ChatReceivedData)
| SmChannelUpdated (channels : list ChannelInfo)
| SmError (code message : string).

(** [ServerMessage::error] *)
Definition ServerMessage_error (code message : string) : ServerMessage := SmError code message.
