(* ===== verification/Json.v ===== *)
(** * The JSON form of the server's messages ([src/src/ws/messages.rs],
      [src/src/turn/credentials.rs])

    [serde] derives the serialized form from the types and their attributes: enums are
    tagged with [type] and carry their contents under [data], names are in snake case,
    absent options are [null] unless the field is skipped. The encoders below write that
    form as a JSON tree; printing a tree is [serde_json]'s and an argument. The decoders
    read the protocol as [docs/frontend-api.md] describes it to the browser. *)

From Stdlib Require Import ZArith Ascii.
From stdpp Require Import base tactics strings list option.
From S2P Require Import Prelude Credentials Messages.
Local Open Scope Z_scope.

(** ** JSON trees *)

Inductive Json :=
| JNull
| JBool (b : bool)
| JNum (n : Z)
| JStr (s : string)
| JArr (l : list Json)
| JObj (fields : list (string * Json)).

(** The value of a member; [None] when there is none. *)
Definition member (name : string) (j : Json) : option Json :=
  match j with
  | JObj fields => snd <$> List.find (λ f, String.eqb f.1 name) fields
  | _ => None
  end.

(** ** Codecs

    How a type is written, and how the browser reads it back. A value is never written as
    [null], which stands for an absent option. *)

Class Codec (A : Type) := {
  encode : A → Json;
  decode : Json → option A
}.

Class CodecLaws (A : Type) `{Codec A} := {
  decode_encode a : decode (encode a) = Some a;
  encode_not_null a : encode a ≠ JNull
}.

(** A member that must be there. *)
Definition required {A} `{Codec A} (name : string) (j : Json) : option A :=
  member name j ≫= decode.

(** A member that may be missing. *)
Definition skippable {A} `{Codec A} (name : string) (j : Json) : option (option A) :=
  match member name j with None => Some None | Some v => Some <$> decode v end.

(** A field with [skip_serializing_if = "Option::is_none"]. *)
Definition skip_none {A} `{Codec A} (name : string) (o : option A) : list (string * Json) :=
  match o with None => [] | Some a => [(name, encode a)] end.

#[export] Instance string_codec : Codec string :=
  {| encode := JStr; decode j := match j with JStr s => Some s | _ => None end |}.
#[export] Instance Z_codec : Codec Z :=
  {| encode := JNum; decode j := match j with JNum n => Some n | _ => None end |}.
#[export] Instance bool_codec : Codec bool :=
  {| encode := JBool; decode j := match j with JBool b => Some b | _ => None end |}.
#[export] Instance list_codec {A} `{Codec A} : Codec (list A) :=
  {| encode l := JArr (encode <$> l);
     decode j := match j with JArr l => mapM decode l | _ => None end |}.

(** [Option<T>]: [null] or the value. Only used for members, so it is not a [Codec]. *)
Definition encode_option {A} `{Codec A} (o : option A) : Json :=
  match o with None => JNull | Some a => encode a end.
Definition decode_option {A} `{Codec A} (j : Json) : option (option A) :=
  match j with JNull => Some None | _ => Some <$> decode j end.
Definition nullable {A} `{Codec A} (name : string) (j : Json) : option (option A) :=
  member name j ≫= decode_option.

#[export] Instance string_codec_laws : CodecLaws string.
Proof. by split. Qed.
#[export] Instance Z_codec_laws : CodecLaws Z.
Proof. by split. Qed.
#[export] Instance bool_codec_laws : CodecLaws bool.
Proof. by split. Qed.
#[export] Instance list_codec_laws {A} `{CodecLaws A} : CodecLaws (list A).
Proof.
  split; [|done]. intros l. simpl. apply mapM_fmap_Forall_Some, Forall_true, decode_encode.
Qed.

Lemma decode_encode_option {A} `{CodecLaws A} (o : option A) : decode_option (encode_option o) = Some o.
Proof.
  destruct o as [a|]; [|done]. simpl. pose proof (encode_not_null a) as Hn.
  pose proof (decode_encode a) as Hd. destruct (encode a); [done|..]; unfold decode_option; by rewrite Hd.
Qed.

(** ** The structs *)

#[export] Instance IceCandidateData_codec : Codec IceCandidateData := {|
  encode d := JObj [("candidate", encode (icd_candidate d));
                    ("sdp_mid", encode_option (icd_sdp_mid d));
                    ("sdp_mline_index", encode_option (icd_sdp_mline_index d))];
  decode j := candidate ← required "candidate" j; sdp_mid ← nullable "sdp_mid" j;
              sdp_mline_index ← nullable "sdp_mline_index" j;
              Some (mkIceCandidateData candidate sdp_mid sdp_mline_index)
|}.

#[export] Instance IceServer_codec : Codec IceServer := {|
  encode s := JObj ([("urls", encode (is_urls s))] ++ skip_none "username" (is_username s)
                    ++ skip_none "credential" (is_credential s));
  decode j := urls ← required "urls" j; username ← skippable "username" j;
              credential ← skippable "credential" j; Some (mkIceServer urls username credential)
|}.

#[export] Instance IceConfig_codec : Codec IceConfig := {|
  encode c := JObj [("ice_servers", encode (ic_ice_servers c));
                    ("expires_at", encode_option (ic_expires_at c))];
  decode j := ice_servers ← required "ice_servers" j; expires_at ← nullable "expires_at" j;
              Some (mkIceConfig ice_servers expires_at)
|}.

#[export] Instance ChannelInfo_codec : Codec ChannelInfo := {|
  encode c := JObj [("id", encode (ch_id c)); ("name", encode (ch_name c));
                    ("parent_id", encode (ch_parent_id c)); ("description", encode (ch_description c))];
  decode j := id ← required "id" j; name ← required "name" j; parent_id ← required "parent_id" j;
              description ← required "description" j;
              Some (mkChannelInfo id name parent_id description)
|}.

#[export] Instance UserInfo_codec : Codec UserInfo := {|
  encode u := JObj [("session_id", encode (us_session_id u)); ("name", encode (us_name u));
                    ("channel_id", encode (us_channel_id u)); ("mute", encode (us_mute u));
                    ("deaf", encode (us_deaf u)); ("self_mute", encode (us_self_mute u));
                    ("self_deaf", encode (us_self_deaf u))];
  decode j := session_id ← required "session_id" j; name ← required "name" j;
              channel_id ← required "channel_id" j; mute ← required "mute" j; deaf ← required "deaf" j;
              self_mute ← required "self_mute" j; self_deaf ← required "self_deaf" j;
              Some (mkUserInfo session_id name channel_id mute deaf self_mute self_deaf)
|}.

#[export] Instance UserStateData_codec : Codec UserStateData := {|
  encode u := JObj [("session_id", encode (ud_session_id u)); ("channel_id", encode_option (ud_channel_id u));
                    ("name", encode_option (ud_name u)); ("mute", encode_option (ud_mute u));
                    ("deaf", encode_option (ud_deaf u)); ("self_mute", encode_option (ud_self_mute u));
                    ("self_deaf", encode_option (ud_self_deaf u))];
  decode j := session_id ← required "session_id" j; channel_id ← nullable "channel_id" j;
              name ← nullable "name" j; mute ← nullable "mute" j; deaf ← nullable "deaf" j;
              self_mute ← nullable "self_mute" j; self_deaf ← nullable "self_deaf" j;
              Some (mkUserStateData session_id channel_id name mute deaf self_mute self_deaf)
|}.

#[export] Instance ConnectedData_codec : Codec ConnectedData := {|
  encode d := JObj [("protocol_version", encode (cd_protocol_version d)); ("ice", encode (cd_ice d));
                    ("session_id", encode (cd_session_id d)); ("channels", encode (cd_channels d));
                    ("users", encode (cd_users d))];
  decode j := protocol_version ← required "protocol_version" j; ice ← required "ice" j;
              session_id ← required "session_id" j; channels ← required "channels" j;
              users ← required "users" j;
              Some (mkConnectedData protocol_version ice session_id channels users)
|}.

#[export] Instance ChatReceivedData_codec : Codec ChatReceivedData := {|
  encode d := JObj [("sender_session", encode (cv_sender_session d));
                    ("sender_name", encode (cv_sender_name d)); ("channel_id", encode (cv_channel_id d));
                    ("message", encode (cv_message d)); ("timestamp", encode (cv_timestamp d))];
  decode j := sender_session ← required "sender_session" j; sender_name ← required "sender_name" j;
              channel_id ← required "channel_id" j; message ← required "message" j;
              timestamp ← required "timestamp" j;
              Some (mkChatReceivedData sender_session sender_name channel_id message timestamp)
|}.

(** Reading back what was written, member by member. *)
Ltac codec_step :=
  unfold required, nullable, skippable; cbn -[encode decode encode_option decode_option];
  repeat (rewrite ?decode_encode, ?decode_encode_option;
          cbn -[encode decode encode_option decode_option]).

#[export] Instance IceCandidateData_laws : CodecLaws IceCandidateData.
Proof. split; [|done]. intros []. cbn [encode decode IceCandidateData_codec]. by codec_step. Qed.

#[export] Instance IceServer_laws : CodecLaws IceServer.
Proof.
  split; [|done]. intros [urls [u|] [c|]]; by cbn [encode decode IceServer_codec]; codec_step.
Qed.

#[export] Instance IceConfig_laws : CodecLaws IceConfig.
Proof. split; [|done]. intros []. cbn [encode decode IceConfig_codec]. by codec_step. Qed.

#[export] Instance ChannelInfo_laws : CodecLaws ChannelInfo.
Proof. split; [|done]. by intros []. Qed.

#[export] Instance UserInfo_laws : CodecLaws UserInfo.
Proof. split; [|done]. by intros []. Qed.

#[export] Instance UserStateData_laws : CodecLaws UserStateData.
Proof. split; [|done]. intros []. cbn [encode decode UserStateData_codec]. by codec_step. Qed.

#[export] Instance ConnectedData_laws : CodecLaws ConnectedData.
Proof. split; [|done]. intros []. cbn [encode decode ConnectedData_codec]. by codec_step. Qed.

#[export] Instance ChatReceivedData_laws : CodecLaws ChatReceivedData.
Proof. split; [|done]. by intros []. Qed.

(** ** Messages *)

(** An adjacently tagged variant. *)
Definition tagged (tag : string) (data : Json) : Json := JObj [("type", JStr tag); ("data", data)].

Definition ServerMessage_json (m : ServerMessage) : Json :=
  match m with
  | SmOffer sdp => tagged "offer" (JObj [("sdp", encode sdp)])
  | SmIceCandidate data => tagged "ice_candidate" (encode data)
  | SmIceConfig config => tagged "ice_config" (encode config)
  | SmConnected data => tagged "connected" (encode data)
  | SmUserJoined user => tagged "user_joined" (encode user)
  | SmUserLeft session_id => tagged "user_left" (JObj [("session_id", encode session_id)])
  | SmUserState state => tagged "user_state" (encode state)
  | SmChatReceived data => tagged "chat_received" (encode data)
  | SmChannelUpdated channels => tagged "channel_updated" (JObj [("channels", encode channels)])
  | SmError code message => tagged "error" (JObj [("code", encode code); ("message", encode message)])
  end.

Definition quote : string := String (ascii_of_nat 34) EmptyString.
Definition quoted (s : string) : string := quote +:+ s +:+ quote.

(** [ServerMessage::to_json]; [to_string] is [serde_json::to_string] on the tree. The error
    text of the fallback goes into the string as it is. *)
Definition ServerMessage_to_json (to_string : Json → result string) (m : ServerMessage) : string :=
  match to_string (ServerMessage_json m) with
  | Ok s => s
  | Err e =>
      "{" +:+ quoted "type" +:+ ":" +:+ quoted "error" +:+ "," +:+ quoted "data" +:+ ":{"
      +:+ quoted "code" +:+ ":" +:+ quoted "serialize_error" +:+ ","
      +:+ quoted "message" +:+ ":" +:+ quote +:+ e +:+ quote +:+ "}}"
  end.

(** The browser's reading of a message, by the table of the protocol document. *)
Definition read_server_message (j : Json) : option ServerMessage :=
  tag ← required "type" j;
  data ← member "data" j;
  if String.eqb tag "offer" then SmOffer <$> required "sdp" data
  else if String.eqb tag "ice_candidate" then SmIceCandidate <$> decode data
  else if String.eqb tag "ice_config" then SmIceConfig <$> decode data
  else if String.eqb tag "connected" then SmConnected <$> decode data
  else if String.eqb tag "user_joined" then SmUserJoined <$> decode data
  else if String.eqb tag "user_left" then SmUserLeft <$> required "session_id" data
  else if String.eqb tag "user_state" then SmUserState <$> decode data
  else if String.eqb tag "chat_received" then SmChatReceived <$> decode data
  else if String.eqb tag "channel_updated" then SmChannelUpdated <$> required "channels" data
  else if String.eqb tag "error" then
    code ← required "code" data; message ← required "message" data; Some (SmError code message)
  else None.

(** C33: every message survives the wire format. Whatever the server sends, a browser that
    reads the members named in the protocol document gets the same message back, so no two
    messages look alike and no field is lost; in particular a candidate's or a user's
    absent fields come back absent, and a server without a secret has none. *)
Theorem server_message_roundtrip m :
  read_server_message (ServerMessage_json m) = Some m.
Proof.
  destruct m; unfold read_server_message, required; cbn -[encode decode].
  all: by rewrite ?decode_encode.
Qed.

(** ** What the browser sends

    The derived readers of [ClientMessage] on objects: unknown members are ignored, a
    missing member is an error unless it has a default, and an integer must fit its type.
    The text of an error is [serde]'s. *)

(** An unsigned integer of [w] bits. *)
Definition decode_uint (w : Z) (j : Json) : option Z :=
  match j with JNum n => if (0 <=? n) && (n <? 2 ^ w) then Some n else None | _ => None end.

(** A field with [#[serde(default)]] of an option type: missing or [null] is [None]. *)
Definition defaulted {A} (dec : Json → option A) (name : string) (j : Json) : option (option A) :=
  match member name j with
  | None | Some JNull => Some None
  | Some v => Some <$> dec v
  end.

Definition read_candidate (j : Json) : option IceCandidateData :=
  candidate ← required "candidate" j;
  sdp_mid ← defaulted decode "sdp_mid" j;
  sdp_mline_index ← defaulted (decode_uint 16) "sdp_mline_index" j;
  Some (mkIceCandidateData candidate sdp_mid sdp_mline_index).

(** A variant without contents: [data] may be missing or [null]. *)
Definition unit_variant (m : ClientMessage) (j : Json) : option ClientMessage :=
  match member "data" j with None | Some JNull => Some m | _ => None end.

Definition read_client_message (j : Json) : option ClientMessage :=
  tag ← required "type" j;
  if String.eqb tag "connect" then
    data ← member "data" j; CmConnect <$> required "username" data
  else if String.eqb tag "disconnect" then unit_variant CmDisconnect j
  else if String.eqb tag "offer" then data ← member "data" j; CmOffer <$> required "sdp" data
  else if String.eqb tag "answer" then data ← member "data" j; CmAnswer <$> required "sdp" data
  else if String.eqb tag "start_voice" then unit_variant CmStartVoice j
  else if String.eqb tag "ice_restart" then unit_variant CmIceRestart j
  else if String.eqb tag "ice_refresh" then unit_variant CmIceRefresh j
  else if String.eqb tag "ice_candidate" then
    data ← member "data" j; CmIceCandidate <$> read_candidate data
  else if String.eqb tag "chat_send" then
    data ← member "data" j;
    channel_id ← (member "channel_id" data ≫= decode_uint 32);
    CmChatSend channel_id <$> required "message" data
  else if String.eqb tag "channel_join" then
    data ← member "data" j; CmChannelJoin <$> (member "channel_id" data ≫= decode_uint 32)
  else if String.eqb tag "mute" then data ← member "data" j; CmMute <$> required "muted" data
  else if String.eqb tag "deafen" then data ← member "data" j; CmDeafen <$> required "deafened" data
  else None.

(** The form in which the protocol document writes a message. *)
Definition client_message_json (m : ClientMessage) : Json :=
  match m with
  | CmConnect username => tagged "connect" (JObj [("username", encode username)])
  | CmDisconnect => JObj [("type", JStr "disconnect")]
  | CmOffer sdp => tagged "offer" (JObj [("sdp", encode sdp)])
  | CmAnswer sdp => tagged "answer" (JObj [("sdp", encode sdp)])
  | CmStartVoice => JObj [("type", JStr "start_voice")]
  | CmIceRestart => JObj [("type", JStr "ice_restart")]
  | CmIceRefresh => JObj [("type", JStr "ice_refresh")]
  | CmIceCandidate data => tagged "ice_candidate" (encode data)
  | CmChatSend channel_id message =>
      tagged "chat_send" (JObj [("channel_id", encode channel_id); ("message", encode message)])
  | CmChannelJoin channel_id => tagged "channel_join" (JObj [("channel_id", encode channel_id)])
  | CmMute muted => tagged "mute" (JObj [("muted", encode muted)])
  | CmDeafen deafened => tagged "deafen" (JObj [("deafened", encode deafened)])
  end.

(** The integers of a message are in the range of their types. *)
Definition client_message_typed (m : ClientMessage) : Prop :=
  match m with
  | CmIceCandidate data => ∀ i, icd_sdp_mline_index data = Some i → is_uint 16 i
  | CmChatSend channel_id _ | CmChannelJoin channel_id => is_uint 32 channel_id
  | _ => True
  end.

Lemma decode_uint_Some w j n : decode_uint w j = Some n ↔ j = JNum n ∧ is_uint w n.
Proof.
  unfold is_uint. destruct j as [| |k| | |]; simpl; try (split; [done|by intros []]).
  case_match eqn:E; bool_to_prop; split; intros; destruct_and?; simplify_eq; try done; lia.
Qed.

Lemma decode_uint_num w n : is_uint w n → decode_uint w (JNum n) = Some n.
Proof. by rewrite decode_uint_Some. Qed.

Lemma defaulted_range w name j o i :
  defaulted (decode_uint w) name j = Some o → o = Some i → is_uint w i.
Proof.
  unfold defaulted. intros Hd ->. destruct (member name j) as [v|]; [|done].
  assert (Hv : decode_uint w v = Some i).
  { destruct v; try done; destruct (decode_uint w _); by simplify_eq/=. }
  by apply decode_uint_Some in Hv as [_ ?].
Qed.

Lemma read_client_typed j m : read_client_message j = Some m → client_message_typed m.
Proof.
  unfold read_client_message, unit_variant. intros Hr.
  destruct (required "type" j) as [tag|]; [|done]. cbn [mbind option_bind] in Hr.
  repeat case_match; simplify_option_eq; try done; unfold read_candidate in *; simplify_option_eq;
    try (match goal with H : decode_uint 32 _ = Some _ |- _ => by apply decode_uint_Some in H as [_ ?] end);
    intros i Hi; simpl in Hi; by eapply defaulted_range.
Qed.

Lemma write_client_read m :
  client_message_typed m → read_client_message (client_message_json m) = Some m.
Proof.
  destruct m as [| | | | | | |[c mid mline]| | | |]; intros Ht; try done; cbn in Ht.
  - unfold read_client_message, read_candidate, required. cbn -[decode_uint].
    destruct mid, mline; cbn -[decode_uint]; try done; by rewrite decode_uint_num by eauto.
  - unfold read_client_message, required. cbn -[decode_uint]. by rewrite decode_uint_num.
  - unfold read_client_message, required. cbn -[decode_uint]. by rewrite decode_uint_num.
Qed.

(** C34: reading what a browser sends. A message that is accepted has its integers in the
    range of their types, whatever the text was; and every message whose integers are in
    range is accepted in the form the protocol document gives it, and is read as that
    message. *)
Theorem client_message_read m :
  (∀ j, read_client_message j = Some m → client_message_typed m) ∧
  (client_message_typed m → read_client_message (client_message_json m) = Some m).
Proof. split; [intros j; apply read_client_typed|apply write_client_read]. Qed.

Lemma client_message_read_witness :
  read_client_message (tagged "channel_join" (JObj [("channel_id", JNum 4294967295)]))
  = Some (CmChannelJoin 4294967295).
Proof. apply (client_message_read (CmChannelJoin 4294967295)). simpl. unfold is_uint. lia. Defined.

(** An id that does not fit a [u32], and a message without its contents, are refused. *)
Example client_message_refused :
  read_client_message (tagged "channel_join" (JObj [("channel_id", JNum 4294967296)])) = None ∧
  read_client_message (JObj [("type", JStr "mute")]) = None ∧
  read_client_message (JObj [("type", JStr "disconnect"); ("data", JObj [])]) = None.
Proof. done. Qed.

(** The example of the protocol document. *)
Example connected_example :
  ServerMessage_json (SmConnected (mkConnectedData 2
    (mkIceConfig [mkIceServer "stun:turn.example.com:3478" None None] None) 1
    [mkChannelInfo 0 "Root" 0 EmptyString] []))
  = JObj [("type", JStr "connected");
          ("data", JObj [("protocol_version", JNum 2);
            ("ice", JObj [("ice_servers", JArr [JObj [("urls", JStr "stun:turn.example.com:3478")]]);
                          ("expires_at", JNull)]);
            ("session_id", JNum 1);
            ("channels", JArr [JObj [("id", JNum 0); ("name", JStr "Root"); ("parent_id", JNum 0);
                                     ("description", JStr EmptyString)]]);
            ("users", JArr [])])].
Proof. reflexivity. Qed.
