(* ===== verification/Proto.v ===== *)
(** * Mumble control messages ([src/src/mumble/proto.rs])

    A protobuf message is the record of its optional fields ([None] for an unset field,
    whose getter returns the type's default); only the fields the program reads or writes
    are listed. The builders are those of [proto.rs]. *)

From Stdlib Require Import ZArith.
From stdpp Require Import base strings list option.
From S2P Require Import Prelude Messages.
Local Open Scope Z_scope.

Record VersionMsg := mkVersion {
  vm_version : option Z; vm_release : option string;
  vm_os : option string; vm_os_version : option string
}.

Record AuthenticateMsg := mkAuthenticate {
  am_username : option string; am_opus : option bool
}.

Record TextMessageMsg := mkTextMessage {
  tm_actor : option Z; tm_channel_id : list Z; tm_message : option string
}.

Record UserStateMsg := mkUserState {
  um_session : option Z; um_name : option string; um_channel_id : option Z;
  um_mute : option bool; um_deaf : option bool;
  um_self_mute : option bool; um_self_deaf : option bool
}.

Record PingMsg := mkPing { pm_timestamp : option Z }.

Definition build_version_message : VersionMsg :=
  mkVersion (Some 0x00010400) (Some "mumdota 0.1.0") (Some "Linux") (Some "Rust").

Definition build_authenticate_message (username : string) : AuthenticateMsg :=
  mkAuthenticate (Some username) (Some true).

Definition build_text_message (channel_id : Z) (message : string) : TextMessageMsg :=
  mkTextMessage None [channel_id] (Some message).

Definition build_user_state_channel (channel_id : Z) : UserStateMsg :=
  mkUserState None None (Some channel_id) None None None None.

Definition build_user_state_mute (self_mute : bool) : UserStateMsg :=
  mkUserState None None None None None (Some self_mute) None.

Definition build_user_state_deaf (self_deaf : bool) : UserStateMsg :=
  mkUserState None None None None None (if self_deaf then Some true else None) (Some self_deaf).

(** [build_ping] at Unix time [now]. *)
Definition build_ping (now : Z) : PingMsg := mkPing (Some now).

(** Messages from the server. *)

Record ChannelStateMsg := mkChannelState {
  cm_channel_id : option Z; cm_name : option string;
  cm_parent : option Z; cm_description : option string
}.

Record CryptSetupMsg := mkCryptSetup {
  xm_key : option (list Z); xm_client_nonce : option (list Z); xm_server_nonce : option (list Z)
}.

(** [RejectMsg]: the rejection type in its [Debug] form, and the reason. *)
Record RejectMsg := mkReject { rm_type : string; rm_reason : option string }.

(** [ControlPacket<Clientbound>]; every packet the program ignores is [OtherPacket]. *)
Inductive ControlPacket :=
| ChannelState (msg : ChannelStateMsg)
| ChannelRemove (channel_id : option Z)
| UserState (msg : UserStateMsg)
| UserRemove (session : option Z)
| CryptSetup (msg : CryptSetupMsg)
| ServerSync (session : option Z)
| TextMessage (msg : TextMessageMsg)
| Reject (msg : RejectMsg)
| OtherPacket.

(** Messages to the server. *)
Inductive ServerboundPacket :=
| SbVersion (msg : VersionMsg)
| SbAuthenticate (msg : AuthenticateMsg)
| SbTextMessage (msg : TextMessageMsg)
| SbUserState (msg : UserStateMsg)
| SbPing (msg : PingMsg).
