(* ===== verification/MumbleClient.v ===== *)
(** * The Mumble control connection ([src/src/mumble/client.rs])

    One task per user owns the TLS connection to the Mumble server: it logs in, turns
    control packets into [MumbleEvent]s for the session, and sends the session's commands.
    The transport and the crypt state of the [mumble-protocol] crate are arguments. *)

From Stdlib Require Import ZArith Lia.
From stdpp Require Import base tactics list gmap strings option fin_maps sets.
From S2P Require Import Prelude Messages Proto.
Local Open Scope Z_scope.

Inductive MumbleEvent :=
| MeConnected (session_id : Z) (channels : list ChannelInfo) (users : list UserInfo)
| MeUserJoined (user : UserInfo)
| MeUserLeft (session_id : Z)
| MeUserStateChanged (state : UserStateData)
| MeChannelAdded (channel : ChannelInfo)
| MeChannelUpdated (channel : ChannelInfo)
| MeChannelRemoved (channel_id : Z)
| MeChatMessage (sender_session channel_id : Z) (message : string)
| MeDisconnected (reason : string).

Inductive MumbleCommand :=
| McSendChat (channel_id : Z) (message : string)
| McJoinChannel (channel_id : Z)
| McSetMute (muted : bool)
| McSetDeaf (deafened : bool)
| McDisconnect.

Section Client.
(** [mumble_protocol::crypt]: the crypt state, its constructor and the two sizes. *)
Variable CryptState : Type.
Variable new_from : list Z → list Z → list Z → CryptState.
Variables KEY_SIZE BLOCK_SIZE : Z.
Context `{!MapValues Z ChannelInfo} `{!MapValues Z UserInfo}.

(** ** CryptSetup *)

Definition fixed_size_bytes (N : Z) (bytes : list Z) (field_name : string) : result (list Z) :=
  if Z.of_nat (length bytes) =? N then Ok bytes
  else Err ("Invalid " +:+ field_name +:+ " size from server: expected " +:+ show N
            +:+ " bytes, got " +:+ show (Z.of_nat (length bytes))).

Definition crypt_state_from_message (msg : CryptSetupMsg) : result CryptState :=
  key ← fixed_size_bytes KEY_SIZE (default [] (xm_key msg)) "key";
  client_nonce ← fixed_size_bytes BLOCK_SIZE (default [] (xm_client_nonce msg)) "client nonce";
  server_nonce ← fixed_size_bytes BLOCK_SIZE (default [] (xm_server_nonce msg)) "server nonce";
  Ok (new_from key client_nonce server_nonce).

(** ** Control packets *)

Definition merge_user_state (existing : UserInfo) (msg : UserStateMsg) : UserInfo :=
  mkUserInfo (us_session_id existing)
    (default (us_name existing) (um_name msg))
    (default (us_channel_id existing) (um_channel_id msg))
    (default (us_mute existing) (um_mute msg))
    (default (us_deaf existing) (um_deaf msg))
    (default (us_self_mute existing) (um_self_mute msg))
    (default (us_self_deaf existing) (um_self_deaf msg)).

(** The variables [handle_control_packet] borrows; [hc_crypt_tx] says whether the sending
    half of the one-shot channel is still there. *)
Record ClientState := mkClientState {
  hc_crypt_state : option CryptState;
  hc_crypt_tx : bool;
  hc_channels : gmap Z ChannelInfo;
  hc_users : gmap Z UserInfo;
  hc_connected : bool
}.

Definition ClientState_init : ClientState := mkClientState None true ∅ ∅ false.

Definition set_channels (s : ClientState) (chs : gmap Z ChannelInfo) : ClientState :=
  mkClientState (hc_crypt_state s) (hc_crypt_tx s) chs (hc_users s) (hc_connected s).
Definition set_users (s : ClientState) (us : gmap Z UserInfo) : ClientState :=
  mkClientState (hc_crypt_state s) (hc_crypt_tx s) (hc_channels s) us (hc_connected s).

(** What one packet leads to: events for the session, the crypt state sent over the
    one-shot channel, and whether the loop goes on. *)
Record handled := mkHandled {
  hd_state : ClientState;
  hd_events : list MumbleEvent;
  hd_crypt : option CryptState;
  hd_continue : bool
}.

Definition channel_info (msg : ChannelStateMsg) : ChannelInfo :=
  mkChannelInfo (default 0 (cm_channel_id msg)) (default "" (cm_name msg))
    (default 0 (cm_parent msg)) (default "" (cm_description msg)).

Definition user_info (msg : UserStateMsg) : UserInfo :=
  mkUserInfo (default 0 (um_session msg)) (default "" (um_name msg))
    (default 0 (um_channel_id msg)) (default false (um_mute msg)) (default false (um_deaf msg))
    (default false (um_self_mute msg)) (default false (um_self_deaf msg)).

(** The fields a [UserState] message carries, for the browser. *)
Definition user_state_data (session_id : Z) (msg : UserStateMsg) : UserStateData :=
  mkUserStateData session_id (um_channel_id msg) (um_name msg) (um_mute msg) (um_deaf msg)
    (um_self_mute msg) (um_self_deaf msg).

Definition handle_control_packet (s : ClientState) (packet : ControlPacket) : handled :=
  match packet with
  | ChannelState msg =>
      let info := channel_info msg in
      let s' := set_channels s (<[ch_id info := info]> (hc_channels s)) in
      mkHandled s'
        (if hc_connected s then
           match hc_channels s !! ch_id info with
           | Some _ => [MeChannelUpdated info]
           | None => [MeChannelAdded info]
           end
         else []) None true
  | ChannelRemove id =>
      let channel_id := default 0 id in
      mkHandled (set_channels s (delete channel_id (hc_channels s)))
        (if hc_connected s then [MeChannelRemoved channel_id] else []) None true
  | UserState msg =>
      let session_id := default 0 (um_session msg) in
      let info := user_info msg in
      if hc_connected s then
        match hc_users s !! session_id with
        | Some existing =>
            mkHandled
              (set_users s (<[session_id := merge_user_state existing msg]> (hc_users s)))
              [MeUserStateChanged (user_state_data session_id msg)] None true
        | None =>
            mkHandled (set_users s (<[session_id := info]> (hc_users s)))
              [MeUserJoined info] None true
        end
      else mkHandled (set_users s (<[session_id := info]> (hc_users s))) [] None true
  | UserRemove session =>
      let session_id := default 0 session in
      mkHandled (set_users s (delete session_id (hc_users s)))
        (if hc_connected s then [MeUserLeft session_id] else []) None true
  | CryptSetup msg =>
      match crypt_state_from_message msg with
      | Ok cs =>
          mkHandled (mkClientState (Some cs) (hc_crypt_tx s) (hc_channels s) (hc_users s)
                       (hc_connected s)) [] None true
      | Err reason => mkHandled s [MeDisconnected reason] None false
      end
  | ServerSync session =>
      let session_id := default 0 session in
      let '(tx, sent) :=
        match hc_crypt_state s with
        | Some cs => if hc_crypt_tx s then (false, Some cs) else (false, None)
        | None => (hc_crypt_tx s, None)
        end in
      mkHandled (mkClientState None tx (hc_channels s) (hc_users s) true)
        [MeConnected session_id (values (hc_channels s)) (values (hc_users s))] sent true
  | TextMessage msg =>
      mkHandled s
        [MeChatMessage (default 0 (tm_actor msg)) (default 0 (head (tm_channel_id msg)))
           (default "" (tm_message msg))] None true
  | Reject msg =>
      mkHandled s
        [MeDisconnected ("Rejected: " +:+ rm_type msg +:+ ": " +:+ default "" (rm_reason msg))]
        None true
  | OtherPacket => mkHandled s [] None true
  end.

(** ** The connection task *)

(** One turn of its [select!] loop. [sent] is whether the write to the server succeeded;
    a failed write is only logged. *)
Inductive client_input :=
| InPacket (packet : ControlPacket)
| InStreamError (e : string)
| InStreamEnd
| InCommand (cmd : option MumbleCommand) (sent : bool)
| InPing (now : Z) (sent : bool).

Record ClientTask := mkClientTask { ct_state : ClientState; ct_running : bool }.

(** The message a command sends. *)
Definition command_message (cmd : MumbleCommand) : option ServerboundPacket :=
  match cmd with
  | McSendChat channel_id message => Some (SbTextMessage (build_text_message channel_id message))
  | McJoinChannel channel_id => Some (SbUserState (build_user_state_channel channel_id))
  | McSetMute muted => Some (SbUserState (build_user_state_mute muted))
  | McSetDeaf deafened => Some (SbUserState (build_user_state_deaf deafened))
  | McDisconnect => None
  end.

Record client_output := mkClientOutput {
  co_events : list MumbleEvent;
  co_sent : list ServerboundPacket;
  co_crypt : list CryptState
}.

Definition client_step (t : ClientTask) (i : client_input) : ClientTask * client_output :=
  match i with
  | InPacket packet =>
      let h := handle_control_packet (ct_state t) packet in
      (mkClientTask (hd_state h) (hd_continue h),
       mkClientOutput (hd_events h) [] (option_list (hd_crypt h)))
  | InStreamError e =>
      (mkClientTask (ct_state t) false, mkClientOutput [MeDisconnected e] [] [])
  | InStreamEnd =>
      (mkClientTask (ct_state t) false,
       mkClientOutput [MeDisconnected "Connection closed"] [] [])
  | InCommand cmd sent =>
      match cmd ≫= command_message with
      | Some msg => (t, mkClientOutput [] (if sent then [msg] else []) [])
      | None => (mkClientTask (ct_state t) false, mkClientOutput [] [] [])
      end
  | InPing now sent =>
      (t, mkClientOutput [] (if sent then [SbPing (build_ping now)] else []) [])
  end.

(** Before the loop: version and authentication; [Err] is a failed write. *)
Definition client_login (username : string) (version_sent auth_sent : result unit)
    : ClientTask * client_output :=
  match version_sent with
  | Err e => (mkClientTask ClientState_init false, mkClientOutput [MeDisconnected e] [] [])
  | Ok _ =>
      match auth_sent with
      | Err e =>
          (mkClientTask ClientState_init false,
           mkClientOutput [MeDisconnected e] [SbVersion build_version_message] [])
      | Ok _ =>
          (mkClientTask ClientState_init true,
           mkClientOutput []
             [SbVersion build_version_message;
              SbAuthenticate (build_authenticate_message username)] [])
      end
  end.

Definition output_app (o1 o2 : client_output) : client_output :=
  mkClientOutput (co_events o1 ++ co_events o2) (co_sent o1 ++ co_sent o2)
    (co_crypt o1 ++ co_crypt o2).

Fixpoint client_run (t : ClientTask) (ins : list client_input) : ClientTask * client_output :=
  match ins with
  | [] => (t, mkClientOutput [] [] [])
  | i :: ins =>
      if ct_running t then
        let '(t1, o1) := client_step t i in
        let '(t2, o2) := client_run t1 ins in
        (t2, output_app o1 o2)
      else (t, mkClientOutput [] [] [])
  end.

(** ** The roster a consumer of the events sees

    [apply_event] is what a listener that knows only the events can reconstruct: nothing
    before [Connected], then one update per event. *)

Record View := mkView { v_channels : gmap Z ChannelInfo; v_users : gmap Z UserInfo }.

Definition index_by {A} (key : A → Z) (l : list A) : gmap Z A :=
  list_to_map ((λ a, (key a, a)) <$> l).

Definition apply_user_state (u : UserInfo) (d : UserStateData) : UserInfo :=
  mkUserInfo (us_session_id u) (default (us_name u) (ud_name d))
    (default (us_channel_id u) (ud_channel_id d)) (default (us_mute u) (ud_mute d))
    (default (us_deaf u) (ud_deaf d)) (default (us_self_mute u) (ud_self_mute d))
    (default (us_self_deaf u) (ud_self_deaf d)).

Definition apply_event (v : option View) (e : MumbleEvent) : option View :=
  match e, v with
  | MeConnected _ chs us, _ => Some (mkView (index_by ch_id chs) (index_by us_session_id us))
  | MeUserJoined u, Some v =>
      Some (mkView (v_channels v) (<[us_session_id u := u]> (v_users v)))
  | MeUserLeft id, Some v => Some (mkView (v_channels v) (delete id (v_users v)))
  | MeUserStateChanged d, Some v =>
      Some (mkView (v_channels v)
              (alter (λ u, apply_user_state u d) (ud_session_id d) (v_users v)))
  | MeChannelAdded c, Some v | MeChannelUpdated c, Some v =>
      Some (mkView (<[ch_id c := c]> (v_channels v)) (v_users v))
  | MeChannelRemoved id, Some v => Some (mkView (delete id (v_channels v)) (v_users v))
  | _, v => v
  end.

Definition view_of (s : ClientState) : option View :=
  if hc_connected s then Some (mkView (hc_channels s) (hc_users s)) else None.

(** Every cached entry is stored under its own id. *)
Definition roster_wf (s : ClientState) : Prop :=
  (∀ k c, hc_channels s !! k = Some c → ch_id c = k) ∧
  (∀ k u, hc_users s !! k = Some u → us_session_id u = k).

Lemma index_by_values {A} `{!MapValues Z A} (key : A → Z) (m : gmap Z A) :
  (∀ k a, m !! k = Some a → key a = k) → index_by key (values m) = m.
Proof.
  intros Hwf. unfold index_by.
  assert (Hp : (λ a, (key a, a)) <$> values m ≡ₚ map_to_list m).
  { rewrite values_perm, <- list_fmap_compose.
    rewrite <- (list_fmap_id (map_to_list m)) at 2.
    apply reflexive_eq, list_fmap_ext. intros i [k a] Hi. simpl.
    apply list_elem_of_lookup_2, elem_of_map_to_list in Hi. by rewrite (Hwf _ _ Hi). }
  rewrite <- (list_to_map_to_list m) at 2. apply list_to_map_proper; [|done].
  rewrite Hp. apply NoDup_fst_map_to_list.
Qed.

Lemma alter_present {A} (f : A → A) (m : gmap Z A) k a :
  m !! k = Some a → alter f k m = <[k := f a]> m.
Proof.
  intros Hk. apply map_eq. intros j. destruct (decide (k = j)) as [<-|Hne].
  - by rewrite lookup_alter_eq, Hk, lookup_insert_eq.
  - by rewrite lookup_alter_ne, lookup_insert_ne.
Qed.

Lemma handle_roster_wf s p : roster_wf s → roster_wf (hd_state (handle_control_packet s p)).
Proof.
  intros [Hc Hu].
  assert (Hch : ∀ k0 c0, ch_id c0 = k0 → ∀ k c, <[k0 := c0]> (hc_channels s) !! k = Some c → ch_id c = k).
  { intros k0 c0 <- k c. rewrite lookup_insert_Some. naive_solver. }
  assert (Hus : ∀ k0 c0, us_session_id c0 = k0 →
    ∀ k c, <[k0 := c0]> (hc_users s) !! k = Some c → us_session_id c = k).
  { intros k0 c0 <- k c. rewrite lookup_insert_Some. naive_solver. }
  destruct p; simpl; repeat case_match; simplify_eq/=;
    split; simpl; try done; try (by apply Hch); try (by apply Hus);
    try (intros ??; rewrite lookup_delete_Some; naive_solver).
  apply Hus. simpl. by apply Hu.
Qed.

Lemma handle_view s p :
  roster_wf s →
  foldl apply_event (view_of s) (hd_events (handle_control_packet s p))
  = view_of (hd_state (handle_control_packet s p)).
Proof.
  intros [Hc Hu]. unfold view_of.
  destruct p as [m|c|m|u|m|i|m|m|]; simpl; repeat (case_match; simplify_eq/=; try done).
  all: first [by rewrite !index_by_values
             | match goal with H : hc_users ?s !! _ = Some _ |- _ =>
                 by rewrite (alter_present _ _ _ _ H) end].
Qed.

Lemma client_step_wf t i : roster_wf (ct_state t) → roster_wf (ct_state (client_step t i).1).
Proof.
  intros Hwf. destruct i; simpl; try done; [by apply handle_roster_wf|by case_match].
Qed.

Lemma client_step_view t i :
  roster_wf (ct_state t) →
  foldl apply_event (view_of (ct_state t)) (co_events (client_step t i).2)
  = view_of (ct_state (client_step t i).1).
Proof.
  intros Hwf. destruct i; simpl; try (by destruct (view_of _)).
  - by apply handle_view.
  - by case_match.
Qed.

Lemma client_run_view t ins :
  roster_wf (ct_state t) →
  roster_wf (ct_state (client_run t ins).1) ∧
  foldl apply_event (view_of (ct_state t)) (co_events (client_run t ins).2)
  = view_of (ct_state (client_run t ins).1).
Proof.
  revert t. induction ins as [|i ins IH]; intros t Hwf; [done|]. simpl.
  destruct (ct_running t); [|done].
  pose proof (client_step_wf t i Hwf) as Hwf1. pose proof (client_step_view t i Hwf) as Hv.
  destruct (client_step t i) as [t1 o1]. destruct (IH t1 Hwf1) as [Hwf2 Hv2].
  destruct (client_run t1 ins) as [t2 o2]. simpl in *. split; [done|].
  by rewrite foldl_app, Hv.
Qed.

Lemma ClientState_init_wf : roster_wf ClientState_init.
Proof. split; intros k x; simpl; rewrite lookup_empty; done. Qed.

Definition client_start : ClientTask := mkClientTask ClientState_init true.

(** The events that say something of the roster; a chat message and the end of the connection
    do not. *)
Definition roster_event (e : MumbleEvent) : bool :=
  match e with MeChatMessage _ _ _ | MeDisconnected _ => false | _ => true end.

(** The first event on the roster is [Connected], and there is none while not logged in. *)
Definition login_first (connected : bool) (events : list MumbleEvent) : Prop :=
  ∃ pre post, events = pre ++ post ∧ Forall (λ e, roster_event e = false) pre ∧
    if connected then ∃ id chs us rest, post = MeConnected id chs us :: rest else post = [].

Lemma client_step_login t i :
  let '(t', o) := client_step t i in
  (hc_connected (ct_state t) = true → hc_connected (ct_state t') = true) ∧
  (hc_connected (ct_state t) = false → login_first (hc_connected (ct_state t')) (co_events o)).
Proof.
  assert (Hquiet : ∀ es, Forall (λ e, roster_event e = false) es → login_first false es).
  { intros es Hes. exists es, []. by rewrite app_nil_r. }
  destruct i as [p|e| |cmd sent|now sent]; simpl.
  - destruct (hc_connected (ct_state t)) eqn:Hcon.
    { split; [|done]. intros _. destruct p; simpl; rewrite ?Hcon; by repeat case_match. }
    split; [done|]. intros _. destruct p; simpl; rewrite ?Hcon; repeat case_match; simpl;
      rewrite ?Hcon; try (by apply Hquiet; repeat constructor).
    all: exists []; simpl; eauto 10.
  - split; [done|]. intros ->. apply Hquiet. by repeat constructor.
  - split; [done|]. intros ->. apply Hquiet. by repeat constructor.
  - destruct (cmd ≫= command_message); simpl; (split; [auto|]); intros ->; apply Hquiet; by repeat constructor.
  - split; [done|]. intros ->. apply Hquiet; by repeat constructor.
Qed.

Lemma login_first_app events more : login_first true events → login_first true (events ++ more).
Proof.
  intros (pre & post & -> & Hpre & id & chs & us & rest & ->).
  exists pre, (MeConnected id chs us :: rest ++ more). rewrite <- app_assoc. eauto 10.
Qed.

Lemma client_run_login ins : ∀ t,
  let '(t', o) := client_run t ins in
  (hc_connected (ct_state t) = true → hc_connected (ct_state t') = true) ∧
  (hc_connected (ct_state t) = false → login_first (hc_connected (ct_state t')) (co_events o)).
Proof.
  assert (Hnil : login_first false []) by by exists [], [].
  induction ins as [|i ins IH]; intros t; simpl; [split; [done|by intros ->]|].
  destruct (ct_running t); [|split; [done|by intros ->]].
  pose proof (client_step_login t i) as Hstep. destruct (client_step t i) as [t1 o1].
  destruct Hstep as [Hs1 Hs2]. specialize (IH t1). destruct (client_run t1 ins) as [t2 o2].
  destruct IH as [IH1 IH2]. split; [by auto|]. intros Hn. specialize (Hs2 Hn). simpl.
  destruct (hc_connected (ct_state t1)).
  - rewrite (IH1 eq_refl). by apply login_first_app.
  - destruct Hs2 as (pre1 & post1 & -> & Hpre1 & ->).
    destruct (IH2 eq_refl) as (pre2 & post2 & -> & Hpre2 & Hpost).
    exists (pre1 ++ pre2), post2. rewrite app_nil_r, app_assoc. split_and!; [done| |done].
    by apply Forall_app.
Qed.

(** C21: the events of a connection are complete and start with the login. For every sequence
    of packets, commands, pings and failures, a listener that starts with nothing and applies
    the events in order holds exactly the channels and users the connection task has cached
    once the task is logged in; until then it has been told nothing of the roster (only of
    chat messages and the end of the connection), and the first thing it is told of it is
    [Connected]; entries are always filed under their id. *)
Theorem client_events_mirror_roster (ins : list client_input) :
  let '(t, o) := client_run client_start ins in
  roster_wf (ct_state t) ∧
  (foldl apply_event None (co_events o) =
    if hc_connected (ct_state t)
    then Some (mkView (hc_channels (ct_state t)) (hc_users (ct_state t))) else None) ∧
  ∃ pre post, co_events o = pre ++ post ∧ Forall (λ e, roster_event e = false) pre ∧
    if hc_connected (ct_state t)
    then ∃ id chs us rest, post = MeConnected id chs us :: rest else post = [].
Proof.
  pose proof (client_run_view client_start ins ClientState_init_wf) as [Hwf Hview].
  pose proof (client_run_login ins client_start) as Hlogin.
  destruct (client_run client_start ins) as [t o]. split_and!; [done|done|]. by apply Hlogin.
Qed.

(** ** The crypt state *)

Lemma fixed_size_bytes_Ok N bytes field bs :
  fixed_size_bytes N bytes field = Ok bs ↔ Z.of_nat (length bytes) = N ∧ bs = bytes.
Proof. unfold fixed_size_bytes. case_match; bool_to_prop; naive_solver lia. Qed.

(** A message with all three fields of the right size. *)
Definition crypt_sizes_ok (msg : CryptSetupMsg) : Prop :=
  Z.of_nat (length (default [] (xm_key msg))) = KEY_SIZE ∧
  Z.of_nat (length (default [] (xm_client_nonce msg))) = BLOCK_SIZE ∧
  Z.of_nat (length (default [] (xm_server_nonce msg))) = BLOCK_SIZE.

Definition crypt_of (msg : CryptSetupMsg) : CryptState :=
  new_from (default [] (xm_key msg)) (default [] (xm_client_nonce msg))
    (default [] (xm_server_nonce msg)).

Lemma crypt_state_from_message_Ok msg cs :
  crypt_state_from_message msg = Ok cs ↔ crypt_sizes_ok msg ∧ cs = crypt_of msg.
Proof.
  unfold crypt_state_from_message, crypt_sizes_ok. split.
  - intros H. result_inv.
    repeat match goal with H : fixed_size_bytes _ _ _ = Ok _ |- _ =>
      apply fixed_size_bytes_Ok in H as [? ->] end. by subst.
  - intros [(H1 & H2 & H3) ->].
    rewrite (proj2 (fixed_size_bytes_Ok _ _ _ _) (conj H1 eq_refl)), bind_Ok.
    rewrite (proj2 (fixed_size_bytes_Ok _ _ _ _) (conj H2 eq_refl)), bind_Ok.
    by rewrite (proj2 (fixed_size_bytes_Ok _ _ _ _) (conj H3 eq_refl)).
Qed.

(** A crypt state came from one of the [CryptSetup] messages in [ins]. *)
Definition crypt_from (ins : list client_input) (cs : CryptState) : Prop :=
  ∃ msg, InPacket (CryptSetup msg) ∈ ins ∧ crypt_sizes_ok msg ∧ cs = crypt_of msg.

Lemma crypt_from_app_l ins1 ins2 cs : crypt_from ins1 cs → crypt_from (ins1 ++ ins2) cs.
Proof. intros (m & Hin & ?). exists m. split; [|done]. apply elem_of_app. by left. Qed.

(** The sender is spent exactly when a crypt state has been delivered. *)
Definition crypt_inv (ins : list client_input) (s : ClientState) (sent : list CryptState) : Prop :=
  (∀ cs, hc_crypt_state s = Some cs → crypt_from ins cs) ∧
  Forall (crypt_from ins) sent ∧
  length sent = if hc_crypt_tx s then 0%nat else 1%nat.

Lemma crypt_inv_weaken pre i s sent : crypt_inv pre s sent → crypt_inv (pre ++ [i]) s sent.
Proof.
  intros (H1 & H2 & H3). split_and!; [|apply (Forall_weaken _ _ _ (crypt_from_app_l _ _) H2)|done].
  intros cs Hcs. by apply crypt_from_app_l, H1.
Qed.

Lemma client_step_crypt pre t i sent :
  crypt_inv pre (ct_state t) sent →
  crypt_inv (pre ++ [i]) (ct_state (client_step t i).1) (sent ++ co_crypt (client_step t i).2).
Proof.
  intros Hinv. pose proof (crypt_inv_weaken _ i _ _ Hinv) as Hw.
  pose proof Hw as (H1 & H2 & H3).
  destruct i as [p|e| |cmd ok|now ok]; simpl; rewrite ?app_nil_r; try done;
    [|destruct cmd as [[]|]; simpl; by rewrite ?app_nil_r].
  destruct p as [m|c|m|u|m|i|m|m|]; simpl; try (by rewrite app_nil_r);
    try (repeat case_match; by rewrite app_nil_r).
  - destruct (crypt_state_from_message m) as [cs|e] eqn:E; simpl; rewrite app_nil_r; [|done].
    split_and!; simpl; [|done..]. intros cs' [= <-].
    apply crypt_state_from_message_Ok in E. exists m. split; [set_solver|done].
  - destruct (hc_crypt_state (ct_state t)) as [cs|], (hc_crypt_tx (ct_state t)) eqn:Htx; simpl;
      rewrite ?app_nil_r; (split_and!; simpl; try done).
    + apply Forall_app. split; [done|]. constructor; [by apply H1|constructor].
    + rewrite length_app, H3. done.
Qed.

Lemma client_run_crypt pre t ins sent :
  crypt_inv pre (ct_state t) sent →
  crypt_inv (pre ++ ins) (ct_state (client_run t ins).1) (sent ++ co_crypt (client_run t ins).2).
Proof.
  revert pre t sent. induction ins as [|i ins IH]; intros pre t sent Hinv.
  { by rewrite !app_nil_r. }
  simpl. destruct (ct_running t); simpl.
  - pose proof (client_step_crypt pre t i sent Hinv) as H1.
    destruct (client_step t i) as [t1 o1]. simpl in H1. specialize (IH _ _ _ H1).
    destruct (client_run t1 ins) as [t2 o2]. simpl in *. by rewrite <- !app_assoc in IH.
  - rewrite app_nil_r. destruct Hinv as (H1 & H2 & H3). split_and!; [|eapply Forall_weaken, H2|done].
    + intros cs Hcs. by apply crypt_from_app_l, H1.
    + intros cs Hcs. by apply crypt_from_app_l.
Qed.

(** Voice encryption starts from exactly one, well-formed key. Whatever the server
    sends, the crypt state is handed to the voice task at most once per connection, and the
    one handed over was built from a received [CryptSetup] whose key and nonces have the
    exact sizes; a message with any other size ends the connection with an error. *)
Theorem crypt_state_delivered_once (ins : list client_input) :
  let '(t, o) := client_run client_start ins in
  (length (co_crypt o) ≤ 1)%nat ∧
  (∀ cs, cs ∈ co_crypt o →
     ∃ msg, InPacket (CryptSetup msg) ∈ ins ∧ crypt_sizes_ok msg ∧ cs = crypt_of msg) ∧
  (∀ msg, ¬ crypt_sizes_ok msg →
     ∃ reason, client_step t (InPacket (CryptSetup msg))
       = (mkClientTask (ct_state t) false, mkClientOutput [MeDisconnected reason] [] [])).
Proof.
  assert (Hinit : crypt_inv [] (ct_state client_start) []) by by split_and!.
  pose proof (client_run_crypt [] client_start ins [] Hinit) as (_ & H2 & H3).
  destruct (client_run client_start ins) as [t o]. simpl in *. split_and!.
  - rewrite H3. case_match; lia.
  - intros cs Hcs. by apply (proj1 (Forall_forall _ _) H2) in Hcs.
  - intros msg Hbad. destruct (crypt_state_from_message msg) as [cs|e] eqn:E; [|by exists e].
    by apply crypt_state_from_message_Ok in E as [? _].
Qed.

(** ** How the task ends *)

Definition commanded (i : client_input) : bool :=
  match i with InCommand (Some McDisconnect) _ | InCommand None _ => true | _ => false end.

Lemma client_step_stops t i :
  ct_running t = true → ct_running (client_step t i).1 = false →
  if commanded i then co_events (client_step t i).2 = []
  else ∃ reason, co_events (client_step t i).2 = [MeDisconnected reason].
Proof.
  intros Hr. destruct i as [p|e| |[[]|] ok|now ok]; simpl; try naive_solver congruence.
  destruct p; simpl; repeat case_match; naive_solver.
Qed.

Lemma client_run_stopped t ins :
  ct_running t = false → client_run t ins = (t, mkClientOutput [] [] []).
Proof. intros H. destruct ins; [done|]. simpl. by rewrite H. Qed.

Lemma client_stop_cause (ins : list client_input) : ∀ t0 t o,
  ct_running t0 = true → client_run t0 ins = (t, o) → ct_running t = false →
  ∃ pre i post, ins = pre ++ i :: post ∧ client_run t0 (pre ++ [i]) = (t, o) ∧
    ct_running (client_run t0 pre).1 = true ∧
    (commanded i = false → ∃ reason, last (co_events o) = Some (MeDisconnected reason)).
Proof.
  induction ins as [|i ins IH]; intros t0 t o Hr Hrun Hstop.
  { simpl in Hrun. congruence. }
  simpl in Hrun. rewrite Hr in Hrun.
  pose proof (client_step_stops t0 i Hr) as Hs. destruct (client_step t0 i) as [t1 o1] eqn:E1.
  destruct (ct_running t1) eqn:Hr1.
  - destruct (client_run t1 ins) as [t2 o2] eqn:E2. simplify_eq.
    destruct (IH _ _ _ Hr1 E2 Hstop) as (pre & j & post & -> & Hrun & Hpre & Hl).
    exists (i :: pre), j, post. split_and!; [done|..].
    + simpl. by rewrite Hr, E1, Hrun.
    + simpl. rewrite Hr, E1. by destruct (client_run t1 pre).
    + intros Hc. destruct (Hl Hc) as [r Hlast]. exists r. simpl. rewrite last_app, Hlast. done.
  - rewrite client_run_stopped in Hrun by done. simplify_eq.
    exists [], i, ins. split_and!; [done|..|done|].
    + simpl. rewrite Hr, E1. by destruct (ct_running t).
    + intros Hc. specialize (Hs Hr1). rewrite Hc in Hs. destruct Hs as [r Hs].
      exists r. simpl in *. by rewrite Hs, last_app.
Qed.

(** No silent death. If the connection task has stopped, then some input stopped it,
    and unless that input was the session's own [Disconnect] (or the session dropping its
    command channel), the last event the session receives is [Disconnected]; inputs
    after that one have no effect. *)
Theorem client_end_reported (ins : list client_input) t o :
  client_run client_start ins = (t, o) →
  ct_running t = false →
  ∃ pre i post, ins = pre ++ i :: post ∧ client_run client_start (pre ++ [i]) = (t, o) ∧
    ct_running (client_run client_start pre).1 = true ∧
    (commanded i = false → ∃ reason, last (co_events o) = Some (MeDisconnected reason)).
Proof. by apply client_stop_cause. Qed.
End Client.

(** A login, then the server closing the connection. *)
Lemma client_end_reported_witness :
  ∃ pre i post,
    [InPacket (ServerSync (Some 7)); InStreamEnd; InPing 1 true] = pre ++ i :: post ∧
    client_run unit (λ _ _ _, tt) 16 16 (client_start unit) (pre ++ [i])
    = (mkClientTask unit (mkClientState unit None true ∅ ∅ true) false,
       mkClientOutput unit [MeConnected 7 [] []; MeDisconnected "Connection closed"] [] []) ∧
    ct_running unit (client_run unit (λ _ _ _, tt) 16 16 (client_start unit) pre).1 = true ∧
    (commanded i = false → ∃ reason,
       last [MeConnected 7 [] []; MeDisconnected "Connection closed"]
       = Some (MeDisconnected reason)).
Proof.
  apply (client_end_reported unit (λ _ _ _, tt) 16 16
    [InPacket (ServerSync (Some 7)); InStreamEnd; InPing 1 true]); vm_compute; reflexivity.
Defined.

(** A [ChannelState] that carries only a new description, as servers send for an edit,
    resets the name and the parent the task had cached for that channel, and the
    [ChannelUpdated] event carries the reset values; a partial [UserState] keeps them. *)
Example partial_channel_state_resets :
  let lobby := mkChannelInfo 3 "Lobby" 1 "old" in
  let s := mkClientState unit None false {[3 := lobby]} ∅ true in
  let h := handle_control_packet unit (λ _ _ _, tt) 16 16 s
             (ChannelState (mkChannelState (Some 3) None None (Some "new"))) in
  hc_channels unit (hd_state unit h) !! 3 = Some (mkChannelInfo 3 "" 0 "new") ∧
  hd_events unit h = [MeChannelUpdated (mkChannelInfo 3 "" 0 "new")].
Proof. vm_compute. by split. Qed.
