(* ===== verification/Voice.v ===== *)
(** * The Mumble voice socket and the audio path ([src/src/mumble/voice.rs],
      [src/src/webrtc/audio.rs], [AudioBridge] in [src/src/bridge.rs])

    The voice task owns the encrypted UDP socket: it pings, hands incoming Opus frames to
    the bridge and sends the bridge's frames to the server. The codec, the socket and the
    channels belong to other crates: what they yield and whether a send succeeded are inputs
    of a step. The end of the file composes the tasks to the two directions of audio. *)

From Stdlib Require Import ZArith Lia Sorted.
From stdpp Require Import base tactics list gmap strings option.
From S2P Require Import Prelude Opus Text Net Uplink Speakers.
Local Open Scope Z_scope.

(** ** Packets *)

Inductive VoicePacketPayload := PayloadOpus (data : list Z) (last : bool) | PayloadOther.

(** [VoicePacket<Clientbound>] *)
Inductive VoicePacketIn :=
| InPing (timestamp : Z)
| InAudio (session_id seq_num : Z) (payload : VoicePacketPayload).

(** [VoicePacket<Serverbound>]; [target] 0 is normal speech. *)
Inductive VoicePacketOut :=
| OutPing (timestamp : Z)
| OutAudio (target seq_num : Z) (payload : VoicePacketPayload).

(** ** [MumbleVoice] *)

(** Whether the task handle and the two channel halves are still held. *)
Record MumbleVoice := mkMumbleVoiceHandle {
  vo_task : bool; vo_voice_rx : bool; vo_voice_tx : bool
}.

(** [MumbleVoice::start]: the address it binds, and the handle. The local address is only
    asked for (and can only fail) when debug logging is on. *)
Definition voice_bind_addr (server_addr : SocketAddr) : SocketAddr :=
  match server_addr with
  | SocketV6 _ _ _ _ => SocketV6 0 0 0 0
  | SocketV4 _ _ => SocketV4 UNSPECIFIED 0
  end.

Definition MumbleVoice_start (server_addr : SocketAddr)
    (bind : SocketAddr → result unit) (debug_enabled : bool) (local_addr : result unit)
    : result MumbleVoice :=
  match bind (voice_bind_addr server_addr) with
  | Err e => Err ("Failed to bind UDP socket: " +:+ e)
  | Ok _ => _ ← if debug_enabled then local_addr else Ok tt; Ok (mkMumbleVoiceHandle true true true)
  end.

(** The receiver is taken even when the sender is missing. *)
Definition MumbleVoice_take_channels (v : MumbleVoice) : MumbleVoice * result unit :=
  if negb (vo_voice_rx v) then (v, Err "Voice receiver already taken")
  else if negb (vo_voice_tx v) then
    (mkMumbleVoiceHandle (vo_task v) false false, Err "Voice sender already taken")
  else (mkMumbleVoiceHandle (vo_task v) false false, Ok tt).

(** The second component says whether the task is aborted. [Drop] calls it as well. *)
Definition MumbleVoice_shutdown (v : MumbleVoice) : MumbleVoice * bool :=
  (mkMumbleVoiceHandle false false false, vo_task v).

(** ** The voice task *)

Inductive VoiceInput :=
| ViTick (unix_micros : Z) (sent : bool)
| ViPacket (packet : VoicePacketIn) (now : Z) (outcome : try_send_outcome)
| ViInvalid
| ViEnd
| ViOutgoing (data : option WebrtcVoiceData) (sent : bool).

Record VoiceOutput := mkVoiceOutput {
  vx_sent : list VoicePacketOut;
  vx_incoming : list MumbleVoiceData
}.

Definition voice_output_app (o1 o2 : VoiceOutput) : VoiceOutput :=
  mkVoiceOutput (vx_sent o1 ++ vx_sent o2) (vx_incoming o1 ++ vx_incoming o2).

Definition when_sent (sent : bool) (p : VoicePacketOut) : list VoicePacketOut :=
  if sent then [p] else [].

(** One turn of the [select!] loop of [run]; the boolean says whether it goes on. A failed
    send is only logged. *)
Definition voice_step (i : VoiceInput) : bool * VoiceOutput :=
  match i with
  | ViTick unix_micros sent =>
      (true, mkVoiceOutput (when_sent sent (OutPing (wrap 64 unix_micros))) [])
  | ViPacket (InPing _) _ _ => (true, mkVoiceOutput [] [])
  | ViPacket (InAudio session_id seq_num payload) now outcome =>
      match payload with
      | PayloadOpus data last =>
          (true, mkVoiceOutput []
             match outcome with
             | Sent => [mkMumbleVoice session_id seq_num data last now]
             | _ => []
             end)
      | PayloadOther => (true, mkVoiceOutput [] [])
      end
  | ViInvalid => (true, mkVoiceOutput [] [])
  | ViEnd => (false, mkVoiceOutput [] [])
  | ViOutgoing (Some data) sent =>
      (true, mkVoiceOutput
         (when_sent sent (OutAudio 0 (wv_seq_num data)
            (PayloadOpus (wv_opus_data data) (wv_last_frame data)))) [])
  | ViOutgoing None _ => (false, mkVoiceOutput [] [])
  end.

Fixpoint voice_loop (ins : list VoiceInput) : bool * VoiceOutput :=
  match ins with
  | [] => (true, mkVoiceOutput [] [])
  | i :: ins =>
      let '(continue, o1) := voice_step i in
      if continue then
        let '(running, o2) := voice_loop ins in (running, voice_output_app o1 o2)
      else (false, o1)
  end.

(** [MumbleVoice::run]: the initial ping, then the loop. *)
Definition voice_run (init_sent : bool) (ins : list VoiceInput) : bool * VoiceOutput :=
  if init_sent then
    let '(running, o) := voice_loop ins in
    (running, voice_output_app (mkVoiceOutput [OutPing 0] []) o)
  else (false, mkVoiceOutput [] []).

(** ** Audio from the browser ([audio.rs]) *)

Inductive RTPCodecType := CodecAudio | CodecVideo | CodecUnspecified.

#[export] Instance RTPCodecType_eq_dec : EqDecision RTPCodecType.
Proof. solve_decision. Defined.

(** Whether the [on_track] handler reads a track ([eq_ignore_ascii_case]). *)
Definition reads_track (kind : RTPCodecType) (mime_type : string) : bool :=
  bool_decide (kind = CodecAudio)
  && bool_decide (to_lowercase mime_type = to_lowercase "audio/opus").

(** One turn of the reading loop: the RTP packet read (payload, sequence number,
    timestamp) with the clock reading and the outcome of [try_send], or a read error. *)
Inductive RtpRead :=
| RtpPacketRead (payload : list Z) (sequence_number timestamp now : Z) (outcome : try_send_outcome)
| RtpReadError.

Fixpoint incoming_audio (reads : list RtpRead) : bool * list IncomingAudioPacket :=
  match reads with
  | [] => (true, [])
  | RtpReadError :: _ => (false, [])
  | RtpPacketRead payload sequence_number timestamp now outcome :: reads =>
      let packet := mkIncoming payload sequence_number timestamp now in
      match outcome with
      | Closed => (false, [])
      | Full => incoming_audio reads
      | Sent => let '(running, ps) := incoming_audio reads in (running, packet :: ps)
      end
  end.

(** The handler of one remote track: what it puts into the channel of the bridge. *)
Definition setup_incoming_audio_handler (kind : RTPCodecType) (mime_type : string)
    (reads : list RtpRead) : list IncomingAudioPacket :=
  if reads_track kind mime_type then (incoming_audio reads).2 else [].

(** ** Properties of the voice task *)

(** What an input makes the task send and hand to the bridge, taken alone. *)
Definition input_output (i : VoiceInput) : VoiceOutput := (voice_step i).2.

(** The task ends only when the socket's stream ends or the bridge is gone. *)
Definition ends_voice (i : VoiceInput) : bool :=
  match i with ViEnd | ViOutgoing None _ => true | _ => false end.

Lemma voice_step_continues i : (voice_step i).1 = negb (ends_voice i).
Proof. by destruct i as [| [|? ? []] | | |[]]. Qed.

Definition outgoing_frame (i : VoiceInput) : list WebrtcVoiceData :=
  match i with ViOutgoing (Some data) _ => [data] | _ => [] end.

Definition outgoing_frames (ins : list VoiceInput) : list WebrtcVoiceData := ins ≫= outgoing_frame.

Definition audio_out (f : WebrtcVoiceData) : VoicePacketOut :=
  OutAudio 0 (wv_seq_num f) (PayloadOpus (wv_opus_data f) (wv_last_frame f)).

Definition is_audio_out (p : VoicePacketOut) : bool :=
  match p with OutAudio _ _ _ => true | OutPing _ => false end.

Definition sent_audio (o : VoiceOutput) : list VoicePacketOut := List.filter is_audio_out (vx_sent o).

Lemma sent_audio_app o1 o2 : sent_audio (voice_output_app o1 o2) = sent_audio o1 ++ sent_audio o2.
Proof. apply List.filter_app. Qed.

(** The audio packets sent are frames of the channel, in order. *)
Lemma voice_loop_audio ins :
  sublist (sent_audio (voice_loop ins).2) (audio_out <$> outgoing_frames ins).
Proof.
  induction ins as [|i ins IH]; [constructor|]. simpl.
  assert (Hstep : sublist (sent_audio (voice_step i).2) (audio_out <$> outgoing_frame i)).
  { destruct i as [?[]|[|? ? []] ? []| | |[?|] []]; simpl; by repeat constructor. }
  change (outgoing_frames (i :: ins)) with (outgoing_frame i ++ outgoing_frames ins).
  rewrite fmap_app.
  destruct (voice_step i) as [[] o]; simpl in *; [|by apply sublist_inserts_r].
  destruct (voice_loop ins) as [r o2]. simpl in *. rewrite sent_audio_app.
  by apply sublist_app.
Qed.

(** The frame a packet of the server carries, if its [try_send] succeeded. *)
Definition received_frame (i : VoiceInput) : list MumbleVoiceData :=
  match i with
  | ViPacket (InAudio s n (PayloadOpus d l)) now Sent => [mkMumbleVoice s n d l now]
  | _ => []
  end.

Lemma voice_run_incoming ins d :
  d ∈ vx_incoming (voice_run true ins).2 → ∃ i, i ∈ ins ∧ d ∈ received_frame i.
Proof.
  assert (Hl : d ∈ vx_incoming (voice_loop ins).2 → ∃ i, i ∈ ins ∧ d ∈ received_frame i).
  { induction ins as [|i ins IH]; simpl; [intros H; by apply elem_of_nil in H|].
    assert (Hi : vx_incoming (voice_step i).2 = received_frame i)
      by by destruct i as [?[]|[|? ? []] ? []| | |[?|] []].
    setoid_rewrite elem_of_cons. destruct (voice_step i) as [[] o]; simpl in *; [|rewrite Hi; eauto].
    destruct (voice_loop ins) as [r o2]. simpl in *. rewrite elem_of_app, Hi.
    intros [?|Hd]; [eauto|]. destruct (IH Hd) as (j & ? & ?). eauto. }
  unfold voice_run. by destruct (voice_loop ins).
Qed.

(** The voice task survives and relays faithfully. As long as the socket's stream and
    the bridge's channel are open, whatever else happens (undecodable datagrams, pings,
    non-Opus audio, failed sends, a full channel) the task keeps running; it hands every
    Opus frame that fits to the bridge unchanged and in order, sends after its initial
    ping exactly its own pings and the bridge's frames unchanged and in order, and never
    answers a packet of the server. *)
Theorem voice_relays_faithfully ins :
  Forall (λ i, ends_voice i = false) ins →
  voice_run true ins = (true, mkVoiceOutput
    (OutPing 0 :: (ins ≫= λ i, match i with
        | ViTick now true => [OutPing (wrap 64 now)]
        | ViOutgoing (Some f) true => [audio_out f]
        | _ => []
        end))
    (ins ≫= received_frame)).
Proof.
  intros Hins. unfold voice_run.
  assert (voice_loop ins = (true, mkVoiceOutput (ins ≫= λ i, vx_sent (input_output i))
                                    (ins ≫= λ i, vx_incoming (input_output i)))) as ->.
  { induction Hins as [|i ins Hi _ IH]; [done|]. simpl.
    pose proof (voice_step_continues i) as Hc. rewrite Hi in Hc. unfold input_output in *.
    destruct (voice_step i) as [c o]. simpl in Hc. subst. by rewrite IH. }
  simpl. unfold voice_output_app. simpl. do 2 f_equal; [f_equal|].
  all: apply list_bind_ext; [|done]; intros i;
    by destruct i as [?[]|[|? ? []] ? []| | |[?|] []].
Qed.

Lemma voice_relays_faithfully_witness :
  voice_run true
    [ViTick 7 true; ViInvalid; ViPacket (InPing 3) 0 Sent;
     ViPacket (InAudio 4 9 (PayloadOpus [1; 2] false)) 5 Sent;
     ViOutgoing (Some (mkVoiceData 2 [8] false)) true]
  = (true, mkVoiceOutput [OutPing 0; OutPing 7; OutAudio 0 2 (PayloadOpus [8] false)]
             [mkMumbleVoice 4 9 [1; 2] false 5]).
Proof.
  exact (voice_relays_faithfully
    [ViTick 7 true; ViInvalid; ViPacket (InPing 3) 0 Sent;
     ViPacket (InAudio 4 9 (PayloadOpus [1; 2] false)) 5 Sent;
     ViOutgoing (Some (mkVoiceData 2 [8] false)) true] ltac:(repeat constructor)).
Defined.

(** ** From the browser to the Mumble server

    Two channels connect the tasks: the RTP reader feeds the uplink task, which feeds the
    voice task. A channel delivers a prefix of what was put into it, in order. *)

Definition event_packet (ev : UplinkEvent) : list IncomingAudioPacket :=
  match ev with RecvPacket (Some p) _ _ _ => [p] | _ => [] end.

Definition out_number (p : VoicePacketOut) : option Z :=
  match p with OutAudio _ n (PayloadOpus _ false) => Some n | _ => None end.

(** The frame numbers of the audio packets sent (end-of-talk packets left out). *)
Definition out_numbers (ps : list VoicePacketOut) : list Z := omap out_number ps.

Lemma out_numbers_audio fs : out_numbers (audio_out <$> fs) = audio_numbers fs.
Proof.
  unfold audio_numbers, out_numbers. induction fs as [|[n d l] fs IH]; [done|].
  destruct l; [exact IH|]. exact (f_equal (cons n) IH).
Qed.

Lemma sublist_omap {A B} (f : A → option B) (l k : list A) :
  sublist l k → sublist (omap f l) (omap f k).
Proof.
  induction 1 as [|x l k _ IH|x l k _ IH]; simpl; [constructor|..];
    destruct (f x); by try constructor.
Qed.

Lemma StronglySorted_sublist {A} (R : A → A → Prop) (l k : list A) :
  sublist l k → StronglySorted R k → StronglySorted R l.
Proof.
  induction 1 as [|x l k Hlk IH|x l k Hlk IH]; intros Hs; [done|..];
    apply StronglySorted_inv in Hs as [Hs Hx]; [|by apply IH].
  constructor; [by apply IH|]. rewrite list.Forall_forall in *. intros y Hy.
  apply Hx. by apply (elem_of_sublist l).
Qed.

Lemma uplink_step_origin t ev f :
  f ∈ (uplink_step t ev).2 → wv_last_frame f = false →
  ∃ p, p ∈ event_packet ev ∧ wv_opus_data f = ia_opus_data p.
Proof.
  intros Hf Hl. destruct ev as [[p|] now at_ o|now o]; simpl in *; repeat case_match; simpl in *;
    try (by apply elem_of_nil in Hf); destruct o; simpl in Hf; 
    try (by apply elem_of_nil in Hf); apply list_elem_of_singleton in Hf; subst; try done;
    exists p; (split; [by apply list_elem_of_singleton|done]).
Qed.

Lemma uplink_run_origin evs : ∀ t f,
  f ∈ (uplink_run t evs).2 → wv_last_frame f = false →
  ∃ p, p ∈ evs ≫= event_packet ∧ wv_opus_data f = ia_opus_data p.
Proof.
  induction evs as [|ev evs IH]; intros t f Hf Hl; simpl in *; [by apply elem_of_nil in Hf|].
  destruct (ut_running t); [|by apply elem_of_nil in Hf].
  pose proof (uplink_step_origin t ev f) as Hs. destruct (uplink_step t ev) as [t1 o1].
  specialize (IH t1 f). destruct (uplink_run t1 evs) as [t2 o2]. simpl in *.
  setoid_rewrite elem_of_app. apply elem_of_app in Hf as [Hf|Hf].
  - destruct (Hs Hf Hl) as (p & ? & ?). eauto.
  - destruct (IH Hf Hl) as (p & ? & ?). eauto.
Qed.

Lemma incoming_audio_origin reads p :
  p ∈ (incoming_audio reads).2 →
  RtpPacketRead (ia_opus_data p) (ia_seq_num p) (ia_timestamp p) (ia_received_at p) Sent ∈ reads.
Proof.
  induction reads as [|[d s ts now []|] reads IH]; simpl; intros Hp;
    try (by apply elem_of_nil in Hp).
  - destruct (incoming_audio reads) as [r ps]. simpl in *.
    apply elem_of_cons in Hp as [->|Hp]; [by left|right; by apply IH].
  - right. by apply IH.
Qed.

Lemma track_audio_origin kind mime_type reads p :
  p ∈ setup_incoming_audio_handler kind mime_type reads →
  reads_track kind mime_type = true ∧
  RtpPacketRead (ia_opus_data p) (ia_seq_num p) (ia_timestamp p) (ia_received_at p) Sent ∈ reads.
Proof.
  unfold setup_incoming_audio_handler.
  destruct (reads_track kind mime_type); intros Hp; [|by apply elem_of_nil in Hp].
  split; [done|by apply incoming_audio_origin].
Qed.

(** Every audio packet sent is a frame of the uplink task. *)
Lemma sent_audio_uplink evs ins :
  prefix (outgoing_frames ins) (uplink_run UplinkTask_start evs).2 →
  sublist (sent_audio (voice_run true ins).2) (audio_out <$> (uplink_run UplinkTask_start evs).2).
Proof.
  intros Hch. transitivity (audio_out <$> outgoing_frames ins).
  - pose proof (voice_loop_audio ins) as Hl. unfold voice_run. by destruct (voice_loop ins).
  - destruct Hch as [k ->]. rewrite fmap_app. by apply sublist_inserts_r.
Qed.

(** Where an audio packet with something in it comes from. *)
Lemma sent_audio_origin kind mime_type reads evs ins target n data last :
  Z.of_nat (length evs) ≤ 2 ^ 41 →
  prefix (evs ≫= event_packet) (setup_incoming_audio_handler kind mime_type reads) →
  prefix (outgoing_frames ins) (uplink_run UplinkTask_start evs).2 →
  OutAudio target n (PayloadOpus data last) ∈ sent_audio (voice_run true ins).2 →
  target = 0 ∧
  if last then data = []
  else (∃ samples, opus_packet_total_samples data = Ok samples ∧ samples mod 480 = 0) ∧
       reads_track kind mime_type = true ∧ ∃ seq ts now, RtpPacketRead data seq ts now Sent ∈ reads.
Proof.
  intros Hlen Hrd Hch Hin.
  destruct (uplink_run_ordered UplinkTask_start evs) as (_ & _ & Hok);
    [done|change max_frame_step with 4473924; simpl; lia|].
  pose proof (elem_of_sublist _ _ _ Hin (sent_audio_uplink evs ins Hch)) as Hmem.
  apply list_elem_of_fmap in Hmem as (f & Hf & Hfin). injection Hf as -> -> -> Hl. split; [done|].
  pose proof (proj1 (list.Forall_forall _ _) Hok _ Hfin) as Hfok. unfold voice_frame_ok in Hfok.
  rewrite <- Hl in Hfok. destruct last; [done|]. split; [done|].
  destruct (uplink_run_origin _ _ _ Hfin (eq_sym Hl)) as (p & Hp & ->).
  destruct Hrd as [k Hk]. destruct (track_audio_origin kind mime_type reads p) as [Hk1 Hk2].
  { rewrite Hk. apply elem_of_app. by left. }
  split; [exact Hk1|]. by exists (ia_seq_num p), (ia_timestamp p), (ia_received_at p).
Qed.

(** C5: speech reaches the server in order and unaltered. Let the RTP packets of a track of
    the browser pass through the track's handler, the uplink task and the voice task, the channels between them
    delivering a prefix of what they were given. Then, for any packets, timings and losses
    (up to 2^41 uplink turns), the voice packets sent carry strictly increasing frame
    numbers, and each carries the unmodified payload of an RTP packet that was read and
    that is well-formed Opus in whole 10 ms units; and only a track that is Opus audio is
    heard. *)
Theorem uplink_pipeline kind mime_type reads evs ins :
  Z.of_nat (length evs) ≤ 2 ^ 41 →
  prefix (evs ≫= event_packet) (setup_incoming_audio_handler kind mime_type reads) →
  prefix (outgoing_frames ins) (uplink_run UplinkTask_start evs).2 →
  let audio := sent_audio (voice_run true ins).2 in
  StronglySorted Z.lt (out_numbers audio) ∧
  (∀ target n data, OutAudio target n (PayloadOpus data false) ∈ audio →
     target = 0 ∧ (∃ samples, opus_packet_total_samples data = Ok samples ∧ samples mod 480 = 0) ∧
     reads_track kind mime_type = true ∧ ∃ seq ts now, RtpPacketRead data seq ts now Sent ∈ reads).
Proof.
  intros Hlen Hrd Hch.
  destruct (uplink_run_ordered UplinkTask_start evs) as (Hsort & _ & _);
    [done|change max_frame_step with 4473924; simpl; lia|]. split.
  - eapply StronglySorted_sublist; [by apply sublist_omap, sent_audio_uplink|].
    by rewrite <- out_numbers_audio in Hsort.
  - intros target n data Hin. by apply (sent_audio_origin kind mime_type reads evs ins) in Hin.
Qed.

Lemma uplink_pipeline_witness :
  let reads := [RtpPacketRead [0xF8] 1 480 0 Sent; RtpPacketRead [0xF8] 2 1440 0 Sent] in
  let audio := sent_audio (voice_run true
    [ViOutgoing (Some (mkVoiceData 0 [0xF8] false)) true;
     ViOutgoing (Some (mkVoiceData 2 [0xF8] false)) true]).2 in
  StronglySorted Z.lt (out_numbers audio) ∧ out_numbers audio = [0; 2].
Proof.
  intros reads audio. split; [|reflexivity].
  refine (proj1 (uplink_pipeline CodecAudio "audio/OPUS" reads
    [RecvPacket (Some (mkIncoming [0xF8] 1 480 0)) 0 0 Sent;
     RecvPacket (Some (mkIncoming [0xF8] 2 1440 0)) 0 0 Sent]
    [ViOutgoing (Some (mkVoiceData 0 [0xF8] false)) true;
     ViOutgoing (Some (mkVoiceData 2 [0xF8] false)) true] _ _ _)).
  - vm_compute. discriminate.
  - exists []. reflexivity.
  - exists []. vm_compute. reflexivity.
Defined.

(** ** From the Mumble server to the browser *)

Lemma write_origin {Sender} (speakers : gmap Z (Speaker Sender)) data checked_at now write_rtp t p :
  tracks_wf speakers →
  (SpeakerTracks_write speakers data checked_at now write_rtp).1.2 = Some (t, p) →
  t = speaker_track (mv_session_id data) ∧ rp_payload p = mv_opus_data data ∧ rp_payload p ≠ [].
Proof.
  intros Hwf. unfold SpeakerTracks_write. case_match; [done|].
  destruct (speakers !! mv_session_id data) as [s|] eqn:Hs; [|done].
  specialize (Hwf _ _ Hs). unfold clock_write.
  destruct (mv_opus_data data) as [|b bs] eqn:Hd; [done|].
  destruct (opus_packet_total_samples _); [|done].
  destruct (MediaClock_packet _ _ _ _ _) as [c [[[q ts] m]|]]; [|done].
  simpl. by intros [= <- <-].
Qed.

Lemma tracks_run_origin {Sender} write_rtp ins : ∀ (speakers : gmap Z (Speaker Sender)) k t p,
  tracks_wf speakers → (k, t, p) ∈ (tracks_run write_rtp speakers ins).2 →
  t = speaker_track k ∧
  ∃ data, data ∈ ins.*1.*1 ∧ mv_session_id data = k ∧ mv_opus_data data = rp_payload p ∧
    rp_payload p ≠ [].
Proof.
  induction ins as [|[[data checked_at] now] ins IH]; intros speakers k t p Hwf Hin; simpl in *.
  { by apply elem_of_nil in Hin. }
  pose proof (write_wf speakers data checked_at now write_rtp Hwf) as Hwf1.
  pose proof (write_origin speakers data checked_at now write_rtp) as Ho.
  destruct (SpeakerTracks_write _ _ _ _ _) as [[sp1 o] r]. simpl in *.
  specialize (IH sp1 k t p Hwf1). destruct (tracks_run write_rtp sp1 ins) as [sp2 os]. simpl in *.
  setoid_rewrite elem_of_cons. apply elem_of_app in Hin as [Hin|Hin].
  - destruct o as [[t' p']|]; [|by apply elem_of_nil in Hin].
    apply list_elem_of_singleton in Hin. simplify_eq.
    destruct (Ho _ _ Hwf eq_refl) as (-> & Hp & Hne). split; [done|]. exists data. auto.
  - destruct (IH Hin) as (-> & d & ? & ? & ? & ?). eauto 8.
Qed.

(** Where a written RTP packet comes from. *)
Lemma written_origin {Sender} write_rtp (speakers : gmap Z (Speaker Sender)) ins writes k t p :
  tracks_wf speakers →
  prefix writes.*1.*1 (vx_incoming (voice_run true ins).2) →
  (k, t, p) ∈ (tracks_run write_rtp speakers writes).2 →
  t = speaker_track k ∧ rp_payload p ≠ [] ∧
  ∃ n last now, ViPacket (InAudio k n (PayloadOpus (rp_payload p) last)) now Sent ∈ ins.
Proof.
  intros Hwf Hch Hin.
  destruct (tracks_run_origin write_rtp writes speakers k t p Hwf Hin) as (-> & d & Hd & <- & <- & Hne).
  split; [done|]. split; [done|]. destruct Hch as [rest Hrest].
  assert (Hd' : d ∈ vx_incoming (voice_run true ins).2) by (rewrite Hrest; set_solver).
  apply voice_run_incoming in Hd' as (i & Hi & Hrf). exists (mv_seq_num d), (mv_last_frame d), (mv_received_at d).
  destruct i as [?[]|[|? ? []] ? []| | |[?|] []]; simpl in Hrf; try (by apply elem_of_nil in Hrf).
  apply list_elem_of_singleton in Hrf. by subst.
Qed.

(** A listener hears each speaker on that speaker's own track, unaltered. Let the
    packets of the voice socket pass through the voice task and the downlink task, the
    channel between them delivering a prefix. Then every RTP packet written goes to the
    track of the session it is labelled with and carries the unmodified payload of an Opus
    packet the server sent for that session. *)
Theorem downlink_pipeline {Sender} write_rtp (speakers : gmap Z (Speaker Sender)) ins writes k t p :
  tracks_wf speakers →
  prefix writes.*1.*1 (vx_incoming (voice_run true ins).2) →
  (k, t, p) ∈ (tracks_run write_rtp speakers writes).2 →
  t = speaker_track k ∧
  ∃ n last now, ViPacket (InAudio k n (PayloadOpus (rp_payload p) last)) now Sent ∈ ins.
Proof.
  intros Hwf Hch Hin. by destruct (written_origin write_rtp speakers ins writes k t p) as (? & _ & ?).
Qed.

Lemma downlink_pipeline_witness :
  (speaker_track 7 = speaker_track 7) ∧
  ∃ n last now, ViPacket (InAudio 7 n (PayloadOpus [0xF8] last)) now Sent
                ∈ [ViInvalid; ViPacket (InAudio 7 0 (PayloadOpus [0xF8] false)) 0 Sent].
Proof.
  refine (downlink_pipeline (λ _ _, Ok tt)
    {[7 := mkSpeaker (speaker_track 7) tt MediaClock_default]}
    [ViInvalid; ViPacket (InAudio 7 0 (PayloadOpus [0xF8] false)) 0 Sent]
    [(mkMumbleVoice 7 0 [0xF8] false 0, 0, 0)] 7 (speaker_track 7) (mkRtp 1 0 true [0xF8]) _ _ _).
  - apply map_Forall_singleton. reflexivity.
  - exists []. reflexivity.
  - vm_compute. left.
Defined.
