(* ===== verification/Negotiation.v ===== *)
(** * SDP negotiation and ICE candidates ([src/src/webrtc/mod.rs], [WebrtcSession])

    The server is the only side that sends offers. [offer] is called for the browser's
    [start_voice] and [ice_restart] and for the library's negotiation-needed callback; an
    offer asked for while one is outstanding is queued and sent when the answer arrives.
    Candidates from the browser are buffered until there is an answer to apply them to. *)

From Stdlib Require Import ZArith Lia.
From stdpp Require Import base tactics list strings option.
From S2P Require Import Prelude Messages.
Local Open Scope Z_scope.

(** ** The peer connection

    [RTCPeerConnection] of the [webrtc] crate, as far as the program uses it. The laws are
    those of the JSEP signalling state machine for the side that only sends offers. *)

Inductive RTCSignalingState := Stable | HaveLocalOffer | OtherSignalingState.

#[export] Instance RTCSignalingState_eq_dec : EqDecision RTCSignalingState.
Proof. solve_decision. Defined.

(** [RTCIceCandidateInit] *)
Record RTCIceCandidateInit := mkCandidateInit {
  ci_candidate : string; ci_sdp_mid : option string; ci_sdp_mline_index : option Z
}.

Class PeerConnection (P : Type) := {
  signaling_state : P → RTCSignalingState;
  has_remote_description : P → bool;
  create_offer : P → bool → P * result string;
  set_local_offer : P → string → P * result unit;
  set_remote_answer : P → string → P * result unit;
  pc_add_ice_candidate : P → RTCIceCandidateInit → P * result unit;
}.

Class PeerConnectionLaws (P : Type) `{PeerConnection P} := {
  create_offer_state p r :
    signaling_state (create_offer p r).1 = signaling_state p ∧
    has_remote_description (create_offer p r).1 = has_remote_description p;
  set_local_remote p sdp :
    has_remote_description (set_local_offer p sdp).1 = has_remote_description p;
  set_local_ok p sdp : (set_local_offer p sdp).2 = Ok tt →
    signaling_state (set_local_offer p sdp).1 = HaveLocalOffer;
  set_local_err p sdp e : (set_local_offer p sdp).2 = Err e →
    signaling_state (set_local_offer p sdp).1 = signaling_state p;
  set_remote_ok p sdp : (set_remote_answer p sdp).2 = Ok tt →
    signaling_state p = HaveLocalOffer ∧
    signaling_state (set_remote_answer p sdp).1 = Stable ∧
    has_remote_description (set_remote_answer p sdp).1 = true;
  set_remote_err p sdp e : (set_remote_answer p sdp).2 = Err e →
    signaling_state (set_remote_answer p sdp).1 = signaling_state p ∧
    has_remote_description (set_remote_answer p sdp).1 = has_remote_description p;
  add_candidate_state p c :
    signaling_state (pc_add_ice_candidate p c).1 = signaling_state p ∧
    has_remote_description (pc_add_ice_candidate p c).1 = has_remote_description p;
}.

Section Negotiation.
Context {P : Type} `{PeerConnection P}.

(** The negotiation fields of [WebrtcSession]. *)
Record WebrtcSession := mkWebrtcSession {
  ws_peer_connection : P;
  ws_started : bool;
  ws_needs_offer : bool;
  ws_restart_pending : bool;
  ws_pending_candidates : list RTCIceCandidateInit
}.

Definition WebrtcSession_new (peer : P) : WebrtcSession :=
  mkWebrtcSession peer false false false [].

Definition set_peer (s : WebrtcSession) (p : P) : WebrtcSession :=
  mkWebrtcSession p (ws_started s) (ws_needs_offer s) (ws_restart_pending s)
    (ws_pending_candidates s).

(** [session.webrtc_session.started = true] in [SessionManager::start_voice] *)
Definition WebrtcSession_start (s : WebrtcSession) : WebrtcSession :=
  mkWebrtcSession (ws_peer_connection s) true (ws_needs_offer s) (ws_restart_pending s)
    (ws_pending_candidates s).

Definition WebrtcSession_offer (s : WebrtcSession) (restart : bool)
    : WebrtcSession * result (option string) :=
  let restart_pending := ws_restart_pending s || restart in
  let p := ws_peer_connection s in
  let pending := ws_pending_candidates s in
  if negb (ws_started s) then
    (mkWebrtcSession p (ws_started s) (ws_needs_offer s) restart_pending pending, Ok None)
  else if negb (bool_decide (signaling_state p = Stable)) then
    (mkWebrtcSession p (ws_started s) true restart_pending pending, Ok None)
  else
    let '(p1, r1) := create_offer p restart_pending in
    match r1 with
    | Err e => (mkWebrtcSession p1 (ws_started s) (ws_needs_offer s) restart_pending pending, Err e)
    | Ok sdp =>
        let '(p2, r2) := set_local_offer p1 sdp in
        (mkWebrtcSession p2 (ws_started s) false false pending,
         match r2 with Err e => Err e | Ok _ => Ok (Some sdp) end)
    end.

(** The [for candidate in self.pending_candidates.drain(..)] loop; the early return on an
    error drops the iterator and with it the rest of the buffer. *)
Fixpoint add_candidates (p : P) (cs : list RTCIceCandidateInit) : P * result unit :=
  match cs with
  | [] => (p, Ok tt)
  | c :: cs =>
      let '(p1, r) := pc_add_ice_candidate p c in
      match r with Err e => (p1, Err e) | Ok _ => add_candidates p1 cs end
  end.

Definition WebrtcSession_answer (s : WebrtcSession) (sdp : string)
    : WebrtcSession * result (option string) :=
  let '(p1, r1) := set_remote_answer (ws_peer_connection s) sdp in
  match r1 with
  | Err e => (set_peer s p1, Err e)
  | Ok _ =>
      let '(p2, r2) := add_candidates p1 (ws_pending_candidates s) in
      let s2 := mkWebrtcSession p2 (ws_started s) (ws_needs_offer s) (ws_restart_pending s) [] in
      match r2 with
      | Err e => (s2, Err e)
      | Ok _ => if ws_needs_offer s then WebrtcSession_offer s2 false else (s2, Ok None)
      end
  end.

(** Candidates have to wait: there is no answer yet, or a new offer is outstanding. *)
Definition must_buffer (p : P) : bool :=
  negb (has_remote_description p) || bool_decide (signaling_state p = HaveLocalOffer).

Definition WebrtcSession_add_ice_candidate (s : WebrtcSession) (candidate : string)
    (sdp_mid : option string) (sdp_mline_index : option Z) : WebrtcSession * result unit :=
  let init := mkCandidateInit candidate sdp_mid sdp_mline_index in
  if must_buffer (ws_peer_connection s) then
    if Z.of_nat (length (ws_pending_candidates s)) <? 128 then
      (mkWebrtcSession (ws_peer_connection s) (ws_started s) (ws_needs_offer s)
         (ws_restart_pending s) (ws_pending_candidates s ++ [init]), Ok tt)
    else (s, Err "too many pending ICE candidates")
  else
    let '(p1, r) := pc_add_ice_candidate (ws_peer_connection s) init in
    (set_peer s p1, r).

(** ** Sequences of operations

    The session is behind a mutex, so its operations run one after the other. The log
    records the offers handed to the browser and the answers the peer connection took. *)

Inductive NegotiationOp :=
| OpStart
| OpOffer (restart : bool)
| OpAnswer (sdp : string)
| OpCandidate (c : RTCIceCandidateInit).

Inductive NegotiationLog := OfferSent (sdp : string) | AnswerTaken.

Definition offer_log (r : result (option string)) : list NegotiationLog :=
  match r with Ok (Some sdp) => [OfferSent sdp] | _ => [] end.

Definition negotiation_step (s : WebrtcSession) (op : NegotiationOp)
    : WebrtcSession * list NegotiationLog :=
  match op with
  | OpStart => (WebrtcSession_start s, [])
  | OpOffer restart =>
      let '(s', r) := WebrtcSession_offer s restart in (s', offer_log r)
  | OpAnswer sdp =>
      let '(s', r) := WebrtcSession_answer s sdp in
      (s', (if is_ok (set_remote_answer (ws_peer_connection s) sdp).2 then [AnswerTaken] else [])
             ++ offer_log r)
  | OpCandidate c =>
      ((WebrtcSession_add_ice_candidate s (ci_candidate c) (ci_sdp_mid c)
          (ci_sdp_mline_index c)).1, [])
  end.

Fixpoint negotiation_run (s : WebrtcSession) (ops : list NegotiationOp)
    : WebrtcSession * list NegotiationLog :=
  match ops with
  | [] => (s, [])
  | op :: ops =>
      let '(s1, l1) := negotiation_step s op in
      let '(s2, l2) := negotiation_run s1 ops in
      (s2, l1 ++ l2)
  end.

(** ** At most one offer is outstanding *)

Context `{!PeerConnectionLaws P}.
Implicit Types (s : WebrtcSession) (p : P).

(** Read a log with or without an outstanding offer: offers and answers alternate, and
    the result says whether an offer is outstanding at the end. *)
Fixpoint alternates (outstanding : bool) (l : list NegotiationLog) : option bool :=
  match l with
  | [] => Some outstanding
  | OfferSent _ :: l => if outstanding then None else alternates true l
  | AnswerTaken :: l => if outstanding then alternates false l else None
  end.

Lemma alternates_app b l1 l2 : alternates b (l1 ++ l2) = alternates b l1 ≫= λ b', alternates b' l2.
Proof. revert b. induction l1 as [|[] l1 IH]; intros []; simpl; auto. Qed.

Definition outstanding (s : WebrtcSession) : bool :=
  bool_decide (signaling_state (ws_peer_connection s) = HaveLocalOffer).

Lemma negotiation_run_app s ops1 ops2 :
  negotiation_run s (ops1 ++ ops2) =
    let '(s1, l1) := negotiation_run s ops1 in
    let '(s2, l2) := negotiation_run s1 ops2 in (s2, l1 ++ l2).
Proof.
  revert s. induction ops1 as [|op ops1 IH]; intros s; simpl; [by destruct (negotiation_run s ops2)|].
  destruct (negotiation_step s op) as [s1 l1]. rewrite IH.
  destruct (negotiation_run s1 ops1) as [s2 l2]. destruct (negotiation_run s2 ops2).
  by rewrite app_assoc.
Qed.

Lemma offer_alternates s restart :
  alternates (outstanding s) (offer_log (WebrtcSession_offer s restart).2)
  = Some (outstanding (WebrtcSession_offer s restart).1).
Proof.
  unfold WebrtcSession_offer, outstanding. destruct (ws_started s); [|done]. simpl.
  destruct (bool_decide (signaling_state (ws_peer_connection s) = Stable)) eqn:Hst;
    bool_to_prop; simpl; [|done].
  pose proof (create_offer_state (ws_peer_connection s) (ws_restart_pending s || restart)) as [Hc _].
  destruct (create_offer _ _) as [p1 [sdp|e]]; simpl in *; [|by rewrite Hc].
  pose proof (set_local_ok p1 sdp) as Hok. pose proof (set_local_err p1 sdp) as Herr.
  destruct (set_local_offer p1 sdp) as [p2 [[]|e]]; simpl in *.
  - by rewrite Hok, Hst.
  - by rewrite (Herr e), Hc.
Qed.

Lemma add_candidates_state p cs :
  signaling_state (add_candidates p cs).1 = signaling_state p ∧
  has_remote_description (add_candidates p cs).1 = has_remote_description p.
Proof.
  revert p. induction cs as [|c cs IH]; intros p; [done|]. simpl.
  pose proof (add_candidate_state p c) as [H1 H2].
  destruct (pc_add_ice_candidate p c) as [p1 [u|e]]; simpl in *; [|done].
  destruct (IH p1) as [-> ->]. done.
Qed.

Lemma step_alternates s op :
  alternates (outstanding s) (negotiation_step s op).2
  = Some (outstanding (negotiation_step s op).1).
Proof.
  destruct op as [|restart|sdp|c]; simpl; [done|..].
  - pose proof (offer_alternates s restart) as Ho. by destruct (WebrtcSession_offer s restart).
  - unfold WebrtcSession_answer.
    pose proof (set_remote_ok (ws_peer_connection s) sdp) as Hok.
    pose proof (set_remote_err (ws_peer_connection s) sdp) as Herr.
    destruct (set_remote_answer (ws_peer_connection s) sdp) as [p1 [[]|e]]; simpl in *.
    2: { unfold outstanding. simpl. by rewrite (proj1 (Herr e eq_refl)). }
    destruct (Hok eq_refl) as (Hst & Hst1 & _).
    pose proof (add_candidates_state p1 (ws_pending_candidates s)) as [Hst2 _].
    destruct (add_candidates p1 _) as [p2 [[]|e]]; simpl in *.
    + unfold outstanding at 1. rewrite Hst. simpl.
      set (s2 := mkWebrtcSession p2 _ _ _ _).
      assert (outstanding s2 = false) as Hs2.
      { unfold outstanding, s2. simpl. by rewrite Hst2, Hst1. }
      destruct (ws_needs_offer s); simpl; [|by rewrite Hs2].
      pose proof (offer_alternates s2 false) as Ho. rewrite Hs2 in Ho.
      by destruct (WebrtcSession_offer s2 false).
    + unfold outstanding. simpl. by rewrite Hst, Hst2, Hst1.
  - unfold WebrtcSession_add_ice_candidate. repeat case_match; simpl; try done.
    match goal with E : pc_add_ice_candidate ?p ?c = _ |- _ =>
      pose proof (add_candidate_state p c) as [Hs _]; rewrite E in Hs end.
    unfold outstanding. simpl in *. by rewrite Hs.
Qed.

(** C22: the browser never sees two offers in flight. From a fresh peer connection, in
    every sequence of start, offer, answer and candidate calls, failing ones included,
    offers sent and answers taken strictly alternate, and an offer is waiting for its
    answer exactly when the peer connection says so. *)
Theorem one_offer_outstanding (p : P) (ops : list NegotiationOp) :
  signaling_state p = Stable →
  let '(s, log) := negotiation_run (WebrtcSession_new p) ops in
  alternates false log
  = Some (bool_decide (signaling_state (ws_peer_connection s) = HaveLocalOffer)).
Proof.
  intros Hst.
  assert (Hgen : ∀ s, alternates (outstanding s) (negotiation_run s ops).2
                      = Some (outstanding (negotiation_run s ops).1)).
  { induction ops as [|op ops IH]; intros s; [done|]. simpl.
    pose proof (step_alternates s op) as Hs.
    destruct (negotiation_step s op) as [s1 l1]. specialize (IH s1).
    destruct (negotiation_run s1 ops) as [s2 l2]. simpl in *.
    by rewrite alternates_app, Hs. }
  specialize (Hgen (WebrtcSession_new p)). unfold outstanding in Hgen at 1. simpl in Hgen.
  rewrite Hst in Hgen. by destruct (negotiation_run _ ops) as [s l].
Qed.

(** ** Nothing asked for while waiting is lost *)

Definition waiting_op (op : NegotiationOp) : bool :=
  match op with OpOffer _ | OpCandidate _ => true | _ => false end.

Definition candidates_of (ops : list NegotiationOp) : list RTCIceCandidateInit :=
  ops ≫= λ op, match op with OpCandidate c => [c] | _ => [] end.

Definition asks_offer (op : NegotiationOp) : bool :=
  match op with OpOffer _ => true | _ => false end.

Definition asks_restart (op : NegotiationOp) : bool :=
  match op with OpOffer restart => restart | _ => false end.

Lemma waiting_run s ops :
  ws_started s = true → signaling_state (ws_peer_connection s) = HaveLocalOffer →
  Forall (λ op, waiting_op op = true) ops →
  Z.of_nat (length (ws_pending_candidates s ++ candidates_of ops)) ≤ 128 →
  negotiation_run s ops =
    (mkWebrtcSession (ws_peer_connection s) true
       (ws_needs_offer s || existsb asks_offer ops)
       (ws_restart_pending s || existsb asks_restart ops)
       (ws_pending_candidates s ++ candidates_of ops), []).
Proof.
  intros Hst Hsig Hw. revert s Hst Hsig.
  induction Hw as [|op ops Hop _ IH]; intros [p st no rp pc] Hst Hsig Hlen; simpl in *; subst.
  { by rewrite !orb_false_r, app_nil_r. }
  destruct op as [|restart| |c]; try done; simpl in *.
  - unfold WebrtcSession_offer. simpl. rewrite Hsig. simpl.
    rewrite IH by done. simpl. by rewrite orb_true_r, orb_assoc.
  - unfold WebrtcSession_add_ice_candidate, must_buffer. simpl. rewrite Hsig, orb_true_r.
    rewrite !length_app in Hlen. simpl in Hlen.
    rewrite (proj2 (Z.ltb_lt _ _)) by lia. simpl. destruct c as [c mid idx]. simpl.
    rewrite IH; simpl; [by rewrite <- app_assoc|done|done|].
    rewrite !length_app. simpl. lia.
Qed.

(** C23: requests made while an offer is outstanding are honoured by its answer. Whatever
    mix of offer requests (restarts included) and candidates arrives before the answer,
    taking the answer applies the buffered candidates in arrival order and then, if any
    request came in, sends one new offer that restarts ICE exactly when some request asked
    for it; afterwards nothing is left pending. *)
Theorem answer_completes_negotiation s ops sdp p1 p2 p3 p4 sdp' :
  ws_started s = true →
  signaling_state (ws_peer_connection s) = HaveLocalOffer →
  Forall (λ op, waiting_op op = true) ops →
  Z.of_nat (length (ws_pending_candidates s ++ candidates_of ops)) ≤ 128 →
  set_remote_answer (ws_peer_connection s) sdp = (p1, Ok tt) →
  add_candidates p1 (ws_pending_candidates s ++ candidates_of ops) = (p2, Ok tt) →
  create_offer p2 (ws_restart_pending s || existsb asks_restart ops) = (p3, Ok sdp') →
  set_local_offer p3 sdp' = (p4, Ok tt) →
  negotiation_run s (ops ++ [OpAnswer sdp]) =
    if ws_needs_offer s || existsb asks_offer ops
    then (mkWebrtcSession p4 true false false [], [AnswerTaken; OfferSent sdp'])
    else (mkWebrtcSession p2 true false (ws_restart_pending s) [], [AnswerTaken]).
Proof.
  intros Hst Hsig Hw Hlen Hrem Hadd Hcr Hloc.
  rewrite negotiation_run_app, (waiting_run s ops) by done. simpl.
  unfold WebrtcSession_answer. simpl. rewrite Hrem. simpl. rewrite Hadd.
  destruct (ws_needs_offer s || existsb asks_offer ops) eqn:Ho.
  - unfold WebrtcSession_offer. simpl. rewrite orb_false_r, Hcr, Hloc.
    pose proof (set_remote_ok (ws_peer_connection s) sdp) as Hok. rewrite Hrem in Hok.
    destruct (Hok eq_refl) as (_ & Hst1 & _). simpl in Hst1.
    pose proof (add_candidates_state p1 (ws_pending_candidates s ++ candidates_of ops)) as [Hst2 _].
    rewrite Hadd in Hst2. simpl in Hst2. rewrite Hst2, Hst1. done.
  - apply orb_false_iff in Ho as [_ Ho].
    assert (existsb asks_restart ops = false) as ->; [|by rewrite orb_false_r].
    clear -Ho. induction ops as [|[] ops IH]; simpl in *; auto; done.
Qed.

(** ** Buffered candidates *)

Definition candidates_inv (s : WebrtcSession) : Prop :=
  Z.of_nat (length (ws_pending_candidates s)) ≤ 128 ∧
  (must_buffer (ws_peer_connection s) = false → ws_pending_candidates s = []).

Lemma candidates_inv_empty p st no rp : candidates_inv (mkWebrtcSession p st no rp []).
Proof. split; [simpl; lia|done]. Qed.

Lemma offer_candidates_inv s restart :
  candidates_inv s → candidates_inv (WebrtcSession_offer s restart).1.
Proof.
  intros [Hb Hm]. unfold WebrtcSession_offer, candidates_inv, must_buffer in *.
  destruct (ws_started s); [|done]. simpl.
  destruct (bool_decide (signaling_state (ws_peer_connection s) = Stable)) eqn:Hst;
    bool_to_prop; simpl; [|done].
  pose proof (create_offer_state (ws_peer_connection s) (ws_restart_pending s || restart)) as [H1 H2].
  destruct (create_offer _ _) as [p1 [sdp|e]]; simpl in *; [|by rewrite H1, H2].
  pose proof (set_local_ok p1 sdp) as Hok. pose proof (set_local_err p1 sdp) as Herr.
  pose proof (set_local_remote p1 sdp) as Hrem.
  destruct (set_local_offer p1 sdp) as [p2 [[]|e]]; simpl in *; (split; [done|]).
  - by rewrite (Hok eq_refl), orb_true_r.
  - by rewrite (Herr e eq_refl), Hrem, H1, H2.
Qed.

Lemma step_candidates_inv s op :
  candidates_inv s → candidates_inv (negotiation_step s op).1.
Proof.
  intros Hinv. destruct op as [|restart|sdp|c]; simpl; [done|..].
  - pose proof (offer_candidates_inv s restart Hinv). by destruct (WebrtcSession_offer _ _).
  - unfold WebrtcSession_answer.
    pose proof (set_remote_err (ws_peer_connection s) sdp) as Herr.
    destruct (set_remote_answer _ sdp) as [p1 [[]|e]]; simpl in *.
    2: { destruct (Herr e eq_refl) as [H1 H2], Hinv as [Hb Hm].
         unfold candidates_inv, must_buffer in *. simpl. rewrite H1, H2. by split. }
    destruct (add_candidates p1 _) as [p2 [[]|e]]; simpl; [|apply candidates_inv_empty].
    destruct (ws_needs_offer s); [|apply candidates_inv_empty].
    pose proof (offer_candidates_inv
      (mkWebrtcSession p2 (ws_started s) true (ws_restart_pending s) []) false) as Ho.
    destruct (WebrtcSession_offer _ false). simpl in *. apply Ho, candidates_inv_empty.
  - destruct Hinv as [Hb Hm]. unfold WebrtcSession_add_ice_candidate.
    destruct (must_buffer (ws_peer_connection s)) eqn:Em.
    + case_match; bool_to_prop; simpl; split; simpl; rewrite ?Em; try done.
      rewrite length_app. simpl. lia.
    + pose proof (add_candidate_state (ws_peer_connection s)
        (mkCandidateInit (ci_candidate c) (ci_sdp_mid c) (ci_sdp_mline_index c))) as [H1 H2].
      destruct (pc_add_ice_candidate _ _) as [p1 r]. simpl in *.
      split; [done|]. intros _. by apply Hm.
Qed.

(** Buffered candidates are bounded and never stranded. In every reachable state the
    buffer holds at most 128 candidates, and it is empty whenever the peer connection is
    able to take candidates directly; the 129th candidate is refused without effect. *)
Theorem candidates_bounded (p : P) (ops : list NegotiationOp) c :
  let s := (negotiation_run (WebrtcSession_new p) ops).1 in
  Z.of_nat (length (ws_pending_candidates s)) ≤ 128 ∧
  (must_buffer (ws_peer_connection s) = false → ws_pending_candidates s = []) ∧
  (Z.of_nat (length (ws_pending_candidates s)) = 128 →
     WebrtcSession_add_ice_candidate s (ci_candidate c) (ci_sdp_mid c) (ci_sdp_mline_index c)
     = (s, Err "too many pending ICE candidates")).
Proof.
  assert (Hgen : ∀ s, candidates_inv s → candidates_inv (negotiation_run s ops).1).
  { induction ops as [|op ops IH]; intros s Hs; [done|]. simpl.
    pose proof (step_candidates_inv s op Hs) as Hs1.
    destruct (negotiation_step s op) as [s1 l1]. specialize (IH s1 Hs1).
    by destruct (negotiation_run s1 ops). }
  destruct (Hgen (WebrtcSession_new p)) as [Hb Hm]; [apply candidates_inv_empty|].
  split_and!; [done|done|]. intros Hfull. unfold WebrtcSession_add_ice_candidate.
  destruct (must_buffer _) eqn:Em; [by rewrite Hfull|].
  rewrite (Hm eq_refl) in Hfull. done.
Qed.

(** When a buffered candidate is refused, [answer] returns early: the candidates behind it
    are gone and a queued offer is not sent, although the answer was taken. *)
Lemma answer_failed_candidate s sdp p1 p2 c cs e :
  set_remote_answer (ws_peer_connection s) sdp = (p1, Ok tt) →
  ws_pending_candidates s = c :: cs →
  pc_add_ice_candidate p1 c = (p2, Err e) →
  WebrtcSession_answer s sdp =
    (mkWebrtcSession p2 (ws_started s) (ws_needs_offer s) (ws_restart_pending s) [], Err e).
Proof.
  intros Hrem Hp Hc. unfold WebrtcSession_answer. rewrite Hrem, Hp. simpl. by rewrite Hc.
Qed.

(** An offer that cannot be installed as the local description is forgotten together with
    the restart it was made for. *)
Lemma offer_failed_local s restart p1 p2 sdp e :
  ws_started s = true → signaling_state (ws_peer_connection s) = Stable →
  create_offer (ws_peer_connection s) (ws_restart_pending s || restart) = (p1, Ok sdp) →
  set_local_offer p1 sdp = (p2, Err e) →
  WebrtcSession_offer s restart =
    (mkWebrtcSession p2 true false false (ws_pending_candidates s), Err e).
Proof.
  intros Hst Hsig Hc Hl. unfold WebrtcSession_offer. by rewrite Hst, Hsig, Hc, Hl.
Qed.
End Negotiation.
Arguments WebrtcSession P : clear implicits.

(** ** A peer connection to run the model on *)

Record TestPeer := mkTestPeer {
  tp_state : RTCSignalingState; tp_remote : option string;
  tp_restarts : list bool; tp_added : list RTCIceCandidateInit
}.

Definition TestPeer_create_offer (p : TestPeer) (restart : bool) : TestPeer * result string :=
  (mkTestPeer (tp_state p) (tp_remote p) (tp_restarts p ++ [restart]) (tp_added p),
   Ok (if restart then "offer+restart" else "offer")).

Definition TestPeer_set_local (p : TestPeer) (sdp : string) : TestPeer * result unit :=
  match tp_state p with
  | Stable => (mkTestPeer HaveLocalOffer (tp_remote p) (tp_restarts p) (tp_added p), Ok tt)
  | _ => (p, Err "invalid state")
  end.

Definition TestPeer_set_remote (p : TestPeer) (sdp : string) : TestPeer * result unit :=
  match tp_state p with
  | HaveLocalOffer => (mkTestPeer Stable (Some sdp) (tp_restarts p) (tp_added p), Ok tt)
  | _ => (p, Err "invalid state")
  end.

Definition TestPeer_add (p : TestPeer) (c : RTCIceCandidateInit) : TestPeer * result unit :=
  (mkTestPeer (tp_state p) (tp_remote p) (tp_restarts p) (tp_added p ++ [c]), Ok tt).

#[export] Instance TestPeer_ops : PeerConnection TestPeer := {|
  signaling_state := tp_state;
  has_remote_description p := match tp_remote p with Some _ => true | None => false end;
  create_offer := TestPeer_create_offer;
  set_local_offer := TestPeer_set_local;
  set_remote_answer := TestPeer_set_remote;
  pc_add_ice_candidate := TestPeer_add;
|}.

#[export] Instance TestPeer_laws : PeerConnectionLaws TestPeer.
Proof.
  split; try done; intros [st rem rs ad] ?; destruct st; simpl; naive_solver.
Qed.

Definition TestPeer_new : TestPeer := mkTestPeer Stable None [] [].

Lemma one_offer_outstanding_witness :
  let '(s, log) := negotiation_run (WebrtcSession_new TestPeer_new)
    [OpStart; OpOffer false; OpOffer true; OpAnswer "a1"; OpOffer false; OpAnswer "a2"] in
  alternates false log
  = Some (bool_decide (signaling_state (ws_peer_connection s) = HaveLocalOffer)).
Proof. apply (one_offer_outstanding TestPeer_new). reflexivity. Defined.

(** An offer is out; a restart request and two candidates come in before the answer. *)
Lemma answer_completes_negotiation_witness :
  let s := mkWebrtcSession (mkTestPeer HaveLocalOffer None [false] []) true false false [] in
  let c i := mkCandidateInit i None None in
  negotiation_run s ([OpCandidate (c "a"); OpOffer true; OpCandidate (c "b")] ++ [OpAnswer "ok"])
  = (mkWebrtcSession
       (mkTestPeer HaveLocalOffer (Some "ok") [false; true] [c "a"; c "b"]) true false false [],
     [AnswerTaken; OfferSent "offer+restart"]).
Proof.
  intros s c.
  refine (answer_completes_negotiation s [OpCandidate (c "a"); OpOffer true; OpCandidate (c "b")]
    "ok" (mkTestPeer Stable (Some "ok") [false] []) (mkTestPeer Stable (Some "ok") [false] [c "a"; c "b"])
    (mkTestPeer Stable (Some "ok") [false; true] [c "a"; c "b"])
    (mkTestPeer HaveLocalOffer (Some "ok") [false; true] [c "a"; c "b"]) "offer+restart"
    _ _ _ _ _ _ _ _); try reflexivity.
  - repeat constructor.
  - vm_compute. discriminate.
Defined.

Lemma candidates_bounded_witness :
  let s := (negotiation_run (WebrtcSession_new TestPeer_new)
              [OpCandidate (mkCandidateInit "a" None None)]).1 in
  Z.of_nat (length (ws_pending_candidates s)) ≤ 128.
Proof.
  exact (proj1 (candidates_bounded TestPeer_new [OpCandidate (mkCandidateInit "a" None None)]
    (mkCandidateInit "b" None None))).
Defined.
