(* ===== verification/Semaphore.v ===== *)
(** * Counting semaphores

    [tokio::sync::Semaphore] with owned permits, as the sessions, the WebSocket endpoint and
    the TURN stream listener use it: [try_acquire_owned] never waits, and dropping the
    permit gives the slot back. The components are proved against this interface. *)

From Stdlib Require Import ZArith Lia.
From stdpp Require Import base tactics list option.
From S2P Require Import Prelude.
Local Open Scope Z_scope.

Class Semaphore (S : Type) := {
  sem_new : Z → S;
  available : S → Z;
  try_acquire : S → option S;
  release : S → S
}.

Class SemaphoreLaws (S : Type) `{Semaphore S} := {
  available_new n : 0 ≤ n → available (sem_new n) = n;
  try_acquire_some s s' : try_acquire s = Some s' → 0 < available s ∧ available s' = available s - 1;
  try_acquire_none s : try_acquire s = None → available s ≤ 0;
  available_release s : available (release s) = available s + 1
}.

#[export] Instance counter_semaphore : Semaphore Z := {|
  sem_new n := n;
  available s := s;
  try_acquire s := if 0 <? s then Some (s - 1) else None;
  release s := s + 1
|}.

#[export] Instance counter_semaphore_laws : SemaphoreLaws Z.
Proof.
  split; simpl; try done.
  - intros s s'. case_match; bool_to_prop; intros; simplify_eq. lia.
  - intros s. case_match; bool_to_prop; [done|lia].
Qed.

Section Slots.
Context {S : Type} `{SemaphoreLaws S}.

(** Permits are neither lost nor made up: those available and those held are the capacity. *)
Definition slots_conserved (capacity : Z) (s : S) (held : nat) : Prop :=
  0 ≤ available s ∧ available s + Z.of_nat held = capacity.

Lemma slots_new n : 0 ≤ n → slots_conserved n (sem_new n) 0.
Proof. intros Hn. split; rewrite available_new by done; lia. Qed.

Lemma slots_acquire cap s s' held :
  slots_conserved cap s held → try_acquire s = Some s' → slots_conserved cap s' (1 + held).
Proof. intros [??] [??]%try_acquire_some. split; lia. Qed.

Lemma slots_release cap s held :
  slots_conserved cap s (1 + held) → slots_conserved cap (release s) held.
Proof. intros [??]. split; rewrite available_release; lia. Qed.

Lemma slots_bound cap s held : slots_conserved cap s held → Z.of_nat held ≤ cap.
Proof. intros [??]. lia. Qed.

(** A refusal means that the capacity is used up. *)
Lemma slots_refused cap s held :
  slots_conserved cap s held → try_acquire s = None → Z.of_nat held = cap.
Proof. intros [??] ?%try_acquire_none. lia. Qed.
End Slots.

#[export] Hint Resolve slots_new slots_acquire slots_release slots_bound : mumdota.
