(* ===== verification/TurnService.v ===== *)
(** * The built-in TURN service ([src/src/turn/mod.rs]) and the ICE configuration of a
      session ([session_ice_config] in [src/src/session.rs])

    The service owns the credential store and a list of weak references to the running TURN
    servers: one for the UDP listener and one per accepted stream. The [turn] crate's server
    is an argument; a server is identified by a number, and [alive] says which weak
    references can still be upgraded. *)

From Stdlib Require Import ZArith Lia.
From stdpp Require Import base tactics list gmap strings option sets.
From S2P Require Import Prelude Net Credentials Text Config Semaphore.
Local Open Scope Z_scope.

Record TurnService := mkTurnService {
  tv_config : Config;
  tv_credentials : Credentials;
  tv_servers : list nat;
  tv_shutdown : bool
}.

(** What [make_server] passes to [Server::new]: the relay generator of
    [src/src/turn/relay.rs], the realm and the channel timeout. *)
Record TurnServerParams := mkTurnServerParams {
  tp_relay_address : Z;
  tp_bind_address : Z;
  tp_min_port : Z;
  tp_max_port : Z;
  tp_max_retries : Z;
  tp_public_ip : Z;
  tp_media_port : Z;
  tp_realm : string;
  tp_channel_bind_timeout : Z
}.

Definition set_servers (s : TurnService) (l : list nat) : TurnService :=
  mkTurnService (tv_config s) (tv_credentials s) l (tv_shutdown s).
Definition set_credentials (s : TurnService) (c : Credentials) : TurnService :=
  mkTurnService (tv_config s) c (tv_servers s) (tv_shutdown s).

Definition TurnService_make_server (s : TurnService)
    (new_server : TurnServerParams → result nat) (alive : nat → bool) : TurnService * result nat :=
  let t := turn (tv_config s) in
  match ok_or (tn_public_ip t) "TURN public IP is missing" with
  | Err e => (s, Err e)
  | Ok ip =>
      match new_server (mkTurnServerParams ip LOCALHOST (tn_relay_min_port t) (tn_relay_max_port t)
                          100 ip (wr_udp_port (webrtc (tv_config s))) (tn_realm t) 600) with
      | Err e => (s, Err e)
      | Ok server =>
          (set_servers s (List.filter alive (tv_servers s) ++ [server]), Ok server)
      end
  end.

(** The listeners [start] binds, in order: TURN over UDP and TCP, and TLS when both the
    certificate and the key are configured. *)
Inductive turn_listener := UdpListener (ip port : Z) | TcpListener (ip port : Z) | TlsListener (ip port : Z).

Definition turn_listeners (t : TurnConfig) : list turn_listener :=
  [UdpListener (tn_listen_addr t) (tn_port t); TcpListener (tn_listen_addr t) (tn_port t)]
  ++ match tn_tls_cert t, tn_tls_key t with
     | Some _, Some _ => [TlsListener (tn_listen_addr t) (tn_tls_port t)]
     | _, _ => []
     end.

(** [TurnService::start]: [load_identity] reads and checks the TLS certificate and key;
    the result is the service with the UDP server running. *)
Definition TurnService_start (c : Config) (bind : turn_listener → result unit)
    (load_identity : string → string → result unit)
    (new_server : TurnServerParams → result nat) : result TurnService :=
  let t := turn c in
  _ ← Config_validate c;
  _ ← ensure (tn_enabled t) "TURN is disabled";
  _ ← bind (UdpListener (tn_listen_addr t) (tn_port t));
  _ ← bind (TcpListener (tn_listen_addr t) (tn_port t));
  _ ← match tn_tls_cert t, tn_tls_key t with
      | Some cert, Some key =>
          _ ← load_identity cert key; bind (TlsListener (tn_listen_addr t) (tn_tls_port t))
      | _, _ => Ok tt
      end;
  let service := mkTurnService c
    (Credentials_new (tn_realm t) (tn_credential_ttl_secs t)) [] false in
  match TurnService_make_server service new_server (λ _, true) with
  | (service', Ok _) => Ok service'
  | (_, Err e) => Err e
  end.

(** The URLs of [ice_config]. *)
Definition turn_urls (t : TurnConfig) : list string :=
  let host := tn_public_host t in
  ["stun:" +:+ host +:+ ":" +:+ show (tn_port t);
   "turn:" +:+ host +:+ ":" +:+ show (tn_port t) +:+ "?transport=udp";
   "turn:" +:+ host +:+ ":" +:+ show (tn_port t) +:+ "?transport=tcp"]
  ++ (if bool_decide (is_Some (tn_tls_cert t))
      then ["turns:" +:+ host +:+ ":" +:+ show (tn_tls_port t) +:+ "?transport=tcp"] else []).

(** [close]: the flag that stops the listeners. *)
Definition TurnService_close (s : TurnService) : TurnService :=
  mkTurnService (tv_config s) (tv_credentials s) (tv_servers s) true.

(** ** Starting *)

(** A started TURN service is sound. If [start] succeeds, the configuration passed
    validation with TURN enabled, every listener it needs was bound (TLS exactly when both
    the certificate and the key are configured) before any server ran, the credential
    store is empty with a lifetime of at least 300 s, and the first server relays from the
    loopback address to the media port for the public address. *)
Theorem turn_start_sound c bind load_identity new_server s :
  TurnService_start c bind load_identity new_server = Ok s →
  Config_validate c = Ok tt ∧ tn_enabled (turn c) = true ∧
  Forall (λ l, bind l = Ok tt) (turn_listeners (turn c)) ∧
  (is_Some (tn_tls_cert (turn c)) ↔
     TlsListener (tn_listen_addr (turn c)) (tn_tls_port (turn c)) ∈ turn_listeners (turn c)) ∧
  tv_config s = c ∧ cs_entries (tv_credentials s) = ∅ ∧ 300 ≤ cs_ttl (tv_credentials s) ≤ 86400 ∧
  ∃ ip server, tn_public_ip (turn c) = Some ip ∧ tv_servers s = [server] ∧
    new_server (mkTurnServerParams ip LOCALHOST (tn_relay_min_port (turn c))
      (tn_relay_max_port (turn c)) 100 ip (wr_udp_port (webrtc c)) (tn_realm (turn c)) 600)
    = Ok server.
Proof.
  unfold TurnService_start. intros Hs. result_inv.
  match goal with H : Config_validate c = Ok ?u |- _ => destruct u; rename H into Hv end.
  repeat match goal with u : unit |- _ => destruct u end.
  match goal with H : tn_enabled _ = true |- _ => rename H into He end.
  pose proof (validate_turn c tt Hv He) as Hval. simpl in Hval.
  destruct Hval as (_ & (ip & Hip & _) & _ & _ & _ & _ & _ & _ & _ & Httl & _ & _ & Htls & _).
  unfold TurnService_make_server in Hs. simpl in Hs. rewrite Hip in Hs. simpl in Hs.
  destruct (new_server _) as [server|] eqn:Hnew; [|done]. injection Hs as <-. simpl.
  split_and!; try (done || lia).
  - unfold turn_listeners. repeat constructor; [done|done|].
    destruct (tn_tls_cert (turn c)), (tn_tls_key (turn c)); try constructor; [|done].
    match goal with H : (_ ≫= _) = Ok _ |- _ => apply bind_Ok_iff in H as (? & ? & H) end. done.
  - unfold turn_listeners. destruct (tn_tls_cert (turn c)) as [cert|].
    + destruct (proj1 Htls) as [key ->]; [eauto|]. set_solver.
    + split; [by intros [? ?]|]. set_solver.
  - eauto.
Qed.

(** ** Credentials, revocation and the ICE configuration *)

Section Turn.
Variable generate_auth_key : string → string → string → list Z.
Context `{!MapValues string Credential}.

Definition TurnService_ice_config (s : TurnService) (session : string) (now : Z) (u : uuids)
    : TurnService * IceConfig :=
  let '(creds, cfg) := Credentials_issue_at generate_auth_key (tv_credentials s) session
                         (turn_urls (turn (tv_config s))) now u in
  (set_credentials s creds, cfg).

(** [revoke]: the calls [delete_allocations_by_username] made, by server and user name; each
    is waited for at most one second, so what they achieve is not part of the result. *)
Definition TurnService_revoke (s : TurnService) (session : string) (alive : nat → bool)
    : TurnService * list (nat * string) :=
  let '(creds, usernames) := Credentials_revoke (tv_credentials s) session in
  let servers := List.filter alive (tv_servers s) in
  (set_credentials s creds,
   usernames ≫= λ username, (λ server, (server, username)) <$> servers).

(** [session_ice_config] and [SessionManager::ice_config]: the built-in service when there
    is one, the configured STUN servers otherwise. *)
Definition session_ice_config (c : Config) (t : option TurnService) (conn_id : string)
    (now : Z) (u : uuids) : option TurnService * IceConfig :=
  match t with
  | Some t => let '(t', cfg) := TurnService_ice_config t conn_id now u in (Some t', cfg)
  | None =>
      (None, mkIceConfig
         ((λ url, mkIceServer url None None)
            <$> List.filter (λ url, starts_with url "stun:") (wr_stun_servers (webrtc c))) None)
  end.

(** ** What a browser is given *)

(** The URLs without a secret are the [stun:] ones. *)
Lemma turn_urls_kinds t :
  Forall (λ url, starts_with url "stun:" = negb (starts_with url "turn")) (turn_urls t).
Proof.
  assert (Hstun : ∀ s, starts_with ("stun:" +:+ s) "stun:" = negb (starts_with ("stun:" +:+ s) "turn")).
  { intros s. by rewrite (starts_with_app "stun:"). }
  assert (Hturn : ∀ s, starts_with ("turn" +:+ s) "stun:" = negb (starts_with ("turn" +:+ s) "turn")).
  { intros s. by rewrite (starts_with_app "turn"). }
  unfold turn_urls. case_bool_decide; simpl;
    repeat (constructor; [first [apply Hstun | apply (Hturn (":" +:+ _)) | apply (Hturn ("s:" +:+ _))]|]);
    constructor.
Qed.

(** The ICE configuration sent to a browser is usable. With the built-in service it is
    the STUN URL without a secret, then TURN over UDP and TCP and, exactly when a
    certificate is configured, TURN over TLS, all with one user name and password that the
    TURN server accepts until the announced expiry; without the service it is the
    configured [stun:] URLs in order, with no secret and no expiry. *)
Theorem session_ice_config_usable c s conn_id now u :
  creds_wf generate_auth_key (tv_credentials s) → time_ok (tv_credentials s) now →
  (∃ s' name password expiry,
     session_ice_config c (Some s) conn_id now u =
       (Some s', mkIceConfig
          ((λ url, if starts_with url "stun:" then mkIceServer url None None
                   else mkIceServer url (Some name) (Some password))
             <$> turn_urls (turn (tv_config s))) (Some expiry)) ∧
     now < expiry ∧
     ∀ t, Credentials_authenticate_at (tv_credentials s') name (cs_realm (tv_credentials s)) t =
          if t <? expiry
          then Ok (generate_auth_key name (cs_realm (tv_credentials s)) password)
          else Err "expired or unknown session credential") ∧
  (let '(t', cfg) := session_ice_config c None conn_id now u in
   t' = None ∧ ic_expires_at cfg = None ∧
   is_urls <$> ic_ice_servers cfg
     = List.filter (λ url, starts_with url "stun:") (wr_stun_servers (webrtc c)) ∧
   Forall (λ srv, is_username srv = None ∧ is_credential srv = None) (ic_ice_servers cfg)).
Proof.
  intros Hwf Ht. split.
  - pose proof (issue_in_store generate_auth_key (tv_credentials s) conn_id now u Ht Hwf) as Hi.
    unfold session_ice_config, TurnService_ice_config, Credentials_issue_at.
    destruct (issue_credential _ _ _ _ _) as [entries cr]. destruct Hi as (Hk & [_ Hkey] & He).
    eexists _, (cr_username cr), (cr_password cr), (cr_expires_at cr). split_and!; [|done|].
    + apply (f_equal (λ l, (Some _, mkIceConfig l _))), list_fmap_ext. intros i url Hurl.
      pose proof (Forall_lookup_1 _ _ _ _ (turn_urls_kinds (turn (tv_config s))) Hurl) as Hk'.
      unfold ice_server. simpl in Hk'. rewrite Hk'. by destruct (starts_with url "turn").
    + intros t. unfold Credentials_authenticate_at. simpl. rewrite bool_decide_eq_true_2 by done.
      simpl. by rewrite Hk, Hkey.
  - simpl. split_and!; try done.
    + rewrite <- list_fmap_compose. apply list_fmap_id.
    + apply Forall_fmap, Forall_true. done.
Qed.

(** ** Revocation reaches every running server *)

Inductive turn_op :=
| OpMakeServer (new_server : TurnServerParams → result nat) (alive : nat → bool)
| OpIceConfig (session : string) (now : Z) (u : uuids)
| OpRevokeSession (session : string) (alive : nat → bool).

Definition turn_step (s : TurnService) (op : turn_op) : TurnService :=
  match op with
  | OpMakeServer new_server alive => (TurnService_make_server s new_server alive).1
  | OpIceConfig session now u => (TurnService_ice_config s session now u).1
  | OpRevokeSession session alive => (TurnService_revoke s session alive).1
  end.

(** The servers an operation brings up. *)
Definition servers_made (s : TurnService) (op : turn_op) : list nat :=
  match op with
  | OpMakeServer new_server alive =>
      match (TurnService_make_server s new_server alive).2 with Ok id => [id] | Err _ => [] end
  | _ => []
  end.

Fixpoint turn_run (s : TurnService) (ops : list turn_op) : TurnService * list nat :=
  match ops with
  | [] => (s, [])
  | op :: ops =>
      let '(s', made) := turn_run (turn_step s op) ops in (s', servers_made s op ++ made)
  end.

(** The readings of [alive] along a run: a server that is gone does not come back. *)
Definition alive_reading (op : turn_op) : list (nat → bool) :=
  match op with OpMakeServer _ alive => [alive] | _ => [] end.
Definition alive_readings (ops : list turn_op) : list (nat → bool) := ops ≫= alive_reading.

Lemma turn_step_servers s op id :
  id ∈ tv_servers s ++ servers_made s op →
  (∀ alive, alive ∈ alive_reading op → alive id = true) →
  id ∈ tv_servers (turn_step s op).
Proof.
  destruct op as [new_server alive|session now u|session alive]; simpl.
  - unfold TurnService_make_server. destruct (ok_or _ _) as [ip|]; simpl; [|by rewrite app_nil_r].
    destruct (new_server _) as [server|]; simpl; [|by rewrite app_nil_r].
    intros [Hin|Hin]%elem_of_app Ha; apply elem_of_app; [left|by right].
    apply list_elem_of_In, List.filter_In. split; [by apply list_elem_of_In|]. apply Ha. set_solver.
  - unfold TurnService_ice_config. rewrite app_nil_r. by destruct (Credentials_issue_at _ _ _ _ _ _).
  - by rewrite app_nil_r.
Qed.

Lemma turn_run_servers ops : ∀ s id,
  id ∈ tv_servers s ++ (turn_run s ops).2 →
  (∀ alive, alive ∈ alive_readings ops → alive id = true) →
  id ∈ tv_servers (turn_run s ops).1.
Proof.
  induction ops as [|op ops IH]; intros s id Hin Ha; simpl in *; [by rewrite app_nil_r in Hin|].
  change (alive_readings (op :: ops)) with (alive_reading op ++ alive_readings ops) in Ha.
  specialize (IH (turn_step s op) id). destruct (turn_run (turn_step s op) ops) as [s' made].
  simpl in *. apply IH; [|intros al Hal; apply Ha, elem_of_app; by right].
  rewrite app_assoc in Hin. apply elem_of_app in Hin as [Hin|Hin]; apply elem_of_app; [left|by right].
  apply turn_step_servers; [done|]. intros al Hal. apply Ha, elem_of_app. by left.
Qed.

(** The wall clock reads a time before 2^63 s. *)
Definition op_time_ok (op : turn_op) : Prop :=
  match op with OpIceConfig _ now _ => 0 ≤ now < 2 ^ 63 | _ => True end.

Definition service_ok (s : TurnService) : Prop :=
  creds_wf generate_auth_key (tv_credentials s) ∧ 180 ≤ cs_ttl (tv_credentials s) ≤ 2 ^ 32.

Lemma turn_step_ok s op : service_ok s → op_time_ok op → service_ok (turn_step s op).
Proof.
  intros [Hwf Httl] Ht. destruct op as [new_server alive|session now u|session alive]; simpl in *.
  - unfold TurnService_make_server. destruct (ok_or _ _); [|done]. by destruct (new_server _).
  - assert (time_ok (tv_credentials s) now) as Hok by done.
    pose proof (issue_wf generate_auth_key (tv_credentials s) session
      (turn_urls (turn (tv_config s))) now u Hok Hwf) as Hi.
    pose proof (issue_ttl generate_auth_key (tv_credentials s) session
      (turn_urls (turn (tv_config s))) now u) as Hl.
    unfold service_ok, TurnService_ice_config.
    destruct (Credentials_issue_at _ _ _ _ _ _). simpl in *. by rewrite Hl.
  - split; [by apply (revoke_wf generate_auth_key)|done].
Qed.

Lemma turn_run_ok ops : ∀ s, service_ok s → Forall op_time_ok ops → service_ok (turn_run s ops).1.
Proof.
  induction ops as [|op ops IH]; intros s Hs Hops; [done|].
  apply Forall_cons in Hops as [Hop Hops]. simpl.
  specialize (IH _ (turn_step_ok s op Hs Hop) Hops). by destruct (turn_run (turn_step s op) ops).
Qed.

End Turn.

(** ** The stream listener *)

Section Accept.
Context {S : Type} `{SemaphoreLaws S}.

(** [accept_streams]: the semaphore of two slots per allowed session, and the running
    client tasks, each holding a slot until it returns. *)
Record AcceptLoop := mkAcceptLoop { al_slots : S; al_clients : nat; al_running : bool }.

Definition accept_start (c : Config) : AcceptLoop :=
  mkAcceptLoop (sem_new (wrapping_mul 64 (sv_max_connections (server c)) 2)) 0 true.

(** One turn of the [select!] loop: shutdown, a finished client, or an accepted
    connection ([false]: the listener failed). *)
Inductive accept_input := AcceptShutdown | AcceptJoined | AcceptConnection (ok : bool).

Definition accept_step (l : AcceptLoop) (i : accept_input) : AcceptLoop :=
  match i with
  | AcceptShutdown | AcceptConnection false => mkAcceptLoop (al_slots l) (al_clients l) false
  | AcceptJoined =>
      if (0 <? al_clients l)%nat
      then mkAcceptLoop (release (al_slots l)) (al_clients l - 1) (al_running l) else l
  | AcceptConnection true =>
      match try_acquire (al_slots l) with
      | Some slots => mkAcceptLoop slots (1 + al_clients l) (al_running l)
      | None => l
      end
  end.

(** What one accepted client does: the TLS handshake (when TLS is on) within ten seconds,
    then a TURN server of its own, closed when the stream or the service closes. *)
Inductive client_outcome := ClientRefused | ClientServed (server : nat).

Definition accept_client (s : TurnService) (local_addr : result unit)
    (tls_accept : option (result unit)) (new_server : TurnServerParams → result nat)
    (alive : nat → bool) : TurnService * client_outcome :=
  match local_addr, tls_accept with
  | Err _, _ | Ok _, Some (Err _) => (s, ClientRefused)
  | Ok _, _ =>
      match TurnService_make_server s new_server alive with
      | (s', Ok server) => (s', ClientServed server)
      | (s', Err _) => (s', ClientRefused)
      end
  end.

Fixpoint accept_loop (l : AcceptLoop) (ins : list accept_input) : AcceptLoop :=
  match ins with
  | [] => l
  | i :: ins => if al_running l then accept_loop (accept_step l i) ins else l
  end.

(** The listener never runs more clients than two per allowed session. *)
Theorem stream_clients_bounded c ins :
  0 < sv_max_connections (server c) < 2 ^ 63 →
  Z.of_nat (al_clients (accept_loop (accept_start c) ins)) ≤ 2 * sv_max_connections (server c).
Proof.
  intros Hmax. set (cap := 2 * sv_max_connections (server c)).
  assert (Hgen : ∀ l, slots_conserved cap (al_slots l) (al_clients l) →
    slots_conserved cap (al_slots (accept_loop l ins)) (al_clients (accept_loop l ins))).
  { induction ins as [|i ins IH]; intros l Hl; [done|]. simpl.
    destruct (al_running l); [|done]. apply IH. destruct i as [| |[]]; simpl; try done.
    - destruct (Nat.ltb_spec 0 (al_clients l)); [|done]. cbn [al_slots al_clients]. apply slots_release.
      by replace (1 + (al_clients l - 1))%nat with (al_clients l) by lia.
    - destruct (try_acquire (al_slots l)) eqn:Ha; [|done]. by apply (slots_acquire _ (al_slots l)). }
  apply (slots_bound cap (al_slots (accept_loop (accept_start c) ins))), Hgen.
  unfold accept_start, wrapping_mul. rewrite wrap_small by (unfold is_uint; lia). simpl.
  replace (sv_max_connections (server c) * 2) with cap by (unfold cap; lia).
  apply slots_new. unfold cap. lia.
Qed.
End Accept.

Definition test_service : TurnService :=
  mkTurnService test_config (Credentials_new "mumdota" 3600) [] false.

Definition test_turn_ops : list turn_op :=
  [OpMakeServer (λ _, Ok 1%nat) (λ _, true); OpIceConfig "s1" 1000 ("u1", "u2", "u3");
   OpMakeServer (λ _, Ok 2%nat) (λ _, true)].

Lemma turn_start_sound_witness :
  Config_validate test_config = Ok tt ∧ tn_enabled (turn test_config) = true.
Proof.
  destruct (turn_start_sound test_config (λ _, Ok tt) (λ _ _, Ok tt) (λ _, Ok 5%nat)
    (mkTurnService test_config (Credentials_new "mumdota" 3600) [5%nat] false) eq_refl)
    as (H1 & H2 & _). exact (conj H1 H2).
Defined.

Lemma session_ice_config_usable_witness :
  is_urls <$> ic_ice_servers
    (session_ice_config test_auth_key test_config (Some test_service) "s1" 1000 ("u1", "u2", "u3")).2
  = ["stun:turn.example.com:3478"; "turn:turn.example.com:3478?transport=udp";
     "turn:turn.example.com:3478?transport=tcp"; "turns:turn.example.com:5349?transport=tcp"].
Proof.
  destruct (session_ice_config_usable test_auth_key test_config test_service "s1" 1000
    ("u1", "u2", "u3")) as [(s' & name & password & expiry & Heq & _) _].
  - apply map_Forall_empty.
  - split; simpl; lia.
  - rewrite Heq. vm_compute. reflexivity.
Defined.

