(* ===== verification/Session.v ===== *)
(** * One user's session ([UserSession] and [process_events] in [src/src/session.rs])

    A session ties a browser's WebSocket to a Mumble connection, a peer connection and the
    audio bridge. Every operation here runs while the session's mutex is held, so it is a
    function from the session to the session; what it sends is a list of effects in order.
    Results of other crates (tracks, sockets, DNS, whether a channel is still open) are
    arguments. *)

From Stdlib Require Import ZArith Lia.
From stdpp Require Import base tactics list gmap strings option sets fin_sets fin_maps.
From S2P Require Import Prelude Messages Credentials Net Speakers Proto MumbleClient Voice Negotiation.
Local Open Scope Z_scope.

(** Iteration over a [HashSet<u32>]: every element once, in some order. *)
Class SetIter (A : Type) `{Countable A} := {
  set_iter : gset A → list A;
  set_iter_perm X : set_iter X ≡ₚ elements X
}.

#[export] Instance canonical_set_iter {A} `{Countable A} : SetIter A | 100 :=
  {| set_iter := elements; set_iter_perm X := Permutation_refl _ |}.

(** What a session does to the outside, in order. *)
Inductive effect :=
| EfSend (msg : ServerMessage)          (* to the browser, over [ws_tx] *)
| EfCommand (cmd : MumbleCommand)       (* to the Mumble connection *)
| EfAbortVoiceSetup                     (* [JoinHandle::abort] *)
| EfBridgeShutdown
| EfVoiceShutdown (aborted : bool)
| EfPeerClose
| EfReleaseSlot.

Section Session.
Context {P Sender : Type} `{PeerConnection P} `{!SetIter Z}.

(** The struct; the last field is not one of it, and says whether the task that the handle in
    [voice_setup_task] stands for is still there: [abort] only asks it to end. *)
Record UserSession := mkUserSession {
  se_webrtc : WebrtcSession P;
  se_speakers : gmap Z (Speaker Sender);
  se_mumble_voice : option MumbleVoice;
  se_bridge : bool;
  se_username : string;
  se_session_id : option Z;
  se_voice_setup_task : bool;
  se_slot : bool;
  se_closed : bool;
  se_close_notify : bool;
  se_voice_start : bool;
  se_known_speakers : gset Z;
  se_setup_running : bool
}.

(** The session [connect_user] builds once Mumble and WebRTC are set up. *)
Definition UserSession_new (peer : P) (username : string) : UserSession :=
  mkUserSession (WebrtcSession_new peer) SpeakerTracks_new None false username None false true false false false ∅
    false.

Definition set_webrtc (s : UserSession) (w : WebrtcSession P) : UserSession :=
  mkUserSession w (se_speakers s) (se_mumble_voice s) (se_bridge s) (se_username s)
    (se_session_id s) (se_voice_setup_task s) (se_slot s) (se_closed s) (se_close_notify s)
    (se_voice_start s) (se_known_speakers s) (se_setup_running s).

Definition set_speakers (s : UserSession) (sp : gmap Z (Speaker Sender)) : UserSession :=
  mkUserSession (se_webrtc s) sp (se_mumble_voice s) (se_bridge s) (se_username s)
    (se_session_id s) (se_voice_setup_task s) (se_slot s) (se_closed s) (se_close_notify s)
    (se_voice_start s) (se_known_speakers s) (se_setup_running s).

Definition set_known (s : UserSession) (known : gset Z) : UserSession :=
  mkUserSession (se_webrtc s) (se_speakers s) (se_mumble_voice s) (se_bridge s) (se_username s)
    (se_session_id s) (se_voice_setup_task s) (se_slot s) (se_closed s) (se_close_notify s)
    (se_voice_start s) known (se_setup_running s).

Definition set_connected (s : UserSession) (session_id : Z) (known : gset Z) : UserSession :=
  mkUserSession (se_webrtc s) (se_speakers s) (se_mumble_voice s) (se_bridge s) (se_username s)
    (Some session_id) (se_voice_setup_task s) (se_slot s) (se_closed s) (se_close_notify s)
    (se_voice_start s) known (se_setup_running s).

(** ** Teardown *)

(** [shutdown_user_session]; a failed close of the peer connection is only logged. *)
Definition shutdown_user_session (s : UserSession) : UserSession * list effect :=
  if negb (se_slot s) then (s, [])
  else
    (mkUserSession (se_webrtc s) (se_speakers s) None false (se_username s) (se_session_id s)
       false false true true (se_voice_start s) (se_known_speakers s) (se_setup_running s),
     [EfCommand McDisconnect]
     ++ (if se_voice_setup_task s then [EfAbortVoiceSetup] else [])
     ++ (if se_bridge s then [EfBridgeShutdown] else [])
     ++ (match se_mumble_voice s with
         | Some v => [EfVoiceShutdown (MumbleVoice_shutdown v).2]
         | None => []
         end)
     ++ [EfPeerClose; EfReleaseSlot]).

(** ** Requests of the browser *)

(** [refresh_ice]; [cfg] is the configuration [ice_config] would issue. *)
Definition session_refresh_ice (s : UserSession) (cfg : IceConfig) : result (list effect) :=
  match se_session_id s with
  | None => Err "Mumble authentication pending"
  | Some _ => Ok [EfSend (SmIceConfig cfg)]
  end.

(** [speakers.add] for every known speaker, until one fails. *)
Fixpoint add_speakers (add_track : Track → result Sender) (speakers : gmap Z (Speaker Sender))
    (ids : list Z) : gmap Z (Speaker Sender) * result unit :=
  match ids with
  | [] => (speakers, Ok tt)
  | id :: ids =>
      match SpeakerTracks_add speakers id add_track with
      | (sp, Err e) => (sp, Err e)
      | (sp, Ok _) => add_speakers add_track sp ids
      end
  end.

(** The offer call shared by [start_voice] and [handle_answer]: an offer goes to the
    browser, an error to the caller. *)
Definition offer_effects (r : result (option string)) : list effect * result unit :=
  match r with
  | Ok (Some sdp) => ([EfSend (SmOffer sdp)], Ok tt)
  | Ok None => ([], Ok tt)
  | Err e => ([], Err e)
  end.

Definition session_start_voice (s : UserSession) (restart : bool)
    (add_track : Track → result Sender) : UserSession * list effect * result unit :=
  match se_session_id s with
  | None => (s, [], Err "Mumble authentication pending")
  | Some _ =>
      let '(s1, r1) :=
        if ws_started (se_webrtc s) then (s, Ok tt)
        else
          match add_speakers add_track (se_speakers s) (set_iter (se_known_speakers s)) with
          | (sp, Err e) => (set_speakers s sp, Err e)
          | (sp, Ok _) =>
              (mkUserSession (WebrtcSession_start (se_webrtc s)) sp (se_mumble_voice s)
                 (se_bridge s) (se_username s) (se_session_id s) (se_voice_setup_task s)
                 (se_slot s) (se_closed s) (se_close_notify s) true (se_known_speakers s)
                 (se_setup_running s), Ok tt)
          end in
      match r1 with
      | Err e => (s1, [], Err e)
      | Ok _ =>
          let '(w, r) := WebrtcSession_offer (se_webrtc s1) restart in
          let '(effects, result) := offer_effects r in
          (set_webrtc s1 w, effects, result)
      end
  end.

Definition session_handle_answer (s : UserSession) (sdp : string)
    : UserSession * list effect * result unit :=
  let '(w, r) := WebrtcSession_answer (se_webrtc s) sdp in
  let '(effects, result) := offer_effects r in
  (set_webrtc s w, effects, result).

Definition session_add_ice_candidate (s : UserSession) (candidate : string)
    (sdp_mid : option string) (sdp_mline_index : option Z) : UserSession * result unit :=
  let '(w, r) := WebrtcSession_add_ice_candidate (se_webrtc s) candidate sdp_mid sdp_mline_index in
  (set_webrtc s w, r).

(** [send_chat], [join_channel], [set_mute] and [set_deaf] send one command;
    [client_open] says whether the Mumble task still receives. *)
Definition MumbleClient_send_command (client_open : bool) (cmd : MumbleCommand)
    : list effect * result unit :=
  if client_open then ([EfCommand cmd], Ok tt) else ([], Err "Mumble client disconnected").

(** ** Events of the Mumble connection *)

(** The loop goes on, or ends with the terminal error for the browser, if any. *)
Inductive control := Continue | Break (terminal : option ServerMessage).

Definition user_names (users : list UserInfo) (m : gmap Z string) : gmap Z string :=
  foldl (λ m u, <[us_session_id u := us_name u]> m) m users.

(** [if let Err(error) = ... { ws_tx.send(error("voice_error", ...)) }] *)
Definition report_voice_error (r : result unit) : list effect :=
  match r with Ok _ => [] | Err e => [EfSend (ServerMessage_error "voice_error" e)] end.

(** One Mumble event ([None]: the channel is closed) with the local name table of the
    loop; [cfg] is the ICE configuration issued for [Connected], [now] the Unix time. *)
Definition process_mumble_event (s : UserSession) (user_map : gmap Z string)
    (event : option MumbleEvent) (cfg : IceConfig) (now : Z)
    (add_track : Track → result Sender) (remove_track : Sender → result unit)
    : UserSession * gmap Z string * list effect * control :=
  match event with
  | Some (MeConnected session_id channels users) =>
      let user_map := user_names users user_map in
      if se_closed s then (s, user_map, [], Break None)
      else
        let known := list_to_set (List.filter (λ id, negb (id =? session_id))
                                    (us_session_id <$> users)) in
        (set_connected s session_id known, user_map,
         [EfSend (SmConnected (mkConnectedData 2 cfg session_id channels users))], Continue)
  | Some (MeUserJoined user) =>
      let id := us_session_id user in
      let '(s1, errors) :=
        if bool_decide (se_session_id s = Some id) then (s, [])
        else
          let s1 := set_known s ({[id]} ∪ se_known_speakers s) in
          if ws_started (se_webrtc s) then
            let '(sp, r) := SpeakerTracks_add (se_speakers s) id add_track in
            (set_speakers s1 sp, report_voice_error r)
          else (s1, []) in
      (s1, <[id := us_name user]> user_map, errors ++ [EfSend (SmUserJoined user)], Continue)
  | Some (MeUserLeft session_id) =>
      let s1 := set_known s (se_known_speakers s ∖ {[session_id]}) in
      let '(sp, r) := SpeakerTracks_remove (se_speakers s) session_id remove_track in
      (set_speakers s1 sp, delete session_id user_map,
       report_voice_error r ++ [EfSend (SmUserLeft session_id)], Continue)
  | Some (MeUserStateChanged state) =>
      let user_map := match ud_name state with
                      | Some name => <[ud_session_id state := name]> user_map
                      | None => user_map
                      end in
      (s, user_map, [EfSend (SmUserState state)], Continue)
  | Some (MeChannelAdded ch) | Some (MeChannelUpdated ch) =>
      (s, user_map, [EfSend (SmChannelUpdated [ch])], Continue)
  | Some (MeChannelRemoved _) => (s, user_map, [], Continue)
  | Some (MeChatMessage sender_session channel_id message) =>
      let sender_name := default ("User#" +:+ show sender_session) (user_map !! sender_session) in
      (s, user_map,
       [EfSend (SmChatReceived (mkChatReceivedData sender_session sender_name channel_id
                                  message now))], Continue)
  | Some (MeDisconnected reason) =>
      (s, user_map, [], Break (Some (ServerMessage_error "mumble_disconnected" reason)))
  | None => (s, user_map, [], Break None)
  end.

(** ** Events of the peer connection *)

Inductive RTCPeerConnectionState :=
| PcNew | PcConnecting | PcConnected | PcDisconnected | PcFailed | PcClosed | PcUnspecified.

Inductive WebrtcEvent :=
| WeConnectionStateChanged (state : RTCPeerConnectionState)
| WeIceCandidate (candidate : RTCIceCandidateInit)
| WeNegotiationNeeded.

(** [show_state] is the library's [Display] of a connection state. *)
Definition process_webrtc_event (show_state : RTCPeerConnectionState → string) (s : UserSession)
    (event : option WebrtcEvent) : UserSession * list effect * control :=
  match event with
  | Some (WeIceCandidate c) =>
      (s, [EfSend (SmIceCandidate (mkIceCandidateData (ci_candidate c) (ci_sdp_mid c)
                                     (ci_sdp_mline_index c)))], Continue)
  | Some WeNegotiationNeeded =>
      let '(w, r) := WebrtcSession_offer (se_webrtc s) false in
      (set_webrtc s w,
       match r with
       | Ok (Some sdp) => [EfSend (SmOffer sdp)]
       | Ok None => []
       | Err e => [EfSend (ServerMessage_error "voice_error" e)]
       end, Continue)
  | Some (WeConnectionStateChanged state) =>
      (s, match state with
          | PcFailed | PcDisconnected =>
              [EfSend (ServerMessage_error "webrtc_disconnected"
                         ("WebRTC state: " +:+ show_state state))]
          | _ => []
          end, Continue)
  | None => (s, [], Break None)
  end.

(** [close_notify.notified()] takes the permit that [notify_one] left. *)
Definition take_close_notify (s : UserSession) : UserSession :=
  mkUserSession (se_webrtc s) (se_speakers s) (se_mumble_voice s) (se_bridge s) (se_username s)
    (se_session_id s) (se_voice_setup_task s) (se_slot s) (se_closed s) false
    (se_voice_start s) (se_known_speakers s) (se_setup_running s).

(** ** The voice setup task *)

(** The start of [process_events]: nothing is set up for a session already closed. *)
Definition process_events_start (s : UserSession) : option UserSession :=
  if se_closed s then None
  else Some (mkUserSession (se_webrtc s) (se_speakers s) (se_mumble_voice s) (se_bridge s)
               (se_username s) (se_session_id s) true (se_slot s) (se_closed s)
               (se_close_notify s) (se_voice_start s) (se_known_speakers s) true).

(** The end of the setup task. *)
Definition setup_over (s : UserSession) : UserSession :=
  mkUserSession (se_webrtc s) (se_speakers s) (se_mumble_voice s) (se_bridge s) (se_username s)
    (se_session_id s) (se_voice_setup_task s) (se_slot s) (se_closed s) (se_close_notify s)
    (se_voice_start s) (se_known_speakers s) false.

(** An abort that was asked for has reached the task, at one of its awaits. *)
Definition setup_cancelled (s : UserSession) : UserSession :=
  if se_voice_setup_task s then s else setup_over s.

(** What follows [voice_start.notified()]: the crypt state within ten seconds, the address
    of the server, the voice socket, and the bridge, which is attached without asking
    whether the session has been closed; then the task is over. *)
Definition voice_setup (s : UserSession) (crypt : bool) (addr : option SocketAddr)
    (start : SocketAddr → result MumbleVoice) : UserSession * list effect :=
  if crypt then
    match addr with
    | None =>
        (setup_over s, [EfSend (ServerMessage_error "voice_error"
                       "Voice setup failed: could not resolve Mumble server address")])
    | Some addr =>
        match start addr with
        | Ok voice =>
            match MumbleVoice_take_channels voice with
            | (voice', Ok _) =>
                (mkUserSession (se_webrtc s) (se_speakers s) (Some voice') true (se_username s)
                   (se_session_id s) (se_voice_setup_task s) (se_slot s) (se_closed s)
                   (se_close_notify s) (se_voice_start s) (se_known_speakers s) false, [])
            | (voice', Err e) =>
                (setup_over s, [EfVoiceShutdown (MumbleVoice_shutdown voice').2;
                     EfSend (ServerMessage_error "voice_error" ("Voice setup failed: " +:+ e))])
            end
        | Err e =>
            (setup_over s, [EfSend (ServerMessage_error "voice_error" ("Voice setup failed: " +:+ e))])
        end
    end
  else
    (setup_over s, [EfSend (ServerMessage_error "voice_error"
                   "Mumble voice encryption setup timed out or closed")]).

(** ** The session follows the roster *)

(** What the environment supplies for one event. *)
Record event_env := mkEventEnv {
  ev_cfg : IceConfig; ev_now : Z;
  ev_add_track : Track → result Sender; ev_remove_track : Sender → result unit
}.

(** A run of the event loop over Mumble events, until it breaks. *)
Fixpoint mumble_events (s : UserSession) (user_map : gmap Z string)
    (es : list (MumbleEvent * event_env)) : UserSession * gmap Z string * list effect * control :=
  match es with
  | [] => (s, user_map, [], Continue)
  | (e, env) :: es =>
      match process_mumble_event s user_map (Some e) (ev_cfg env) (ev_now env)
              (ev_add_track env) (ev_remove_track env) with
      | (s1, m1, ef1, Continue) =>
          let '(s2, m2, ef2, c) := mumble_events s1 m1 es in (s2, m2, ef1 ++ ef2, c)
      | r => r
      end
  end.

(** Users of a login snapshot are listed once. *)
Definition event_wf (e : MumbleEvent) : Prop :=
  match e with MeConnected _ _ users => NoDup (us_session_id <$> users) | _ => True end.

(** The session knows the view: its speakers are the others, and it has their names. *)
Definition follows (v : option View) (s : UserSession) (user_map : gmap Z string) : Prop :=
  match v with
  | None => True
  | Some v =>
      ∃ own, se_session_id s = Some own ∧
        se_known_speakers s = dom (v_users v) ∖ {[own]} ∧
        ∀ k u, v_users v !! k = Some u → user_map !! k = Some (us_name u)
  end.

Lemma user_names_lookup users m :
  NoDup (us_session_id <$> users) →
  ∀ k u, index_by us_session_id users !! k = Some u → user_names users m !! k = Some (us_name u).
Proof.
  intros Hnd k u Hk. apply elem_of_list_to_map in Hk.
  2: { rewrite <- list_fmap_compose. exact Hnd. }
  apply list_elem_of_fmap in Hk as (u' & [= -> <-] & Hin).
  revert m Hnd. induction users as [|w users IH]; [by apply elem_of_nil in Hin|].
  intros m Hnd. simpl in *. apply NoDup_cons in Hnd as [Hw Hnd].
  apply elem_of_cons in Hin as [<-|Hin]; [|by apply IH].
  assert (∀ us m', us_session_id u ∉ us_session_id <$> us →
            user_names us m' !! us_session_id u = m' !! us_session_id u) as Hother.
  { clear. intros us. induction us as [|w us IH]; intros m' Hn; [done|]. simpl in *.
    apply not_elem_of_cons in Hn as [Hne Hn]. rewrite IH by done. by rewrite lookup_insert_ne. }
  change (user_names users (<[us_session_id u := us_name u]> m) !! us_session_id u
          = Some (us_name u)).
  by rewrite Hother, lookup_insert_eq.
Qed.

Lemma dom_index_by users :
  dom (index_by us_session_id users) = list_to_set (C:=gset Z) (us_session_id <$> users).
Proof.
  unfold index_by. rewrite dom_list_to_map_L. f_equal. by rewrite <- list_fmap_compose.
Qed.

Lemma filter_not_own own (ids : list Z) :
  list_to_set (C:=gset Z) (List.filter (λ id, negb (id =? own)) ids) = list_to_set ids ∖ {[own]}.
Proof.
  apply set_eq. intros x.
  rewrite elem_of_difference, !elem_of_list_to_set, elem_of_singleton, !list_elem_of_In,
    List.filter_In, negb_true_iff, Z.eqb_neq. done.
Qed.

Lemma event_follows s m e env v s' m' ef c :
  event_wf e → se_closed s = false → follows v s m →
  process_mumble_event s m (Some e) (ev_cfg env) (ev_now env) (ev_add_track env)
    (ev_remove_track env) = (s', m', ef, c) →
  se_closed s' = false ∧ follows (apply_event v e) s' m'.
Proof.
  intros Hwf Hcl Hf Hp. destruct e as [own chs us|u|id|d|ch|ch|id|snd ch msg|r]; simpl in Hp.
  - rewrite Hcl in Hp. simplify_eq. split; [done|]. exists own. split; [done|]. split.
    + simpl. by rewrite dom_index_by, filter_not_own.
    + simpl. by apply user_names_lookup.
  - assert (Hs : se_session_id s' = se_session_id s ∧ se_closed s' = se_closed s ∧
      m' = <[us_session_id u := us_name u]> m ∧
      se_known_speakers s' = if bool_decide (se_session_id s = Some (us_session_id u))
        then se_known_speakers s else {[us_session_id u]} ∪ se_known_speakers s).
    { destruct (bool_decide _); [by simplify_eq|].
      destruct (ws_started _); [destruct (SpeakerTracks_add _ _ _)|]; by simplify_eq. }
    destruct Hs as (H1 & H2 & -> & H4). split; [congruence|].
    destruct v as [v|]; [|done]. destruct Hf as (own & Ho & Hk & Hn). exists own. simpl.
    split_and!; [congruence|..].
    + rewrite H4, Hk, dom_insert_L, Ho. destruct (decide (own = us_session_id u)) as [->|Hne].
      * rewrite bool_decide_eq_true_2 by done. set_solver.
      * rewrite bool_decide_eq_false_2 by congruence. set_solver.
    + intros k w. rewrite !lookup_insert_Some. intros [[<- <-]|[Hne Hw]]; [by left|]. right. auto.
  - destruct (SpeakerTracks_remove _ _ _). simplify_eq. split; [done|].
    destruct v as [v|]; [|done]. destruct Hf as (own & Ho & Hk & Hn). exists own. simpl.
    split_and!; [done|..].
    + rewrite Hk, dom_delete_L. set_solver.
    + intros k w. rewrite !lookup_delete_Some. naive_solver.
  - simplify_eq. split; [done|]. destruct v as [v|]; [|done].
    destruct Hf as (own & Ho & Hk & Hn). exists own. simpl. split_and!; [done|..].
    + by rewrite dom_alter_L.
    + intros k w. rewrite lookup_alter_Some. intros [(-> & u & Hu & ->)|[Hne Hw]]; simpl.
      * destruct (ud_name d); simpl; [by rewrite lookup_insert_eq|by apply Hn].
      * destruct (ud_name d); simpl; [rewrite lookup_insert_ne by done|]; by apply Hn.
  - simplify_eq. split; [done|]. by destruct v.
  - simplify_eq. split; [done|]. by destruct v.
  - simplify_eq. split; [done|]. by destruct v.
  - simplify_eq. split; [done|]. by destruct v.
  - simplify_eq. split; [done|]. by destruct v.
Qed.

Lemma events_follow es : ∀ s m v s' m' ef,
  Forall (λ e, event_wf e.1) es → se_closed s = false → follows v s m →
  mumble_events s m es = (s', m', ef, Continue) →
  follows (foldl apply_event v es.*1) s' m'.
Proof.
  induction es as [|[e env] es IH]; intros s m v s' m' ef Hwf Hcl Hf Hrun;
    cbn [mumble_events] in Hrun.
  { by simplify_eq. }
  apply Forall_cons in Hwf as [Hwe Hwf]. simpl in Hwe.
  pose proof (event_follows s m e env v) as Hstep.
  destruct (process_mumble_event _ _ _ _ _ _ _) as [[[s1 m1] ef1] [|t]] eqn:Hp; [|congruence].
  destruct (mumble_events s1 m1 es) as [[[s2 m2] ef2] c] eqn:Hr. simplify_eq.
  destruct (Hstep _ _ _ _ Hwe Hcl Hf eq_refl) as [Hcl1 Hf1]. by eapply IH.
Qed.

(** ** Tracks follow the speakers *)

(** Once voice has started, exactly the known speakers have a track; before that, at most
    they do (an attempt to start may have failed half-way). *)
Definition tracks_match (s : UserSession) : Prop :=
  if ws_started (se_webrtc s) then dom (se_speakers s) = se_known_speakers s
  else dom (se_speakers s) ⊆ se_known_speakers s.

Lemma add_speakers_dom add_track ids : ∀ sp sp' r,
  add_speakers add_track sp ids = (sp', r) →
  dom sp' ⊆ dom sp ∪ list_to_set (C:=gset Z) ids ∧
  (r = Ok tt → dom sp' = dom sp ∪ list_to_set (C:=gset Z) ids).
Proof.
  induction ids as [|id ids IH]; intros sp sp' r Hadd; simpl in *; [simplify_eq; set_solver|].
  unfold SpeakerTracks_add in Hadd. destruct (sp !! id) as [x|] eqn:Hid.
  - apply IH in Hadd as [H1 H2]. apply (elem_of_dom_2 (D:=gset Z)) in Hid.
    split; [set_solver|]. intros Hr. rewrite H2 by done. set_solver.
  - destruct (add_track _) as [sender|e]; [|injection Hadd as <- <-; split; [set_solver|done]].
    apply IH in Hadd as [H1 H2]. rewrite dom_insert_L in H1, H2. split; [set_solver|].
    intros Hr. rewrite H2 by done. set_solver.
Qed.

Lemma set_iter_all (X : gset Z) : list_to_set (C:=gset Z) (set_iter X) = X.
Proof.
  apply set_eq. intros x. by rewrite elem_of_list_to_set, set_iter_perm, elem_of_elements.
Qed.

(** The steps of a session after login: the voice requests and the roster events. *)
Inductive voice_op :=
| VoStart (restart : bool) (add_track : Track → result Sender)
| VoEvent (e : MumbleEvent) (env : event_env).

Definition voice_op_step (s : UserSession) (m : gmap Z string) (op : voice_op)
    : UserSession * gmap Z string * list effect :=
  match op with
  | VoStart restart add_track =>
      let '(s', ef, _) := session_start_voice s restart add_track in (s', m, ef)
  | VoEvent e env =>
      let '(s', m', ef, _) := process_mumble_event s m (Some e) (ev_cfg env) (ev_now env)
                                (ev_add_track env) (ev_remove_track env) in (s', m', ef)
  end.

Fixpoint voice_ops_run (s : UserSession) (m : gmap Z string) (ops : list voice_op)
    : UserSession * gmap Z string * list effect :=
  match ops with
  | [] => (s, m, [])
  | op :: ops =>
      let '(s1, m1, ef1) := voice_op_step s m op in
      let '(s2, m2, ef2) := voice_ops_run s1 m1 ops in (s2, m2, ef1 ++ ef2)
  end.

Definition is_login (op : voice_op) : bool :=
  match op with VoEvent (MeConnected _ _ _) _ => true | _ => false end.

Definition mentions_voice_error (ef : list effect) : Prop :=
  ∃ e, EfSend (ServerMessage_error "voice_error" e) ∈ ef.

Lemma WebrtcSession_offer_started (w : WebrtcSession P) restart :
  ws_started (WebrtcSession_offer w restart).1 = ws_started w.
Proof.
  unfold WebrtcSession_offer. destruct (ws_started w) eqn:Hs; [|done]. simpl.
  destruct (bool_decide _); [|done]. simpl.
  destruct (create_offer _ _) as [p1 [sdp|e]]; [|done]. by destruct (set_local_offer p1 sdp).
Qed.

Lemma start_voice_tracks s restart add_track s' ef r :
  session_start_voice s restart add_track = (s', ef, r) → tracks_match s →
  tracks_match s' ∧ (r = Ok tt → ws_started (se_webrtc s') = true).
Proof.
  unfold session_start_voice, tracks_match. intros Hst Hm.
  destruct (se_session_id s) as [own|]; [|by injection Hst as <- <- <-].
  destruct (ws_started (se_webrtc s)) eqn:Hs.
  - pose proof (WebrtcSession_offer_started (se_webrtc s) restart) as Ho.
    destruct (WebrtcSession_offer _ _) as [w r1]. simpl in Ho.
    destruct (offer_effects r1) as [ef1 r2]. injection Hst as <- <- <-. simpl. by rewrite Ho, Hs.
  - destruct (add_speakers _ _ _) as [sp r1] eqn:Ha. apply add_speakers_dom in Ha as [Ha Ha'].
    rewrite set_iter_all in Ha, Ha'.
    destruct r1 as [[]|e]; [|injection Hst as <- <- <-; simpl; rewrite Hs; split; [set_solver|done]].
    pose proof (WebrtcSession_offer_started (WebrtcSession_start (se_webrtc s)) restart) as Ho.
    simpl in Hst, Ho. destruct (WebrtcSession_offer _ _) as [w r1]. simpl in Ho.
    destruct (offer_effects r1) as [ef1 r2]. injection Hst as <- <- <-. simpl.
    rewrite Ho, Ha' by done. split; [set_solver|done].
Qed.

Lemma event_tracks s m e env s' m' ef c :
  process_mumble_event s m (Some e) (ev_cfg env) (ev_now env) (ev_add_track env)
    (ev_remove_track env) = (s', m', ef, c) →
  is_login (VoEvent e env) = false → tracks_match s → ¬ mentions_voice_error ef →
  tracks_match s'.
Proof.
  intros Hp Hl Hm Hne. unfold tracks_match in *.
  destruct e as [own chs us|u|id|d|ch|ch|id|snd ch msg|r]; simpl in Hp, Hl; try by simplify_eq.
  - destruct (bool_decide _); [by simplify_eq|].
    destruct (ws_started (se_webrtc s)) eqn:Hs; [|simplify_eq; simpl; rewrite Hs; set_solver].
    unfold SpeakerTracks_add in Hp. destruct (se_speakers s !! us_session_id u) as [x|] eqn:Hid.
    + simplify_eq. simpl. rewrite Hs, <- Hm. apply (elem_of_dom_2 (D:=gset Z)) in Hid. set_solver.
    + destruct (ev_add_track env _) as [sender|err]; simplify_eq.
      * simpl. by rewrite Hs, dom_insert_L, Hm.
      * exfalso. apply Hne. exists err. left.
  - unfold SpeakerTracks_remove in Hp. destruct (se_speakers s !! id) as [x|] eqn:Hid; simplify_eq; simpl.
    + rewrite dom_delete_L. destruct (ws_started _); [by rewrite Hm|set_solver].
    + apply not_elem_of_dom in Hid. destruct (ws_started _); set_solver.
Qed.

Lemma voice_ops_tracks ops : ∀ s m s' m' ef,
  voice_ops_run s m ops = (s', m', ef) → Forall (λ op, is_login op = false) ops →
  tracks_match s → ¬ mentions_voice_error ef → tracks_match s'.
Proof.
  induction ops as [|op ops IH]; intros s m s' m' ef Hrun Hl Hm Hne;
    cbn [voice_ops_run] in Hrun; [by simplify_eq|].
  apply Forall_cons in Hl as [Hop Hl].
  destruct (voice_op_step s m op) as [[s1 m1] ef1] eqn:Hs.
  destruct (voice_ops_run s1 m1 ops) as [[s2 m2] ef2] eqn:Hr. injection Hrun as <- <- <-.
  eapply IH; [exact Hr|done| |intros [e He]; apply Hne; exists e; apply elem_of_app; by right].
  destruct op as [restart add_track|e env]; cbn [voice_op_step] in Hs.
  - destruct (session_start_voice s restart add_track) as [[s3 ef3] r] eqn:Hst.
    injection Hs as <- <- <-. by eapply start_voice_tracks.
  - destruct (process_mumble_event _ _ _ _ _ _ _) as [[[s3 m3] ef3] c] eqn:Hp.
    injection Hs as <- <- <-. eapply event_tracks; [exact Hp|done|done|].
    intros [e' He]. apply Hne. exists e'. apply elem_of_app. by left.
Qed.
End Session.
Arguments UserSession P Sender : clear implicits.

Section SessionTheorems.
Context {P Sender : Type} `{PeerConnection P} `{!SetIter Z}.

(** Teardown happens once and gives the slot back last. Shutting a session down while it
    holds its slot closes it for good, stops the event loop, the voice setup, the bridge
    and the voice socket, and after all of that releases the slot, exactly once; shutting
    it down again does nothing. *)
Theorem shutdown_once (s : UserSession P Sender) :
  let '(s', ef) := shutdown_user_session s in
  se_slot s' = false ∧ shutdown_user_session s' = (s', []) ∧
  if se_slot s then
    se_closed s' = true ∧ se_close_notify s' = true ∧ se_voice_setup_task s' = false ∧
    se_bridge s' = false ∧ se_mumble_voice s' = None ∧
    ∃ pre, ef = [EfCommand McDisconnect] ++ pre ++ [EfReleaseSlot] ∧ (EfReleaseSlot ∉ pre) ∧
      (se_bridge s = true → EfBridgeShutdown ∈ pre) ∧
      (∀ v, se_mumble_voice s = Some v → EfVoiceShutdown (vo_task v) ∈ pre) ∧
      (se_voice_setup_task s = true → EfAbortVoiceSetup ∈ pre) ∧ EfPeerClose ∈ pre
  else s' = s ∧ ef = [].
Proof.
  unfold shutdown_user_session. destruct (se_slot s) eqn:Hs; simpl; [|by rewrite Hs].
  split_and!; [done..|].
  exists ((if se_voice_setup_task s then [EfAbortVoiceSetup] else [])
     ++ (if se_bridge s then [EfBridgeShutdown] else [])
     ++ (match se_mumble_voice s with
         | Some v => [EfVoiceShutdown (MumbleVoice_shutdown v).2] | None => [] end)
     ++ [EfPeerClose]).
  split; [by rewrite <- !app_assoc|].
  destruct (se_voice_setup_task s), (se_bridge s), (se_mumble_voice s); simpl;
    split_and!; intros; simplify_eq; set_solver.
Qed.

(** C40: everyone in the channel can be heard. After login, through any sequence of voice
    requests (repeated, failing half-way, restarting) and roster events in any order, as
    long as no voice error was reported for an event: once voice has started, exactly the
    known speakers have a track, and a [start_voice] that succeeds does start it. *)
Theorem tracks_follow_speakers (s : UserSession P Sender) m ops s' m' ef restart add_track :
  se_speakers s = ∅ → ws_started (se_webrtc s) = false →
  Forall (λ op, is_login op = false) ops →
  voice_ops_run s m ops = (s', m', ef) → ¬ mentions_voice_error ef →
  (ws_started (se_webrtc s') = true → dom (se_speakers s') = se_known_speakers s') ∧
  let '(s'', _, r) := session_start_voice s' restart add_track in
  r = Ok tt → dom (se_speakers s'') = se_known_speakers s''.
Proof.
  intros Hsp Hst Hl Hrun Hne.
  assert (Hm : tracks_match s) by (unfold tracks_match; rewrite Hst, Hsp; set_solver).
  pose proof (voice_ops_tracks ops s m s' m' ef Hrun Hl Hm Hne) as Hm'. split.
  - intros Hs. unfold tracks_match in Hm'. by rewrite Hs in Hm'.
  - destruct (session_start_voice s' restart add_track) as [[s'' ef'] r] eqn:Hv.
    apply start_voice_tracks in Hv as [Hm'' Hs]; [|done]. intros Hr. unfold tracks_match in Hm''.
    by rewrite (Hs Hr) in Hm''.
Qed.

(** ** The client's events and the session together *)

Variable CryptState : Type.
Variable new_from : list Z → list Z → list Z → CryptState.
Variables KEY_SIZE BLOCK_SIZE : Z.
Context `{!MapValues Z ChannelInfo} `{!MapValues Z UserInfo}.
Let run := client_run CryptState new_from KEY_SIZE BLOCK_SIZE.

Lemma roster_snapshot_nodup (st : ClientState CryptState) :
  roster_wf CryptState st → NoDup (us_session_id <$> values (hc_users CryptState st)).
Proof.
  intros [_ Hu]. rewrite values_perm, <- list_fmap_compose.
  assert ((us_session_id ∘ snd) <$> map_to_list (hc_users CryptState st)
          = (map_to_list (hc_users CryptState st)).*1) as ->.
  { apply list_fmap_ext. intros i [k u] Hi. simpl.
    by apply Hu, elem_of_map_to_list, list_elem_of_lookup_2 with i. }
  apply NoDup_fst_map_to_list.
Qed.

Lemma client_step_events_wf t i :
  roster_wf CryptState (ct_state CryptState t) →
  Forall event_wf (co_events CryptState (client_step CryptState new_from KEY_SIZE BLOCK_SIZE t i).2).
Proof.
  intros Hwf. destruct i as [p|e| |cmd ok|now ok]; simpl; try (by repeat constructor).
  - destruct p as [msg|c|msg|u|msg|i|msg|msg|]; simpl; repeat case_match; simpl;
      try (by repeat constructor); constructor; try constructor; by apply roster_snapshot_nodup.
  - case_match; simpl; constructor.
Qed.

Lemma client_run_events_wf ins : ∀ t,
  roster_wf CryptState (ct_state CryptState t) →
  Forall event_wf (co_events CryptState (run t ins).2).
Proof.
  induction ins as [|i ins IH]; intros t Hwf; [constructor|]. unfold run in *. simpl.
  destruct (ct_running CryptState t); [|constructor].
  pose proof (client_step_events_wf t i Hwf) as He.
  pose proof (client_step_wf CryptState new_from KEY_SIZE BLOCK_SIZE t i Hwf) as Hwf1.
  destruct (client_step _ _ _ _ t i) as [t1 o1]. specialize (IH t1 Hwf1).
  destruct (client_run _ _ _ _ t1 ins) as [t2 o2]. simpl in *. by apply Forall_app.
Qed.

(** The session agrees with the Mumble connection. Let any sequence of packets,
    commands and failures drive the connection task from login on, and let the session
    process the events it emitted. Once logged in, the session's speakers are exactly the
    users the connection has cached, without the user itself, its name table has each
    user's current name, and a chat message is attributed to that name. *)
Theorem session_follows_roster ins es (s s' : UserSession P Sender) m' ef :
  let '(t, o) := run (client_start CryptState) ins in
  es.*1 = co_events CryptState o →
  se_closed s = false → hc_connected CryptState (ct_state CryptState t) = true →
  mumble_events s ∅ es = (s', m', ef, Continue) →
  let users := hc_users CryptState (ct_state CryptState t) in
  ∃ own, se_session_id s' = Some own ∧
    se_known_speakers s' = dom users ∖ {[own]} ∧
    ∀ k u ch msg env, users !! k = Some u →
      process_mumble_event s' m' (Some (MeChatMessage k ch msg)) (ev_cfg env) (ev_now env)
        (ev_add_track env) (ev_remove_track env)
      = (s', m', [EfSend (SmChatReceived (mkChatReceivedData k (us_name u) ch msg (ev_now env)))],
         Continue).
Proof.
  pose proof (client_run_view CryptState new_from KEY_SIZE BLOCK_SIZE (client_start CryptState) ins
    (ClientState_init_wf CryptState)) as [_ Hv].
  pose proof (client_run_events_wf ins (client_start CryptState) (ClientState_init_wf CryptState)) as Hwf.
  unfold run in *. destruct (client_run _ _ _ _ _ ins) as [t o]. simpl in Hv, Hwf.
  intros Hes Hcl Hcon Hrun.
  assert (Forall (λ e : MumbleEvent * event_env (Sender:=Sender), event_wf e.1) es) as Hes'
    by (rewrite <- Hes in Hwf; exact (proj1 (Forall_fmap _ _ _) Hwf)).
  pose proof (events_follow es s ∅ None s' m' ef Hes' Hcl I Hrun) as Hf.
  rewrite Hes in Hf. unfold view_of in Hv. simpl in Hv. rewrite Hv, Hcon in Hf.
  destruct Hf as (own & Ho & Hk & Hn). exists own. simpl in *. split_and!; [done..|].
  intros k u ch msg env Hu. by rewrite (Hn k u Hu).
Qed.
End SessionTheorems.

(** ** Concrete runs *)

Definition test_env : event_env (Sender := unit) :=
  mkEventEnv (mkIceConfig [] None) 0 (λ _, Ok tt) (λ _, Ok tt).

Definition test_session : UserSession TestPeer unit := UserSession_new TestPeer_new "me".

Definition test_user (id : Z) (name : string) : UserInfo :=
  mkUserInfo id name 0 false false false false.

Definition test_inputs : list client_input :=
  [InPacket (UserState (mkUserState (Some 5) (Some "bob") None None None None None));
   InPacket (UserState (mkUserState (Some 7) (Some "me") None None None None None));
   InPacket (ServerSync (Some 7))].

(** The two users are logged in; the other one is the speaker. *)
Lemma session_follows_roster_witness :
  ∃ own, se_session_id (set_connected test_session 7 {[5]}) = Some own ∧
    se_known_speakers (set_connected test_session 7 {[5]})
    = dom (<[5 := test_user 5 "bob"]> {[7 := test_user 7 "me"]} : gmap Z UserInfo) ∖ {[own]}.
Proof.
  destruct (session_follows_roster unit (λ _ _ _, tt) 16 16 test_inputs
    [(MeConnected 7 [] [test_user 7 "me"; test_user 5 "bob"], test_env)]
    test_session (set_connected test_session 7 {[5]})
    (<[5 := "bob"]> {[7 := "me"]})
    [EfSend (SmConnected (mkConnectedData 2 (mkIceConfig [] None) 7 []
       [test_user 7 "me"; test_user 5 "bob"]))]) as (own & H1 & H2 & _).
  - vm_compute. reflexivity.
  - reflexivity.
  - reflexivity.
  - vm_compute. reflexivity.
  - exists own. exact (conj H1 H2).
Defined.

(** Voice starts with one known speaker, another one joins, the first one leaves. *)
Lemma tracks_follow_speakers_witness :
  let s := set_connected test_session 7 {[5]} in
  let ops := [VoStart false (λ _, Ok tt); VoEvent (MeUserJoined (test_user 9 "eve")) test_env;
              VoEvent (MeUserLeft 5) test_env] in
  dom (se_speakers (voice_ops_run s ∅ ops).1.1) = {[9]}.
Proof.
  intros s ops.
  destruct (voice_ops_run s ∅ ops) as [[s' m'] ef] eqn:Hrun.
  assert (Hst : ws_started (se_webrtc s') = true ∧ se_known_speakers s' = {[9]} ∧
    ef = [EfSend (SmOffer "offer"); EfSend (SmUserJoined (test_user 9 "eve")); EfSend (SmUserLeft 5)]).
  { vm_compute in Hrun. injection Hrun as <- <- <-. split_and!; reflexivity. }
  destruct Hst as (Hst & Hk & Hef).
  destruct (tracks_follow_speakers s ∅ ops s' m' ef false (λ _, Ok tt)) as [Hd _].
  - reflexivity.
  - reflexivity.
  - repeat constructor.
  - exact Hrun.
  - rewrite Hef. intros [e He]. repeat (apply elem_of_cons in He as [He|He]; [discriminate He|]).
    by apply elem_of_nil in He.
  - simpl. rewrite (Hd Hst). exact Hk.
Defined.
