(* ===== verification/Await.v ===== *)
(** * Requests cut off half-way ([start_voice], [handle_answer] and [add_ice_candidate] in
      [src/src/session.rs], and what they call in [src/src/webrtc/mod.rs])

    The handler gives a request of the browser fifteen seconds and then drops its future,
    which stops at the [await] it is waiting in. [Session] and [Negotiation] have these
    operations as functions from the state before to the state after. Here they are written
    await by await, in the order of the code, in a monad that records the state a future
    leaves behind when it is dropped at each of its awaits; run to the end they are those
    functions. A library call dropped half-way leaves the peer connection in a state of the
    library's choice, which is an argument. *)

From Stdlib Require Import ZArith Lia.
From stdpp Require Import base tactics list gmap strings option sets fin_sets fin_maps.
From S2P Require Import Prelude Messages Speakers Negotiation Session.
Local Open Scope Z_scope.

(** ** Futures over a state *)

Section Async.
Context {P W : Type}.

(** Where the future can be dropped, given what the library has done to the peer connection;
    the state at the end; the output. *)
Definition async (A : Type) : Type := W → list (P → W) * W * A.

Definition drops {A} (f : async A) (s : W) : list (P → W) := (f s).1.1.
Definition block_on {A} (f : async A) (s : W) : W * A := ((f s).1.2, (f s).2).

Definition ready {A} (a : A) : async A := λ s, ([], s, a).
Definition state : async W := λ s, ([], s, s).
Definition update (g : W → W) : async unit := λ s, ([], g s, tt).

Definition seq_async {A B} (f : async A) (k : A → async B) : async B := λ s,
  let '(d1, s1, a) := f s in let '(d2, s2, b) := k a s1 in (d1 ++ d2, s2, b).

(** [f().await?]: the rest runs on success. *)
Definition try_async {A B} (f : async (result A)) (k : A → async (result B)) : async (result B) :=
  seq_async f (λ r, match r with Ok a => k a | Err e => ready (Err e) end).

(** [call().await] on the peer connection; [broken] puts back what is left of it. *)
Definition await {A} (broken : P → W → W) (call : W → W * A) : async A := λ s,
  let '(s', a) := call s in ([λ p, broken p s], s', a).

(** Every state a dropped future leaves, and the one it ends with, are related to the state
    it started from. *)
Definition step_from {A} (R : W → W → Prop) (f : async A) (s : W) : Prop :=
  (∀ d p, d ∈ drops f s → R s (d p)) ∧ R s (block_on f s).1.
Definition step_by {A} (R : W → W → Prop) (f : async A) : Prop := ∀ s, step_from R f s.

Section Rules.
Context (R : W → W → Prop) `{!PreOrder R}.

Lemma step_ready {A} (a : A) : step_by R (ready a).
Proof. intros s. split; [|done]. intros d p Hd. by apply elem_of_nil in Hd. Qed.

Lemma step_state : step_by R state.
Proof. intros s. split; [|done]. intros d p Hd. by apply elem_of_nil in Hd. Qed.

Lemma step_update g : (∀ s, R s (g s)) → step_by R (update g).
Proof. intros Hg s. split; [|apply Hg]. intros d p Hd. by apply elem_of_nil in Hd. Qed.

Lemma step_from_await {A} broken (call : W → W * A) s :
  (∀ p, R s (broken p s)) → R s (call s).1 → step_from R (await broken call) s.
Proof.
  unfold step_from, drops, block_on, await. intros Hb Hc.
  destruct (call s) as [s' a]. split; [|done]. intros d p Hd. apply list_elem_of_singleton in Hd as ->.
  apply Hb.
Qed.

Lemma step_await {A} broken (call : W → W * A) :
  (∀ p s, R s (broken p s)) → (∀ s, R s (call s).1) → step_by R (await broken call).
Proof. intros Hb Hc s. apply step_from_await; auto. Qed.

Lemma step_from_seq {A B} (f : async A) (k : A → async B) s :
  step_from R f s → step_from R (k (block_on f s).2) (block_on f s).1 →
  step_from R (seq_async f k) s.
Proof.
  unfold step_from, drops, block_on, seq_async. intros [Hd Hs] [Hd' Hs'].
  destruct (f s) as [[d1 s1] a]. simpl in *. destruct (k a s1) as [[d2 s2] b]. simpl in *.
  split; [|by etrans]. intros d p [Hin|Hin]%elem_of_app; [by apply Hd|]. etrans; [exact Hs|by apply Hd'].
Qed.

Lemma step_seq {A B} (f : async A) (k : A → async B) :
  step_by R f → (∀ a, step_by R (k a)) → step_by R (seq_async f k).
Proof. intros Hf Hk s. apply step_from_seq; [apply Hf|apply Hk]. Qed.

Lemma step_try {A B} (f : async (result A)) (k : A → async (result B)) :
  step_by R f → (∀ a, step_by R (k a)) → step_by R (try_async f k).
Proof. intros Hf Hk. apply step_seq; [done|]. intros [a|e]; [apply Hk|apply step_ready]. Qed.
End Rules.

Lemma block_on_seq {A B} (f : async A) (k : A → async B) s :
  block_on (seq_async f k) s = let '(s1, a) := block_on f s in block_on (k a) s1.
Proof.
  unfold block_on, seq_async. destruct (f s) as [[d1 s1] a]. simpl.
  by destruct (k a s1) as [[d2 s2] b].
Qed.

Lemma block_on_state {B} (k : W → async B) s : block_on (seq_async state k) s = block_on (k s) s.
Proof. by rewrite block_on_seq. Qed.

Lemma block_on_update {B} g (k : unit → async B) s :
  block_on (seq_async (update g) k) s = block_on (k tt) (g s).
Proof. by rewrite block_on_seq. Qed.

Lemma block_on_await {A} broken (call : W → W * A) s : block_on (await broken call) s = call s.
Proof. unfold block_on, await. by destruct (call s). Qed.
End Async.
Arguments async P W A : clear implicits.

Declare Scope async_scope.
Delimit Scope async_scope with async.
Notation "x ⇐ f ; k" := (seq_async f (λ x, k))
  (at level 20, f at level 100, k at level 200, only parsing) : async_scope.
Notation "x ⇐? f ; k" := (try_async f (λ x, k))
  (at level 20, f at level 100, k at level 200, only parsing) : async_scope.
Local Open Scope async_scope.

(** A future over a part of the state. *)
Definition zoom {P W V A} (get : W → V) (set : W → V → W) (f : async P V A) : async P W A := λ s,
  let '(d, v, a) := f (get s) in ((λ g p, set s (g p)) <$> d, set s v, a).

Lemma step_zoom {P W V A} (RV : V → V → Prop) (R : W → W → Prop) get set (f : async P V A) :
  (∀ s v, RV (get s) v → R s (set s v)) → step_by RV f → step_by R (zoom get set f).
Proof.
  intros Hset Hf s. destruct (Hf (get s)) as [Hd Hv]. unfold step_from, drops, block_on, zoom in *.
  destruct (f (get s)) as [[d v] a]. simpl in *. split; [|by apply Hset].
  intros g p (h & -> & Hh)%list_elem_of_fmap. by apply Hset, Hd.
Qed.

Lemma block_on_zoom {P W V A} get set (f : async P V A) (s : W) :
  block_on (zoom get set f) s = let '(v, a) := block_on f (get s) in (set s v, a).
Proof. unfold block_on, zoom. by destruct (f (get s)) as [[d v] a]. Qed.

(** ** Negotiation *)

Section Requests.
Context {P Sender : Type} `{PeerConnection P} `{!SetIter Z}.

(** A call on the peer connection of a [WebrtcSession]. *)
Definition peer_call {A} (call : P → P * A) : async P (WebrtcSession P) A :=
  await (λ p w, set_peer w p) (λ w, let '(p, a) := call (ws_peer_connection w) in (set_peer w p, a)).

Definition set_flags (needs_offer restart_pending : bool) (w : WebrtcSession P) : WebrtcSession P :=
  mkWebrtcSession (ws_peer_connection w) (ws_started w) needs_offer restart_pending
    (ws_pending_candidates w).

Definition set_pending (cs : list RTCIceCandidateInit) (w : WebrtcSession P) : WebrtcSession P :=
  mkWebrtcSession (ws_peer_connection w) (ws_started w) (ws_needs_offer w) (ws_restart_pending w) cs.

(** [WebrtcSession::offer] *)
Definition offer_async (restart : bool) : async P (WebrtcSession P) (result (option string)) :=
  _ ⇐ update (λ w, set_flags (ws_needs_offer w) (ws_restart_pending w || restart) w);
  w ⇐ state;
  if negb (ws_started w) then ready (Ok None)
  else if negb (bool_decide (signaling_state (ws_peer_connection w) = Stable)) then
    _ ⇐ update (set_flags true (ws_restart_pending w)); ready (Ok None)
  else
    sdp ⇐? peer_call (λ p, create_offer p (ws_restart_pending w));
    _ ⇐ update (set_flags false false);
    _ ⇐? peer_call (λ p, set_local_offer p sdp);
    ready (Ok (Some sdp)).

(** The loop over the drained candidates; a dropped [Drain] empties the buffer. *)
Fixpoint candidates_async (cs : list RTCIceCandidateInit) : async P (WebrtcSession P) (result unit) :=
  match cs with
  | [] => ready (Ok tt)
  | c :: cs => _ ⇐? peer_call (λ p, pc_add_ice_candidate p c); candidates_async cs
  end.

(** [WebrtcSession::answer] *)
Definition answer_async (sdp : string) : async P (WebrtcSession P) (result (option string)) :=
  _ ⇐? peer_call (λ p, set_remote_answer p sdp);
  w ⇐ state;
  _ ⇐ update (set_pending []);
  _ ⇐? candidates_async (ws_pending_candidates w);
  w ⇐ state;
  if ws_needs_offer w then offer_async false else ready (Ok None).

(** [WebrtcSession::add_ice_candidate]; asking for the remote description awaits a lock. *)
Definition candidate_async (c : RTCIceCandidateInit) : async P (WebrtcSession P) (result unit) :=
  remote ⇐ peer_call (λ p, (p, has_remote_description p));
  w ⇐ state;
  if negb remote || bool_decide (signaling_state (ws_peer_connection w) = HaveLocalOffer) then
    if Z.of_nat (length (ws_pending_candidates w)) <? 128 then
      _ ⇐ update (set_pending (ws_pending_candidates w ++ [c])); ready (Ok tt)
    else ready (Err "too many pending ICE candidates")
  else peer_call (λ p, pc_add_ice_candidate p c).

(** Run to the end, the awaits add up to the functions of [Negotiation]. *)
Lemma peer_call_run {A} (call : P → P * A) w :
  block_on (peer_call call) w = let '(p, a) := call (ws_peer_connection w) in (set_peer w p, a).
Proof. apply block_on_await. Qed.

Lemma block_on_try {W A B} (f : async P W (result A)) (k : A → async P W (result B)) s :
  block_on (try_async f k) s =
  match block_on f s with (s1, Ok a) => block_on (k a) s1 | (s1, Err e) => (s1, Err e) end.
Proof. unfold try_async. rewrite block_on_seq. by destruct (block_on f s) as [s1 [a|e]]. Qed.

Lemma offer_async_run restart w :
  block_on (offer_async restart) w = WebrtcSession_offer w restart.
Proof.
  destruct w as [p [] needs pending cs]; [|done].
  unfold offer_async, WebrtcSession_offer. rewrite block_on_update, block_on_state. cbn.
  destruct (bool_decide _); [|done]. cbn.
  rewrite block_on_try, peer_call_run. cbn. destruct (create_offer _ _) as [p1 [sdp|e]]; [|done].
  rewrite block_on_update, block_on_try, peer_call_run. cbn.
  by destruct (set_local_offer p1 sdp) as [p2 [u|e]].
Qed.

Lemma candidates_async_run cs : ∀ w,
  block_on (candidates_async cs) w
  = let '(p, r) := add_candidates (ws_peer_connection w) cs in (set_peer w p, r).
Proof.
  induction cs as [|c cs IH]; intros w; [by destruct w|].
  cbn [candidates_async add_candidates]. rewrite block_on_try, peer_call_run.
  destruct (pc_add_ice_candidate _ c) as [p1 [u|e]]; [|done]. rewrite IH. cbn.
  by destruct (add_candidates p1 cs).
Qed.

Lemma answer_async_run sdp w : block_on (answer_async sdp) w = WebrtcSession_answer w sdp.
Proof.
  destruct w as [p st needs pending cs]. unfold answer_async, WebrtcSession_answer. rewrite block_on_try, peer_call_run.
  destruct (set_remote_answer _ _) as [p1 [u|e]]; [|done].
  rewrite block_on_state, block_on_update, block_on_try, candidates_async_run. cbn.
  destruct (add_candidates p1 _) as [p2 [u'|e]]; [|done]. rewrite block_on_state. cbn.
  destruct needs; [|done]. apply offer_async_run.
Qed.

Lemma candidate_async_run candidate mid idx w :
  block_on (candidate_async (mkCandidateInit candidate mid idx)) w
  = WebrtcSession_add_ice_candidate w candidate mid idx.
Proof.
  destruct w as [p st needs pending cs].
  unfold candidate_async, WebrtcSession_add_ice_candidate, must_buffer.
  rewrite block_on_seq, peer_call_run, block_on_state. cbn.
  destruct (negb _ || _); [|by rewrite peer_call_run]. by destruct (_ <? _).
Qed.

(** ** Requests of the browser *)

(** A call on the session's [WebrtcSession]. *)
Definition on_webrtc {A} (f : async P (WebrtcSession P) A) : async P (UserSession P Sender) A :=
  zoom se_webrtc set_webrtc f.

Definition broken_peer (p : P) (s : UserSession P Sender) : UserSession P Sender :=
  set_webrtc s (set_peer (se_webrtc s) p).

(** The loop over the known speakers in [start_voice]. *)
Fixpoint speakers_async (add_track : Track → result Sender) (ids : list Z)
    : async P (UserSession P Sender) (result unit) :=
  match ids with
  | [] => ready (Ok tt)
  | id :: ids =>
      _ ⇐? await broken_peer (λ s,
             let '(sp, r) := SpeakerTracks_add (se_speakers s) id add_track in (set_speakers s sp, r));
      speakers_async add_track ids
  end.

(** [started = true] and [voice_start.notify_one()] *)
Definition set_started (s : UserSession P Sender) : UserSession P Sender :=
  mkUserSession (WebrtcSession_start (se_webrtc s)) (se_speakers s) (se_mumble_voice s)
    (se_bridge s) (se_username s) (se_session_id s) (se_voice_setup_task s) (se_slot s)
    (se_closed s) (se_close_notify s) true (se_known_speakers s) (se_setup_running s).

(** What the offer of a request leads to: a message to the browser, or an error. *)
Definition send_offer (f : async P (UserSession P Sender) (result (option string)))
    : async P (UserSession P Sender) (list effect * result unit) :=
  r ⇐ f; ready (offer_effects r).

(** [SessionManager::start_voice] under the session's lock *)
Definition start_voice_async (restart : bool) (add_track : Track → result Sender)
    : async P (UserSession P Sender) (list effect * result unit) :=
  s ⇐ state;
  match se_session_id s with
  | None => ready ([], Err "Mumble authentication pending")
  | Some _ =>
      r ⇐ (if ws_started (se_webrtc s) then ready (Ok tt)
           else _ ⇐? speakers_async add_track (set_iter (se_known_speakers s));
                _ ⇐ update set_started; ready (Ok tt));
      match r with
      | Err e => ready ([], Err e)
      | Ok _ => send_offer (on_webrtc (offer_async restart))
      end
  end.

(** A request of the browser that awaits the peer connection. *)
Inductive voice_request :=
| VrStartVoice (restart : bool) (add_track : Track → result Sender)
| VrAnswer (sdp : string)
| VrCandidate (candidate : string) (sdp_mid : option string) (sdp_mline_index : option Z).

Definition request_async (q : voice_request) : async P (UserSession P Sender) (list effect * result unit) :=
  match q with
  | VrStartVoice restart add_track => start_voice_async restart add_track
  | VrAnswer sdp => send_offer (on_webrtc (answer_async sdp))
  | VrCandidate candidate sdp_mid sdp_mline_index =>
      r ⇐ on_webrtc (candidate_async (mkCandidateInit candidate sdp_mid sdp_mline_index));
      ready ([], r)
  end.

(** The same requests as functions of the session. *)
Definition session_request (s : UserSession P Sender) (q : voice_request)
    : UserSession P Sender * list effect * result unit :=
  match q with
  | VrStartVoice restart add_track => session_start_voice s restart add_track
  | VrAnswer sdp => session_handle_answer s sdp
  | VrCandidate candidate sdp_mid sdp_mline_index =>
      let '(s, r) := session_add_ice_candidate s candidate sdp_mid sdp_mline_index in (s, [], r)
  end.

(** The request dropped at its [n]-th await; before the first one it has done nothing, and
    has not even the lock. *)
Definition session_dropped (s : UserSession P Sender) (q : voice_request) (n : nat) (p : P)
    : UserSession P Sender :=
  match drops (request_async q) s !! n with Some left_behind => left_behind p | None => s end.

Lemma send_offer_run f s :
  block_on (send_offer f) s = let '(s', r) := block_on f s in (s', offer_effects r).
Proof. unfold send_offer. by rewrite block_on_seq. Qed.

Lemma speakers_async_run add_track ids : ∀ s,
  block_on (speakers_async add_track ids) s
  = let '(sp, r) := add_speakers add_track (se_speakers s) ids in (set_speakers s sp, r).
Proof.
  induction ids as [|id ids IH]; intros s; [by destruct s|].
  cbn [speakers_async add_speakers]. rewrite block_on_try, block_on_await.
  destruct (SpeakerTracks_add _ _ _) as [sp [u|e]]; [|done]. rewrite IH. cbn.
  by destruct (add_speakers _ sp ids).
Qed.

Lemma start_voice_async_run restart add_track s :
  block_on (start_voice_async restart add_track) s
  = let '(s', ef, r) := session_start_voice s restart add_track in (s', (ef, r)).
Proof.
  unfold start_voice_async, session_start_voice. rewrite block_on_state.
  destruct s as [w sp0 v b un [id|] vt sl cl cn vs known]; [|done]. cbn. rewrite block_on_seq.
  assert (Hoffer : ∀ s1, block_on (send_offer (on_webrtc (offer_async restart))) s1
    = let '(s', ef, r) := (let '(w, r) := WebrtcSession_offer (se_webrtc s1) restart in
        let '(effects, result) := offer_effects r in (set_webrtc s1 w, effects, result)) in (s', (ef, r))).
  { intros s1. rewrite send_offer_run. unfold on_webrtc. rewrite block_on_zoom, offer_async_run.
    destruct (WebrtcSession_offer _ _) as [w' r]. by destruct (offer_effects r). }
  destruct (ws_started w); [apply Hoffer|].
  rewrite block_on_try, speakers_async_run. destruct (add_speakers _ _ _) as [sp [u|e]]; [|done].
  apply Hoffer.
Qed.

Lemma request_async_run q s :
  block_on (request_async q) s = let '(s', ef, r) := session_request s q in (s', (ef, r)).
Proof.
  destruct q as [restart add_track|sdp|c mid idx]; cbn [request_async session_request].
  - apply start_voice_async_run.
  - rewrite send_offer_run. unfold on_webrtc, session_handle_answer.
    rewrite block_on_zoom, answer_async_run. destruct (WebrtcSession_answer _ _) as [w r].
    by destruct (offer_effects r).
  - rewrite block_on_seq. unfold on_webrtc, session_add_ice_candidate.
    rewrite block_on_zoom, candidate_async_run. by destruct (WebrtcSession_add_ice_candidate _ _ _ _).
Qed.

(** ** What a request can do to a session, finished or not *)

(** Negotiation leaves alone whether voice has been started. *)
Definition same_started (w w' : WebrtcSession P) : Prop := ws_started w' = ws_started w.

#[local] Instance same_started_preorder : PreOrder same_started.
Proof. split; [done|]. unfold same_started. congruence. Qed.

Lemma peer_call_started {A} (call : P → P * A) : step_by same_started (peer_call call).
Proof. apply step_await; [done|]. intros w. by destruct (call _). Qed.

(** Walk through a future, each await and each update in turn; known calls are hints. *)
Create HintDb async.
#[local] Hint Resolve peer_call_started : async.

Ltac walk :=
  repeat first
    [ apply step_ready; exact _ | apply step_state; exact _ | solve [auto with async nocore]
    | apply step_try; [exact _| |intros ?] | apply step_seq; [exact _| |intros ?] | apply step_update; intros ?
    | match goal with |- step_by _ (if ?b then _ else _) => destruct b end ].

Lemma offer_started restart : step_by same_started (offer_async restart).
Proof. unfold offer_async. by walk. Qed.

Lemma candidates_started cs : step_by same_started (candidates_async cs).
Proof. induction cs; simpl; by walk. Qed.
#[local] Hint Resolve offer_started candidates_started : async.

Lemma answer_started sdp : step_by same_started (answer_async sdp).
Proof. unfold answer_async. by walk. Qed.

Lemma candidate_started c : step_by same_started (candidate_async c).
Proof. unfold candidate_async. by walk. Qed.
#[local] Hint Resolve answer_started candidate_started : async.

(** What has nothing to do with voice, and what a request of the browser never changes. *)
Definition session_rest (s : UserSession P Sender) :=
  (se_mumble_voice s, se_bridge s, se_username s, se_session_id s, se_voice_setup_task s,
   se_slot s, se_closed s, se_close_notify s, se_known_speakers s, se_setup_running s).

Lemma session_rest_fields (s s' : UserSession P Sender) :
  session_rest s' = session_rest s →
  (se_slot s' = se_slot s ∧ se_closed s' = se_closed s ∧ se_close_notify s' = se_close_notify s) ∧
  (se_bridge s' = se_bridge s ∧ se_mumble_voice s' = se_mumble_voice s ∧
   se_voice_setup_task s' = se_voice_setup_task s ∧ se_setup_running s' = se_setup_running s) ∧
  se_session_id s' = se_session_id s ∧ se_known_speakers s' = se_known_speakers s.
Proof. unfold session_rest. by intros [= -> -> _ -> -> -> -> -> -> ->]. Qed.

(** Between two points of a request tracks only come, for known speakers, and where they
    matched the speakers they still do. *)
Record voice_progress (s s' : UserSession P Sender) : Prop := {
  vp_rest : session_rest s' = session_rest s;
  vp_tracks : se_speakers s ⊆ se_speakers s';
  vp_known : dom (se_speakers s') ⊆ dom (se_speakers s) ∪ se_known_speakers s;
  vp_match : tracks_match s → tracks_match s';
}.

#[local] Instance voice_progress_preorder : PreOrder voice_progress.
Proof.
  split; [intros s; split; [done..|set_solver|done]|].
  intros s1 s2 s3 [A1 A2 A3 A4] [B1 B2 B3 B4].
  pose proof (session_rest_fields _ _ A1) as (_ & _ & _ & Hk).
  split; [congruence|by etrans| |auto]. rewrite Hk in B3. set_solver.
Qed.

(** As long as voice is not being started, that is a matter of the tracks. *)
Lemma unstarted_progress s s' :
  session_rest s' = session_rest s → se_speakers s ⊆ se_speakers s' →
  dom (se_speakers s') ⊆ dom (se_speakers s) ∪ se_known_speakers s →
  ws_started (se_webrtc s') = ws_started (se_webrtc s) → voice_progress s s'.
Proof.
  intros Hr Ht Hk Hs. split; [done..|]. unfold tracks_match. rewrite Hs.
  pose proof (session_rest_fields _ _ Hr) as (_ & _ & _ & ->).
  apply (subseteq_dom (D:=gset Z)) in Ht. clear Hr Hs. destruct (ws_started _); set_solver.
Qed.

Lemma on_webrtc_progress {A} (f : async P (WebrtcSession P) A) :
  step_by same_started f → step_by voice_progress (on_webrtc f).
Proof. apply step_zoom. intros s w Hw. apply unstarted_progress; [done|done|simpl; set_solver|exact Hw]. Qed.

Lemma broken_progress p s : voice_progress s (broken_peer p s).
Proof. apply unstarted_progress; [done..|simpl; set_solver|done]. Qed.

Lemma add_track_progress add_track id s :
  id ∈ se_known_speakers s →
  voice_progress s (set_speakers s (SpeakerTracks_add (se_speakers s) id add_track).1).
Proof.
  intros Hid. unfold SpeakerTracks_add. destruct (se_speakers s !! id) as [x|] eqn:Hx;
    [|destruct (add_track _) as [sender|e]]; apply unstarted_progress; simpl; try done; try set_solver.
  by apply insert_subseteq.
Qed.

Lemma speakers_progress add_track ids : ∀ s,
  (∀ id, id ∈ ids → id ∈ se_known_speakers s) → step_from voice_progress (speakers_async add_track ids) s.
Proof.
  induction ids as [|id ids IH]; intros s Hids; [by apply (step_ready _)|].
  pose proof (add_track_progress add_track id s (Hids id ltac:(by left))) as Hp.
  apply (step_from_seq _).
  - apply step_from_await; [intros p; apply broken_progress|]. by destruct (SpeakerTracks_add _ _ _).
  - rewrite block_on_await. destruct (SpeakerTracks_add _ _ _) as [sp [u|e]]; [|by apply (step_ready _)].
    apply IH. intros id' Hid'. simpl. apply Hids. by right.
Qed.

(** The part of [start_voice] that starts voice. *)
Lemma starting_progress add_track s :
  step_from voice_progress
    (_ ⇐? speakers_async add_track (set_iter (se_known_speakers s));
     _ ⇐ update set_started; ready (Ok tt)) s.
Proof.
  apply (step_from_seq _).
  - apply speakers_progress. intros id. by rewrite set_iter_perm, elem_of_elements.
  - rewrite speakers_async_run. destruct (add_speakers _ _ _) as [sp [[]|e]] eqn:Ha; [|by apply (step_ready _)].
    apply add_speakers_dom in Ha as [_ Hd]. rewrite set_iter_all in Hd. specialize (Hd eq_refl).
    simpl. split; [|split; simpl; [done..|set_solver|]].
    + intros d p Hin. by apply elem_of_nil in Hin.
    + unfold tracks_match. simpl. destruct (ws_started _); set_solver.
Qed.

Lemma request_progress q : step_by voice_progress (request_async q).
Proof.
  destruct q as [restart add_track|sdp|c mid idx]; cbn [request_async].
  - intros s. unfold start_voice_async. apply (step_from_seq _); [by apply (step_state _)|]. simpl.
    destruct (se_session_id s); [|by apply (step_ready _)]. apply (step_from_seq _).
    + destruct (ws_started (se_webrtc s)); [by apply (step_ready _)|apply starting_progress].
    + destruct (block_on _ s) as [s1 [u|e]]; [|by apply (step_ready _)].
      apply (step_seq _); [apply on_webrtc_progress, offer_started|]. intros r. by apply (step_ready _).
  - apply (step_seq _); [apply on_webrtc_progress, answer_started|]. intros r. by apply (step_ready _).
  - apply (step_seq _); [apply on_webrtc_progress, candidate_started|]. intros r. by apply (step_ready _).
Qed.

(** A request, finished or dropped anywhere, moves the session on. *)
Lemma dropped_progress s q n p : voice_progress s (session_dropped s q n p).
Proof.
  unfold session_dropped. destruct (drops _ s !! n) as [d|] eqn:Hd; [|reflexivity].
  apply (request_progress q s). by eapply list_elem_of_lookup_2.
Qed.

Lemma session_request_progress s q : voice_progress s (session_request s q).1.1.
Proof.
  destruct (request_progress q s) as [_ Hp]. rewrite request_async_run in Hp.
  by destruct (session_request s q) as [[s' ef] r].
Qed.

(** C14: a request that is cut off leaves a sound session. Written await by await, a voice
    request of the browser (start or restart voice, an answer, a candidate) ends as the
    operation on the session does. Dropped at any of its awaits, whatever the library call
    it waits in has done to the peer connection, it leaves the login, the slot, the bridge,
    the voice socket and the known speakers as they were, every track in place, no track for
    anybody unknown, and, if voice counts as started, a track for every known speaker. *)
Theorem dropped_request_sound s q n p :
  let '(s', effects, r) := session_request s q in
  block_on (request_async q) s = (s', (effects, r)) ∧
  let d := session_dropped s q n p in
  session_rest d = session_rest s ∧ se_speakers s ⊆ se_speakers d ∧
  (tracks_match s → tracks_match d).
Proof.
  pose proof (request_async_run q s) as Hrun. destruct (session_request s q) as [[s' ef] r].
  destruct (dropped_progress s q n p) as [H1 H2 _ H4]. auto.
Qed.
End Requests.

(** ** A concrete request: voice is started with two others in the channel *)

Definition test_start : voice_request (Sender := unit) := VrStartVoice false (λ _, Ok tt).

Definition test_logged_in : UserSession TestPeer unit := set_connected test_session 7 {[5; 9]}.

(** Two tracks, the offer and its local description are awaited; voice counts as started, and
    the setup is told to start, from the third await on. *)
Example test_start_drops :
  (λ n, let d := session_dropped test_logged_in test_start n TestPeer_new in
        (size (se_speakers d), ws_started (se_webrtc d), se_voice_start d)) <$> seq 0 5
  = [(0, false, false); (1, false, false); (2, true, true); (2, true, true); (0, false, false)]%nat.
Proof. vm_compute. reflexivity. Qed.
