(* ===== verification/Media.v ===== *)
(** * The media API and the peer connection's callbacks ([src/src/webrtc/mod.rs])

    One UDP socket carries the media of every peer connection. It is bound when the server
    starts and kept in a [OnceCell] of the session manager ([initialize_media] in
    [src/src/session.rs]). A peer connection reports to its session through callbacks that
    put events on an unbounded channel. What the libraries return is an argument. *)

From Stdlib Require Import ZArith Lia.
From stdpp Require Import base tactics list gmap strings option.
From S2P Require Import Prelude Messages Net Config Speakers MumbleClient Voice Negotiation Session.
Local Open Scope Z_scope.

(** ** The setting engine *)

Inductive NetworkType := Udp4 | Udp6 | Tcp4 | Tcp6.
Inductive MulticastDnsMode := MdnsDisabled | MdnsQueryOnly | MdnsQueryAndGather.
Inductive CandidateType := CtHost | CtServerReflexive.

(** The settings the code changes, at the values of [SettingEngine::default] before that;
    [st_udp_mux] is the address of the socket behind the multiplexer. *)
Record Settings := mkSettings {
  st_network_types : list NetworkType;
  st_loopback_candidates : bool;
  st_vnet : bool;
  st_mdns : MulticastDnsMode;
  st_udp_mux : option SocketAddr;
  st_nat_1to1 : option (list string * CandidateType)
}.

(** [create_api_with_network]; a virtual network is given by tests only. *)
Definition create_api_with_network (config : WebrtcConfig) (network : bool)
    (register_codecs register_interceptors bind : result unit) : result Settings :=
  _ ← register_codecs;
  _ ← register_interceptors;
  _ ← match bind with Ok _ => Ok tt | Err _ => Err "bind WebRTC UDP media port" end;
  Ok (mkSettings [Udp4]
        (network || match wr_public_ip config with Some ip => is_loopback ip | None => false end)
        network MdnsDisabled
        (Some (SocketV4 UNSPECIFIED (wr_udp_port config)))
        (match wr_public_ip config with Some ip => Some ([ipv4_to_string ip], CtHost) | None => None end)).

Definition create_api (config : WebrtcConfig) (register_codecs register_interceptors bind : result unit)
    : result Settings :=
  create_api_with_network config false register_codecs register_interceptors bind.

(** ** The cell of the session manager *)

(** [MediaApi]: the API and whether its multiplexer is open. *)
Record MediaApi := mkMediaApi { ma_settings : Settings; ma_open : bool }.

Definition MediaApi_close (a : MediaApi) : MediaApi := mkMediaApi (ma_settings a) false.

(** [initialize_media]: [OnceCell::get_or_try_init]; [created] is what [create_api] gives,
    if it is called. The flag says whether it was. *)
Definition initialize_media (cell : option MediaApi) (created : result Settings)
    : option MediaApi * result MediaApi * bool :=
  match cell with
  | Some a => (cell, Ok a, false)
  | None =>
      match created with
      | Ok st => (Some (mkMediaApi st true), Ok (mkMediaApi st true), true)
      | Err e => (None, Err e, true)
      end
  end.

(** Calls of [initialize_media] one after the other: their results, and how many of them
    went on to bind the socket. *)
Fixpoint initialize_all (cell : option MediaApi) (attempts : list (result Settings))
    : option MediaApi * list (result MediaApi) * nat :=
  match attempts with
  | [] => (cell, [], 0%nat)
  | created :: attempts =>
      let '(cell, r, called) := initialize_media cell created in
      let '(cell, rs, n) := initialize_all cell attempts in
      (cell, r :: rs, ((if called then 1 else 0) + n)%nat)
  end.

(** ** Callbacks *)

(** [WebrtcSession::new]: the peer connection, then the transceiver that receives the
    microphone. *)
Definition WebrtcSession_create {P : Type} (new_peer_connection : result P)
    (add_transceiver : result unit) : result (WebrtcSession P) :=
  peer ← new_peer_connection;
  _ ← add_transceiver;
  Ok (WebrtcSession_new peer).

(** What the library calls back with; a candidate may fail to serialize, and the end of
    gathering is [None]. *)
Inductive PeerCallback :=
| CbIceCandidate (candidate : option (result RTCIceCandidateInit))
| CbNegotiationNeeded
| CbStateChange (state : RTCPeerConnectionState).

Definition callback_event (cb : PeerCallback) : option WebrtcEvent :=
  match cb with
  | CbIceCandidate (Some (Ok init)) => Some (WeIceCandidate init)
  | CbIceCandidate _ => None
  | CbNegotiationNeeded => Some WeNegotiationNeeded
  | CbStateChange state => Some (WeConnectionStateChanged state)
  end.

(** ** Properties *)

(** Where ICE may look for the server: only the shared socket, only IPv4, never the name of
    a host; under a public address exactly that one is announced, and loopback candidates
    appear only for a loopback address. *)
Lemma create_api_settings config st r1 r2 bind :
  create_api config r1 r2 bind = Ok st →
  is_ok bind = true ∧ st_network_types st = [Udp4] ∧ st_mdns st = MdnsDisabled ∧
  st_udp_mux st = Some (SocketV4 UNSPECIFIED (wr_udp_port config)) ∧
  (st_loopback_candidates st = true ↔ ∃ ip, wr_public_ip config = Some ip ∧ is_loopback ip = true) ∧
  (∀ ips t, st_nat_1to1 st = Some (ips, t) ↔
     t = CtHost ∧ ∃ ip, wr_public_ip config = Some ip ∧ ips = [ipv4_to_string ip]).
Proof.
  unfold create_api, create_api_with_network. destruct r1, r2, bind; simpl; try done.
  intros [= <-]. simpl. destruct (wr_public_ip config) as [ip|]; naive_solver.
Qed.

Lemma initialize_set a attempts :
  initialize_all (Some a) attempts = (Some a, replicate (length attempts) (Ok a), 0%nat).
Proof. induction attempts as [|c l IH]; [done|]. simpl. by rewrite IH. Qed.

(** The media socket is bound once: as soon as an attempt succeeds every later call returns
    that API without another attempt, and until then every call tries again and returns its
    own error. *)
Theorem media_initialized_once failed st later :
  Forall (λ r : result Settings, is_ok r = false) failed →
  initialize_all None (failed ++ Ok st :: later)
  = (Some (mkMediaApi st true),
     List.map (fmap (M := result) (λ st, mkMediaApi st true)) failed ++
       replicate (1 + length later) (Ok (mkMediaApi st true)),
     (length failed + 1)%nat).
Proof.
  induction 1 as [|[st'|e] l Hr Hl IH]; simpl; [by rewrite initialize_set|done|]. by rewrite IH.
Qed.

Section Forwarding.
Context {P Sender : Type} `{PeerConnection P}.
Variable show_state : RTCPeerConnectionState → string.

(** A callback and the loop's reaction to its event, if it sends one. *)
Definition on_callback (s : UserSession P Sender) (cb : PeerCallback)
    : UserSession P Sender * list effect :=
  match callback_event cb with
  | Some ev => (process_webrtc_event show_state s (Some ev)).1
  | None => (s, [])
  end.

(** The event loop on the callbacks of the peer connection, in the order they are called. *)
Fixpoint callbacks_run (s : UserSession P Sender) (cbs : list PeerCallback)
    : UserSession P Sender * list effect :=
  match cbs with
  | [] => (s, [])
  | cb :: cbs =>
      let '(s1, ef1) := on_callback s cb in
      let '(s2, ef2) := callbacks_run s1 cbs in (s2, ef1 ++ ef2)
  end.

(** The candidates among callbacks and among messages. *)
Definition gathered (cbs : list PeerCallback) : list RTCIceCandidateInit :=
  omap (λ cb, match cb with CbIceCandidate (Some (Ok init)) => Some init | _ => None end) cbs.

Definition candidates_sent (efs : list effect) : list IceCandidateData :=
  omap (λ ef, match ef with EfSend (SmIceCandidate d) => Some d | _ => None end) efs.

Definition candidate_data (c : RTCIceCandidateInit) : IceCandidateData :=
  mkIceCandidateData (ci_candidate c) (ci_sdp_mid c) (ci_sdp_mline_index c).

Lemma gathered_app l1 l2 : gathered (l1 ++ l2) = gathered l1 ++ gathered l2.
Proof. apply omap_app. Qed.

Lemma candidates_sent_app l1 l2 : candidates_sent (l1 ++ l2) = candidates_sent l1 ++ candidates_sent l2.
Proof. apply omap_app. Qed.

Lemma callback_candidates s cb :
  candidates_sent (on_callback s cb).2 = candidate_data <$> gathered [cb].
Proof.
  unfold on_callback. destruct cb as [[[c|e]|]| |st]; simpl; try done.
  - destruct (WebrtcSession_offer _ _) as [w [[o|]|e]]; done.
  - by destruct st.
Qed.

(** The server's candidates reach the browser. Of all the peer connection reports, exactly
    the gathered candidates are sent as [ice_candidate], unchanged and in order; the end of
    gathering is not sent, and offers, negotiation and state changes in between neither
    hold a candidate back nor add one. *)
Theorem local_candidates_reach_browser s cbs :
  candidates_sent (callbacks_run s cbs).2 = candidate_data <$> gathered cbs.
Proof.
  revert s. induction cbs as [|cb cbs IH]; intros s; [done|].
  pose proof (callback_candidates s cb) as Hc. cbn [callbacks_run].
  destruct (on_callback s cb) as [s1 ef1]. specialize (IH s1).
  destruct (callbacks_run s1 cbs) as [s2 ef2]. cbn [snd] in *.
  change (cb :: cbs) with ([cb] ++ cbs).
  by rewrite candidates_sent_app, gathered_app, fmap_app, Hc, IH.
Qed.
End Forwarding.

(** The address and the loopback rule on the addresses of the tests. *)
Example loopback_address : ipv4_to_string LOCALHOST = "127.0.0.1" ∧ is_loopback LOCALHOST = true ∧
  is_loopback (ipv4 203 0 113 5) = false.
Proof. done. Qed.
