(* ===== verification/EventLoop.v ===== *)
(** * The event loop of a session (the [select!] of [process_events] in [src/src/session.rs])

    The loop owns the receivers of the Mumble and WebRTC events and the name table; other
    tasks (requests of the browser, the voice setup, the teardown) work on the session
    between its turns. [select!] is [biased]: the branches are polled in the order they are
    written, so a closed session comes first and Mumble events come before WebRTC events. *)

From Stdlib Require Import ZArith Lia.
From stdpp Require Import base tactics list gmap strings option sets.
From S2P Require Import Prelude Messages Credentials Net Speakers Proto MumbleClient Voice.
From S2P Require Import Negotiation Session Await.
Local Open Scope Z_scope.

Section EventLoop.
Context {P Sender : Type} `{PeerConnection P} `{!SetIter Z}.
Variable show_state : RTCPeerConnectionState → string.

(** The session, the locals of the loop, the contents of the two channels and whether their
    senders and the browser's channel are still there; [lo_ended] is set when the loop has
    broken, with the terminal error. *)
Record Loop := mkLoop {
  lo_session : UserSession P Sender;
  lo_user_map : gmap Z string;
  lo_mumble : list MumbleEvent;
  lo_mumble_open : bool;
  lo_webrtc : list WebrtcEvent;
  lo_webrtc_open : bool;
  lo_ws_open : bool;
  lo_ended : option (option ServerMessage)
}.

Definition loop_start (s : UserSession P Sender) : Loop :=
  mkLoop s ∅ [] true [] true true None.

Inductive Branch :=
| BrClosed
| BrWsClosed
| BrMumble (event : option MumbleEvent)
| BrWebrtc (event : option WebrtcEvent).

(** [recv] on a channel: the first message, [None] when it is empty and closed, pending
    otherwise. *)
Definition channel_recv {A} (queue : list A) (open : bool) : option (option A) :=
  match queue with a :: _ => Some (Some a) | [] => if open then None else Some None end.

(** The branch taken; [None] while all are pending. *)
Definition loop_select (l : Loop) : option Branch :=
  if se_close_notify (lo_session l) then Some BrClosed
  else if negb (lo_ws_open l) then Some BrWsClosed
  else match channel_recv (lo_mumble l) (lo_mumble_open l) with
       | Some e => Some (BrMumble e)
       | None => BrWebrtc <$> channel_recv (lo_webrtc l) (lo_webrtc_open l)
       end.

Definition control_end (c : control) : option (option ServerMessage) :=
  match c with Continue => None | Break terminal => Some terminal end.

(** The body of the loop for the branch taken. *)
Definition loop_branch (l : Loop) (env : event_env) (b : Branch) : Loop * list effect :=
  match b with
  | BrClosed =>
      (mkLoop (take_close_notify (lo_session l)) (lo_user_map l) (lo_mumble l) (lo_mumble_open l)
         (lo_webrtc l) (lo_webrtc_open l) (lo_ws_open l) (Some None), [])
  | BrWsClosed =>
      (mkLoop (lo_session l) (lo_user_map l) (lo_mumble l) (lo_mumble_open l)
         (lo_webrtc l) (lo_webrtc_open l) (lo_ws_open l) (Some None), [])
  | BrMumble e =>
      let '(s, m, ef, c) := process_mumble_event (lo_session l) (lo_user_map l) e (ev_cfg env)
                              (ev_now env) (ev_add_track env) (ev_remove_track env) in
      (mkLoop s m (tail (lo_mumble l)) (lo_mumble_open l) (lo_webrtc l) (lo_webrtc_open l)
         (lo_ws_open l) (control_end c), ef)
  | BrWebrtc e =>
      let '(s, ef, c) := process_webrtc_event show_state (lo_session l) e in
      (mkLoop s (lo_user_map l) (lo_mumble l) (lo_mumble_open l) (tail (lo_webrtc l))
         (lo_webrtc_open l) (lo_ws_open l) (control_end c), ef)
  end.

Definition loop_turn (l : Loop) (env : event_env) : Loop * list effect :=
  match lo_ended l, loop_select l with
  | None, Some b => loop_branch l env b
  | _, _ => (l, [])
  end.

(** ** The other tasks *)

(** What they do to the session between two turns, under its lock. The task of the voice
    setup runs once; after an abort it is gone at its next await, or finishes before. *)
Inductive request :=
| RqVoice (q : voice_request (Sender := Sender))
| RqDropped (q : voice_request (Sender := Sender)) (n : nat) (p : P)
| RqVoiceSetup (crypt : bool) (addr : option SocketAddr) (start : SocketAddr → result MumbleVoice)
| RqSetupCancelled
| RqShutdown.

Definition apply_request (s : UserSession P Sender) (r : request) : UserSession P Sender * list effect :=
  match r with
  | RqVoice q => (session_request s q).1
  | RqDropped q n p => (session_dropped s q n p, [])
  | RqVoiceSetup crypt addr start =>
      if se_setup_running s then voice_setup s crypt addr start else (s, [])
  | RqSetupCancelled => (setup_cancelled s, [])
  | RqShutdown => shutdown_user_session s
  end.

Inductive loop_input :=
| LiMumble (e : MumbleEvent)
| LiMumbleClosed
| LiWebrtc (e : WebrtcEvent)
| LiWebrtcClosed
| LiWsClosed
| LiRequest (r : request)
| LiTurn (env : event_env (Sender := Sender)).

Definition loop_step (l : Loop) (i : loop_input) : Loop * list effect :=
  match i with
  | LiMumble e =>
      (mkLoop (lo_session l) (lo_user_map l)
         (if lo_mumble_open l then lo_mumble l ++ [e] else lo_mumble l) (lo_mumble_open l)
         (lo_webrtc l) (lo_webrtc_open l) (lo_ws_open l) (lo_ended l), [])
  | LiMumbleClosed =>
      (mkLoop (lo_session l) (lo_user_map l) (lo_mumble l) false
         (lo_webrtc l) (lo_webrtc_open l) (lo_ws_open l) (lo_ended l), [])
  | LiWebrtc e =>
      (mkLoop (lo_session l) (lo_user_map l) (lo_mumble l) (lo_mumble_open l)
         (if lo_webrtc_open l then lo_webrtc l ++ [e] else lo_webrtc l) (lo_webrtc_open l)
         (lo_ws_open l) (lo_ended l), [])
  | LiWebrtcClosed =>
      (mkLoop (lo_session l) (lo_user_map l) (lo_mumble l) (lo_mumble_open l)
         (lo_webrtc l) false (lo_ws_open l) (lo_ended l), [])
  | LiWsClosed =>
      (mkLoop (lo_session l) (lo_user_map l) (lo_mumble l) (lo_mumble_open l)
         (lo_webrtc l) (lo_webrtc_open l) false (lo_ended l), [])
  | LiRequest r =>
      let '(s, ef) := apply_request (lo_session l) r in
      (mkLoop s (lo_user_map l) (lo_mumble l) (lo_mumble_open l) (lo_webrtc l)
         (lo_webrtc_open l) (lo_ws_open l) (lo_ended l), ef)
  | LiTurn env => loop_turn l env
  end.

Fixpoint loop_run (l : Loop) (ins : list loop_input) : Loop * list effect :=
  match ins with
  | [] => (l, [])
  | i :: ins =>
      let '(l1, ef1) := loop_step l i in
      let '(l2, ef2) := loop_run l1 ins in (l2, ef1 ++ ef2)
  end.

(** ** The loop and the roster *)

Implicit Types (l : Loop).

(** The Mumble events that enter the channel. *)
Fixpoint accepted (open : bool) (ins : list loop_input) : list MumbleEvent :=
  match ins with
  | [] => []
  | LiMumble e :: ins => if open then e :: accepted open ins else accepted open ins
  | LiMumbleClosed :: ins => accepted false ins
  | _ :: ins => accepted open ins
  end.

(** What the requests of other tasks leave alone. *)
Lemma apply_request_keeps (s : UserSession P Sender) r :
  let s' := (apply_request s r).1 in
  se_session_id s' = se_session_id s ∧ se_known_speakers s' = se_known_speakers s ∧
  (se_closed s = se_close_notify s → se_closed s' = se_close_notify s') ∧
  (se_close_notify s = true → se_close_notify s' = true).
Proof.
  assert (Hrest : ∀ s' : UserSession P Sender, session_rest s' = session_rest s →
    se_session_id s' = se_session_id s ∧ se_known_speakers s' = se_known_speakers s ∧
    (se_closed s = se_close_notify s → se_closed s' = se_close_notify s') ∧
    (se_close_notify s = true → se_close_notify s' = true)).
  { intros s' ((_ & -> & ->) & _ & -> & ->)%session_rest_fields. auto. }
  destruct r as [q|q n p|crypt addr start| |]; simpl.
  - apply Hrest, session_request_progress.
  - apply Hrest, dropped_progress.
  - destruct (se_setup_running s); [|done].
    unfold voice_setup. destruct crypt; [|done]. destruct addr as [a|]; [|done].
    destruct (start a) as [v|]; [|done]. by destruct (MumbleVoice_take_channels v) as [v' []].
  - unfold setup_cancelled. by destruct (se_voice_setup_task s).
  - unfold shutdown_user_session. by destruct (se_slot s).
Qed.

Lemma webrtc_event_keeps (s : UserSession P Sender) e :
  let '(s', ef, c) := process_webrtc_event show_state s e in
  se_session_id s' = se_session_id s ∧ se_known_speakers s' = se_known_speakers s ∧
  se_closed s' = se_closed s ∧ se_close_notify s' = se_close_notify s ∧
  (c = Continue ∨ c = Break None).
Proof.
  destruct e as [[st|c|]|]; simpl; [by auto 6..| |by auto 6].
  destruct (WebrtcSession_offer (se_webrtc s) false). simpl. auto 6.
Qed.

Lemma mumble_event_keeps (s : UserSession P Sender) m e cfg now at_ rt s' m' ef c :
  process_mumble_event s m e cfg now at_ rt = (s', m', ef, c) →
  se_closed s' = se_closed s ∧ se_close_notify s' = se_close_notify s.
Proof.
  destruct e as [[]|]; simpl; try (by intros [= <- <- <- <-]).
  - destruct (se_closed s) eqn:Hc; by intros [= <- <- <- <-].
  - destruct (bool_decide _); [by intros [= <- <- <- <-]|].
    destruct (ws_started _); [destruct (SpeakerTracks_add _ _ _)|]; by intros [= <- <- <- <-].
  - destruct (SpeakerTracks_remove _ _ _). by intros [= <- <- <- <-].
Qed.

Definition disconnected_error (reason : string) : ServerMessage :=
  ServerMessage_error "mumble_disconnected" reason.

(** After the events [seen] have been processed: the session and the name table follow the
    roster they describe, the permit says whether the session is closed, and the loop has a
    terminal error exactly when the last of them reported the end of the connection. *)
Record loop_inv (seen : list MumbleEvent) (l : Loop) : Prop := {
  li_follows : follows (foldl apply_event None seen) (lo_session l) (lo_user_map l);
  li_permit : lo_ended l = None → se_closed (lo_session l) = se_close_notify (lo_session l);
  li_reported : ∀ pre reason, seen = pre ++ [MeDisconnected reason] →
    lo_ended l = Some (Some (disconnected_error reason));
  li_terminal : ∀ err, lo_ended l = Some (Some err) →
    ∃ pre reason, seen = pre ++ [MeDisconnected reason] ∧ err = disconnected_error reason
}.

Lemma follows_ext v (s s' : UserSession P Sender) m :
  follows v s m → se_session_id s' = se_session_id s →
  se_known_speakers s' = se_known_speakers s → follows v s' m.
Proof. intros Hf Hi Hk. unfold follows. rewrite Hi, Hk. exact Hf. Qed.

(** The control a Mumble event gives. *)
Lemma mumble_event_control (s : UserSession P Sender) m e cfg now at_ rt s' m' ef c :
  se_closed s = false →
  process_mumble_event s m (Some e) cfg now at_ rt = (s', m', ef, c) →
  match e with MeDisconnected reason => c = Break (Some (disconnected_error reason)) | _ => c = Continue end.
Proof.
  intros Hc. destruct e; simpl; rewrite ?Hc; try (by intros [= <- <- <- <-]).
  - destruct (bool_decide _); [by intros [= <- <- <- <-]|].
    destruct (ws_started _); [destruct (SpeakerTracks_add _ _ _)|]; by intros [= <- <- <- <-].
  - destruct (SpeakerTracks_remove _ _ _). by intros [= <- <- <- <-].
Qed.

(** A change that processes no Mumble event. *)
Lemma loop_inv_same seen l l' :
  loop_inv seen l → se_session_id (lo_session l') = se_session_id (lo_session l) →
  se_known_speakers (lo_session l') = se_known_speakers (lo_session l) →
  lo_user_map l' = lo_user_map l →
  (lo_ended l' = None → se_closed (lo_session l') = se_close_notify (lo_session l')) →
  lo_ended l' = lo_ended l ∨ lo_ended l = None ∧ (lo_ended l' = None ∨ lo_ended l' = Some None) →
  loop_inv (seen ++ []) l'.
Proof.
  intros [H1 H2 H3 H4] Hi Hk Hm Hp He. rewrite app_nil_r. split; [|done|..].
  - rewrite Hm. by eapply follows_ext.
  - intros pre reason Hs. specialize (H3 pre reason Hs). destruct He as [->|[Hn _]]; congruence.
  - intros err Hl'. destruct He as [He|[_ [He|He]]]; [|congruence..]. apply H4. congruence.
Qed.

Lemma loop_mumble_inv seen l e q env :
  loop_inv seen l → lo_ended l = None → se_close_notify (lo_session l) = false →
  lo_mumble l = e :: q → event_wf e →
  loop_inv (seen ++ [e]) (loop_branch l env (BrMumble (Some e))).1.
Proof.
  intros [H1 H2 H3 H4] Hn Hcn Hq Hwf. pose proof (H2 Hn) as Hcl. rewrite Hcn in Hcl.
  unfold loop_branch. destruct (process_mumble_event _ _ _ _ _ _ _) as [[[s' m'] ef] c] eqn:Hp.
  destruct (event_follows _ _ _ _ _ _ _ _ _ Hwf Hcl H1 Hp) as [Hc' Hf'].
  pose proof (mumble_event_control _ _ _ _ _ _ _ _ _ _ _ Hcl Hp) as Hctl.
  apply mumble_event_keeps in Hp as [_ Hcn']. split; simpl.
  - by rewrite foldl_snoc.
  - intros _. congruence.
  - intros pre reason [_ ->]%app_inj_tail. by rewrite Hctl.
  - intros err Herr. exists seen. destruct e; rewrite Hctl in Herr; simplify_eq/=. eauto.
Qed.

Lemma loop_branch_mumble l env e :
  let l' := (loop_branch l env (BrMumble e)).1 in
  lo_mumble l' = tail (lo_mumble l) ∧ lo_mumble_open l' = lo_mumble_open l.
Proof. unfold loop_branch. by destruct (process_mumble_event _ _ _ _ _ _ _) as [[[s' m'] ef] c]. Qed.

Lemma loop_turn_inv seen l env :
  loop_inv seen l → Forall event_wf (lo_mumble l) →
  let l' := (loop_turn l env).1 in
  lo_mumble_open l' = lo_mumble_open l ∧
  ∃ seen', loop_inv (seen ++ seen') l' ∧ lo_mumble l = seen' ++ lo_mumble l'.
Proof.
  intros Hinv Hwf. unfold loop_turn. destruct (lo_ended l) eqn:Hn.
  { split; [done|]. exists []. by rewrite app_nil_r. }
  unfold loop_select. destruct (se_close_notify (lo_session l)) eqn:Hcn.
  { split; [done|]. exists []. split; [|done]. apply (loop_inv_same seen l); simpl; auto; done. }
  destruct (lo_ws_open l) eqn:Hws; simpl.
  2: { split; [done|]. exists []. split; [|done]. apply (loop_inv_same seen l); simpl; auto; done. }
  destruct (lo_mumble l) as [|e q] eqn:Hq; cbn [channel_recv].
  - destruct (lo_mumble_open l) eqn:Hmo.
    + destruct (channel_recv _ _) as [we|]; simpl.
      * pose proof (webrtc_event_keeps (lo_session l) we) as Hk.
        destruct (process_webrtc_event _ _ _) as [[s' ef] c]. destruct Hk as (Hk1 & Hk2 & Hk3 & Hk4 & Hk5).
        simpl. split; [done|]. exists []. simpl. split; [|by rewrite Hq]. eapply loop_inv_same; simpl; eauto.
        -- intros _. rewrite Hk3, Hk4. by apply Hinv.
        -- right. split; [done|]. destruct Hk5 as [->| ->]; auto.
      * split; [done|]. exists []. by rewrite app_nil_r, Hq.
    + split; [done|]. exists []. simpl. split; [|by rewrite Hq].
      apply (loop_inv_same seen l); simpl; auto; done.
  - apply Forall_cons in Hwf as [Hwe _].
    destruct (loop_branch_mumble l env (Some e)) as [Hm Ho]. split; [done|]. exists [e].
    split; [by eapply loop_mumble_inv|]. rewrite Hm, Hq. done.
Qed.

Lemma loop_run_inv ins : ∀ l seen,
  loop_inv seen l → Forall event_wf (lo_mumble l ++ accepted (lo_mumble_open l) ins) →
  let l' := (loop_run l ins).1 in
  ∃ seen', loop_inv (seen ++ seen') l' ∧
    lo_mumble l ++ accepted (lo_mumble_open l) ins = seen' ++ lo_mumble l'.
Proof.
  induction ins as [|i ins IH]; intros l seen Hinv Hwf; simpl.
  { exists []. by rewrite !app_nil_r. }
  assert (Hgen : ∀ l1 ef, loop_step l i = (l1, ef) → ∃ s1, loop_inv (seen ++ s1) l1 ∧
    lo_mumble l ++ accepted (lo_mumble_open l) (i :: ins) = s1 ++ lo_mumble l1 ++ accepted (lo_mumble_open l1) ins).
  { intros l1 ef Hs. destruct i as [e| |e| | |r|env]; simpl in Hs |- *.
    - injection Hs as <- <-. exists []. split; [eapply loop_inv_same; simpl; eauto; apply Hinv|]. simpl.
      destruct (lo_mumble_open l); [by rewrite <- app_assoc|done].
    - injection Hs as <- <-. exists []. split; [eapply loop_inv_same; simpl; eauto; apply Hinv|done].
    - injection Hs as <- <-. exists []. split; [eapply loop_inv_same; simpl; eauto; apply Hinv|done].
    - injection Hs as <- <-. exists []. split; [eapply loop_inv_same; simpl; eauto; apply Hinv|done].
    - injection Hs as <- <-. exists []. split; [eapply loop_inv_same; simpl; eauto; apply Hinv|done].
    - pose proof (apply_request_keeps (lo_session l) r) as (K1 & K2 & K3 & _).
      destruct (apply_request (lo_session l) r) as [s' ef']. injection Hs as <- <-. exists [].
      split; [eapply loop_inv_same; simpl; eauto|done]. intros Hn. by apply K3, Hinv.
    - apply Forall_app in Hwf as [Hwl _]. destruct (loop_turn_inv seen l env Hinv Hwl) as (Ho & s1 & Hi & Hq).
      rewrite Hs in *. simpl in *. exists s1. split; [done|]. by rewrite Ho, app_assoc, Hq. }
  destruct (loop_step l i) as [l1 ef1]. destruct (Hgen l1 ef1 eq_refl) as (s1 & Hi1 & Hq1).
  change (match i with LiMumble e => _ | _ => _ end) with (accepted (lo_mumble_open l) (i :: ins)).
  rewrite Hq1 in Hwf. apply Forall_app in Hwf as [_ Hwf1].
  destruct (IH l1 (seen ++ s1) Hi1 Hwf1) as (s2 & Hi2 & Hq2).
  destruct (loop_run l1 ins) as [l2 ef2]. simpl in *. exists (s1 ++ s2).
  split; [by rewrite app_assoc|]. by rewrite Hq1, Hq2, app_assoc.
Qed.
End EventLoop.

(** ** Theorems *)

Section LoopTheorems.
Context {P Sender : Type} `{PeerConnection P} `{!SetIter Z}.
Variable show_state : RTCPeerConnectionState → string.
Variable CryptState : Type.
Variable new_from : list Z → list Z → list Z → CryptState.
Variables KEY_SIZE BLOCK_SIZE : Z.
Context `{!MapValues Z ChannelInfo} `{!MapValues Z UserInfo}.
Abbreviation client := (client_run CryptState new_from KEY_SIZE BLOCK_SIZE (client_start CryptState)).
Implicit Types (s : UserSession P Sender) (ins : list (loop_input (P := P) (Sender := Sender))).

(** The loop fed by a connection task, with what it has processed. *)
Lemma loop_of_client cins ins s :
  se_closed s = false → se_close_notify s = false →
  accepted true ins = co_events CryptState (client cins).2 →
  ∃ seen, loop_inv seen (loop_run show_state (loop_start s) ins).1 ∧
    co_events CryptState (client cins).2 = seen ++ lo_mumble (loop_run show_state (loop_start s) ins).1.
Proof.
  intros Hc Hn Ha.
  pose proof (client_run_events_wf CryptState new_from KEY_SIZE BLOCK_SIZE cins (client_start CryptState)
    (ClientState_init_wf CryptState)) as Hwf.
  rewrite <- Ha in Hwf |- *. apply (loop_run_inv show_state ins (loop_start s) []); [|exact Hwf].
  split; simpl; try done.
  - congruence.
  - by intros [|].
Qed.

(** A loop that has caught up with a logged-in connection knows its users. *)
Lemma loop_roster cins ins s t o :
  se_closed s = false → se_close_notify s = false → client cins = (t, o) →
  let l := (loop_run show_state (loop_start s) ins).1 in
  accepted true ins = co_events CryptState o → lo_mumble l = [] →
  hc_connected CryptState (ct_state CryptState t) = true →
  let users := hc_users CryptState (ct_state CryptState t) in
  ∃ own, se_session_id (lo_session l) = Some own ∧
    se_known_speakers (lo_session l) = dom users ∖ {[own]} ∧
    ∀ k u, users !! k = Some u → lo_user_map l !! k = Some (us_name u).
Proof.
  intros Hc Hn Hrun.
  pose proof (client_run_view CryptState new_from KEY_SIZE BLOCK_SIZE (client_start CryptState) cins
    (ClientState_init_wf CryptState)) as [_ Hv].
  pose proof (loop_of_client cins ins s Hc Hn) as Hloop.
  rewrite Hrun in Hv, Hloop. simpl in Hv, Hloop. intros l Ha Hq Hcon.
  destruct (Hloop Ha) as (seen & [Hf _ _ _] & Hseen). fold l in Hf, Hseen. rewrite Hq, app_nil_r in Hseen.
  rewrite <- Hseen in Hf. unfold view_of in Hv. simpl in Hv. rewrite Hv, Hcon in Hf. exact Hf.
Qed.


(** The turn that finds the channel of the Mumble events closed and empty. *)
Lemma closed_channel_turn (l : Loop (P := P) (Sender := Sender)) env :
  lo_ended l = None → lo_mumble l = [] → lo_mumble_open l = false →
  lo_ended (loop_turn show_state l env).1 = Some None.
Proof.
  intros Hn Hq Ho. unfold loop_turn, loop_select. rewrite Hn, Hq, Ho.
  by destruct (se_close_notify _), (lo_ws_open l).
Qed.

(** C30: the loss of the Mumble connection reaches the browser. If the connection task stops
    for any reason other than the session's own command, the loop, once it has caught up,
    has ended with the terminal error [mumble_disconnected] and the reason the task gave,
    whatever else happened in between; a loop ends with a terminal error only for such an
    event, which is then the last one it has processed; and once the channel of the events
    is closed and empty, as it is after a stop on command, the next turn ends a loop that
    is still running, without a terminal error. *)
Theorem mumble_loss_ends_loop cins ins s t o :
  se_closed s = false → se_close_notify s = false →
  client cins = (t, o) → accepted true ins = co_events CryptState o →
  let l := (loop_run show_state (loop_start s) ins).1 in
  (∀ err, lo_ended l = Some (Some err) →
     ∃ pre reason, co_events CryptState o = pre ++ MeDisconnected reason :: lo_mumble l ∧
       err = ServerMessage_error "mumble_disconnected" reason) ∧
  (ct_running CryptState t = false → lo_mumble l = [] →
   ∃ pre i post, cins = pre ++ i :: post ∧ client (pre ++ [i]) = (t, o) ∧
     (commanded i = false → ∃ reason,
        lo_ended l = Some (Some (ServerMessage_error "mumble_disconnected" reason)))) ∧
  (lo_ended l = None → lo_mumble l = [] → lo_mumble_open l = false →
   ∀ env, lo_ended (loop_turn show_state l env).1 = Some None).
Proof.
  intros Hc Hn Hrun Ha l.
  destruct (loop_of_client cins ins s Hc Hn) as (seen & [_ _ Hrep Hterm] & Hseen); [by rewrite Hrun|].
  rewrite Hrun in Hseen. simpl in Hseen. fold l in Hseen, Hrep, Hterm.
  split_and!; [| |intros; by apply closed_channel_turn].
  - intros err (pre & reason & -> & ->)%Hterm. exists pre, reason. split; [|done].
    by rewrite Hseen, <- app_assoc.
  - intros Hstop Hq. rewrite Hq, app_nil_r in Hseen.
    destruct (client_stop_cause CryptState new_from KEY_SIZE BLOCK_SIZE cins (client_start CryptState) t o
      eq_refl Hrun Hstop)
      as (pre & i & post & H1 & H2 & _ & H4).
    exists pre, i, post. split_and!; [done..|]. intros Hcmd. destruct (H4 Hcmd) as [reason Hlast].
    exists reason. apply last_Some in Hlast as [es Hes]. apply (Hrep es). congruence.
Qed.

(** A run of the other tasks, with no turn of the loop. *)
Lemma permit_stays ins : ∀ l : Loop (P := P) (Sender := Sender),
  lo_ended l = None → se_close_notify (lo_session l) = true →
  let l' := (loop_run show_state l ins).1 in
  lo_user_map l' = lo_user_map l ∧ prefix (lo_mumble l) (lo_mumble l') ∧
  prefix (lo_webrtc l) (lo_webrtc l') ∧
  (lo_ended l' = Some None ∨
   lo_ended l' = None ∧ se_close_notify (lo_session l') = true ∧
     Forall (λ i, match i with LiTurn _ => False | _ => True end) ins).
Proof.
  induction ins as [|i ins IH]; intros l Hn Hp; [simpl; auto 8|].
  assert (Hended : ∀ ins l, lo_ended l = Some None →
    let l' := (loop_run show_state l ins).1 in
    lo_ended l' = Some None ∧ lo_user_map l' = lo_user_map l ∧ prefix (lo_mumble l) (lo_mumble l') ∧
    prefix (lo_webrtc l) (lo_webrtc l')).
  { clear. induction ins as [|i ins IH]; intros l He; [done|]. simpl.
    assert (Hs : let l1 := (loop_step show_state l i).1 in
      lo_ended l1 = Some None ∧ lo_user_map l1 = lo_user_map l ∧
      prefix (lo_mumble l) (lo_mumble l1) ∧ prefix (lo_webrtc l) (lo_webrtc l1)).
    { destruct i; simpl; try done.
      - destruct (lo_mumble_open l); split_and!; try done. by eexists.
      - destruct (lo_webrtc_open l); split_and!; try done. by eexists.
      - by destruct (apply_request (lo_session l) r).
      - unfold loop_turn. by rewrite He. }
    destruct (loop_step show_state l i) as [l1 e1]. simpl in Hs. destruct Hs as (H1 & H2 & H3 & H4).
    destruct (IH l1 H1) as (G1 & G2 & G3 & G4). destruct (loop_run show_state l1 ins) as [l2 e2].
    simpl in *. split_and!; [done|congruence|by etrans|by etrans]. }
  assert (Hs : let l1 := (loop_step show_state l i).1 in
    lo_user_map l1 = lo_user_map l ∧ prefix (lo_mumble l) (lo_mumble l1) ∧
    prefix (lo_webrtc l) (lo_webrtc l1) ∧
    (lo_ended l1 = Some None ∨ lo_ended l1 = None ∧ se_close_notify (lo_session l1) = true ∧
       match i with LiTurn _ => False | _ => True end)).
  { destruct i; simpl; auto 8.
    - destruct (lo_mumble_open l); split_and!; auto. by eexists.
    - destruct (lo_webrtc_open l); split_and!; auto. by eexists.
    - pose proof (apply_request_keeps (lo_session l) r) as (_ & _ & _ & Hk).
      destruct (apply_request (lo_session l) r). simpl in *. auto 8.
    - unfold loop_turn, loop_select. rewrite Hn, Hp. simpl. auto. }
  simpl. destruct (loop_step show_state l i) as [l1 e1]. simpl in Hs. destruct Hs as (H1 & H2 & H3 & H4).
  destruct H4 as [H4|(H4 & H5 & H6)].
  - destruct (Hended ins l1 H4) as (G1 & G2 & G3 & G4). destruct (loop_run show_state l1 ins) as [l2 e2].
    simpl in *. split_and!; [congruence|by etrans|by etrans|by left].
  - destruct (IH l1 H4 H5) as (G1 & G2 & G3 & G4). destruct (loop_run show_state l1 ins) as [l2 e2].
    simpl in *. split_and!; [congruence|by etrans|by etrans|].
    destruct G4 as [?|(?&?&?)]; [by left|right]. split_and!; try done. by constructor.
Qed.

(** A closed session's loop stops at its next turn. Once teardown has left its permit,
    the loop processes no further event of either channel, however many are waiting or
    still arrive and whatever other tasks do; its next turn ends it without a terminal
    error, so a session that was disconnected on purpose reports nothing. *)
Theorem closed_session_stops_loop ins env (l : Loop (P := P) (Sender := Sender)) :
  lo_ended l = None → se_close_notify (lo_session l) = true →
  let l' := (loop_run show_state l (ins ++ [LiTurn env])).1 in
  lo_ended l' = Some None ∧ lo_user_map l' = lo_user_map l ∧
  prefix (lo_mumble l) (lo_mumble l') ∧ prefix (lo_webrtc l) (lo_webrtc l').
Proof.
  intros Hn Hp. destruct (permit_stays (ins ++ [LiTurn env]) l Hn Hp) as (H1 & H2 & H3 & H4).
  split_and!; try done. destruct H4 as [?|(_ & _ & Hf)]; [done|].
  apply Forall_app in Hf as [_ Hf]. by inversion Hf.
Qed.
End LoopTheorems.

(** ** Concrete runs *)

Definition test_loop_inputs : list (loop_input (P := TestPeer) (Sender := unit)) :=
  [LiWebrtc WeNegotiationNeeded; LiMumble (MeConnected 7 [] [test_user 7 "me"; test_user 5 "bob"]);
   LiTurn test_env; LiRequest (RqVoice (VrStartVoice false (λ _, Ok tt))); LiTurn test_env].


Lemma mumble_loss_ends_loop_witness :
  let l := (loop_run (λ _, "failed") (loop_start test_session)
    [LiMumble (MeConnected 7 [] []); LiTurn test_env; LiMumble (MeDisconnected "Connection closed");
     LiTurn test_env]).1 in
  let closed := (loop_run (λ _, "failed") (loop_start test_session) [LiMumbleClosed]).1 in
  (∃ reason, lo_ended l = Some (Some (ServerMessage_error "mumble_disconnected" reason))) ∧
  lo_ended (loop_turn (λ _, "failed") closed test_env).1 = Some None.
Proof.
  intros l closed. split.
  2:{ apply (mumble_loss_ends_loop (λ _, "failed") unit (λ _ _ _, tt) 16 16 [] [LiMumbleClosed]
        test_session (client_start unit) (mkClientOutput unit [] [] [])); reflexivity. }
  destruct (mumble_loss_ends_loop (λ _, "failed") unit (λ _ _ _, tt) 16 16
    [InPacket (ServerSync (Some 7)); InStreamEnd; MumbleClient.InPing 1 true]
    [LiMumble (MeConnected 7 [] []); LiTurn test_env; LiMumble (MeDisconnected "Connection closed");
     LiTurn test_env] test_session
    (mkClientTask unit (mkClientState unit None true ∅ ∅ true) false)
    (mkClientOutput unit [MeConnected 7 [] []; MeDisconnected "Connection closed"] [] [])
    eq_refl eq_refl) as (_ & Hend & _); [vm_compute; reflexivity..|].
  destruct (Hend eq_refl eq_refl) as (pre & i & post & Hins & Hrun & Hr). apply Hr.
  destruct pre as [|x [|y [|z pre]]]; simplify_eq/=; try reflexivity.
  by destruct pre.
Defined.

Lemma closed_session_stops_loop_witness :
  let s := (shutdown_user_session test_session).1 in
  let l := mkLoop s ∅ [MeUserLeft 5] true [] true true None in
  lo_ended (loop_run (λ _, "failed") l [LiMumble (MeUserLeft 6); LiTurn test_env]).1 = Some None.
Proof.
  intros s l. exact (proj1 (closed_session_stops_loop (λ _, "failed") [LiMumble (MeUserLeft 6)]
    test_env l eq_refl eq_refl)).
Defined.
