(* ===== verification/Manager.v ===== *)
(** * The session manager ([SessionManager] in [src/src/session.rs])

    The manager maps connection ids to sessions behind a read-write lock, each session
    behind its own mutex, and hands out one slot per session from a semaphore. Several
    tasks use it at once: a WebSocket handler per connection, an event task per session and
    the shutdown code. A step of the model is what one of them does between two lock
    acquisitions; a sequence of steps is an interleaving. An [Arc] is the number of the
    session it points to, so [Arc::ptr_eq] is equality of numbers. *)

From Stdlib Require Import ZArith Lia.
From stdpp Require Import base tactics list gmap strings option sets fin_maps.
From S2P Require Import Prelude Messages Net Speakers Voice MumbleClient Negotiation Semaphore Session Await.
Local Open Scope Z_scope.

Section Manager.
Context {P Sender S : Type} `{PeerConnection P} `{Semaphore S}.

(** Where the event task of a session is: spawned, in its loop, in its loop after the login
    has been recorded and before the ICE configuration is issued, between the two critical
    sections of [finish_session] with its terminal error, before the revocation that ends
    [process_events], or over. *)
Inductive EventTask :=
| TaskSpawned
| TaskRunning
| TaskIssuing
| TaskFinishing (terminal : option ServerMessage)
| TaskRevoking
| TaskDone.

Record Entry := mkEntry {
  en_conn : string;
  en_session : UserSession P Sender;
  en_task : EventTask
}.

Definition with_session (e : Entry) (s : UserSession P Sender) : Entry :=
  mkEntry (en_conn e) s (en_task e).
Definition with_task (e : Entry) (t : EventTask) : Entry :=
  mkEntry (en_conn e) (en_session e) t.

(** [mg_heap] holds every session an [Arc] may still point to; [mg_connecting] the calls of
    [connect_user] that hold a slot; [mg_closing] the sessions [disconnect_user] has taken
    out of the map and not yet shut down. *)
Record Manager := mkManager {
  mg_sessions : gmap string nat;
  mg_heap : gmap nat Entry;
  mg_slots : S;
  mg_connecting : gmap nat string;
  mg_closing : list nat;
  mg_shutdown : bool
}.

Definition SessionManager_new (max_connections : Z) : Manager :=
  mkManager ∅ ∅ (sem_new max_connections) ∅ [] false.

Definition set_heap (m : Manager) (h : gmap nat Entry) : Manager :=
  mkManager (mg_sessions m) h (mg_slots m) (mg_connecting m) (mg_closing m) (mg_shutdown m).
Definition set_slots (m : Manager) (s : S) : Manager :=
  mkManager (mg_sessions m) (mg_heap m) s (mg_connecting m) (mg_closing m) (mg_shutdown m).
Definition set_sessions (m : Manager) (ss : gmap string nat) : Manager :=
  mkManager ss (mg_heap m) (mg_slots m) (mg_connecting m) (mg_closing m) (mg_shutdown m).
Definition set_connecting (m : Manager) (c : gmap nat string) : Manager :=
  mkManager (mg_sessions m) (mg_heap m) (mg_slots m) c (mg_closing m) (mg_shutdown m).
Definition set_closing (m : Manager) (c : list nat) : Manager :=
  mkManager (mg_sessions m) (mg_heap m) (mg_slots m) (mg_connecting m) c (mg_shutdown m).

(** Shutting a session down under its lock; its slot, if it still had one, goes back. *)
Definition close_session (m : Manager) (gen : nat) (e : Entry) (task : EventTask) : Manager :=
  let s := en_session e in
  let m := set_heap m (<[gen := mkEntry (en_conn e) (shutdown_user_session s).1 task]> (mg_heap m)) in
  if se_slot s then set_slots m (release (mg_slots m)) else m.

(** ** [connect_user], in its critical sections *)

(** The tests before the slot: both may be out of date when the slot is taken. *)
Definition connect_check (m : Manager) (conn_id : string) : result unit :=
  if mg_shutdown m then Err "Server is shutting down"
  else match mg_sessions m !! conn_id with
       | Some _ => Err "Already connected"
       | None => Ok tt
       end.

(** [try_acquire_owned]; [tid] names the running call. *)
Definition connect_reserve (m : Manager) (tid : nat) (conn_id : string) : result Manager :=
  match try_acquire (mg_slots m) with
  | Some s => Ok (set_connecting (set_slots m s) (<[tid := conn_id]> (mg_connecting m)))
  | None => Err "Server full"
  end.

(** A failed or cancelled setup drops the permit. *)
Definition connect_abandon (m : Manager) (tid : nat) : Manager :=
  set_slots (set_connecting m (delete tid (mg_connecting m))) (release (mg_slots m)).

(** The insertion under the write lock; [gen] is the new [Arc]. *)
Definition connect_publish (m : Manager) (tid gen : nat) (conn_id : string)
    (s : UserSession P Sender) : Manager * result unit :=
  let m1 := set_connecting m (delete tid (mg_connecting m)) in
  match mg_sessions m !! conn_id with
  | Some _ => (close_session m1 gen (mkEntry conn_id s TaskDone) TaskDone, Err "Already connected")
  | None =>
      (set_heap (set_sessions m1 (<[conn_id := gen]> (mg_sessions m)))
         (<[gen := mkEntry conn_id s TaskSpawned]> (mg_heap m)), Ok tt)
  end.

(** ** Disconnecting and finishing *)

(** [disconnect_user]: out of the map, then shut down under the session's lock. *)
Definition disconnect_remove (m : Manager) (conn_id : string) : Manager :=
  match mg_sessions m !! conn_id with
  | Some gen => set_closing (set_sessions m (delete conn_id (mg_sessions m))) (gen :: mg_closing m)
  | None => m
  end.

Fixpoint remove_one (gen : nat) (l : list nat) : list nat :=
  match l with
  | [] => []
  | g :: l => if Nat.eqb g gen then l else g :: remove_one gen l
  end.

Definition disconnect_shutdown (m : Manager) (gen : nat) (e : Entry) : Manager :=
  set_closing (close_session m gen e (en_task e)) (remove_one gen (mg_closing m)).

(** The second half of [finish_session]: only this generation is removed, and only then is
    the terminal error sent. *)
Definition finish_remove (m : Manager) (gen : nat) (e : Entry) (terminal : option ServerMessage)
    : Manager * list ServerMessage * bool :=
  let m1 := set_heap m (<[gen := with_task e TaskRevoking]> (mg_heap m)) in
  if bool_decide (mg_sessions m !! en_conn e = Some gen)
  then (set_sessions m1 (delete (en_conn e) (mg_sessions m)), option_list terminal, true)
  else (m1, [], false).

(** [begin_shutdown] *)
Definition begin_shutdown (m : Manager) : Manager :=
  mkManager (mg_sessions m) (mg_heap m) (mg_slots m) (mg_connecting m) (mg_closing m) true.

(** ** Steps *)

Definition is_login_event (event : option MumbleEvent) : bool :=
  match event with Some (MeConnected _ _ _) => true | _ => false end.

(** What a task may do to a session under its lock without ending it: requests of the
    browser, finished or cut off, events of the loop other than the login, the voice setup
    while its task is there and the end of that task after an abort, and taking the
    notification that the session is closed. *)
Inductive session_op : UserSession P Sender → UserSession P Sender → Prop :=
| OpRequest `{!SetIter Z} s q : session_op s (session_request s q).1.1
| OpDropped `{!SetIter Z} s q n p : session_op s (session_dropped s q n p)
| OpMumbleEvent s user_map event cfg now add_track remove_track :
    is_login_event event = false →
    session_op s (process_mumble_event s user_map event cfg now add_track remove_track).1.1.1
| OpWebrtcEvent show_state s event :
    session_op s (process_webrtc_event show_state s event).1.1
| OpVoiceSetup s crypt addr start :
    se_setup_running s = true → session_op s (voice_setup s crypt addr start).1
| OpSetupCancelled s : session_op s (setup_cancelled s)
| OpTakeNotify s : session_op s (take_close_notify s).

(** Who steps, and on what; the last part of [finish_session] may send messages to the
    connection it names. *)
Inductive manager_label :=
| LReserve (tid : nat) (conn_id : string)
| LAbandon (tid : nat)
| LPublish (tid gen : nat) (conn_id : string)
| LDisconnectRemove (conn_id : string)
| LDisconnectShutdown (gen : nat)
| LEventStart (gen : nat)
| LSession (gen : nat)
| LConnected (gen : nat)
| LIssued (gen : nat)
| LFinishShutdown (gen : nat)
| LFinishRemove (gen : nat) (conn_id : string) (msgs : list ServerMessage)
| LRevoked (gen : nat)
| LBeginShutdown.

Definition label_messages (l : manager_label) : list (string * ServerMessage) :=
  match l with LFinishRemove _ conn_id msgs => (λ msg, (conn_id, msg)) <$> msgs | _ => [] end.

(** One step. The login is recorded under the session's lock, unless the session was closed
    in the meantime; the ICE configuration is issued after the lock is released. *)
Inductive manager_step : Manager → manager_label → Manager → Prop :=
| StepReserve m tid conn_id m' :
    mg_connecting m !! tid = None →
    connect_reserve m tid conn_id = Ok m' →
    manager_step m (LReserve tid conn_id) m'
| StepAbandon m tid conn_id :
    mg_connecting m !! tid = Some conn_id →
    manager_step m (LAbandon tid) (connect_abandon m tid)
| StepPublish m tid conn_id gen peer username m' r :
    mg_connecting m !! tid = Some conn_id →
    mg_heap m !! gen = None →
    connect_publish m tid gen conn_id (UserSession_new peer username) = (m', r) →
    manager_step m (LPublish tid gen conn_id) m'
| StepDisconnectRemove m conn_id :
    manager_step m (LDisconnectRemove conn_id) (disconnect_remove m conn_id)
| StepDisconnectShutdown m gen e :
    gen ∈ mg_closing m → mg_heap m !! gen = Some e →
    manager_step m (LDisconnectShutdown gen) (disconnect_shutdown m gen e)
| StepEventStart m gen e :
    mg_heap m !! gen = Some e → en_task e = TaskSpawned →
    manager_step m (LEventStart gen)
      (set_heap m (<[gen := match process_events_start (en_session e) with
                            | Some s => mkEntry (en_conn e) s TaskRunning
                            | None => with_task e TaskDone
                            end]> (mg_heap m)))
| StepSession m gen e s :
    mg_heap m !! gen = Some e → session_op (en_session e) s →
    manager_step m (LSession gen) (set_heap m (<[gen := with_session e s]> (mg_heap m)))
| StepConnected m gen e user_map event cfg now add_track remove_track s user_map' ef :
    mg_heap m !! gen = Some e → en_task e = TaskRunning → is_login_event event = true →
    process_mumble_event (en_session e) user_map event cfg now add_track remove_track
      = (s, user_map', ef, Continue) →
    manager_step m (LConnected gen)
      (set_heap m (<[gen := mkEntry (en_conn e) s TaskIssuing]> (mg_heap m)))
| StepIssued m gen e :
    mg_heap m !! gen = Some e → en_task e = TaskIssuing →
    manager_step m (LIssued gen) (set_heap m (<[gen := with_task e TaskRunning]> (mg_heap m)))
| StepFinishShutdown m gen e terminal :
    mg_heap m !! gen = Some e → en_task e = TaskRunning →
    manager_step m (LFinishShutdown gen) (close_session m gen e (TaskFinishing terminal))
| StepFinishRemove m gen e terminal m' msgs b :
    mg_heap m !! gen = Some e → en_task e = TaskFinishing terminal →
    finish_remove m gen e terminal = (m', msgs, b) →
    manager_step m (LFinishRemove gen (en_conn e) msgs) m'
| StepRevoked m gen e :
    mg_heap m !! gen = Some e → en_task e = TaskRevoking →
    manager_step m (LRevoked gen) (set_heap m (<[gen := with_task e TaskDone]> (mg_heap m)))
| StepBeginShutdown m :
    manager_step m LBeginShutdown (begin_shutdown m).

Inductive reachable (max_connections : Z) : Manager → Prop :=
| reach_init : reachable max_connections (SessionManager_new max_connections)
| reach_step m l m' :
    reachable max_connections m → manager_step m l m' → reachable max_connections m'.

(** ** [connect_user] as one call *)

(** [resolve_mumble_addr], from what [lookup_host] returned. *)
Definition resolve_mumble_addr (lookup : result (list SocketAddr)) : result SocketAddr :=
  match lookup with
  | Err e => Err ("Failed to resolve Mumble server: " +:+ e)
  | Ok addrs => ok_or (head addrs) "Failed to resolve Mumble server address"
  end.

(** DNS, the Mumble connection ([None] when its ten seconds are over), the media API and
    the peer connection, with the error texts of the code. *)
Definition connect_setup (lookup : result (list SocketAddr))
    (connect : SocketAddr → option (result unit)) (api : result unit) (webrtc : result P)
    : result P :=
  addr ← resolve_mumble_addr lookup;
  _ ← match connect addr with
      | None => Err "Mumble connection timed out"
      | Some (Err e) => Err ("Mumble connection failed: " +:+ e)
      | Some (Ok _) => Ok tt
      end;
  _ ← api;
  match webrtc with Err e => Err ("WebRTC setup failed: " +:+ e) | Ok peer => Ok peer end.

Definition SessionManager_connect_user (m : Manager) (tid gen : nat) (conn_id username : string)
    (setup : result P) : Manager * result unit :=
  match connect_check m conn_id with
  | Err e => (m, Err e)
  | Ok _ =>
      match connect_reserve m tid conn_id with
      | Err e => (m, Err e)
      | Ok m1 =>
          match setup with
          | Err e => (connect_abandon m1 tid, Err e)
          | Ok peer => connect_publish m1 tid gen conn_id (UserSession_new peer username)
          end
      end
  end.

(** ** Lookups *)

Definition get_session (m : Manager) (conn_id : string) : result nat :=
  ok_or (mg_sessions m !! conn_id) "Session not found".

Definition connection_count (m : Manager) : nat := size (mg_sessions m).

(** ** [disconnect_user] and [close] as one call *)

Definition SessionManager_disconnect_user (m : Manager) (conn_id : string) : Manager :=
  match mg_sessions m !! conn_id with
  | None => m
  | Some gen =>
      let m1 := disconnect_remove m conn_id in
      match mg_heap m1 !! gen with
      | Some e => disconnect_shutdown m1 gen e
      | None => m1
      end
  end.

(** [close]; [ids] are the keys of the map, in the order they were collected. *)
Definition SessionManager_close (m : Manager) (ids : list string) : Manager :=
  foldl SessionManager_disconnect_user (begin_shutdown m) ids.

(** ** Counting slots *)

Context `{!SemaphoreLaws S}.
Implicit Types (m : Manager) (h : gmap nat Entry) (e : Entry).

Definition slot_holders (h : gmap nat Entry) : gmap nat Entry :=
  filter (λ ge, se_slot (en_session ge.2) = true) h.

Definition slots_held (m : Manager) : nat := size (mg_connecting m) + size (slot_holders (mg_heap m)).

Definition slot_count (e : Entry) : nat := if se_slot (en_session e) then 1 else 0.

Lemma slot_holders_insert h g e :
  (size (slot_holders (<[g := e]> h)) + match h !! g with Some e0 => slot_count e0 | None => 0 end
  = size (slot_holders h) + slot_count e)%nat.
Proof.
  assert (Hl : slot_holders h !! g = match h !! g with
    | Some e0 => if se_slot (en_session e0) then Some e0 else None | None => None end).
  { destruct (h !! g) as [e0|] eqn:Hg; [|apply map_lookup_filter_None; by left].
    destruct (se_slot (en_session e0)) eqn:Hs; [by apply map_lookup_filter_Some|].
    apply map_lookup_filter_None. right. intros e1 He1. simpl. congruence. }
  unfold slot_holders, slot_count in *. rewrite map_filter_insert. simpl.
  destruct (se_slot (en_session e)) eqn:He.
  - rewrite decide_True by done. rewrite map_size_insert, Hl.
    destruct (h !! g) as [e0|]; [|simpl; lia]. destruct (se_slot (en_session e0)); simpl; lia.
  - rewrite decide_False by done. rewrite map_filter_delete, map_size_delete, Hl.
    destruct (h !! g) as [e0|] eqn:Hg; [|simpl; lia].
    destruct (se_slot (en_session e0)) eqn:He0; simpl; [|lia].
    assert (0 < size (filter (λ ge, se_slot (en_session ge.2) = true) h))%nat; [|lia].
    apply Nat.neq_0_lt_0, map_size_ne_0_lookup. eauto.
Qed.

(** Every operation under the session's lock leaves the slot and the closed flag alone. *)
Lemma session_op_keeps s s' :
  session_op s s' → se_slot s' = se_slot s ∧ se_closed s' = se_closed s.
Proof.
  intros [? s0 q|? s0 q n p|s0 um ev cfg now add_track remove_track Hev|sh s0 ev|s0 cr addr st Hvt|s0|s0];
    [| | | | | |done].
  - by destruct (session_rest_fields _ _ (vp_rest _ _ (session_request_progress s0 q))) as [(-> & -> & _) _].
  - by destruct (session_rest_fields _ _ (vp_rest _ _ (dropped_progress s0 q n p))) as [(-> & -> & _) _].
  - destruct ev as [[]|]; simpl; try done.
    + destruct (bool_decide _); [done|]. destruct (ws_started _); [|done].
      by destruct (SpeakerTracks_add _ _ _).
    + by destruct (SpeakerTracks_remove _ _ _).
  - destruct ev as [[]|]; simpl; try done. by destruct (WebrtcSession_offer _ _).
  - unfold voice_setup. destruct cr; [|done]. destruct addr as [a|]; [|done].
    destruct (st a) as [v|]; [|done]. by destruct (MumbleVoice_take_channels v) as [v' []].
  - unfold setup_cancelled. by destruct (se_voice_setup_task s0).
Qed.

(** ** The invariant *)

(** A session in the map still has its slot unless its event task is already finishing it. *)
Definition task_live (e : Entry) : Prop :=
  match en_task e with
  | TaskSpawned | TaskRunning | TaskIssuing => se_slot (en_session e) = true
  | TaskFinishing _ => True
  | TaskRevoking | TaskDone => False
  end.

(** A finishing or finished task has given the slot back; closed means no slot. *)
Definition entry_ok (e : Entry) : Prop :=
  se_closed (en_session e) = negb (se_slot (en_session e)) ∧
  match en_task e with
  | TaskFinishing _ | TaskRevoking | TaskDone => se_slot (en_session e) = false
  | _ => True
  end.

Record manager_inv (cap : Z) (m : Manager) : Prop := {
  inv_slots : slots_conserved cap (mg_slots m) (slots_held m);
  inv_map : ∀ c g, mg_sessions m !! c = Some g →
    ∃ e, mg_heap m !! g = Some e ∧ en_conn e = c ∧ task_live e;
  inv_heap : ∀ g e, mg_heap m !! g = Some e → entry_ok e;
  inv_owned : ∀ g e, mg_heap m !! g = Some e → se_slot (en_session e) = true →
    mg_sessions m !! en_conn e = Some g ∨ g ∈ mg_closing m;
  inv_closing : ∀ g, g ∈ mg_closing m →
    ∃ e, mg_heap m !! g = Some e ∧ mg_sessions m !! en_conn e ≠ Some g
}.

Lemma inv_init cap : 0 ≤ cap → manager_inv cap (SessionManager_new cap).
Proof.
  intros Hc. split; simpl; try (intros ??; rewrite lookup_empty; done).
  - unfold slots_held, slot_holders. simpl. rewrite map_filter_empty, !map_size_empty.
    by apply slots_new.
  - intros g Hg. by apply elem_of_nil in Hg.
Qed.

(** Replacing an entry of the heap by one of the same connection that keeps its slot. *)
Lemma inv_update cap m g e e' :
  manager_inv cap m → mg_heap m !! g = Some e →
  en_conn e' = en_conn e → se_slot (en_session e') = se_slot (en_session e) → entry_ok e' →
  (task_live e → task_live e') →
  manager_inv cap (set_heap m (<[g := e']> (mg_heap m))).
Proof.
  intros [Hs Hm Hh Ho Hc] Hg Hconn Hslot Hok Hlive. split; simpl.
  - unfold slots_held in *. simpl. pose proof (slot_holders_insert (mg_heap m) g e') as Hi.
    rewrite Hg in Hi. unfold slot_count in Hi. rewrite Hslot in Hi.
    replace (size (slot_holders (<[g := e']> (mg_heap m)))) with (size (slot_holders (mg_heap m))) by lia.
    done.
  - intros c g' Hc'. destruct (Hm c g' Hc') as (e0 & He0 & Hce & Hl).
    destruct (decide (g' = g)) as [->|Hne]; [|exists e0; by rewrite lookup_insert_ne].
    rewrite He0 in Hg. simplify_eq. exists e'. rewrite lookup_insert_eq.
    split_and!; [done|congruence|auto].
  - intros g' e0. rewrite lookup_insert_Some. intros [[<- <-]|[_ ?]]; [done|by eapply Hh].
  - intros g' e0. rewrite lookup_insert_Some. intros [[<- <-]|[_ ?]] Hsl; [|by apply Ho].
    rewrite Hconn. apply Ho; congruence.
  - intros g' Hg'. destruct (Hc g' Hg') as (e0 & He0 & Hn).
    destruct (decide (g' = g)) as [->|Hne]; [|exists e0; by rewrite lookup_insert_ne].
    rewrite He0 in Hg. simplify_eq. exists e'. rewrite lookup_insert_eq, Hconn. done.
Qed.

Lemma shutdown_entry_ok e task :
  se_closed (en_session e) = negb (se_slot (en_session e)) →
  entry_ok (mkEntry (en_conn e) (shutdown_user_session (en_session e)).1 task) ∧
  se_slot (shutdown_user_session (en_session e)).1 = false.
Proof.
  intros Hc. unfold entry_ok, shutdown_user_session. simpl.
  destruct (se_slot (en_session e)) eqn:Hs; simpl; [by destruct task|].
  rewrite Hs. by destruct task.
Qed.

(** Shutting down a session that is either out of the map or being finished. *)
Lemma inv_close cap m g e task :
  manager_inv cap m → mg_heap m !! g = Some e →
  (∀ c, mg_sessions m !! c = Some g → ∃ t, task = TaskFinishing t) →
  manager_inv cap (close_session m g e task).
Proof.
  intros [Hs Hm Hh Ho Hc] Hg Hlive.
  destruct (shutdown_entry_ok e task (proj1 (Hh g e Hg))) as [Hok Hsl].
  set (e' := mkEntry (en_conn e) (shutdown_user_session (en_session e)).1 task) in *.
  assert (Hslots : slots_conserved cap
    (if se_slot (en_session e) then release (mg_slots m) else mg_slots m)
    (size (mg_connecting m) + size (slot_holders (<[g := e']> (mg_heap m))))).
  { pose proof (slot_holders_insert (mg_heap m) g e') as Hi. rewrite Hg in Hi.
    unfold slot_count in Hi. simpl in Hi. rewrite Hsl in Hi. unfold slots_held in Hs.
    destruct (se_slot (en_session e)).
    - apply slots_release. by replace (1 + _)%nat with (size (mg_connecting m) + size (slot_holders (mg_heap m)))%nat by lia.
    - by replace (size (slot_holders (<[g := e']> (mg_heap m)))) with (size (slot_holders (mg_heap m))) by lia. }
  assert (Hrest : manager_inv cap (set_slots (set_heap m (<[g := e']> (mg_heap m)))
    (if se_slot (en_session e) then release (mg_slots m) else mg_slots m))).
  { split; simpl; [done|..].
    - intros c g' Hc'. destruct (Hm c g' Hc') as (e0 & He0 & Hce & Hl).
      destruct (decide (g' = g)) as [->|Hne]; [|exists e0; by rewrite lookup_insert_ne].
      exists e'. rewrite lookup_insert_eq. simplify_eq. split_and!; [done|done|].
      destruct (Hlive _ Hc') as [t ->]. done.
    - intros g' e0. rewrite lookup_insert_Some. intros [[<- <-]|[_ ?]]; [done|by eapply Hh].
    - intros g' e0. rewrite lookup_insert_Some. intros [[<- <-]|[_ ?]] Hsl'; [|by apply Ho].
      simpl in Hsl'. congruence.
    - intros g' Hg'. destruct (Hc g' Hg') as (e0 & He0 & Hn).
      destruct (decide (g' = g)) as [->|Hne]; [|exists e0; by rewrite lookup_insert_ne].
      simplify_eq. exists e'. rewrite lookup_insert_eq. done. }
  unfold close_session. fold e'. by destruct (se_slot (en_session e)).
Qed.

Lemma elem_of_remove_one g g' l : g' ∈ remove_one g l → g' ∈ l.
Proof.
  induction l as [|x l IH]; simpl; [done|]. destruct (Nat.eqb x g); [by right|].
  rewrite !elem_of_cons. naive_solver.
Qed.

Lemma elem_of_remove_one_ne g g' l : g' ≠ g → g' ∈ l → g' ∈ remove_one g l.
Proof.
  intros Hne. induction l as [|x l IH]; simpl; [done|].
  rewrite elem_of_cons. intros [->|Hin].
  - destruct (Nat.eqb_spec x g); [done|]. by left.
  - destruct (Nat.eqb_spec x g); [done|]. right. auto.
Qed.

Lemma inv_disconnect_shutdown cap m g e :
  manager_inv cap m → g ∈ mg_closing m → mg_heap m !! g = Some e →
  manager_inv cap (disconnect_shutdown m g e).
Proof.
  intros Hinv Hg He. unfold disconnect_shutdown.
  assert (Hcl : manager_inv cap (close_session m g e (en_task e))).
  { apply inv_close; [done..|]. intros c Hc. exfalso.
    destruct (inv_map _ _ Hinv _ _ Hc) as (e0 & He0 & <- & _).
    destruct (inv_closing _ _ Hinv _ Hg) as (e1 & He1 & Hn). by simplify_eq. }
  assert (Hh : mg_heap (close_session m g e (en_task e)) !! g
    = Some (mkEntry (en_conn e) (shutdown_user_session (en_session e)).1 (en_task e))).
  { unfold close_session. destruct (se_slot (en_session e)); simpl; by rewrite lookup_insert_eq. }
  assert (Hcl' : mg_closing (close_session m g e (en_task e)) = mg_closing m).
  { unfold close_session. by destruct (se_slot (en_session e)). }
  destruct Hcl as [Hs Hm Hhp Ho Hc]. split; simpl; try done.
  - intros g' e0 Hg' Hsl. destruct (Ho g' e0 Hg' Hsl) as [Hin|Hin]; [by left|right].
    rewrite Hcl' in Hin. apply elem_of_remove_one_ne; [|done]. intros ->.
    rewrite Hh in Hg'. simplify_eq. simpl in Hsl.
    destruct (shutdown_entry_ok e (en_task e) (proj1 (inv_heap _ _ Hinv _ _ He))) as [_ Hf].
    congruence.
  - intros g' Hg'%elem_of_remove_one. apply Hc. by rewrite Hcl'.
Qed.

Lemma inv_disconnect_remove cap m c :
  manager_inv cap m → manager_inv cap (disconnect_remove m c).
Proof.
  intros Hinv. unfold disconnect_remove. destruct (mg_sessions m !! c) as [g|] eqn:Hc; [|done].
  destruct Hinv as [Hs Hm Hh Ho Hcl]. destruct (Hm c g Hc) as (e & He & Hce & Hl).
  split; simpl; try done.
  - intros c' g'. rewrite lookup_delete_Some. intros [Hne Hc']. by apply Hm.
  - intros g' e' Hg' Hsl. destruct (Ho g' e' Hg' Hsl) as [Hin|Hin]; [|right; by right].
    destruct (decide (en_conn e' = c)) as [Heq|Hne]; [|left; by rewrite lookup_delete_ne].
    right. rewrite Heq, Hc in Hin. simplify_eq. left.
  - intros g' [->|Hin]%elem_of_cons.
    + exists e. split; [done|]. by rewrite Hce, lookup_delete_eq.
    + destruct (Hcl g' Hin) as (e' & He' & Hn). exists e'. split; [done|].
      rewrite lookup_delete_Some. naive_solver.
Qed.

Lemma inv_reserve cap m tid c m' :
  manager_inv cap m → mg_connecting m !! tid = None → connect_reserve m tid c = Ok m' →
  manager_inv cap m'.
Proof.
  intros [Hs Hm Hh Ho Hc] Ht Hr. unfold connect_reserve in Hr.
  destruct (try_acquire (mg_slots m)) as [s'|] eqn:Ha; [|done]. injection Hr as <-.
  split; simpl; try done. unfold slots_held in *. simpl.
  rewrite map_size_insert_None by done. by apply (slots_acquire _ (mg_slots m)).
Qed.

Lemma connecting_size m tid c :
  mg_connecting m !! tid = Some c →
  size (mg_connecting m) = (1 + size (delete tid (mg_connecting m)))%nat.
Proof.
  intros Ht. rewrite map_size_delete, Ht.
  assert (size (mg_connecting m) ≠ 0%nat); [|lia]. apply map_size_ne_0_lookup. eauto.
Qed.

Lemma inv_abandon cap m tid c :
  manager_inv cap m → mg_connecting m !! tid = Some c → manager_inv cap (connect_abandon m tid).
Proof.
  intros [Hs Hm Hh Ho Hc] Ht. split; simpl; try done. unfold slots_held in *. simpl.
  apply slots_release. by rewrite (connecting_size m tid c Ht) in Hs.
Qed.

Lemma inv_publish cap m tid c g peer username m' r :
  manager_inv cap m → mg_connecting m !! tid = Some c → mg_heap m !! g = None →
  connect_publish m tid g c (UserSession_new peer username) = (m', r) →
  manager_inv cap m'.
Proof.
  intros [Hs Hm Hh Ho Hc] Ht Hg Hp. unfold connect_publish in Hp.
  assert (Hgm : ∀ c' g', mg_sessions m !! c' = Some g' → g' ≠ g).
  { intros c' g' Hc' ->. destruct (Hm c' g Hc') as (e & He & _). congruence. }
  assert (Hgc : ∀ g', g' ∈ mg_closing m → g' ≠ g).
  { intros g' Hg' ->. destruct (Hc g Hg') as (e & He & _). congruence. }
  unfold slots_held in Hs. rewrite (connecting_size m tid c Ht) in Hs.
  destruct (mg_sessions m !! c) as [g0|] eqn:Hmc; injection Hp as <- <-.
  - set (e := mkEntry c (shutdown_user_session (UserSession_new peer username)).1 TaskDone).
    unfold close_session. simpl. fold e. split; simpl.
    + unfold slots_held. simpl. pose proof (slot_holders_insert (mg_heap m) g e) as Hi.
      rewrite Hg in Hi. unfold slot_count in Hi. simpl in Hi.
      replace (size (slot_holders (<[g := e]> (mg_heap m)))) with (size (slot_holders (mg_heap m))) by lia.
      by apply slots_release.
    + intros c' g' Hc'. rewrite lookup_insert_ne by (apply not_eq_sym; by eapply Hgm). by apply Hm.
    + intros g' e0. rewrite lookup_insert_Some. intros [[<- <-]|[_ ?]]; [done|by eapply Hh].
    + intros g' e0. rewrite lookup_insert_Some. intros [[<- <-]|[_ ?]] Hsl; [done|by apply Ho].
    + intros g' Hg'. rewrite lookup_insert_ne by (apply not_eq_sym; by apply Hgc). by apply Hc.
  - set (e := mkEntry c (UserSession_new peer username) TaskSpawned). split; simpl.
    + unfold slots_held. simpl. pose proof (slot_holders_insert (mg_heap m) g e) as Hi.
      rewrite Hg in Hi. unfold slot_count in Hi. simpl in Hi.
      by replace (size (delete tid (mg_connecting m)) + size (slot_holders (<[g := e]> (mg_heap m))))%nat
        with (1 + size (delete tid (mg_connecting m)) + size (slot_holders (mg_heap m)))%nat by lia.
    + intros c' g'. rewrite lookup_insert_Some. intros [[<- <-]|[Hne Hc']].
      * exists e. by rewrite lookup_insert_eq.
      * rewrite lookup_insert_ne by (apply not_eq_sym; by eapply Hgm). by apply Hm.
    + intros g' e0. rewrite lookup_insert_Some. intros [[<- <-]|[_ ?]]; [done|by eapply Hh].
    + intros g' e0. rewrite lookup_insert_Some. intros [[<- <-]|[_ He0]] Hsl.
      * left. by rewrite lookup_insert_eq.
      * destruct (Ho g' e0 He0 Hsl) as [Hin|Hin]; [left|by right].
        rewrite lookup_insert_ne; [done|]. intros Heq. rewrite <- Heq in Hin. congruence.
    + intros g' Hg'. destruct (Hc g' Hg') as (e0 & He0 & Hn). exists e0.
      rewrite lookup_insert_ne by (apply not_eq_sym; by apply Hgc). split; [done|].
      rewrite lookup_insert_Some. intros [[_ ?]|[_ ?]]; [by apply (Hgc g')|done].
Qed.

Lemma inv_event_start cap m g e :
  manager_inv cap m → mg_heap m !! g = Some e → en_task e = TaskSpawned →
  manager_inv cap (set_heap m (<[g := match process_events_start (en_session e) with
                                      | Some s => mkEntry (en_conn e) s TaskRunning
                                      | None => with_task e TaskDone
                                      end]> (mg_heap m))).
Proof.
  intros Hinv Hg Ht. pose proof (proj1 (inv_heap _ _ Hinv _ _ Hg)) as Hc.
  unfold process_events_start. destruct (se_closed (en_session e)) eqn:Hcl.
  - apply (inv_update _ _ _ e); [done..| |].
    + split; simpl; [by rewrite Hcl|]. by destruct (se_slot (en_session e)).
    + unfold task_live. rewrite Ht. by destruct (se_slot (en_session e)).
  - apply (inv_update _ _ _ e); [done..|by split|].
    unfold task_live. by rewrite Ht.
Qed.

Lemma inv_session_op cap m g e s :
  manager_inv cap m → mg_heap m !! g = Some e → session_op (en_session e) s →
  manager_inv cap (set_heap m (<[g := with_session e s]> (mg_heap m))).
Proof.
  intros Hinv Hg Hop. apply session_op_keeps in Hop as [Hs Hc].
  destruct (inv_heap _ _ Hinv _ _ Hg) as [H1 H2].
  apply (inv_update _ _ _ e); [done..| |].
  - split; simpl; [by rewrite Hc, Hs|]. by rewrite Hs.
  - unfold task_live. simpl. by rewrite Hs.
Qed.

Lemma inv_finish_remove cap m g e t m' msgs b :
  manager_inv cap m → mg_heap m !! g = Some e → en_task e = TaskFinishing t →
  finish_remove m g e t = (m', msgs, b) → manager_inv cap m'.
Proof.
  intros Hinv Hg Ht Hf. pose proof (inv_heap _ _ Hinv _ _ Hg) as [Hcl Hsl]. rewrite Ht in Hsl.
  destruct Hinv as [Hs Hm Hh Ho Hc].
  assert (Hheap : slots_conserved cap (mg_slots m) (size (mg_connecting m)
     + size (slot_holders (<[g := with_task e TaskRevoking]> (mg_heap m))))%nat).
  { pose proof (slot_holders_insert (mg_heap m) g (with_task e TaskRevoking)) as Hi.
    rewrite Hg in Hi. unfold slot_count in Hi. simpl in Hi.
    by replace (size (slot_holders (<[g := with_task e TaskRevoking]> (mg_heap m))))
      with (size (slot_holders (mg_heap m))) by lia. }
  unfold finish_remove in Hf.
  assert (Hothers : ∀ c' g', mg_sessions m !! c' = Some g' → (c' = en_conn e → g' ≠ g) → g' ≠ g).
  { intros c' g' Hc' Hd ->. destruct (Hm c' g Hc') as (e0 & He0 & <- & _). simplify_eq. by apply Hd. }
  destruct (bool_decide _) eqn:Hb; bool_to_prop; injection Hf as <- <- <-; split; simpl; try done.
  - intros c' g'. rewrite lookup_delete_Some. intros [Hne Hc'].
    rewrite lookup_insert_ne; [by apply Hm|]. apply not_eq_sym. apply (Hothers c'); [done|]. congruence.
  - intros g' e0. rewrite lookup_insert_Some. intros [[<- <-]|[_ ?]]; [done|by eapply Hh].
  - intros g' e0. rewrite lookup_insert_Some. intros [[<- <-]|[Hne He0]] Hsl'; [simpl in *; congruence|].
    destruct (Ho g' e0 He0 Hsl') as [Hin|Hin]; [left|by right].
    rewrite lookup_delete_ne; [done|]. intros Heq. rewrite <- Heq in Hin. congruence.
  - intros g' Hg'. destruct (Hc g' Hg') as (e0 & He0 & Hn).
    destruct (decide (g' = g)) as [->|Hne].
    + exists (with_task e TaskRevoking). rewrite lookup_insert_eq. simplify_eq.
    + exists e0. rewrite lookup_insert_ne by done. split; [done|].
      rewrite lookup_delete_Some. naive_solver.
  - intros c' g' Hc'. destruct (Hm c' g' Hc') as (e0 & He0 & Hce & Hl).
    rewrite lookup_insert_ne; [by eauto|]. apply not_eq_sym. apply (Hothers c'); [done|].
    intros ->. congruence.
  - intros g' e0. rewrite lookup_insert_Some. intros [[<- <-]|[_ ?]]; [done|by eapply Hh].
  - intros g' e0. rewrite lookup_insert_Some. intros [[<- <-]|[Hne He0]] Hsl'; [simpl in *; congruence|].
    by apply Ho.
  - intros g' Hg'. destruct (Hc g' Hg') as (e0 & He0 & Hn).
    destruct (decide (g' = g)) as [->|Hne]; [|exists e0; by rewrite lookup_insert_ne].
    exists (with_task e TaskRevoking). rewrite lookup_insert_eq. by simplify_eq.
Qed.

Lemma inv_connected cap m g e s :
  manager_inv cap m → mg_heap m !! g = Some e → en_task e = TaskRunning →
  se_slot s = se_slot (en_session e) → se_closed s = se_closed (en_session e) →
  manager_inv cap (set_heap m (<[g := mkEntry (en_conn e) s TaskIssuing]> (mg_heap m))).
Proof.
  intros Hinv Hg Ht Hs Hc. destruct (inv_heap _ _ Hinv _ _ Hg) as [H1 _].
  apply (inv_update _ _ _ e); [done..| |].
  - split; simpl; [by rewrite Hc, Hs|done].
  - unfold task_live. simpl. by rewrite Hs, Ht.
Qed.

(** A step of the event task alone, between two states of the same standing. *)
Lemma inv_task cap m g e t :
  manager_inv cap m → mg_heap m !! g = Some e →
  (entry_ok e → entry_ok (with_task e t)) → (task_live e → task_live (with_task e t)) →
  manager_inv cap (set_heap m (<[g := with_task e t]> (mg_heap m))).
Proof.
  intros Hinv Hg Hok Hl. apply (inv_update _ _ _ e); try done. apply Hok. by eapply inv_heap.
Qed.

Lemma login_event_keeps (s s' : UserSession P Sender) um ev cfg now add_track remove_track um' ef :
  is_login_event ev = true →
  process_mumble_event s um ev cfg now add_track remove_track = (s', um', ef, Continue) →
  se_closed s = false ∧ is_Some (se_session_id s') ∧ se_slot s' = se_slot s ∧
  se_closed s' = se_closed s ∧ se_voice_setup_task s' = se_voice_setup_task s ∧
  se_bridge s' = se_bridge s ∧ se_mumble_voice s' = se_mumble_voice s.
Proof.
  destruct ev as [[]|]; try done. intros _. simpl. destruct (se_closed s) eqn:Hc; [done|].
  intros [= <- <- <-]. simpl. eauto 10.
Qed.

Lemma inv_step cap m l m' : manager_inv cap m → manager_step m l m' → manager_inv cap m'.
Proof.
  intros Hinv Hstep. destruct Hstep.
  - by eapply inv_reserve.
  - by eapply inv_abandon.
  - by eapply inv_publish.
  - by apply inv_disconnect_remove.
  - by apply inv_disconnect_shutdown.
  - by apply inv_event_start.
  - by eapply inv_session_op.
  - match goal with Hl : is_login_event _ = true, Hp : process_mumble_event _ _ _ _ _ _ _ = _ |- _ =>
      destruct (login_event_keeps _ _ _ _ _ _ _ _ _ _ Hl Hp) as (_ & _ & ? & ? & _) end.
    by apply inv_connected.
  - eapply inv_task; [done..| |].
    + unfold entry_ok. simpl. naive_solver.
    + unfold task_live. simpl. by destruct (en_task e).
  - apply inv_close; eauto.
  - by eapply inv_finish_remove.
  - match goal with Ht : en_task _ = TaskRevoking |- _ => eapply inv_task; [done..| |];
      [unfold entry_ok; by rewrite Ht|unfold task_live; by rewrite Ht] end.
  - destruct Hinv. by split.
Qed.

Lemma reachable_inv cap m : 0 ≤ cap → reachable cap m → manager_inv cap m.
Proof. intros Hc. induction 1; [by apply inv_init|by eapply inv_step]. Qed.

(** ** Theorems *)

Lemma slots_come_back cap m :
  0 ≤ cap → reachable cap m →
  mg_sessions m = ∅ → mg_connecting m = ∅ → mg_closing m = [] →
  available (mg_slots m) = cap.
Proof.
  intros Hc Hr Hm Hcon Hcl. destruct (reachable_inv cap m Hc Hr) as [[Ha Hs] _ _ Ho _].
  assert (Hempty : slot_holders (mg_heap m) = ∅).
  { apply map_empty. intros g. apply map_lookup_filter_None. right. simpl. intros e He Hsl.
    destruct (Ho g e He Hsl) as [Hin|Hin]; [by rewrite Hm, lookup_empty in Hin|].
    rewrite Hcl in Hin. by apply elem_of_nil in Hin. }
  unfold slots_held in Hs. rewrite Hempty, Hcon, !map_size_empty in Hs. lia.
Qed.

(** C3: the server never holds more sessions than it has slots, and no slot is made up or
    lost. In every interleaving of connects (failing and cancelled ones included),
    disconnects, event tasks and shutdown, the free slots, the calls still connecting and
    the sessions not yet shut down add up to [max_connections]; a connect is refused as
    full only when all of them are in use; and whenever no session is in the map and no
    connect or disconnect is under way, every slot is free again. *)
Theorem session_capacity cap m :
  0 ≤ cap → reachable cap m →
  0 ≤ available (mg_slots m) ∧
  available (mg_slots m) + Z.of_nat (size (mg_connecting m))
    + Z.of_nat (size (slot_holders (mg_heap m))) = cap ∧
  (∀ tid conn_id err, connect_reserve m tid conn_id = Err err →
     Z.of_nat (size (mg_connecting m)) + Z.of_nat (size (slot_holders (mg_heap m))) = cap) ∧
  (mg_sessions m = ∅ → mg_connecting m = ∅ → mg_closing m = [] → available (mg_slots m) = cap).
Proof.
  intros Hc Hr. destruct (reachable_inv cap m Hc Hr) as [[Ha Hs] _ _ _ _].
  unfold slots_held in Hs. split_and!; [done|lia| |by apply slots_come_back].
  intros tid c err He. unfold connect_reserve in He.
  destruct (try_acquire (mg_slots m)) eqn:Ht; [done|]. apply try_acquire_none in Ht. lia.
Qed.

(** A step takes an entry out of the map only by disconnecting that connection, or as the
    last act of the event task of that very session. *)
Lemma step_removes m l m' c g :
  manager_step m l m' → mg_sessions m !! c = Some g → mg_sessions m' !! c ≠ Some g →
  mg_sessions m' !! c = None ∧
  (mg_closing m' = g :: mg_closing m ∨
   ∃ e t, mg_heap m !! g = Some e ∧ en_conn e = c ∧ en_task e = TaskFinishing t ∧
     label_messages l = (λ msg, (c, msg)) <$> option_list t).
Proof.
  intros Hstep Hc Hn. destruct Hstep as [m tid c' m' Ht Hr|m tid c' Ht|m tid c' g' p u m' r Ht Hg Hp
    |m c'|m g' e Hg He|m g' e He Ht|m g' e s He Hop|m g' e um ev cfg now at_ rt s um' ef He Ht Hl Hp
    |m g' e He Ht|m g' e t He Ht|m g' e t m' ms b He Ht Hf|m g' e He Ht|m].
  - unfold connect_reserve in Hr. destruct (try_acquire _); [|done]. by injection Hr as <-.
  - done.
  - unfold connect_publish in Hp. destruct (mg_sessions m !! c') eqn:Hc'.
    + injection Hp as <- _. unfold close_session in Hn. by simpl in Hn.
    + injection Hp as <- _. simpl in Hn. exfalso. apply Hn. rewrite lookup_insert_ne; congruence.
  - unfold disconnect_remove in *. destruct (mg_sessions m !! c') as [g'|] eqn:Hc'; [|done].
    simpl in *. destruct (decide (c' = c)) as [->|Hne]; [|by rewrite lookup_delete_ne in Hn].
    rewrite lookup_delete_eq. simplify_eq. eauto.
  - unfold disconnect_shutdown, close_session in Hn. by destruct (se_slot _).
  - done.
  - done.
  - done.
  - done.
  - unfold close_session in Hn. by destruct (se_slot _).
  - unfold finish_remove in Hf. destruct (bool_decide _) eqn:Hb; bool_to_prop;
      injection Hf as <- <- <-; [|done]. simpl in *.
    destruct (decide (en_conn e = c)) as [<-|Hne]; [|by rewrite lookup_delete_ne in Hn].
    rewrite lookup_delete_eq. split; [done|]. right. simplify_eq. eauto 8.
  - done.
  - done.
Qed.

(** Messages come only from a task that finishes the session the map still points to. *)
Lemma step_messages m l m' c msg :
  manager_step m l m' → (c, msg) ∈ label_messages l →
  ∃ g e, mg_sessions m !! c = Some g ∧ mg_heap m !! g = Some e ∧
    en_task e = TaskFinishing (Some msg) ∧ mg_sessions m' !! c = None.
Proof.
  intros Hstep Hin. destruct Hstep; try by apply elem_of_nil in Hin.
  match goal with Hf : finish_remove _ _ _ _ = _ |- _ => unfold finish_remove in Hf end.
  destruct (bool_decide _) eqn:Hb; bool_to_prop; simplify_eq; [|by apply elem_of_nil in Hin].
  apply list_elem_of_fmap in Hin as (msg' & [= -> ->] & Hin).
  destruct terminal as [t|]; [|by apply elem_of_nil in Hin].
  apply list_elem_of_singleton in Hin as ->. simpl.
  eexists _, _. split_and!; [done..|]. by rewrite lookup_delete_eq.
Qed.

(** C4: an old event task cannot harm a reconnect. In every interleaving, (1) a session
    leaves the map only through [disconnect_user] for its connection or through its own
    event task, never through the task of an earlier session of the same connection, and
    (2) a terminal error reaches the browser only while the map still points to the very
    session that ended, whose slot has been given back by then and whose connection id is
    free right after. *)
Theorem only_own_generation cap m l m' :
  0 ≤ cap → reachable cap m → manager_step m l m' →
  (∀ c g, mg_sessions m !! c = Some g → mg_sessions m' !! c ≠ Some g →
     mg_sessions m' !! c = None ∧
     (mg_closing m' = g :: mg_closing m ∨
      ∃ e t, mg_heap m !! g = Some e ∧ en_conn e = c ∧ en_task e = TaskFinishing t)) ∧
  (∀ c msg, (c, msg) ∈ label_messages l →
     ∃ g e, mg_sessions m !! c = Some g ∧ mg_heap m !! g = Some e ∧
       en_task e = TaskFinishing (Some msg) ∧ se_slot (en_session e) = false ∧
       mg_sessions m' !! c = None).
Proof.
  intros Hc Hr Hstep. split.
  - intros c g Hm Hn. destruct (step_removes m l m' c g Hstep Hm Hn) as [? [?|(e & t & ? & ? & ? & _)]];
      eauto 10.
  - intros c msg Hin. destruct (step_messages m l m' c msg Hstep Hin) as (g & e & Hm & He & Ht & Hn).
    exists g, e. split_and!; try done.
    destruct (inv_heap _ _ (reachable_inv cap m Hc Hr) g e He) as [_ Hs]. by rewrite Ht in Hs.
Qed.

(** C28: [connect_user] either succeeds completely or leaves no trace. Run to the end, a call
    on a reachable state gives a reachable state; on success the server was not shutting
    down, the connection id was free and now maps to the new session, and one slot is
    used; on any error (shutting down, already connected, full, DNS, Mumble, WebRTC) the
    map, the running calls and the number of free slots are as before. *)
Theorem connect_user_spec cap m tid gen conn_id username setup :
  0 ≤ cap → reachable cap m →
  mg_connecting m !! tid = None → mg_heap m !! gen = None →
  let '(m', r) := SessionManager_connect_user m tid gen conn_id username setup in
  reachable cap m' ∧ mg_connecting m' = mg_connecting m ∧ mg_closing m' = mg_closing m ∧
  match r with
  | Ok _ =>
      mg_shutdown m = false ∧ mg_sessions m !! conn_id = None ∧
      mg_sessions m' = <[conn_id := gen]> (mg_sessions m) ∧
      available (mg_slots m') = available (mg_slots m) - 1 ∧
      ∃ peer, setup = Ok peer ∧
        mg_heap m' = <[gen := mkEntry conn_id (UserSession_new peer username) TaskSpawned]> (mg_heap m)
  | Err _ =>
      mg_sessions m' = mg_sessions m ∧ mg_heap m' = mg_heap m ∧
      available (mg_slots m') = available (mg_slots m)
  end.
Proof.
  intros Hc Hr Ht Hg. unfold SessionManager_connect_user, connect_check.
  destruct (mg_shutdown m) eqn:Hsd; [done|].
  destruct (mg_sessions m !! conn_id) eqn:Hm; [done|].
  destruct (connect_reserve m tid conn_id) as [m1|] eqn:Hres; [|done].
  pose proof (reach_step cap _ _ _ Hr (StepReserve m tid conn_id m1 Ht Hres)) as Hr1.
  unfold connect_reserve in Hres. destruct (try_acquire (mg_slots m)) as [s'|] eqn:Ha; [|done].
  injection Hres as <-. apply try_acquire_some in Ha as [_ Ha].
  assert (Htid : mg_connecting (set_connecting (set_slots m s') (<[tid := conn_id]> (mg_connecting m)))
                 !! tid = Some conn_id) by (simpl; by rewrite lookup_insert_eq).
  destruct setup as [peer|e].
  - unfold connect_publish at 1. simpl. rewrite Hm. split; [|split_and!; simpl; try done].
    + eapply reach_step; [exact Hr1|]. eapply StepPublish; [exact Htid|exact Hg|].
      unfold connect_publish. simpl. rewrite Hm. reflexivity.
    + by rewrite delete_insert_id.
    + eauto.
  - split; [|split_and!; simpl; try done].
    + eapply reach_step; [exact Hr1|]. by eapply StepAbandon.
    + by rewrite delete_insert_id.
    + rewrite available_release. lia.
Qed.

Lemma disconnect_user_effect cap m c :
  0 ≤ cap → reachable cap m → mg_closing m = [] →
  let m' := SessionManager_disconnect_user m c in
  reachable cap m' ∧ mg_sessions m' = delete c (mg_sessions m) ∧
  mg_connecting m' = mg_connecting m ∧ mg_closing m' = [] ∧ mg_shutdown m' = mg_shutdown m.
Proof.
  intros Hcap Hr Hcl. unfold SessionManager_disconnect_user.
  destruct (mg_sessions m !! c) as [g|] eqn:Hc; [|by rewrite delete_id].
  pose proof (reach_step cap _ _ _ Hr (StepDisconnectRemove m c)) as Hr1.
  destruct (inv_map _ _ (reachable_inv cap m Hcap Hr) c g Hc) as (e & He & _).
  assert (Hd : disconnect_remove m c
    = set_closing (set_sessions m (delete c (mg_sessions m))) [g]).
  { unfold disconnect_remove. by rewrite Hc, Hcl. }
  rewrite Hd in *. cbn zeta. simpl (mg_heap _). rewrite He.
  assert (Hm' : ∀ m0, mg_sessions (close_session m0 g e (en_task e)) = mg_sessions m0 ∧
    mg_connecting (close_session m0 g e (en_task e)) = mg_connecting m0 ∧
    mg_shutdown (close_session m0 g e (en_task e)) = mg_shutdown m0).
  { intros m0. unfold close_session. by destruct (se_slot _). }
  split.
  - eapply reach_step; [exact Hr1|]. apply StepDisconnectShutdown; [simpl; left|done].
  - unfold disconnect_shutdown. simpl. destruct (Hm' (set_closing (set_sessions m (delete c (mg_sessions m))) [g]))
      as (-> & -> & ->). simpl. by rewrite Nat.eqb_refl.
Qed.

(** Shutting down drains the server. Once [close] has run over the connections present
    (in any order), with no connect or disconnect in flight, the map is empty, every slot
    is free and every further connect is refused. *)
Theorem close_drains cap m ids :
  0 ≤ cap → reachable cap m → mg_connecting m = ∅ → mg_closing m = [] →
  (∀ c, is_Some (mg_sessions m !! c) → c ∈ ids) →
  let m' := SessionManager_close m ids in
  mg_sessions m' = ∅ ∧ available (mg_slots m') = cap ∧
  ∀ c, connect_check m' c = Err "Server is shutting down".
Proof.
  intros Hcap Hr Hcon Hcl Hids. unfold SessionManager_close.
  assert (Hgen : ∀ m0, reachable cap m0 → mg_connecting m0 = ∅ → mg_closing m0 = [] →
    let m' := foldl SessionManager_disconnect_user m0 ids in
    reachable cap m' ∧ mg_connecting m' = ∅ ∧ mg_closing m' = [] ∧ mg_shutdown m' = mg_shutdown m0 ∧
    ∀ c g, mg_sessions m' !! c = Some g → mg_sessions m0 !! c = Some g ∧ c ∉ ids).
  { clear -Hcap SemaphoreLaws0. induction ids as [|c ids IH]; intros m0 Hr0 Hcon0 Hcl0; simpl.
    - split_and!; try done. intros c g Hc. split; [done|apply not_elem_of_nil].
    - destruct (disconnect_user_effect cap m0 c Hcap Hr0 Hcl0) as (H1 & H2 & H3 & H4 & H5).
      destruct (IH _ H1) as (G1 & G2 & G3 & G4 & G5); [congruence|done|].
      split_and!; try done; [congruence|]. intros c' g' Hc'. destruct (G5 c' g' Hc') as [Hd Hn].
      rewrite H2, lookup_delete_Some in Hd. rewrite not_elem_of_cons. naive_solver. }
  destruct (Hgen (begin_shutdown m)) as (Hr' & Hcon' & Hcl' & Hsd & Hs); try done.
  { eapply reach_step; [exact Hr|apply StepBeginShutdown]. }
  assert (Hempty : mg_sessions (foldl SessionManager_disconnect_user (begin_shutdown m) ids) = ∅).
  { apply map_empty. intros c. apply eq_None_not_Some. intros [g Hg].
    destruct (Hs c g Hg) as [Hm Hn]. apply Hn, Hids. eauto. }
  split_and!; [done|by apply slots_come_back|].
  intros c. unfold connect_check. by rewrite Hsd.
Qed.

(** ** A closed session *)

Lemma close_session_heap m g e t :
  mg_heap (close_session m g e t)
  = <[g := mkEntry (en_conn e) (shutdown_user_session (en_session e)).1 t]> (mg_heap m).
Proof. unfold close_session. by destruct (se_slot _). Qed.

(** How one step changes a session of the heap: not at all, by an operation under its lock,
    by its shutdown, by the start of its event task or the login, or by its creation. *)
Variant entry_step : option Entry → UserSession P Sender → Prop :=
| EntrySame e : entry_step (Some e) (en_session e)
| EntryOp e s : session_op (en_session e) s → entry_step (Some e) s
| EntryShutdown e : entry_step (Some e) (shutdown_user_session (en_session e)).1
| EntryOpen e s : se_closed (en_session e) = false → se_closed s = false → entry_step (Some e) s
| EntryNew peer username : entry_step None (UserSession_new peer username)
| EntryRefused peer username :
    entry_step None (shutdown_user_session (UserSession_new peer username)).1.

Lemma entry_insert (h : gmap nat Entry) g0 e0 g e :
  <[g0 := e0]> h !! g = Some e → entry_step (h !! g0) (en_session e0) →
  entry_step (h !! g) (en_session e).
Proof.
  rewrite lookup_insert_Some. intros [[-> <-]|[_ ->]] Hs; [done|]. constructor.
Qed.

Lemma step_entry m l m' g e :
  manager_step m l m' → mg_heap m' !! g = Some e → entry_step (mg_heap m !! g) (en_session e).
Proof.
  intros Hstep. destruct Hstep as [m tid c' m' Ht Hr|m tid c' Ht|m tid c' g' p u m' r Ht Hg Hp
    |m c'|m g' e' Hg He|m g' e' He Ht|m g' e' s He Hop|m g' e' um ev cfg now at_ rt s um' ef He Ht Hl Hp
    |m g' e' He Ht|m g' e' t He Ht|m g' e' t m' ms b He Ht Hf|m g' e' He Ht|m];
    try (simpl; intros ->; constructor).
  - unfold connect_reserve in Hr. destruct (try_acquire _); [|done]. injection Hr as <-.
    simpl. intros ->. constructor.
  - unfold connect_publish in Hp. destruct (mg_sessions m !! c'); injection Hp as <- _;
      [rewrite close_session_heap|]; simpl; intros Hl; (eapply entry_insert; [exact Hl|]);
      rewrite Hg; [apply EntryRefused|apply EntryNew].
  - unfold disconnect_remove. destruct (mg_sessions m !! c'); simpl; intros ->; constructor.
  - unfold disconnect_shutdown. simpl. rewrite close_session_heap. intros Hl.
    eapply entry_insert; [exact Hl|]. rewrite He. apply EntryShutdown.
  - simpl. intros Hl. eapply entry_insert; [exact Hl|]. rewrite He. unfold process_events_start.
    destruct (se_closed (en_session e')) eqn:Hc; [exact (EntrySame e')|by apply EntryOpen].
  - simpl. intros Hl. eapply entry_insert; [exact Hl|]. rewrite He. by apply EntryOp.
  - simpl. intros Hl'. eapply entry_insert; [exact Hl'|]. rewrite He.
    destruct (login_event_keeps _ _ _ _ _ _ _ _ _ _ Hl Hp) as (Hc & _ & _ & Hc' & _).
    apply EntryOpen; [done|]. simpl. congruence.
  - simpl. intros Hl. eapply entry_insert; [exact Hl|]. rewrite He. exact (EntrySame e').
  - rewrite close_session_heap. intros Hl. eapply entry_insert; [exact Hl|]. rewrite He. apply EntryShutdown.
  - unfold finish_remove in Hf. destruct (bool_decide _); injection Hf as <- _ _; simpl;
      intros Hl; (eapply entry_insert; [exact Hl|]); rewrite He; exact (EntrySame e').
  - simpl. intros Hl. eapply entry_insert; [exact Hl|]. rewrite He. exact (EntrySame e').
Qed.

Lemma step_heap_keeps m l m' g e :
  manager_step m l m' → mg_heap m !! g = Some e → is_Some (mg_heap m' !! g).
Proof.
  intros Hstep He. destruct Hstep; simpl; rewrite ?lookup_insert_is_Some'; eauto.
  - unfold connect_reserve in *. case_match; simplify_eq. eauto.
  - unfold connect_publish in *. case_match; simplify_eq; rewrite ?close_session_heap;
      simpl; rewrite lookup_insert_is_Some'; eauto.
  - unfold disconnect_remove. case_match; simpl; eauto.
  - unfold disconnect_shutdown. simpl. rewrite close_session_heap, lookup_insert_is_Some'. eauto.
  - rewrite close_session_heap, lookup_insert_is_Some'. eauto.
  - unfold finish_remove in *. case_match; simplify_eq; simpl; rewrite lookup_insert_is_Some'; eauto.
Qed.

(** Nothing carries audio: neither a voice socket nor a bridge. *)
Definition silent (s : UserSession P Sender) : Prop := se_bridge s = false ∧ se_mumble_voice s = None.

(** A closed session: no slot and no handle; [running] says whether the setup task was still
    there when it was closed, and only that task can have attached anything, at its end. *)
Definition stays_down (running : bool) (s : UserSession P Sender) : Prop :=
  se_closed s = true ∧ se_slot s = false ∧ se_voice_setup_task s = false ∧
  (se_setup_running s = true → running = true) ∧
  (running = false ∨ se_setup_running s = true → silent s).

Lemma stays_down_ext b (s s' : UserSession P Sender) :
  stays_down b s → se_closed s' = se_closed s → se_slot s' = se_slot s →
  se_bridge s' = se_bridge s → se_mumble_voice s' = se_mumble_voice s →
  se_voice_setup_task s' = se_voice_setup_task s → se_setup_running s' = se_setup_running s →
  stays_down b s'.
Proof. unfold stays_down, silent. by intros ? -> -> -> -> -> ->. Qed.

Lemma session_op_down b s s' : session_op s s' → stays_down b s → stays_down b s'.
Proof.
  intros [? s0 q|? s0 q n p|s0 um ev cfg now add_track remove_track Hev
    |sh s0 ev|s0 cr addr st Hvt|s0|s0] Hd; [..|exact Hd].
  - destruct (session_rest_fields _ _ (vp_rest _ _ (session_request_progress s0 q)))
      as ((? & ? & _) & (? & ? & ? & ?) & _). by eapply stays_down_ext.
  - destruct (session_rest_fields _ _ (vp_rest _ _ (dropped_progress s0 q n p)))
      as ((? & ? & _) & (? & ? & ? & ?) & _). by eapply stays_down_ext.
  - destruct ev as [[]|]; simpl; try done;
      [destruct (bool_decide _); [done|]; destruct (ws_started _); [|done];
       by destruct (SpeakerTracks_add _ _ _)|by destruct (SpeakerTracks_remove _ _ _)].
  - destruct ev as [[]|]; simpl; try done; by destruct (WebrtcSession_offer _ _).
  - destruct Hd as (Hc & Hs & Hh & Hr & Hq). specialize (Hr Hvt). subst b.
    unfold voice_setup. destruct cr, addr as [a|]; try destruct (st a) as [v|];
      try destruct (MumbleVoice_take_channels v) as [v' []];
      (split_and!; [done..|by intros [?|?]]).
  - destruct Hd as (Hc & Hs & Hh & Hr & Hq). unfold setup_cancelled. rewrite Hh.
    split_and!; [done..|]. intros [Hb|?]; [|done]. by apply Hq; left.
Qed.

(** A closed session stays closed. *)
Lemma entry_step_down b e s : entry_step (Some e) s → stays_down b (en_session e) → stays_down b s.
Proof.
  intros Hs Hd. inversion Hs; subst; try done.
  - by eapply session_op_down.
  - destruct Hd as (Hc & Hn & Hd). unfold shutdown_user_session. by rewrite Hn.
  - destruct Hd as (Hc & _). congruence.
Qed.

Lemma entry_step_closed e s :
  entry_step (Some e) s → se_closed (en_session e) = true → se_closed s = true.
Proof.
  intros Hs Hc. inversion Hs; subst; try done; try congruence.
  - match goal with Hop : session_op _ _ |- _ => apply session_op_keeps in Hop as [_ ->] end. done.
  - unfold shutdown_user_session. by destruct (se_slot _).
Qed.

(** The step that closes a session. *)
Lemma entry_step_closes o s :
  entry_step o s → se_closed s = true →
  (∀ e, o = Some e → se_closed (en_session e) = false ∧ se_slot (en_session e) = true) →
  silent s ∧ stays_down (se_setup_running s) s.
Proof.
  intros Hs Hc Ho. destruct Hs as [e|e s Hop|e|e s _ Hs|p u|p u]; try done.
  - destruct (Ho e eq_refl). congruence.
  - destruct (Ho e eq_refl). apply session_op_keeps in Hop as [_ Hk]. congruence.
  - destruct (Ho e eq_refl) as [_ Hsl]. unfold shutdown_user_session. by rewrite Hsl.
  - congruence.
Qed.

Lemma run_stays_down b m m' g e :
  rtc (λ m m', ∃ l, manager_step m l m') m m' → mg_heap m !! g = Some e →
  stays_down b (en_session e) →
  ∃ e', mg_heap m' !! g = Some e' ∧ stays_down b (en_session e').
Proof.
  intros Hrun. revert e. induction Hrun as [m|m m1 m2 [l Hstep] _ IH]; intros e He Hd; [eauto|].
  destruct (step_heap_keeps _ _ _ _ _ Hstep He) as [e1 He1]. apply (IH e1 He1).
  pose proof (step_entry _ _ _ _ _ Hstep He1) as Hs. rewrite He in Hs. by eapply entry_step_down.
Qed.

(** C18: a session that has been shut down stays shut down. In every interleaving, the step
    that closes a session leaves it without slot, voice socket, bridge and handle of the
    voice setup; and however the run goes on, it stays closed, without slot and handle.
    Unless the setup task was still there when it was closed, it also stays without voice
    socket and bridge: no request, event or second shutdown brings one back. That task,
    which an abort only reaches at its next await, is the one exception: nothing is
    attached while it is there. *)
Theorem closed_session_stays_down cap m l m1 g e m2 :
  0 ≤ cap → reachable cap m → manager_step m l m1 →
  mg_heap m1 !! g = Some e → se_closed (en_session e) = true →
  (∀ e0, mg_heap m !! g = Some e0 → se_closed (en_session e0) = false) →
  rtc (λ m m', ∃ l, manager_step m l m') m1 m2 →
  (se_slot (en_session e) = false ∧ se_voice_setup_task (en_session e) = false ∧
   se_bridge (en_session e) = false ∧ se_mumble_voice (en_session e) = None) ∧
  ∃ e2, mg_heap m2 !! g = Some e2 ∧ se_closed (en_session e2) = true ∧
    se_slot (en_session e2) = false ∧ se_voice_setup_task (en_session e2) = false ∧
    (se_setup_running (en_session e) = false ∨ se_setup_running (en_session e2) = true →
     se_bridge (en_session e2) = false ∧ se_mumble_voice (en_session e2) = None).
Proof.
  intros Hcap Hr Hstep He Hc Hopen Hrun.
  destruct (entry_step_closes _ _ (step_entry _ _ _ _ _ Hstep He) Hc) as [[Hb Hv] Hd].
  { intros e0 He0. specialize (Hopen e0 He0). split; [done|].
    destruct (inv_heap _ _ (reachable_inv cap m Hcap Hr) g e0 He0) as [Hn _].
    rewrite Hopen in Hn. by destruct (se_slot (en_session e0)). }
  destruct (run_stays_down _ _ _ _ _ Hrun He Hd) as (e2 & He2 & Hc2 & Hs2 & Hh2 & _ & Hq2).
  destruct Hd as (_ & Hs & Hh & _). split; [done|]. by exists e2.
Qed.
End Manager.
Arguments Manager P Sender S : clear implicits.
Arguments Entry P Sender : clear implicits.

(** ** Concrete runs *)

Definition test_manager : Manager TestPeer unit Z := SessionManager_new 2.

(** A user has connected; their event task runs, breaks with an error and shuts down. *)
Definition test_reserved : Manager TestPeer unit Z :=
  set_connecting (set_slots test_manager 1) {[1%nat := "c"]}.
Definition test_connected : Manager TestPeer unit Z :=
  (connect_publish test_reserved 1 10 "c" (UserSession_new TestPeer_new "u")).1.

Lemma test_connected_reachable : reachable 2 test_connected.
Proof.
  apply (reach_step 2 test_reserved (LPublish 1 10 "c")); [apply (reach_step 2 test_manager (LReserve 1 "c"))|].
  - constructor.
  - by apply (StepReserve test_manager 1 "c").
  - by eapply (StepPublish test_reserved 1 "c" 10 TestPeer_new "u").
Qed.

Definition test_running : Manager TestPeer unit Z :=
  set_heap test_connected
    (<[10%nat := mkEntry "c" (default (UserSession_new TestPeer_new "u")
         (process_events_start (UserSession_new TestPeer_new "u"))) TaskRunning]>
       (mg_heap test_connected)).

Definition test_error : ServerMessage := ServerMessage_error "mumble_disconnected" "kicked".

Definition test_entry : Entry TestPeer unit :=
  mkEntry "c" (default (UserSession_new TestPeer_new "u")
    (process_events_start (UserSession_new TestPeer_new "u"))) TaskRunning.

Definition test_finishing : Manager TestPeer unit Z :=
  close_session test_running 10 test_entry (TaskFinishing (Some test_error)).

Lemma test_running_reachable : reachable 2 test_running.
Proof.
  apply (reach_step 2 test_connected (LEventStart 10)); [apply test_connected_reachable|].
  by apply (StepEventStart test_connected 10 (mkEntry "c" (UserSession_new TestPeer_new "u") TaskSpawned)).
Qed.

Lemma test_finishing_reachable : reachable 2 test_finishing.
Proof.
  apply (reach_step 2 test_running (LFinishShutdown 10)).
  - apply test_running_reachable.
  - by apply (StepFinishShutdown test_running 10 test_entry (Some test_error)).
Qed.

Lemma session_capacity_witness :
  available (mg_slots test_connected) = 1 ∧
  available (mg_slots test_connected) + Z.of_nat (size (mg_connecting test_connected))
    + Z.of_nat (size (slot_holders (mg_heap test_connected))) = 2.
Proof.
  split; [reflexivity|].
  destruct (session_capacity 2 test_connected) as (_ & Hs & _);
    [lia|apply test_connected_reachable|exact Hs].
Defined.

(** The event task removes its own session and only then reports the error. *)
Lemma only_own_generation_witness :
  ∃ g e, mg_sessions test_finishing !! "c" = Some g ∧ mg_heap test_finishing !! g = Some e ∧
    en_task e = TaskFinishing (Some test_error) ∧ se_slot (en_session e) = false ∧
    mg_sessions (finish_remove test_finishing 10
      (mkEntry "c" (shutdown_user_session (en_session test_entry)).1
         (TaskFinishing (Some test_error))) (Some test_error)).1.1 !! "c" = None.
Proof.
  refine (proj2 (only_own_generation 2 test_finishing (LFinishRemove 10 "c" [test_error])
    (finish_remove test_finishing 10
      (mkEntry "c" (shutdown_user_session (en_session test_entry)).1
         (TaskFinishing (Some test_error))) (Some test_error)).1.1 _ _ _) "c" test_error _).
  - lia.
  - apply test_finishing_reachable.
  - eapply (StepFinishRemove test_finishing 10
      (mkEntry "c" (shutdown_user_session (en_session test_entry)).1
         (TaskFinishing (Some test_error))) (Some test_error) _ [test_error] true); reflexivity.
  - left.
Defined.

Lemma connect_user_spec_witness :
  let r := SessionManager_connect_user test_connected 2 11 "d" "v" (Ok TestPeer_new) in
  r.2 = Ok tt ∧ available (mg_slots r.1) = available (mg_slots test_connected) - 1.
Proof.
  intros r. split; [reflexivity|].
  pose proof (connect_user_spec 2 test_connected 2 11 "d" "v" (Ok TestPeer_new)
    ltac:(lia) test_connected_reachable eq_refl eq_refl) as Hs.
  exact (proj1 (proj2 (proj2 (proj2 (proj2 (proj2 (proj2 Hs))))))).
Defined.

Lemma close_drains_witness :
  mg_sessions (SessionManager_close test_connected ["c"]) = ∅ ∧
  available (mg_slots (SessionManager_close test_connected ["c"])) = 2.
Proof.
  destruct (close_drains 2 test_connected ["c"]) as (H1 & H2 & _).
  - lia.
  - apply test_connected_reachable.
  - reflexivity.
  - reflexivity.
  - intros c Hc. destruct (decide (c = "c")) as [->|Hne]; [left|]. exfalso.
    change (mg_sessions test_connected) with (<["c" := 10%nat]> (∅ : gmap string nat)) in Hc.
    rewrite lookup_insert_ne, lookup_empty in Hc by done. by destruct Hc.
  - exact (conj H1 H2).
Defined.

Definition test_closed_entry : Entry TestPeer unit :=
  mkEntry "c" (shutdown_user_session (en_session test_entry)).1 (TaskFinishing (Some test_error)).

Lemma closed_session_stays_down_witness :
  mg_heap test_finishing !! 10%nat = Some test_closed_entry ∧
  se_slot (en_session test_closed_entry) = false ∧
  ∃ e2, mg_heap test_finishing !! 10%nat = Some e2 ∧ se_closed (en_session e2) = true.
Proof.
  split; [reflexivity|].
  destruct (closed_session_stays_down 2 test_running (LFinishShutdown 10) test_finishing 10
    test_closed_entry test_finishing) as ((Hs & _) & e2 & He2 & Hc2 & _).
  - lia.
  - exact test_running_reachable.
  - by apply (StepFinishShutdown test_running 10 test_entry (Some test_error)).
  - reflexivity.
  - reflexivity.
  - intros e0. vm_compute. by intros [= <-].
  - apply rtc_refl.
  - split; [exact Hs|]. by exists e2.
Defined.

(** The exception is real: a setup task that no await stops finds the lock free after the
    shutdown and attaches voice socket and bridge to the closed session, whose second
    shutdown does nothing. *)
Example late_setup_attaches :
  let voice := mkMumbleVoiceHandle true true true in
  let s := (voice_setup (en_session test_closed_entry) true (Some (SocketV4 LOCALHOST 1))
              (λ _, Ok voice)).1 in
  manager_step test_finishing (LSession 10)
    (set_heap test_finishing (<[10%nat := with_session test_closed_entry s]> (mg_heap test_finishing))) ∧
  se_closed s = true ∧ se_bridge s = true ∧ is_Some (se_mumble_voice s) ∧
  shutdown_user_session s = (s, []).
Proof.
  split; [|by vm_compute; eauto]. apply StepSession; [reflexivity|]. by apply OpVoiceSetup.
Qed.
