(* ===== verification/EventTask.v ===== *)
(** * The event task of a session as steps of the manager ([process_events] in
      [src/src/session.rs])

    [EventLoop] runs the loop of [process_events] in detail: queues, notifications, the order
    of the branches. [Manager] only says what such a task may do to its session between two
    lock acquisitions. Here the detailed task is put into the manager: its start, every turn
    of its loop, what other tasks do to the session meanwhile, and [finish_session] are runs
    of manager steps, so that everything proved of the manager holds with the real loop. *)

From Stdlib Require Import ZArith Lia.
From stdpp Require Import base tactics list gmap strings option sets fin_maps relations.
From S2P Require Import Prelude Messages Credentials Net Speakers Voice MumbleClient Negotiation Semaphore.
From S2P Require Import Session Await EventLoop Manager.
Local Open Scope Z_scope.

Section EventTask.
Context {P Sender S : Type} `{PeerConnection P} `{Semaphore S} `{!SetIter Z}.
Variable show_state : RTCPeerConnectionState → string.
Implicit Types (m : Manager P Sender S) (e : Entry P Sender) (l : Loop (P := P) (Sender := Sender)).

(** ** Runs of the manager *)

Inductive manager_run : Manager P Sender S → list manager_label → Manager P Sender S → Prop :=
| run_nil m : manager_run m [] m
| run_cons m1 lab m2 labs m3 :
    manager_step m1 lab m2 → manager_run m2 labs m3 → manager_run m1 (lab :: labs) m3.

Definition run_messages (labs : list manager_label) : list (string * ServerMessage) :=
  labs ≫= label_messages.

Lemma manager_run_app m1 labs1 m2 labs2 m3 :
  manager_run m1 labs1 m2 → manager_run m2 labs2 m3 → manager_run m1 (labs1 ++ labs2) m3.
Proof. induction 1; [done|]. intros. econstructor; eauto. Qed.

Lemma manager_run_one m lab m' : manager_step m lab m' → manager_run m [lab] m'.
Proof. intros. econstructor; [done|constructor]. Qed.

Lemma manager_run_reachable cap m labs m' :
  reachable cap m → manager_run m labs m' → reachable cap m'.
Proof. intros Hr Hrun. induction Hrun; [done|]. by eapply IHHrun, reach_step. Qed.

(** A run that sends nothing. *)
Definition silent_run m m' : Prop := ∃ labs, manager_run m labs m' ∧ run_messages labs = [].

#[local] Instance silent_run_refl : Reflexive silent_run.
Proof. intros m. exists []. split; [constructor|done]. Qed.

#[local] Instance silent_run_trans : Transitive silent_run.
Proof.
  intros m1 m2 m3 (l1 & H1 & Hm1) (l2 & H2 & Hm2). exists (l1 ++ l2).
  split; [by eapply manager_run_app|]. unfold run_messages in *. by rewrite bind_app, Hm1, Hm2.
Qed.

Lemma silent_step m lab m' : manager_step m lab m' → label_messages lab = [] → silent_run m m'.
Proof.
  intros Hs Hl. exists [lab]. split; [by apply manager_run_one|]. unfold run_messages. simpl. by rewrite Hl.
Qed.

(** ** The detailed task inside the manager *)

(** Session [g] of connection [c] is the one the loop works on; [current] says whether it is
    still in the map, and then it has its slot. *)
Record task_at m (g : nat) (c : string) (current : bool) l : Prop := {
  ta_entry : mg_heap m !! g = Some (mkEntry c (lo_session l) TaskRunning);
  ta_slot : se_slot (lo_session l) = current;
  ta_map : mg_sessions m !! c = Some g ↔ current = true
}.

(** Another task shutting the session down. *)
Definition is_shutdown (i : loop_input (P := P) (Sender := Sender)) : bool :=
  match i with LiRequest RqShutdown => true | _ => false end.

Lemma task_at_same m g c b l l' :
  task_at m g c b l → lo_session l' = lo_session l → task_at m g c b l'.
Proof. intros [H1 H2 H3] Hs. split; [by rewrite Hs|by rewrite Hs|done]. Qed.

(** A step inside the session. *)
Lemma task_at_op m g c b l l' :
  task_at m g c b l → session_op (lo_session l) (lo_session l') →
  ∃ m', silent_run m m' ∧ task_at m' g c b l'.
Proof.
  intros [H1 H2 H3] Hop. eexists. split.
  - eapply silent_step; [by eapply (StepSession m g); [exact H1|exact Hop]|done].
  - apply session_op_keeps in Hop as [Hs _]. split; simpl; [by rewrite lookup_insert_eq|congruence|done].
Qed.

(** The login: recorded, then answered with an ICE configuration. *)
Lemma task_at_login m g c b l l' um event cfg now at_ rt um' ef :
  task_at m g c b l → is_login_event event = true →
  process_mumble_event (lo_session l) um event cfg now at_ rt = (lo_session l', um', ef, Continue) →
  ∃ m', silent_run m m' ∧ task_at m' g c b l'.
Proof.
  intros [H1 H2 H3] Hl Hp.
  assert (Hslot : se_slot (lo_session l') = se_slot (lo_session l)).
  { destruct event as [[]|]; try done. simpl in Hp. destruct (se_closed _); [done|].
    injection Hp as <- _ _. done. }
  eexists. split; [etrans; eapply silent_step|].
  - eapply (StepConnected m g); [exact H1|done|exact Hl|exact Hp].
  - done.
  - eapply (StepIssued _ g); [simpl; by rewrite lookup_insert_eq|done].
  - done.
  - split; simpl; [by rewrite lookup_insert_eq|congruence|done].
Qed.

(** An event that breaks the loop leaves the session as it is. *)
Lemma login_break (s : UserSession P Sender) um event cfg now at_ rt s' um' ef t :
  is_login_event event = true →
  process_mumble_event s um event cfg now at_ rt = (s', um', ef, Break t) → s' = s.
Proof.
  intros Hl. destruct event as [[]|]; try done. simpl. destruct (se_closed s); [|done].
  by intros [= <- <- <- <-].
Qed.

Context `{!SemaphoreLaws S}.

(** [disconnect_user] by another task: the session leaves the map, then is shut down. *)
Lemma task_at_shutdown m g c b l l' :
  task_at m g c b l → lo_session l' = (shutdown_user_session (lo_session l)).1 →
  ∃ m', silent_run m m' ∧ task_at m' g c false l'.
Proof.
  intros [H1 H2 H3] Hs. destruct b.
  - assert (Hrm : disconnect_remove m c
      = set_closing (set_sessions m (delete c (mg_sessions m))) (g :: mg_closing m)).
    { unfold disconnect_remove. by rewrite (proj2 H3 eq_refl). }
    pose proof (StepDisconnectRemove m c) as Hst. rewrite Hrm in Hst.
    eexists. split; [etrans; eapply silent_step|].
    + exact Hst.
    + done.
    + eapply (StepDisconnectShutdown _ g); [simpl; left|exact H1].
    + done.
    + unfold shutdown_user_session in Hs. rewrite H2 in Hs. simpl in Hs.
      split; simpl; [|by rewrite Hs|].
      * rewrite close_session_heap. simpl. rewrite lookup_insert_eq, Hs. simpl.
        unfold shutdown_user_session. by rewrite H2.
      * unfold close_session. destruct (se_slot _); simpl; by rewrite lookup_delete_eq.
  - exists m. split; [done|]. unfold shutdown_user_session in Hs. rewrite H2 in Hs. simpl in Hs.
    by apply (task_at_same m g c false l).
Qed.

Lemma task_at_mumble m g c b l env event :
  task_at m g c b l →
  ∃ m', silent_run m m' ∧ task_at m' g c b (loop_branch show_state l env (BrMumble event)).1.
Proof.
  intros Ht. unfold loop_branch.
  destruct (process_mumble_event _ _ _ _ _ _ _) as [[[s um] ef] ctl] eqn:Hp.
  destruct (is_login_event event) eqn:Hl.
  - destruct ctl as [|t].
    + eapply task_at_login; [exact Ht|exact Hl|exact Hp].
    + exists m. split; [done|]. apply (task_at_same m g c b l); [done|]. simpl. by eapply login_break.
  - apply (task_at_op m g c b l); [done|]. simpl.
    pose proof (OpMumbleEvent (lo_session l) (lo_user_map l) event (ev_cfg env) (ev_now env)
      (ev_add_track env) (ev_remove_track env) Hl) as Hop.
    by rewrite Hp in Hop.
Qed.

Lemma task_at_turn m g c b l env :
  task_at m g c b l → ∃ m', silent_run m m' ∧ task_at m' g c b (loop_turn show_state l env).1.
Proof.
  intros Ht. unfold loop_turn. destruct (lo_ended l); [by exists m|].
  destruct (loop_select l) as [br|]; [|by exists m]. destruct br as [| |event|event].
  - apply (task_at_op m g c b l); [done|]. apply OpTakeNotify.
  - exists m. split; [done|]. by apply (task_at_same m g c b l).
  - by apply task_at_mumble.
  - apply (task_at_op m g c b l); [done|]. unfold loop_branch.
    pose proof (OpWebrtcEvent show_state (lo_session l) event) as Hop.
    by destruct (process_webrtc_event _ _ _) as [[s ef] ctl].
Qed.

(** One input of the detailed task is a silent run of the manager. *)
Lemma task_at_step m g c b l i :
  task_at m g c b l →
  ∃ m', silent_run m m' ∧ task_at m' g c (b && negb (is_shutdown i)) (loop_step show_state l i).1.
Proof.
  intros Ht. destruct i as [ev| |ev| | |r|env]; simpl (is_shutdown _); rewrite ?andb_true_r;
    try (exists m; split; [done|]; by apply (task_at_same m g c b l)).
  - unfold loop_step. destruct r as [q|q n p|crypt addr start| |];
      simpl (is_shutdown _); rewrite ?andb_true_r; simpl.
    + apply (task_at_op m g c b l); [done|].
      pose proof (OpRequest (lo_session l) q) as Hop. by destruct (session_request _ _) as [[s ef] r].
    + apply (task_at_op m g c b l); [done|]. apply OpDropped.
    + destruct (se_setup_running (lo_session l)) eqn:Hv.
      * apply (task_at_op m g c b l); [done|].
        pose proof (OpVoiceSetup (lo_session l) crypt addr start Hv) as Hop.
        by destruct (voice_setup _ _ _ _) as [s ef].
      * exists m. split; [done|]. by apply (task_at_same m g c b l).
    + apply (task_at_op m g c b l); [done|]. apply OpSetupCancelled.
    + rewrite andb_false_r. apply (task_at_shutdown m g c b l); [done|].
      by destruct (shutdown_user_session (lo_session l)).
  - by apply task_at_turn.
Qed.

Lemma task_at_run ins : ∀ m g c b l,
  task_at m g c b l →
  ∃ m', silent_run m m' ∧
    task_at m' g c (b && negb (existsb is_shutdown ins)) (loop_run show_state l ins).1.
Proof.
  induction ins as [|i ins IH]; intros m g c b l Ht.
  { exists m. split; [done|]. by rewrite andb_true_r. }
  destruct (task_at_step m g c b l i Ht) as (m1 & Hr1 & Ht1).
  cbn [loop_run existsb]. destruct (loop_step show_state l i) as [l1 ef1].
  destruct (IH _ _ _ _ _ Ht1) as (m2 & Hr2 & Ht2). exists m2. split; [by etrans|].
  cbn [fst] in Ht2. rewrite negb_orb, andb_assoc.
  by destruct (loop_run show_state l1 ins) as [l2 ef2].
Qed.

(** [finish_session] and the revocation, once the loop has broken with [terminal]. *)
Lemma task_at_finish m g c b l terminal :
  task_at m g c b l →
  ∃ labs m', manager_run m labs m' ∧
    run_messages labs = (if b then pair c <$> option_list terminal else []) ∧
    mg_heap m' !! g = Some (mkEntry c (shutdown_user_session (lo_session l)).1 TaskDone) ∧
    mg_sessions m' !! c ≠ Some g.
Proof.
  intros [H1 H2 H3]. pose (e1 := mkEntry c (shutdown_user_session (lo_session l)).1 (TaskFinishing terminal)).
  pose (m1 := close_session m g (mkEntry c (lo_session l) TaskRunning) (TaskFinishing terminal)).
  assert (Hh1 : mg_heap m1 !! g = Some e1).
  { unfold m1. rewrite close_session_heap. simpl. by rewrite lookup_insert_eq. }
  assert (Hs1 : mg_sessions m1 = mg_sessions m) by (unfold m1, close_session; by destruct (se_slot _)).
  destruct (finish_remove m1 g e1 terminal) as [[m2 msgs] removed] eqn:Hf.
  assert (Hst : manager_step m1 (LFinishRemove g c msgs) m2) by by eapply (StepFinishRemove m1 g e1).
  unfold finish_remove in Hf. simpl in Hf. rewrite Hs1 in Hf.
  assert (Hm2 : mg_heap m2 !! g = Some (with_task e1 TaskRevoking) ∧
    mg_sessions m2 !! c ≠ Some g ∧ msgs = if b then option_list terminal else []).
  { destruct (bool_decide (mg_sessions m !! c = Some g)) eqn:Hb; bool_to_prop; simplify_eq; simpl;
      (split; [by rewrite lookup_insert_eq|]).
    - rewrite lookup_delete_eq. split; [done|]. by rewrite (proj1 H3 Hb).
    - rewrite Hs1. split; [done|]. destruct (se_slot (lo_session l)); [|done].
      by destruct (Hb (proj2 H3 eq_refl)). }
  destruct Hm2 as (Hh2 & Hn & ->). eexists _, _. split_and!.
  - eapply run_cons; [by apply (StepFinishShutdown m g (mkEntry c (lo_session l) TaskRunning) terminal)|].
    eapply run_cons; [exact Hst|]. apply manager_run_one. by eapply (StepRevoked m2 g).
  - unfold run_messages. simpl. rewrite app_nil_r. by destruct b.
  - simpl. by rewrite lookup_insert_eq.
  - done.
Qed.

(** C11: the event task is a run of the manager. Take a session in the map whose event task has
    been spawned, and any inputs that make its loop break: events of Mumble and of the peer
    connection in any order, the end of either channel or of the browser's, requests of the
    browser, the voice setup, another task shutting the session down. Then the task, from
    its start to the revocation, is a sequence of the manager's steps; it ends with the
    session shut down, out of the map and its task over; and the terminal error of the loop
    is sent to the connection exactly when nobody else had shut the session down before. *)
Theorem event_task_refines_manager cap m g c s0 s ins l effects terminal :
  0 ≤ cap → reachable cap m →
  mg_heap m !! g = Some (mkEntry c s0 TaskSpawned) → mg_sessions m !! c = Some g →
  process_events_start s0 = Some s →
  loop_run show_state (loop_start s) ins = (l, effects) → lo_ended l = Some terminal →
  ∃ labs m', manager_run m labs m' ∧ reachable cap m' ∧
    run_messages labs
      = (if existsb is_shutdown ins then [] else pair c <$> option_list terminal) ∧
    mg_heap m' !! g = Some (mkEntry c (shutdown_user_session (lo_session l)).1 TaskDone) ∧
    se_slot (shutdown_user_session (lo_session l)).1 = false ∧
    mg_sessions m' !! c ≠ Some g.
Proof.
  intros Hcap Hr Hg Hc Hstart Hrun Hend.
  pose proof (StepEventStart m g _ Hg eq_refl) as Hs. simpl in Hs. rewrite Hstart in Hs.
  assert (Hslot : se_slot s = true).
  { destruct (inv_map _ _ (reachable_inv cap m Hcap Hr) c g Hc) as (e & He & _ & Hlive).
    rewrite Hg in He. injection He as <-. simpl in Hlive. unfold process_events_start in Hstart.
    destruct (se_closed s0); [done|]. by injection Hstart as <-. }
  assert (Ht : task_at (set_heap m (<[g := mkEntry c s TaskRunning]> (mg_heap m))) g c true
    (loop_start s)) by (split; simpl; [by rewrite lookup_insert_eq|done|done]).
  destruct (task_at_run ins _ _ _ _ _ Ht) as (m1 & (labs1 & Hr1 & Hm1) & Ht1).
  rewrite Hrun in Ht1. destruct (task_at_finish m1 g c _ l terminal Ht1) as (labs2 & m2 & Hr2 & Hm2 & Hh & Hn).
  assert (Hall : manager_run m (LEventStart g :: labs1 ++ labs2) m2)
    by (eapply run_cons; [exact Hs|by eapply manager_run_app]).
  exists (LEventStart g :: labs1 ++ labs2), m2. split_and!; [done|by eapply manager_run_reachable| | | |done].
  - unfold run_messages in *. simpl. rewrite bind_app, Hm1, Hm2. simpl.
    by destruct (existsb is_shutdown ins).
  - done.
  - unfold shutdown_user_session. by destruct (se_slot (lo_session l)) eqn:Hsl.
Qed.
End EventTask.

(** Mumble kicks the user: the loop ends, and the browser hears why. *)
Definition kicked_inputs : list (loop_input (P := TestPeer) (Sender := unit)) :=
  [LiMumble (MeDisconnected "kicked"); LiTurn (mkEventEnv (mkIceConfig [] None) 0 (λ _, Ok tt) (λ _, Ok tt))].

Lemma event_task_refines_manager_witness :
  ∃ labs m', manager_run test_connected labs m' ∧ reachable 2 m' ∧
    run_messages labs = [("c", test_error)] ∧ mg_sessions m' !! "c" ≠ Some 10%nat.
Proof.
  destruct (event_task_refines_manager (λ _, "") 2 test_connected 10 "c"
    (UserSession_new TestPeer_new "u")
    (default (UserSession_new TestPeer_new "u") (process_events_start (UserSession_new TestPeer_new "u")))
    kicked_inputs
    (loop_run (λ _, "") (loop_start (default (UserSession_new TestPeer_new "u")
       (process_events_start (UserSession_new TestPeer_new "u")))) kicked_inputs).1
    (loop_run (λ _, "") (loop_start (default (UserSession_new TestPeer_new "u")
       (process_events_start (UserSession_new TestPeer_new "u")))) kicked_inputs).2
    (Some test_error)) as (labs & m' & H1 & H2 & H3 & _ & _ & H6);
    [lia|apply test_connected_reachable|reflexivity..|].
  exists labs, m'. split_and!; [exact H1|exact H2|exact H3|exact H6].
Defined.
