(* ===== verification/Handler.v ===== *)
(** * The WebSocket handler ([src/src/ws/handler.rs])

    Two tasks serve a browser: the receive loop parses messages and calls the session
    manager, and the send task forwards server messages and pings. The manager is seen
    through its calls: [invoke] gives the result of a call, and the calls made are part of
    the output. JSON parsing and the socket itself are inputs. *)

From Stdlib Require Import ZArith Lia.
From stdpp Require Import base tactics list strings option sets.
From S2P Require Import Prelude Text Credentials Messages.
Local Open Scope Z_scope.

(** The calls of the handler on [SessionManager], for its own connection id. *)
Inductive ApiCall :=
| CallConnectUser (username : string)
| CallDisconnectUser
| CallHandleAnswer (sdp : string)
| CallStartVoice (restart : bool)
| CallRefreshIce
| CallAddIceCandidate (data : IceCandidateData)
| CallSendChat (channel_id : Z) (message : string)
| CallJoinChannel (channel_id : Z)
| CallSetMute (muted : bool)
| CallSetDeaf (deafened : bool)
| CallRevokeTurn.

(** [str::len]: bytes. *)
Definition byte_len (s : string) : Z := Z.of_nat (String.length s).

Section Handler.
Variable invoke : ApiCall → result unit.

(** A call whose error goes to the browser under [code]. *)
Definition call_reporting (c : ApiCall) (code : string) : list ApiCall * list ServerMessage :=
  ([c], match invoke c with Ok _ => [] | Err e => [ServerMessage_error code e] end).

Definition handle_client_message (msg : ClientMessage) : list ApiCall * list ServerMessage :=
  match msg with
  | CmConnect username =>
      if is_empty (trim username) || (128 <? byte_len username)
      then ([], [ServerMessage_error "connect_failed" "invalid username"])
      else call_reporting (CallConnectUser username) "connect_failed"
  | CmDisconnect => ([CallDisconnectUser], [])
  | CmOffer _ =>
      ([], [ServerMessage_error "upgrade_required"
              "MumDota protocol v2 requires start_voice and server SDP offers; refresh the web client"])
  | CmAnswer sdp => call_reporting (CallHandleAnswer sdp) "voice_error"
  | CmStartVoice => call_reporting (CallStartVoice false) "voice_error"
  | CmIceRestart => call_reporting (CallStartVoice true) "voice_error"
  | CmIceRefresh => call_reporting CallRefreshIce "voice_error"
  | CmIceCandidate data => call_reporting (CallAddIceCandidate data) "ice_failed"
  | CmChatSend channel_id message =>
      if 4096 <? byte_len message
      then ([], [ServerMessage_error "chat_failed" "message exceeds 4096 bytes"])
      else call_reporting (CallSendChat channel_id message) "chat_failed"
  | CmChannelJoin channel_id => call_reporting (CallJoinChannel channel_id) "channel_join_failed"
  | CmMute muted => call_reporting (CallSetMute muted) "mute_failed"
  | CmDeafen deafened => call_reporting (CallSetDeaf deafened) "deafen_failed"
  end.

(** ** The receive loop *)

(** What the [select!] yields: the send task ended, the server is stopping, the deadline
    passed, the stream ended or failed, or a frame. [timed_out] says that the fifteen
    seconds for handling the message were over: its calls may not have completed. *)
Inductive WsInput :=
| WsSendTaskEnded
| WsStopping
| WsDeadline
| WsStreamEnd
| WsError
| WsText (parsed : result ClientMessage) (timed_out : bool)
| WsClose
| WsPing
| WsOther.

(** The deadline of the next receive. *)
Definition receive_deadline (first_message : bool) (first_deadline now : Z) : Z :=
  if first_message then first_deadline else now + ms 45000.

Record WsOutput := mkWsOutput { wo_calls : list ApiCall; wo_sent : list ServerMessage }.

Definition is_connect (msg : ClientMessage) : bool :=
  match msg with CmConnect _ => true | _ => false end.
Definition is_disconnect (msg : ClientMessage) : bool :=
  match msg with CmDisconnect => true | _ => false end.

(** One turn: the new [first_message] flag ([None]: the loop breaks), and the output. *)
Definition ws_step (first_message : bool) (i : WsInput) : option bool * WsOutput :=
  match i with
  | WsText (Ok msg) timed_out =>
      if first_message && negb (is_connect msg) then (None, mkWsOutput [] [])
      else if is_disconnect msg then (None, mkWsOutput [] [])
      else
        let '(calls, sent) := handle_client_message msg in
        if timed_out then (None, mkWsOutput calls []) else (Some false, mkWsOutput calls sent)
  | WsText (Err e) _ =>
      (Some first_message,
       mkWsOutput [] [ServerMessage_error "invalid_message" ("Failed to parse message: " +:+ e)])
  | WsPing | WsOther => (Some first_message, mkWsOutput [] [])
  | WsSendTaskEnded | WsStopping | WsDeadline | WsStreamEnd | WsError | WsClose =>
      (None, mkWsOutput [] [])
  end.

(** The loop; [None] while it has not ended. *)
Fixpoint ws_loop (first_message : bool) (ins : list WsInput) : bool * WsOutput :=
  match ins with
  | [] => (false, mkWsOutput [] [])
  | i :: ins =>
      let '(next, o1) := ws_step first_message i in
      match next with
      | None => (true, o1)
      | Some first_message =>
          let '(ended, o2) := ws_loop first_message ins in
          (ended, mkWsOutput (wo_calls o1 ++ wo_calls o2) (wo_sent o1 ++ wo_sent o2))
      end
  end.

(** [handle_ws_connection]: the loop, and the cleanup once it has ended. *)
Definition handle_ws_connection (ins : list WsInput) : bool * WsOutput :=
  let '(ended, o) := ws_loop true ins in
  (ended, if ended
          then mkWsOutput (wo_calls o ++ [CallDisconnectUser; CallRevokeTurn]) (wo_sent o)
          else o).

(** ** Properties of the receive loop *)

Definition is_cleanup (c : ApiCall) : bool :=
  match c with CallDisconnectUser | CallRevokeTurn => true | _ => false end.

(** What the limits of the protocol say about a call. *)
Definition call_within_limits (c : ApiCall) : Prop :=
  match c with
  | CallConnectUser username => is_empty (trim username) = false ∧ byte_len username ≤ 128
  | CallSendChat _ message => byte_len message ≤ 4096
  | _ => True
  end.

Lemma handle_message_calls msg :
  is_disconnect msg = false →
  Forall (λ c, is_cleanup c = false ∧ call_within_limits c) (handle_client_message msg).1.
Proof.
  intros Hd. destruct msg; simpl in *; try done; try (by repeat constructor).
  - destruct (is_empty _ || _) eqn:He; [constructor|]. bool_to_prop. by repeat constructor.
  - destruct (4096 <? _) eqn:He; [constructor|]. bool_to_prop. by repeat constructor.
Qed.

Lemma ws_step_calls first i :
  Forall (λ c, is_cleanup c = false ∧ call_within_limits c) (wo_calls (ws_step first i).2).
Proof.
  destruct i as [| | | | |[msg|e] timed_out| | |]; simpl; try constructor.
  destruct (first && negb (is_connect msg)); [constructor|].
  destruct (is_disconnect msg) eqn:Hd; [constructor|].
  pose proof (handle_message_calls msg Hd) as Hm. destruct (handle_client_message msg) as [cs sent].
  by destruct timed_out.
Qed.

Lemma ws_loop_calls ins : ∀ first,
  Forall (λ c, is_cleanup c = false ∧ call_within_limits c) (wo_calls (ws_loop first ins).2).
Proof.
  induction ins as [|i ins IH]; intros first; [constructor|]. simpl.
  pose proof (ws_step_calls first i) as Hs. destruct (ws_step first i) as [[f|] o1]; [|done].
  specialize (IH f). destruct (ws_loop f ins) as [ended o2]. simpl in *. by apply Forall_app.
Qed.

(** The first message that parses. *)
Fixpoint first_parsed (ins : list WsInput) : option ClientMessage :=
  match ins with
  | [] => None
  | WsText (Ok msg) _ :: _ => Some msg
  | _ :: ins => first_parsed ins
  end.

Lemma ws_loop_first ins :
  wo_calls (ws_loop true ins).2 ≠ [] → ∃ username, first_parsed ins = Some (CmConnect username).
Proof.
  induction ins as [|i ins IH]; [done|].
  destruct i as [| | | | |[msg|e] timed_out| | |]; simpl; try done;
    try (destruct (ws_loop true ins); simpl in *; exact IH).
  destruct msg; simpl; try done. eauto.
Qed.

(** C38: a connection is served within the rules and always cleaned up. However the receive
    loop ends (the browser leaving, a protocol violation, a time-out, a dead socket, a
    server stop), the last two calls to the session manager are [disconnect_user] and
    [revoke_turn], and there is no other such call; no call is made at all unless the
    first message that parses is [connect]; and every name and chat text passed on obeys
    the limits of the protocol. *)
Theorem handler_cleans_up ins o :
  handle_ws_connection ins = (true, o) →
  ∃ calls, wo_calls o = calls ++ [CallDisconnectUser; CallRevokeTurn] ∧
    Forall (λ c, is_cleanup c = false ∧ call_within_limits c) calls ∧
    (calls ≠ [] → ∃ username, first_parsed ins = Some (CmConnect username)).
Proof.
  unfold handle_ws_connection. pose proof (ws_loop_calls ins true) as Hc.
  pose proof (ws_loop_first ins) as Hf. destruct (ws_loop true ins) as [[] o1]; intros Ho; [|done].
  injection Ho as <-. by exists (wo_calls o1).
Qed.

(** ** The send task *)

(** What one turn of its loop works on: a heartbeat or a message of the channel ([None]
    when it is closed); whether the send succeeded in five seconds; and how many messages
    are waiting afterwards. *)
Inductive SendInput :=
| SendHeartbeat (sent : bool) (queued : Z)
| SendMessage (msg : option ServerMessage) (sent : bool) (queued : Z).

Inductive WsFrame := FramePing | FrameText (msg : ServerMessage) | FrameClose.

(** Errors after which the connection is closed. *)
Definition is_terminal (msg : ServerMessage) : bool :=
  match msg with
  | SmError code _ =>
      bool_decide (code = "mumble_disconnected") || bool_decide (code = "connect_failed")
  | _ => false
  end.

(** The part of a turn after [select!] has produced a frame. The Close frame is an attempt:
    whether it gets through in its second makes no difference to the task. *)
Definition send_frame (frame : WsFrame) (terminal sent : bool) (queued : Z) : bool * list WsFrame :=
  if sent then
    if terminal || (256 <? queued) then (false, [frame; FrameClose]) else (true, [frame])
  else (false, []).

Definition send_step (i : SendInput) : bool * list WsFrame :=
  match i with
  | SendHeartbeat sent queued => send_frame FramePing false sent queued
  | SendMessage None _ _ => (false, [])
  | SendMessage (Some msg) sent queued => send_frame (FrameText msg) (is_terminal msg) sent queued
  end.

Fixpoint send_task (ins : list SendInput) : bool * list WsFrame :=
  match ins with
  | [] => (true, [])
  | i :: ins =>
      let '(continue, frames) := send_step i in
      if continue then let '(running, rest) := send_task ins in (running, frames ++ rest)
      else (false, frames)
  end.

(** The server messages in a list of frames, and those taken from the channel. *)
Definition frame_message (f : WsFrame) : list ServerMessage :=
  match f with FrameText msg => [msg] | _ => [] end.
Definition frame_messages (fs : list WsFrame) : list ServerMessage := fs ≫= frame_message.
Definition queue_message (i : SendInput) : list ServerMessage :=
  match i with SendMessage (Some msg) _ _ => [msg] | _ => [] end.
Definition queue_messages (ins : list SendInput) : list ServerMessage := ins ≫= queue_message.

(** A turn: it goes on with one frame that is not terminal, or it ends. *)
Lemma send_step_cases i :
  (∃ f, send_step i = (true, [f]) ∧ f ≠ FrameClose ∧ frame_message f = queue_message i ∧
     (∀ msg, f = FrameText msg → is_terminal msg = false)) ∨
  send_step i = (false, []) ∨
  (∃ f, send_step i = (false, [f; FrameClose]) ∧ f ≠ FrameClose ∧ frame_message f = queue_message i).
Proof.
  destruct i as [sent queued|[msg|] sent queued]; simpl; [| |by auto].
  - unfold send_frame. destruct sent; [|by auto]. simpl. destruct (256 <? queued).
    + right. right. by exists FramePing.
    + left. by exists FramePing.
  - unfold send_frame. destruct sent; [|by auto].
    destruct (is_terminal msg) eqn:Ht; [right; right; by exists (FrameText msg)|]. simpl.
    destruct (256 <? queued); [right; right; by exists (FrameText msg)|].
    left. exists (FrameText msg). split_and!; try done. by intros ? [= <-].
Qed.

(** Nothing that ends the send task: the browser takes the frame within five seconds, not
    more than 256 messages wait, and the message neither is missing nor ends the
    connection. *)
Definition goes_well (i : SendInput) : bool :=
  match i with
  | SendHeartbeat sent queued => sent && (queued <=? 256)
  | SendMessage (Some msg) sent queued => sent && (queued <=? 256) && negb (is_terminal msg)
  | SendMessage None _ _ => false
  end.

Lemma goes_well_continues i : (send_step i).1 = goes_well i.
Proof.
  destruct i as [sent queued|[msg|] sent queued]; simpl; [| |done]; unfold send_frame;
    rewrite (Z.leb_antisym 256 queued); destruct sent; simpl; try done.
  - by destruct (256 <? queued).
  - by destruct (is_terminal msg), (256 <? queued).
Qed.

(** C32: the browser gets the server's messages, in order, and a terminal error is the last.
    For any timing of heartbeats, messages, failed sends and backlog, the send task is
    still running exactly if no turn gave it a reason to end, and has then sent every
    message put into the channel; in any case what it has sent is a prefix of them; once a
    terminal error ([connect_failed] or [mumble_disconnected]) has been sent, the next
    frame is Close and the task is over; and a Close frame is only ever the last one. *)
Theorem send_task_delivers ins :
  (send_task ins).1 = forallb goes_well ins ∧
  ((send_task ins).1 = true → frame_messages (send_task ins).2 = queue_messages ins) ∧
  prefix (frame_messages (send_task ins).2) (queue_messages ins) ∧
  (∀ msg, FrameText msg ∈ (send_task ins).2 → is_terminal msg = true →
     ∃ pre, send_task ins = (false, pre ++ [FrameText msg; FrameClose])) ∧
  (∀ pre post, (send_task ins).2 = pre ++ FrameClose :: post →
     post = [] ∧ (send_task ins).1 = false).
Proof.
  induction ins as [|i ins IH]; simpl.
  { split_and!; [done|done|done|intros msg H; by apply elem_of_nil in H|]. by intros [|]. }
  change (queue_messages (i :: ins)) with (queue_message i ++ queue_messages ins).
  rewrite <- (goes_well_continues i).
  destruct (send_step_cases i) as [(f & -> & Hc & Hq & Ht)|[-> | (f & -> & Hc & Hq)]].
  - destruct (send_task ins) as [r fs]. simpl in *. destruct IH as (IH0 & IHa & IH1 & IH2 & IH3). split_and!.
    + done.
    + intros Hr. rewrite <- Hq, <- (IHa Hr). done.
    + destruct IH1 as [k Hk]. exists k. rewrite Hk, <- Hq. apply app_assoc.
    + intros msg [Hm|Hm]%elem_of_cons Hterm; [by rewrite (Ht msg) in Hterm|].
      destruct (IH2 msg Hm Hterm) as [pre [= -> ->]]. by exists (f :: pre).
    + intros [|x pre] post Heq; simplify_eq/=. by apply (IH3 pre).
  - simpl. split_and!; [done|done|apply prefix_nil|intros msg H; by apply elem_of_nil in H|]. by intros [|].
  - cbn [fst snd]. split_and!; [done|done|..].
    + exists (queue_messages ins). rewrite <- Hq. simpl. by rewrite app_nil_r.
    + intros msg [<-|[Hm|Hm]%elem_of_cons]%elem_of_cons Hterm; [by exists []|done|by apply elem_of_nil in Hm].
    + intros [|x [|y [|z pre]]] post Heq; simplify_eq/=; done.
Qed.
End Handler.

(** ** Concrete runs *)

Lemma handler_cleans_up_witness :
  ∃ calls, [CallConnectUser "Player"; CallStartVoice false; CallDisconnectUser; CallRevokeTurn]
      = calls ++ [CallDisconnectUser; CallRevokeTurn] ∧
    Forall (λ c, is_cleanup c = false ∧ call_within_limits c) calls ∧
    (calls ≠ [] → ∃ username, first_parsed
       [WsText (Err "eof") false; WsText (Ok (CmConnect "Player")) false; WsPing;
        WsText (Ok CmStartVoice) false; WsClose] = Some (CmConnect username)).
Proof.
  apply (handler_cleans_up (λ _, Ok tt)
    [WsText (Err "eof") false; WsText (Ok (CmConnect "Player")) false; WsPing;
     WsText (Ok CmStartVoice) false; WsClose]
    (mkWsOutput [CallConnectUser "Player"; CallStartVoice false; CallDisconnectUser; CallRevokeTurn]
       [ServerMessage_error "invalid_message" "Failed to parse message: eof"])).
  vm_compute. reflexivity.
Defined.

(** A text that does not parse may come before [connect]: it is answered, not refused. *)
Example unparsable_first_message :
  (ws_loop (λ _, Ok tt) true
     [WsText (Err "eof") false; WsText (Ok (CmConnect "Player")) false]).2
  = mkWsOutput [CallConnectUser "Player"]
      [ServerMessage_error "invalid_message" "Failed to parse message: eof"].
Proof. vm_compute. reflexivity. Qed.
