(* ===== verification/Deadlines.v ===== *)
(** * The deadlines of the receive loop ([src/src/ws/handler.rs])

    [Handler] takes the passing of a deadline as an input of the loop. Here time is explicit:
    frames arrive at given times, handling a message takes up to fifteen seconds, and
    [timeout_at] ends the loop when the deadline comes before the next frame. A frame that is
    already there when the loop asks for it is taken even at the deadline, since the timer is
    looked at second. Times are in nanoseconds. *)

From Stdlib Require Import ZArith Lia.
From stdpp Require Import base tactics list strings option sets.
From S2P Require Import Prelude Text Credentials Messages Handler.
Local Open Scope Z_scope.

Section Deadlines.
Variable invoke : ApiCall → result unit.

(** A frame of the socket: when it arrives, what it is, and how long its handling takes. *)
Record Frame := mkFrame { fr_at : Z; fr_input : WsInput; fr_took : Z }.

(** Only a message that parsed is handled across awaits, for at most fifteen seconds. *)
Definition handling (f : Frame) : Z :=
  match fr_input f with
  | WsText (Ok _) timed_out => if timed_out then ms 15000 else fr_took f
  | _ => 0
  end.

Definition frame_ok (f : Frame) : Prop := 0 ≤ fr_took f ≤ ms 15000.

(** When the wait that starts at [now] gives up. *)
Definition deadline_passes (first : bool) (first_deadline now : Z) : Z :=
  Z.max now (receive_deadline first first_deadline now).

(** The loop on the frames of the browser: when it ends, whether by its deadline, and what it
    did. *)
Fixpoint timed_loop (first : bool) (first_deadline now : Z) (frames : list Frame)
    : Z * bool * WsOutput :=
  match frames with
  | [] => (deadline_passes first first_deadline now, true, mkWsOutput [] [])
  | f :: frames =>
      if fr_at f <=? deadline_passes first first_deadline now then
        let '(next, o1) := ws_step invoke first (fr_input f) in
        let finished := Z.max now (fr_at f) + handling f in
        match next with
        | None => (finished, false, o1)
        | Some first =>
            let '(t, dropped, o2) := timed_loop first first_deadline finished frames in
            (t, dropped, mkWsOutput (wo_calls o1 ++ wo_calls o2) (wo_sent o1 ++ wo_sent o2))
        end
      else (deadline_passes first first_deadline now, true, mkWsOutput [] [])
  end.

(** [handle_ws_connection] from the accepted WebSocket at [start]. *)
Definition timed_connection (start : Z) (frames : list Frame) : Z * bool * WsOutput :=
  timed_loop true (start + ms 10000) start frames.

(** A frame the browser can send without having said who it is. *)
Definition unparsed (f : Frame) : Prop :=
  match fr_input f with WsText (Ok _) _ => False | _ => True end.

Lemma handling_nonneg f : frame_ok f → 0 ≤ handling f.
Proof.
  unfold frame_ok, handling. intros Hf. destruct (fr_input f) as [| | | | |[] []| | |]; unfold ms in *; lia.
Qed.

(** Until a message parses the loop waits for the first deadline and calls nothing. *)
Lemma unparsed_loop first_deadline frames : ∀ now t dropped o,
  now ≤ first_deadline → Forall unparsed frames →
  timed_loop true first_deadline now frames = (t, dropped, o) →
  t ≤ first_deadline ∧ wo_calls o = [].
Proof.
  induction frames as [|f frames IH]; intros now t dropped o Hnow Hu; cbn [timed_loop].
  { intros [= <- <- <-]. unfold deadline_passes. simpl. split; [lia|done]. }
  apply list.Forall_cons in Hu as [Hf Hu]. unfold deadline_passes at 1 2. simpl (receive_deadline _ _ _).
  destruct (Z.leb_spec (fr_at f) (Z.max now first_deadline)) as [Hat|Hat].
  2:{ intros [= <- <- <-]. split; [lia|done]. }
  unfold unparsed in Hf. unfold handling. intros Hl.
  destruct (fr_input f) as [| | | | |[msg|e] timed_out| | |]; try done; cbn [ws_step] in Hl;
    try (injection Hl as <- <- <-; split; [lia|done]);
    destruct (timed_loop true _ _ frames) as [[t2 d2] o2] eqn:Hrest;
    injection Hl as <- <- <-; (eapply IH in Hrest as [Ht Hc]; [|lia|done]); by split.
Qed.

(** When the loop that has received [seen] waits again: each frame is taken when it is there
    and the loop is back from the frame before, and then handled. *)
Definition idle_time (start : Z) (seen : list Frame) : Z :=
  foldl (λ now f, Z.max now (fr_at f) + handling f) start seen.

(** Whether a frame is a message of the protocol, and whether one of them was. *)
Definition is_message (f : Frame) : bool :=
  match fr_input f with WsText (Ok _) _ => true | _ => false end.

Definition spoken (seen : list Frame) : bool := existsb is_message seen.

(** A turn that goes on has left the first-message phase exactly if the frame was a message. *)
Lemma ws_step_first first first' f o :
  ws_step invoke first (fr_input f) = (Some first', o) → first' = first && negb (is_message f).
Proof.
  unfold is_message. destruct (fr_input f) as [| | | | |[msg|e] timed_out| | |]; cbn [ws_step];
    rewrite ?andb_true_r, ?andb_false_r; try congruence.
  destruct (first && _), (is_disconnect msg), (handle_client_message invoke msg), timed_out; congruence.
Qed.

(** A deadline ends the loop when nothing arrives before it, and the deadline is the one of
    the phase the frames seen so far have led to. *)
Lemma dropped_after_silence first_deadline frames : ∀ first now t o,
  timed_loop first first_deadline now frames = (t, true, o) →
  ∃ seen rest, frames = seen ++ rest ∧ (∀ f, head rest = Some f → t < fr_at f) ∧
    t = deadline_passes (first && negb (spoken seen)) first_deadline (idle_time now seen).
Proof.
  induction frames as [|f frames IH]; intros first now t o; cbn [timed_loop].
  { intros [= <- <-]. exists [], []. simpl. by rewrite andb_true_r. }
  destruct (Z.leb_spec (fr_at f) (deadline_passes first first_deadline now)) as [Hat|Hat].
  - destruct (ws_step invoke first (fr_input f)) as [[first1|] o1] eqn:Hstep; [|done].
    apply ws_step_first in Hstep as ->.
    destruct (timed_loop (first && negb (is_message f)) first_deadline
      (Z.max now (fr_at f) + handling f) frames) as [[t2 d2] o2] eqn:Hrest. intros [= -> -> <-].
    destruct (IH _ _ _ _ Hrest) as (seen & rest & -> & Hr & Ht).
    exists (f :: seen), rest. split_and!; [done..|]. simpl. by rewrite negb_orb, andb_assoc.
  - intros [= <- <-]. exists [], (f :: frames). split_and!; [done| |].
    + intros f' [= <-]. done.
    + simpl. by rewrite andb_true_r.
Qed.

Lemma idle_time_after start seen : Forall frame_ok seen →
  start ≤ idle_time start seen ∧ Forall (λ f, fr_at f ≤ idle_time start seen) seen.
Proof.
  revert start. induction seen as [|f seen IH]; intros start Hok; [split; [apply Z.le_refl|constructor]|].
  apply list.Forall_cons in Hok as [Hf Hok]. pose proof (handling_nonneg f Hf) as Hh.
  destruct (IH (Z.max start (fr_at f) + handling f) Hok) as [Hle Hall]. unfold idle_time in *. simpl.
  split; [lia|]. constructor; [lia|done].
Qed.

(** C16: who says nothing is disconnected, who talks is not. A browser none of whose frames is
    a message of the protocol, however many it sends, is gone ten seconds after its
    WebSocket was accepted, without a call to the session manager. And a connection the
    deadline ends was silent for as long as the deadline stands for: with [seen] the frames
    received, nothing more had arrived when, once one of them was a message, exactly
    forty-five seconds had passed since the last of them was handled, and, while none was,
    when the ten seconds since the start were over (or at once, if they already were). *)
Theorem idle_connection_dropped start frames t dropped o :
  Forall frame_ok frames → timed_connection start frames = (t, dropped, o) →
  (Forall unparsed frames → t ≤ start + ms 10000 ∧ wo_calls o = []) ∧
  (dropped = true → ∃ seen rest, frames = seen ++ rest ∧
     Forall (λ f, fr_at f ≤ idle_time start seen) seen ∧ (∀ f, head rest = Some f → t < fr_at f) ∧
     t = if spoken seen then idle_time start seen + ms 45000
         else Z.max (idle_time start seen) (start + ms 10000)).
Proof.
  intros Hok Hrun. split.
  - intros Hu. eapply unparsed_loop; [|exact Hu|exact Hrun]. unfold ms. lia.
  - intros ->. destruct (dropped_after_silence _ _ _ _ _ _ Hrun) as (seen & rest & -> & Hr & Ht).
    apply Forall_app in Hok as [Hok _]. pose proof (idle_time_after start seen Hok) as [_ Hall].
    exists seen, rest. split_and!; [done..|]. unfold deadline_passes, receive_deadline in Ht.
    destruct (spoken seen); simpl in Ht; unfold ms in *; lia.
Qed.
End Deadlines.

(** A browser that only sends garbage, and one that logs in and falls silent. *)
Lemma idle_connection_dropped_witness :
  let garbage := [mkFrame (ms 4000) (WsText (Err "eof") false) 0; mkFrame (ms 9000) WsPing 0;
                  mkFrame (ms 11000) (WsText (Err "eof") false) 0] in
  (timed_connection (λ _, Ok tt) 0 garbage).1 = (ms 10000, true) ∧
  ms 10000 ≤ 0 + ms 10000 ∧ wo_calls (timed_connection (λ _, Ok tt) 0 garbage).2 = [] ∧
  (timed_connection (λ _, Ok tt) 0
     [mkFrame (ms 1000) (WsText (Ok (CmConnect "u")) false) (ms 500)]).1 = (ms 46500, true).
Proof.
  intros garbage. split; [reflexivity|]. split; [|split].
  - eapply (idle_connection_dropped (λ _, Ok tt) 0 garbage (ms 10000) true
      (timed_connection (λ _, Ok tt) 0 garbage).2).
    + repeat constructor; unfold frame_ok, ms; simpl; lia.
    + reflexivity.
    + repeat constructor.
  - eapply (idle_connection_dropped (λ _, Ok tt) 0 garbage (ms 10000) true
      (timed_connection (λ _, Ok tt) 0 garbage).2).
    + repeat constructor; unfold frame_ok, ms; simpl; lia.
    + reflexivity.
    + repeat constructor.
  - reflexivity.
Defined.
