(* ===== verification/Api.v ===== *)
(** * The session manager as the WebSocket handler calls it ([src/src/session.rs],
      [src/src/ws/handler.rs])

    [Handler] leaves the manager's calls open and [Manager] the browser's messages; here the
    calls are the manager's methods, and a connection runs from its first message to its
    cleanup. A method that looks its session up finds it by the id of the connection, locks
    it and works on it; the calls of one connection do not overlap, since its handler awaits
    each. How other tasks' steps interleave with these calls is the matter of [System]. *)

From Stdlib Require Import ZArith Lia.
From stdpp Require Import base tactics list gmap strings option sets fin_maps.
From S2P Require Import Prelude Text Messages Credentials Net Config Speakers Proto MumbleClient.
From S2P Require Import Voice Negotiation Semaphore Session Await Media Manager Handler.
Local Open Scope Z_scope.

(** ** Dialling the Mumble server *)

(** [MumbleClient::connect] up to the spawned task; the three results are those of the TCP
    connect, the TLS connector and the handshake. The texts are what [{}] prints of an
    [anyhow] error with a context. *)
Definition MumbleClient_connect (server_addr : SocketAddr) (server_host : string)
    (accept_invalid_certs : bool) (tcp : SocketAddr → result unit)
    (connector : bool → result unit) (handshake : string → bool → result unit) : result unit :=
  match tcp server_addr with
  | Err _ => Err "Failed to connect to Mumble server"
  | Ok _ =>
      match connector accept_invalid_certs with
      | Err _ => Err "Failed to create TLS connector"
      | Ok _ =>
          match handshake server_host accept_invalid_certs with
          | Err _ => Err "TLS handshake failed"
          | Ok _ => Ok tt
          end
      end
  end.

Section Api.
Context {P Sender S : Type} `{PeerConnection P} `{Semaphore S} `{!SetIter Z}.
Variable config : Config.
Implicit Types (m : Manager P Sender S) (conn : string).

(** What the libraries answer during one call. *)
Record api_env := mkApiEnv {
  ae_lookup : result (list SocketAddr);
  ae_timed_out : bool;
  ae_tcp : SocketAddr → result unit;
  ae_connector : bool → result unit;
  ae_handshake : string → bool → result unit;
  ae_media : result unit;
  ae_peer : result P;
  ae_transceiver : result unit;
  ae_cfg : IceConfig;
  ae_add_track : Track → result Sender;
  ae_client_open : bool;
  ae_dropped_at : nat;
  ae_left_peer : P
}.
Implicit Types env : api_env.

Definition dial env (addr : SocketAddr) : option (result unit) :=
  if ae_timed_out env then None
  else Some (MumbleClient_connect addr (mb_host (mumble config))
               (mb_accept_invalid_certs (mumble config)) (ae_tcp env) (ae_connector env)
               (ae_handshake env)).

Definition api_setup env : result P :=
  connect_setup (ae_lookup env) (dial env) (ae_media env)
    (match WebrtcSession_create (ae_peer env) (ae_transceiver env) with
     | Ok w => Ok (ws_peer_connection w)
     | Err e => Err e
     end).

(** ** The methods *)

(** [get_session(conn_id)?.lock()] and an operation on the session. *)
Definition on_session m conn
    (f : UserSession P Sender → UserSession P Sender * list effect * result unit)
    : Manager P Sender S * list effect * result unit :=
  match get_session m conn with
  | Err e => (m, [], Err e)
  | Ok gen =>
      match mg_heap m !! gen with
      | None => (m, [], Err "Session not found")
      | Some e =>
          let '(s, effects, r) := f (en_session e) in
          (set_heap m (<[gen := with_session e s]> (mg_heap m)), effects, r)
      end
  end.

(** [send_chat], [join_channel], [set_mute] and [set_deaf]. *)
Definition session_command env (cmd : MumbleCommand) (s : UserSession P Sender)
    : UserSession P Sender * list effect * result unit :=
  let '(effects, r) := MumbleClient_send_command (ae_client_open env) cmd in (s, effects, r).

Definition SessionManager_send_chat m conn env (channel_id : Z) (message : string) :=
  on_session m conn (session_command env (McSendChat channel_id message)).
Definition SessionManager_join_channel m conn env (channel_id : Z) :=
  on_session m conn (session_command env (McJoinChannel channel_id)).
Definition SessionManager_set_mute m conn env (muted : bool) :=
  on_session m conn (session_command env (McSetMute muted)).
Definition SessionManager_set_deaf m conn env (deafened : bool) :=
  on_session m conn (session_command env (McSetDeaf deafened)).

Definition SessionManager_refresh_ice m conn env :=
  on_session m conn (λ s,
    match session_refresh_ice s (ae_cfg env) with
    | Ok effects => (s, effects, Ok tt)
    | Err e => (s, [], Err e)
    end).

Definition SessionManager_start_voice m conn env (restart : bool) :=
  on_session m conn (λ s, session_start_voice s restart (ae_add_track env)).
Definition SessionManager_handle_answer m conn (sdp : string) :=
  on_session m conn (λ s, session_handle_answer s sdp).
Definition SessionManager_add_ice_candidate m conn (d : IceCandidateData) :=
  on_session m conn (λ s,
    let '(s, r) := session_add_ice_candidate s (icd_candidate d) (icd_sdp_mid d)
                     (icd_sdp_mline_index d) in (s, [], r)).

(** A call by its name. A new session gets an [Arc] nothing points to yet; the revocation
    of TURN credentials touches the TURN service only. *)
Definition api_call m conn env (c : ApiCall) : Manager P Sender S * list effect * result unit :=
  match c with
  | CallConnectUser username =>
      let '(m', r) := SessionManager_connect_user m (fresh (dom (mg_connecting m)))
                        (fresh (dom (mg_heap m))) conn username (api_setup env) in (m', [], r)
  | CallDisconnectUser => (SessionManager_disconnect_user m conn, [], Ok tt)
  | CallHandleAnswer sdp => SessionManager_handle_answer m conn sdp
  | CallStartVoice restart => SessionManager_start_voice m conn env restart
  | CallRefreshIce => SessionManager_refresh_ice m conn env
  | CallAddIceCandidate data => SessionManager_add_ice_candidate m conn data
  | CallSendChat channel_id message => SessionManager_send_chat m conn env channel_id message
  | CallJoinChannel channel_id => SessionManager_join_channel m conn env channel_id
  | CallSetMute muted => SessionManager_set_mute m conn env muted
  | CallSetDeaf deafened => SessionManager_set_deaf m conn env deafened
  | CallRevokeTurn => (m, [], Ok tt)
  end.

(** The voice request a call makes of its session, if it is one. *)
Definition voice_request_of env (c : ApiCall) : option (voice_request (Sender := Sender)) :=
  match c with
  | CallStartVoice restart => Some (VrStartVoice restart (ae_add_track env))
  | CallHandleAnswer sdp => Some (VrAnswer sdp)
  | CallAddIceCandidate d =>
      Some (VrCandidate (icd_candidate d) (icd_sdp_mid d) (icd_sdp_mline_index d))
  | _ => None
  end.

(** A call dropped by the fifteen-second limit while it waits for a lock or for the network:
    a connect gives back the permit it may have taken, a voice request stops at the await
    it has come to, the others have done nothing. *)
Definition api_cancel m conn env (c : ApiCall) : Manager P Sender S :=
  match c with
  | CallConnectUser _ =>
      match connect_check m conn with
      | Err _ => m
      | Ok _ =>
          let tid := fresh (dom (mg_connecting m)) in
          match connect_reserve m tid conn with Ok m1 => connect_abandon m1 tid | Err _ => m end
      end
  | _ =>
      match voice_request_of env c with
      | Some q =>
          (on_session m conn (λ s,
             (session_dropped s q (ae_dropped_at env) (ae_left_peer env), [], Ok tt))).1.1
      | None => m
      end
  end.

(** ** A connection *)

Definition run_calls m conn env (timed_out : bool) (calls : list ApiCall)
    : Manager P Sender S * list effect :=
  foldl (λ acc c,
    let '(m, effects) := acc in
    if timed_out then (api_cancel m conn env c, effects)
    else let '(m', ef, _) := api_call m conn env c in (m', effects ++ ef)) (m, []) calls.

Definition input_timed_out (i : WsInput) : bool :=
  match i with WsText _ timed_out => timed_out | _ => false end.

(** The results the handler sees are those of the calls on the manager's current state. *)
Definition api_result m conn env (c : ApiCall) : result unit := (api_call m conn env c).2.

(** One turn of the receive loop and what its calls do. *)
Definition connection_turn m conn (first : bool) (i : WsInput) env
    : option bool * Manager P Sender S * list effect * list ServerMessage :=
  let '(next, o) := ws_step (api_result m conn env) first i in
  let '(m', effects) := run_calls m conn env (input_timed_out i) (wo_calls o) in
  (next, m', effects, wo_sent o).

(** The loop; the flag says whether it has ended. *)
Fixpoint connection_loop m conn (first : bool) (ins : list (WsInput * api_env))
    : bool * Manager P Sender S * list effect * list ServerMessage :=
  match ins with
  | [] => (false, m, [], [])
  | (i, env) :: ins =>
      match connection_turn m conn first i env with
      | (None, m1, ef1, sent1) => (true, m1, ef1, sent1)
      | (Some first, m1, ef1, sent1) =>
          let '(ended, m2, ef2, sent2) := connection_loop m1 conn first ins in
          (ended, m2, ef1 ++ ef2, sent1 ++ sent2)
      end
  end.

(** [handle_ws_connection] with the manager's methods in place of its calls. *)
Definition connection_run m conn (ins : list (WsInput * api_env))
    : bool * Manager P Sender S * list effect * list ServerMessage :=
  let '(ended, m1, ef, sent) := connection_loop m conn true ins in
  (ended, if ended then SessionManager_disconnect_user m1 conn else m1, ef, sent).

(** ** A connection touches only its own session *)

(** Between two states of the manager only sessions of [conn] differ. *)
Record only_own conn m m' : Prop := {
  own_sessions : ∀ c, c ≠ conn → mg_sessions m' !! c = mg_sessions m !! c;
  own_heap : ∀ g e, mg_heap m !! g = Some e → en_conn e ≠ conn → mg_heap m' !! g = Some e;
  own_flight : mg_connecting m' = mg_connecting m ∧ mg_closing m' = mg_closing m ∧
               mg_shutdown m' = mg_shutdown m
}.

#[local] Instance only_own_preorder conn : PreOrder (only_own conn).
Proof.
  split.
  - intros m. by split.
  - intros m1 m2 m3 [Hs Hh (Hf1 & Hf2 & Hf3)] [Hs' Hh' (Hf1' & Hf2' & Hf3')]. split.
    + intros c Hc. by rewrite Hs', Hs.
    + eauto.
    + split_and!; congruence.
Qed.

Context `{!SemaphoreLaws S}.

(** What every call keeps. *)
Definition call_ok (cap : Z) conn m m' : Prop := reachable cap m' ∧ only_own conn m m'.

Lemma call_ok_refl cap conn m : reachable cap m → call_ok cap conn m m.
Proof. by split. Qed.

Lemma call_ok_trans cap conn m1 m2 m3 :
  call_ok cap conn m1 m2 → (reachable cap m2 → call_ok cap conn m2 m3) → call_ok cap conn m1 m3.
Proof. intros [Hr Ho] H2. destruct (H2 Hr) as [Hr' Ho']. split; [done|by etrans]. Qed.

(** Writing a session back unchanged. *)
Lemma with_session_same m g e :
  mg_heap m !! g = Some e →
  set_heap m (<[g := with_session e (en_session e)]> (mg_heap m)) = m.
Proof.
  intros He. assert (with_session e (en_session e) = e) as -> by by destruct e.
  rewrite insert_id by done. by destruct m.
Qed.

Lemma on_session_ok cap m conn f :
  0 ≤ cap → reachable cap m →
  (∀ s, (f s).1.1 = s ∨ session_op s (f s).1.1) →
  call_ok cap conn m (on_session m conn f).1.1.
Proof.
  intros Hcap Hr Hf. unfold on_session, get_session.
  destruct (mg_sessions m !! conn) as [g|] eqn:Hg; simpl; [|by apply call_ok_refl].
  destruct (mg_heap m !! g) as [e|] eqn:He; [|by apply call_ok_refl].
  destruct (inv_map _ _ (reachable_inv cap m Hcap Hr) conn g Hg) as (e' & He' & Hc & _).
  rewrite He in He'. injection He' as <-. specialize (Hf (en_session e)).
  destruct (f (en_session e)) as [[s ef] r]. simpl in Hf |- *. split.
  - destruct Hf as [->|Hop].
    + by rewrite with_session_same.
    + eapply reach_step; [exact Hr|]. by apply StepSession.
  - split; [done| |done]. intros g0 e0 He0 Hne. simpl. rewrite lookup_insert_ne; [done|].
    intros ->. congruence.
Qed.

Lemma close_session_own m g e t :
  (∀ e0, mg_heap m !! g = Some e0 → en_conn e0 = en_conn e) →
  only_own (en_conn e) m (close_session m g e t).
Proof.
  intros Hg. unfold close_session. destruct (se_slot _); (split; [done| |done]);
    intros g0 e0 He0 Hne; simpl; (rewrite lookup_insert_ne; [done|]); intros ->; by apply Hne, Hg.
Qed.

Lemma disconnect_ok cap m conn :
  0 ≤ cap → reachable cap m → call_ok cap conn m (SessionManager_disconnect_user m conn) ∧
  mg_sessions (SessionManager_disconnect_user m conn) !! conn = None.
Proof.
  intros Hcap Hr. unfold SessionManager_disconnect_user.
  destruct (mg_sessions m !! conn) as [g|] eqn:Hg; [|split; [by apply call_ok_refl|done]].
  pose proof (reach_step cap _ _ _ Hr (StepDisconnectRemove m conn)) as Hr1.
  destruct (inv_map _ _ (reachable_inv cap m Hcap Hr) conn g Hg) as (e & He & Hc & _).
  unfold disconnect_remove in *. rewrite Hg in *. simpl (mg_heap _). rewrite He. subst conn.
  pose proof (close_session_own (set_closing (set_sessions m (delete (en_conn e) (mg_sessions m)))
    (g :: mg_closing m)) g e (en_task e)) as [Hs Hh (Hf1 & Hf2 & Hf3)].
  { intros e0 He0. simpl in He0. congruence. }
  split; [split|].
  - eapply reach_step; [exact Hr1|]. apply StepDisconnectShutdown; [simpl; left|done].
  - split.
    + intros c Hne. simpl. rewrite Hs by done. simpl. by rewrite lookup_delete_ne.
    + intros g0 e0 He0 Hne. simpl. by apply Hh.
    + simpl. rewrite Hf1, Hf3. simpl. by rewrite Nat.eqb_refl.
  - unfold disconnect_shutdown, close_session. destruct (se_slot _); simpl; apply lookup_delete_eq.
Qed.

Lemma reserve_abandon_own m tid conn m1 :
  mg_connecting m !! tid = None → connect_reserve m tid conn = Ok m1 →
  only_own conn m (connect_abandon m1 tid).
Proof.
  unfold connect_reserve. intros Ht. destruct (try_acquire _) as [sl|]; [|done]. intros [= <-].
  split; [done..|]. simpl. by rewrite delete_insert_id.
Qed.

Lemma reserve_publish_own m tid gen conn m1 (s : UserSession P Sender) :
  mg_connecting m !! tid = None → mg_heap m !! gen = None →
  connect_reserve m tid conn = Ok m1 → only_own conn m (connect_publish m1 tid gen conn s).1.
Proof.
  unfold connect_reserve. intros Ht Hh. destruct (try_acquire _) as [sl|]; [|done]. intros [= <-].
  unfold connect_publish. simpl. destruct (mg_sessions m !! conn) as [g|] eqn:Hg; simpl.
  - etrans; [|apply (close_session_own _ gen (mkEntry conn s TaskDone) TaskDone)].
    + split; [done..|]. simpl. by rewrite delete_insert_id.
    + intros e0 He0. simpl in He0. congruence.
  - split; simpl.
    + intros c Hne. by rewrite lookup_insert_ne.
    + intros g e He Hne. rewrite lookup_insert_ne; [done|]. congruence.
    + by rewrite delete_insert_id.
Qed.

Lemma fresh_lookup {A} (h : gmap nat A) : h !! fresh (dom h) = None.
Proof. apply not_elem_of_dom, is_fresh. Qed.

Lemma connect_ok cap m tid gen conn username setup :
  reachable cap m → mg_connecting m !! tid = None → mg_heap m !! gen = None →
  call_ok cap conn m (SessionManager_connect_user m tid gen conn username setup).1.
Proof.
  intros Hr Ht Hh. unfold SessionManager_connect_user.
  destruct (connect_check m conn) as [u|e]; [|by apply call_ok_refl].
  destruct (connect_reserve m tid conn) as [m1|e] eqn:Hres; [|by apply call_ok_refl].
  pose proof (reach_step cap _ _ _ Hr (StepReserve m tid conn m1 Ht Hres)) as Hr1.
  assert (Ht1 : mg_connecting m1 !! tid = Some conn ∧ mg_heap m1 = mg_heap m).
  { unfold connect_reserve in Hres. destruct (try_acquire _); [|done]. injection Hres as <-.
    split; [apply lookup_insert_eq|done]. }
  destruct Ht1 as [Ht1 Hh1]. destruct setup as [peer|e]; simpl.
  - split; [|by apply reserve_publish_own].
    destruct (connect_publish m1 tid gen conn (UserSession_new peer username)) as [m2 r] eqn:Hp.
    eapply reach_step; [exact Hr1|]. apply (StepPublish m1 tid conn gen peer username m2 r); congruence.
  - split; [|by apply reserve_abandon_own]. eapply reach_step; [exact Hr1|].
    by apply (StepAbandon m1 tid conn).
Qed.

Lemma api_call_ok cap m conn env c :
  0 ≤ cap → reachable cap m → call_ok cap conn m (api_call m conn env c).1.1.
Proof.
  intros Hcap Hr. destruct c; simpl; try (apply on_session_ok; [done..|intros s]).
  - pose proof (connect_ok cap m (fresh (dom (mg_connecting m))) (fresh (dom (mg_heap m))) conn
      username (api_setup env) Hr (fresh_lookup _) (fresh_lookup _)) as Hc.
    by destruct (SessionManager_connect_user _ _ _ _ _ _).
  - by apply disconnect_ok.
  - right. apply (OpRequest s (VrAnswer sdp)).
  - right. apply (OpRequest s (VrStartVoice restart (ae_add_track env))).
  - left. by destruct (session_refresh_ice _ _).
  - right. apply (OpRequest s (VrCandidate (icd_candidate data) (icd_sdp_mid data)
      (icd_sdp_mline_index data))).
  - left. unfold session_command. by destruct (MumbleClient_send_command _ _).
  - left. unfold session_command. by destruct (MumbleClient_send_command _ _).
  - left. unfold session_command. by destruct (MumbleClient_send_command _ _).
  - left. unfold session_command. by destruct (MumbleClient_send_command _ _).
  - by apply call_ok_refl.
Qed.

(** A dropped connect is one whose setup failed. *)
Lemma api_cancel_ok cap m conn env c :
  0 ≤ cap → reachable cap m → call_ok cap conn m (api_cancel m conn env c).
Proof.
  intros Hcap Hr. destruct c; simpl; try by apply call_ok_refl.
  2-4: apply on_session_ok; [done..|]; intros s; right; apply OpDropped.
  pose proof (connect_ok cap m (fresh (dom (mg_connecting m))) (fresh (dom (mg_heap m))) conn
    username (Err "") Hr (fresh_lookup _) (fresh_lookup _)) as Hc.
  unfold SessionManager_connect_user in Hc. destruct (connect_check m conn); [|done].
  by destruct (connect_reserve _ _ _).
Qed.

Lemma run_calls_ok cap m conn env timed_out calls :
  0 ≤ cap → reachable cap m → call_ok cap conn m (run_calls m conn env timed_out calls).1.
Proof.
  intros Hcap Hr. unfold run_calls. revert m Hr. generalize (@nil effect).
  induction calls as [|c calls IH]; intros ef m Hr; [by apply call_ok_refl|]. simpl.
  destruct timed_out.
  - eapply call_ok_trans; [by apply (api_cancel_ok cap m conn env c)|]. intros Hr1. by apply IH.
  - pose proof (api_call_ok cap m conn env c Hcap Hr) as Hc.
    destruct (api_call m conn env c) as [[m1 ef1] r]. eapply call_ok_trans; [exact Hc|].
    intros Hr1. by apply IH.
Qed.

Lemma connection_loop_ok cap conn ins : ∀ m first,
  0 ≤ cap → reachable cap m → call_ok cap conn m (connection_loop m conn first ins).1.1.2.
Proof.
  induction ins as [|[i env] ins IH]; intros m first Hcap Hr; [by apply call_ok_refl|].
  cbn [connection_loop]. unfold connection_turn.
  destruct (ws_step _ first i) as [next o].
  pose proof (run_calls_ok cap m conn env (input_timed_out i) (wo_calls o) Hcap Hr) as Hc.
  destruct (run_calls m conn env _ _) as [m1 ef1]. destruct next as [first'|]; [|done].
  eapply call_ok_trans; [exact Hc|]. intros Hr1. specialize (IH m1 first' Hcap Hr1).
  by destruct (connection_loop m1 conn first' ins) as [[[??]?]?].
Qed.

(** C7: a connection cannot affect another. Whatever a browser sends, in whatever order, and
    however each call goes, the manager's states on the way are states the interleaved
    critical sections reach, every other connection's entry in the map and every session of
    theirs is exactly what it was, no connect or disconnect is left in flight, and once the
    handler has returned the connection is not in the map. *)
Theorem connection_isolated cap m conn ins ended m' effects sent :
  0 ≤ cap → reachable cap m → connection_run m conn ins = (ended, m', effects, sent) →
  reachable cap m' ∧ only_own conn m m' ∧ (ended = true → mg_sessions m' !! conn = None).
Proof.
  intros Hcap Hr. unfold connection_run.
  pose proof (connection_loop_ok cap conn ins m true Hcap Hr) as Hc.
  destruct (connection_loop m conn true ins) as [[[en m1] ef] st]. simpl in Hc. intros Hrun.
  destruct en; simplify_eq; [|by destruct Hc as [??]].
  destruct (disconnect_ok cap m1 conn Hcap (proj1 Hc)) as [Hd Hn].
  destruct (call_ok_trans cap conn m m1 _ Hc (λ _, Hd)) as [??]. done.
Qed.

(** ** Commands end to end *)

(** What the browser asks Mumble for, and the control message that asks for it. *)
Definition mumble_request (msg : ClientMessage) : option ServerboundPacket :=
  match msg with
  | CmChatSend channel_id message =>
      Some (SbTextMessage (mkTextMessage None [channel_id] (Some message)))
  | CmChannelJoin channel_id =>
      Some (SbUserState (mkUserState None None (Some channel_id) None None None None))
  | CmMute muted => Some (SbUserState (mkUserState None None None None None (Some muted) None))
  | CmDeafen deafened =>
      Some (SbUserState (mkUserState None None None None None
              (if deafened then Some true else None) (Some deafened)))
  | _ => None
  end.

Definition within_limits (msg : ClientMessage) : Prop :=
  match msg with CmChatSend _ message => byte_len message ≤ 4096 | _ => True end.

(** The commands among the effects of a session. *)
Definition effect_commands (effects : list effect) : list MumbleCommand :=
  omap (λ ef, match ef with EfCommand cmd => Some cmd | _ => None end) effects.

Lemma on_session_command m conn g e env cmd :
  mg_sessions m !! conn = Some g → mg_heap m !! g = Some e → ae_client_open env = true →
  on_session m conn (session_command env cmd) = (m, [EfCommand cmd], Ok tt).
Proof.
  intros Hg He Ho. unfold on_session, get_session. rewrite Hg. simpl. rewrite He.
  unfold session_command, MumbleClient_send_command. rewrite Ho.
  by rewrite with_session_same.
Qed.

Lemma run_one_command m conn env (c : ApiCall) cmd :
  api_call m conn env c = (m, [EfCommand cmd], Ok tt) →
  run_calls m conn env false [c] = (m, [EfCommand cmd]) ∧ api_result m conn env c = Ok tt.
Proof. intros Hc. unfold run_calls, api_result. simpl. by rewrite Hc. Qed.

Section Commands.
Variable CryptState : Type.
Variable new_from : list Z → list Z → list Z → CryptState.
Variables KEY_SIZE BLOCK_SIZE : Z.
Context `{!MapValues Z ChannelInfo} `{!MapValues Z UserInfo}.

Abbreviation connection_task := (client_run CryptState new_from KEY_SIZE BLOCK_SIZE).

Lemma command_sent t cmd packet :
  ct_running _ t = true → command_message cmd = Some packet →
  connection_task t ((λ cmd, InCommand (Some cmd) true) <$> effect_commands [EfCommand cmd])
  = (t, mkClientOutput _ [] [packet] []).
Proof.
  intros Hrun Hm. destruct t as [st r]. simpl in Hrun. subst r. by destruct cmd; simplify_eq/=.
Qed.

Lemma command_turn m conn env msg c cmd code :
  api_call m conn env c = (m, [EfCommand cmd], Ok tt) →
  handle_client_message (api_result m conn env) msg = call_reporting (api_result m conn env) c code →
  is_disconnect msg = false →
  connection_turn m conn false (WsText (Ok msg) false) env = (Some false, m, [EfCommand cmd], []).
Proof.
  intros Hc Hh Hd. destruct (run_one_command m conn env c cmd Hc) as [Hrc Hres].
  unfold connection_turn, ws_step. cbn [andb]. rewrite Hd, Hh. unfold call_reporting.
  rewrite Hres. cbn [input_timed_out wo_calls]. by rewrite Hrc.
Qed.

Lemma command_arrives m conn g e env msg packet t :
  mg_sessions m !! conn = Some g → mg_heap m !! g = Some e → ae_client_open env = true →
  mumble_request msg = Some packet → within_limits msg → ct_running _ t = true →
  ∃ effects,
    connection_turn m conn false (WsText (Ok msg) false) env = (Some false, m, effects, []) ∧
    connection_task t ((λ cmd, InCommand (Some cmd) true) <$> effect_commands effects)
    = (t, mkClientOutput _ [] [packet] []).
Proof.
  intros Hg He Ho Hp Hlim Hrun.
  pose proof (λ cmd, on_session_command m conn g e env cmd Hg He Ho) as Hcmd.
  assert (Hgo : ∀ c cmd code,
    api_call m conn env c = (m, [EfCommand cmd], Ok tt) → command_message cmd = Some packet →
    handle_client_message (api_result m conn env) msg
      = call_reporting (api_result m conn env) c code → is_disconnect msg = false →
    ∃ effects,
      connection_turn m conn false (WsText (Ok msg) false) env = (Some false, m, effects, []) ∧
      connection_task t ((λ cmd, InCommand (Some cmd) true) <$> effect_commands effects)
      = (t, mkClientOutput _ [] [packet] [])).
  { intros c cmd code Hc Hm Hh Hd. exists [EfCommand cmd].
    split; [by eapply command_turn|by apply command_sent]. }
  destruct msg; simpl in Hp, Hlim; simplify_eq.
  - eapply (Hgo (CallSendChat channel_id message)); [apply Hcmd|done| |done].
    simpl. by rewrite (proj2 (Z.ltb_ge _ _)).
  - by eapply (Hgo (CallJoinChannel channel_id)); [apply Hcmd|..].
  - by eapply (Hgo (CallSetMute muted)); [apply Hcmd|..].
  - by eapply (Hgo (CallSetDeaf deafened)); [apply Hcmd|..].
Qed.

(** C19: what a browser asks of Mumble arrives there. While its session exists and the Mumble
    connection is up, a chat line within the limit, a change of channel and a change of the
    mute or deaf state each make the connection send exactly one control message, the one
    that asks for it (deafening mutes as well, undeafening leaves the mute state alone);
    the sessions are unchanged and the browser gets no error. *)
Theorem command_reaches_mumble m conn g e env msg packet t :
  mg_sessions m !! conn = Some g → mg_heap m !! g = Some e → ae_client_open env = true →
  mumble_request msg = Some packet → within_limits msg → ct_running _ t = true →
  ∃ effects,
    connection_turn m conn false (WsText (Ok msg) false) env = (Some false, m, effects, []) ∧
    connection_task t ((λ cmd, InCommand (Some cmd) true) <$> effect_commands effects)
    = (t, mkClientOutput _ [] [packet] []).
Proof. apply command_arrives. Qed.
End Commands.
End Api.

(** ** Concrete runs *)

Definition test_env : api_env (P := TestPeer) (Sender := unit) :=
  mkApiEnv (Ok [SocketV4 LOCALHOST 64738]) false (λ _, Ok tt) (λ _, Ok tt) (λ _ _, Ok tt) (Ok tt)
    (Ok TestPeer_new) (Ok tt) (mkIceConfig [] None) (λ _, Ok tt) true 0 TestPeer_new.

(** A second browser connects, sends a chat line and leaves. *)
Definition test_inputs : list (WsInput * api_env) :=
  [(WsText (Ok (CmConnect "v")) false, test_env); (WsText (Ok (CmChatSend 3 "hi")) false, test_env);
   (WsClose, test_env)].

(** The session of the browser that is there already. *)
Definition test_spawned : Entry TestPeer unit :=
  mkEntry "c" (UserSession_new TestPeer_new "u") TaskSpawned.

Lemma connection_isolated_witness :
  let r := connection_run test_config test_connected "d" test_inputs in
  r.1.2 = [EfCommand (McSendChat 3 "hi")] ∧ reachable 2 r.1.1.2 ∧
  mg_sessions r.1.1.2 !! "d" = None ∧ mg_heap r.1.1.2 !! 10%nat = Some test_spawned.
Proof.
  intros r. destruct (connection_isolated test_config 2 test_connected "d" test_inputs
    r.1.1.1 r.1.1.2 r.1.2 r.2 ltac:(lia) test_connected_reachable) as (Hr & Ho & Hn); [reflexivity|].
  split_and!; [vm_compute; reflexivity|exact Hr|apply Hn; vm_compute; reflexivity|].
  apply (own_heap _ _ _ Ho); [vm_compute; reflexivity|discriminate].
Defined.

Lemma command_reaches_mumble_witness :
  ∃ effects,
    connection_turn test_config test_connected "c" false (WsText (Ok (CmDeafen true)) false) test_env
    = (Some false, test_connected, effects, []) ∧
    client_run unit (λ _ _ _, tt) 16 16 (mkClientTask _ (ClientState_init unit) true)
      ((λ cmd, InCommand (Some cmd) true) <$> effect_commands effects)
    = (mkClientTask _ (ClientState_init unit) true,
       mkClientOutput _ []
         [SbUserState (mkUserState None None None None None (Some true) (Some true))] []).
Proof.
  apply (command_reaches_mumble test_config unit (λ _ _ _, tt) 16 16 test_connected "c" 10
    test_spawned test_env (CmDeafen true)); done.
Defined.

(** The error of a server that cannot be reached, as the browser sees it. *)
Example connect_refused :
  connection_turn test_config test_connected "d" true (WsText (Ok (CmConnect "v")) false)
    (mkApiEnv (Ok [SocketV4 LOCALHOST 64738]) false (λ _, Err "refused") (λ _, Ok tt)
       (λ _ _, Ok tt) (Ok tt) (Ok TestPeer_new) (Ok tt) (mkIceConfig [] None) (λ _, Ok tt) true 0
       TestPeer_new)
  = (Some false, test_connected, [],
     [ServerMessage_error "connect_failed"
        "Mumble connection failed: Failed to connect to Mumble server"]).
Proof. vm_compute. reflexivity. Qed.

(** An answer that takes too long: what it has left of the session is shut down with it. *)
Example slow_answer_ends_connection :
  let r := connection_run test_config test_connected "c"
    [(WsText (Ok (CmConnect "u")) false, test_env); (WsText (Ok (CmAnswer "sdp")) true, test_env)] in
  (r.1.1.1, mg_sessions r.1.1.2 !! "c", (λ e, se_slot (en_session e)) <$> (mg_heap r.1.1.2 !! 10%nat))
  = (true, None, Some false).
Proof. vm_compute. reflexivity. Qed.
