(* ===== verification/Server.v ===== *)
(** * The HTTP server ([src/src/server.rs])

    The WebSocket endpoint checks the [Origin] header and reserves a connection slot before
    it upgrades; the slot lives as long as the handler. [run] starts and stops the parts of
    the process. The HTTP library and the listeners are arguments. *)

From Stdlib Require Import ZArith Lia.
From stdpp Require Import base tactics list strings option sets.
From S2P Require Import Prelude Config Semaphore.
Local Open Scope Z_scope.

Inductive UpgradeResponse := Forbidden | ServiceUnavailable | Upgraded (max_message_size max_frame_size : Z).

#[export] Instance UpgradeResponse_eq_dec : EqDecision UpgradeResponse.
Proof. solve_decision. Defined.

(** Whether the [Origin] header, if any, is allowed. *)
Definition origin_allowed (c : Config) (origin : option string) : bool :=
  match sv_allowed_origins (server c), origin with
  | [], _ | _, None => true
  | allowed, Some origin => existsb (λ a, bool_decide (origin = a)) allowed
  end.

Section Endpoint.
Context {S : Type} `{Semaphore S}.

(** [AppState]: the configuration and the slots of the endpoint, as [create_router] makes
    them; [as_open] is the number of handlers running. *)
Record AppState := mkAppState { as_config : Config; as_slots : S; as_open : nat }.

Definition create_router (c : Config) : AppState :=
  mkAppState c (sem_new (sv_max_connections (server c))) 0.

Definition ws_upgrade (s : AppState) (origin : option string) : AppState * UpgradeResponse :=
  if negb (origin_allowed (as_config s) origin) then (s, Forbidden)
  else
    match try_acquire (as_slots s) with
    | None => (s, ServiceUnavailable)
    | Some slots =>
        (mkAppState (as_config s) slots (1 + as_open s), Upgraded (128 * 1024) (128 * 1024))
    end.

(** The end of a handler drops its slot. *)
Definition ws_closed (s : AppState) : AppState :=
  mkAppState (as_config s) (release (as_slots s)) (as_open s - 1).

(** [readiness]: the status code and the fields of the JSON body. *)
Record Readiness := mkReadiness {
  rd_status : Z; rd_upstream_tcp_reachable : bool; rd_sessions : Z;
  rd_builtin_turn : bool; rd_media_udp_port : Z
}.

Definition readiness (s : AppState) (reachable : bool) (connection_count : Z) : Readiness :=
  mkReadiness (if reachable then 200 else 503) reachable connection_count
    (tn_enabled (turn (as_config s))) (wr_udp_port (webrtc (as_config s))).

(** [health_check] *)
Definition health_check : string := "ok".

(** ** Routes

    [create_router] binds three paths to [GET]. Finding the route, refusing other methods and
    paths, and telling a WebSocket handshake from another request are [axum]'s; every answer
    passes the permissive CORS layer, which adds headers only. *)

Inductive Route := RouteWs | RouteHealth | RouteReady.

Definition routes : list (string * Route) :=
  [("/ws", RouteWs); ("/health", RouteHealth); ("/ready", RouteReady)].

Definition find_route (path : string) : option Route :=
  snd <$> List.find (λ r, String.eqb r.1 path) routes.

Record HttpRequest := mkHttpRequest {
  hq_get : bool; hq_path : string; hq_handshake : bool; hq_origin : option string
}.

Inductive HttpResponse :=
| HrUpgrade (r : UpgradeResponse)
| HrHealth (body : string)
| HrReady (r : Readiness)
| HrNotFound
| HrMethodNotAllowed
| HrNotAHandshake.

(** A request through the router; [reachable] and [connection_count] are for [readiness]. *)
Definition http_request (s : AppState) (q : HttpRequest) (reachable : bool) (connection_count : Z)
    : AppState * HttpResponse :=
  match find_route (hq_path q) with
  | None => (s, HrNotFound)
  | Some route =>
      if negb (hq_get q) then (s, HrMethodNotAllowed)
      else
        match route with
        | RouteHealth => (s, HrHealth health_check)
        | RouteReady => (s, HrReady (readiness s reachable connection_count))
        | RouteWs =>
            if hq_handshake q
            then let '(s', r) := ws_upgrade s (hq_origin q) in (s', HrUpgrade r)
            else (s, HrNotAHandshake)
        end
  end.

(** Only a WebSocket handshake on its path can take a slot, and it takes at most one: no other
    request changes what later ones see. *)
Lemma http_request_slots s q reachable count :
  let '(s', r) := http_request s q reachable count in
  s' = s ∨
  ∃ msg frame, r = HrUpgrade (Upgraded msg frame) ∧ as_open s' = (1 + as_open s)%nat ∧
    hq_path q = "/ws" ∧ hq_get q = true ∧ hq_handshake q = true.
Proof.
  unfold http_request. destruct (find_route (hq_path q)) as [route|] eqn:Hroute; [|by left].
  destruct (hq_get q) eqn:Hget; [|by left]. simpl. destruct route; try by left.
  destruct (hq_handshake q) eqn:Hhs; [|by left].
  assert (hq_path q = "/ws") as Hp.
  { revert Hroute. unfold find_route, routes. cbn [List.find fst].
    destruct (String.eqb_spec "/ws" (hq_path q)) as [<-|_]; [done|].
    destruct (String.eqb_spec "/health" (hq_path q)) as [<-|_]; [done|].
    by destruct (String.eqb "/ready" (hq_path q)). }
  unfold ws_upgrade. destruct (origin_allowed _ _); simpl; [|by left].
  destruct (try_acquire (as_slots s)) as [sl|]; [|by left]. right. eauto 10.
Qed.

(** ** Admission *)

Inductive endpoint_op := OpUpgrade (origin : option string) | OpClosed.

Definition endpoint_step (s : AppState) (op : endpoint_op) : AppState :=
  match op with
  | OpUpgrade origin => (ws_upgrade s origin).1
  | OpClosed => if (0 <? as_open s)%nat then ws_closed s else s
  end.

Context `{!SemaphoreLaws S}.

Definition endpoint_inv (c : Config) (s : AppState) : Prop :=
  as_config s = c ∧ slots_conserved (sv_max_connections (server c)) (as_slots s) (as_open s).

Lemma endpoint_step_inv c s op : endpoint_inv c s → endpoint_inv c (endpoint_step s op).
Proof.
  intros [Hc Hs]. destruct op as [origin|]; simpl.
  - unfold ws_upgrade. destruct (origin_allowed _ _); [|done]. simpl.
    destruct (try_acquire (as_slots s)) as [s'|] eqn:Ha; [|done].
    split; [done|]. by apply (slots_acquire _ (as_slots s)).
  - destruct (Nat.ltb_spec 0 (as_open s)); [|done]. split; [done|]. simpl. apply slots_release.
    by replace (1 + (as_open s - 1))%nat with (as_open s) by lia.
Qed.

(** The policy of the allow-list: without one everybody may connect; with one, clients that
    send no [Origin] header and listed origins. *)
Definition acceptable (c : Config) (origin : option string) : Prop :=
  sv_allowed_origins (server c) = [] ∨ origin = None ∨
  ∃ o, origin = Some o ∧ o ∈ sv_allowed_origins (server c).

Lemma origin_allowed_iff c origin : origin_allowed c origin = true ↔ acceptable c origin.
Proof.
  unfold origin_allowed, acceptable. destruct (sv_allowed_origins (server c)) as [|a l]; [naive_solver|].
  destruct origin as [o|]; [|naive_solver]. rewrite existsb_exists. split.
  - intros (x & Hx & Ho). bool_to_prop. subst. right. right. exists x. by rewrite list_elem_of_In.
  - intros [?|[?|(o' & [= <-] & Ho)]]; [done..|]. exists o. rewrite <- list_elem_of_In.
    split; [done|by apply bool_decide_eq_true_2].
Qed.

Lemma endpoint_run_inv c ops : ∀ s, endpoint_inv c s → endpoint_inv c (foldl endpoint_step s ops).
Proof. induction ops as [|op ops IH]; intros s Hs; [done|]. by apply IH, endpoint_step_inv. Qed.

(** C39: admission control. After any sequence of upgrades and closed connections the number
    of open WebSockets is at most [max_connections]. The next request is refused with 403
    exactly when there is an allow-list and its [Origin] is not on it, with 503 exactly
    when it is acceptable and all slots are taken, and upgraded with messages limited to
    128 KiB otherwise. *)
Theorem admission_control c ops origin :
  0 ≤ sv_max_connections (server c) →
  let s := foldl endpoint_step (create_router c) ops in
  let max := sv_max_connections (server c) in
  Z.of_nat (as_open s) ≤ max ∧
  match (ws_upgrade s origin).2 with
  | Forbidden => ¬ acceptable c origin
  | ServiceUnavailable => acceptable c origin ∧ Z.of_nat (as_open s) = max
  | Upgraded msg_size frame_size =>
      acceptable c origin ∧ Z.of_nat (as_open s) < max ∧ msg_size = 131072 ∧ frame_size = 131072
  end.
Proof.
  intros Hmax s max.
  assert (Hinv : endpoint_inv c s).
  { apply endpoint_run_inv. split; [done|]. by apply slots_new. }
  destruct Hinv as [Hc Hs]. split; [by apply (slots_bound _ (as_slots s))|].
  unfold ws_upgrade. rewrite Hc. destruct (origin_allowed c origin) eqn:Ho; simpl.
  - apply origin_allowed_iff in Ho. destruct (try_acquire (as_slots s)) as [s'|] eqn:Ha; simpl.
    + apply (slots_acquire _ _ _ _ Hs) in Ha. apply slots_bound in Ha. split_and!; try done. unfold max. lia.
    + split; [done|]. by apply (slots_refused _ (as_slots s)).
  - intros Hacc%origin_allowed_iff. congruence.
Qed.
End Endpoint.

Lemma admission_control_witness :
  let s := foldl endpoint_step (create_router (S := Z) test_config)
             [OpUpgrade (Some "https://example.com"); OpUpgrade (Some "https://evil.com")] in
  as_open s = 1%nat ∧ Z.of_nat (as_open s) ≤ 100 ∧
  (ws_upgrade s (Some "https://evil.com")).2 = Forbidden ∧
  ¬ acceptable test_config (Some "https://evil.com").
Proof.
  intros s. pose proof (admission_control (S := Z) test_config
    [OpUpgrade (Some "https://example.com"); OpUpgrade (Some "https://evil.com")]
    (Some "https://evil.com")) as Ha.
  destruct Ha as [Hle Hr]; [simpl; lia|]. split_and!; [reflexivity|exact Hle|reflexivity|exact Hr].
Defined.

(** ** Starting and stopping *)

Inductive server_action :=
| ActBind
| ActStartTurn
| ActInitMedia
| ActServe
| ActCloseManager
| ActCloseTurn.

(** [run]: what it does and what it returns, given how each part goes; [serve] is the
    result of [axum::serve], whose graceful shutdown calls [begin_shutdown] on a signal;
    [SessionManager::close] calls it in any case. *)
Definition server_run (c : Config) (bind turn_start media serve : result unit)
    : list server_action * result unit :=
  match bind with
  | Err e => ([], Err e)
  | Ok _ =>
      let with_turn := tn_enabled (turn c) in
      match (if with_turn then turn_start else Ok tt) with
      | Err e => ([ActBind], Err e)
      | Ok _ =>
          let started := [ActBind] ++ (if with_turn then [ActStartTurn] else []) in
          let close_turn := if with_turn then [ActCloseTurn] else [] in
          match media with
          | Err e => (started ++ close_turn, Err e)
          | Ok _ =>
              (started ++ [ActInitMedia; ActServe; ActCloseManager] ++ close_turn,
               serve)
          end
      end
  end.

(** The process cleans up after itself. However start-up or serving goes, TURN is closed
    exactly when it was started, after the sessions (which may still revoke credentials)
    have been closed; nothing is served unless the listener, TURN (when enabled) and the
    media socket are up; and the first failure is what [run] returns. *)
Theorem run_closes_what_it_started c bind turn_start media serve :
  let '(actions, r) := server_run c bind turn_start media serve in
  (ActStartTurn ∈ actions ↔ ActCloseTurn ∈ actions) ∧
  (ActServe ∈ actions ↔ is_ok bind = true ∧ is_ok media = true ∧
     (tn_enabled (turn c) = true → is_ok turn_start = true)) ∧
  (ActServe ∈ actions → ∃ pre post, actions = pre ++ [ActServe; ActCloseManager] ++ post ∧
     post ⊆ [ActCloseTurn]) ∧
  (r = Ok tt → ActServe ∈ actions ∧ serve = Ok tt).
Proof.
  destruct bind as [[]|e]; [|simpl; split_and!; set_solver].
  unfold server_run. destruct (tn_enabled (turn c)) eqn:Ht; simpl.
  - destruct turn_start as [[]|e]; simpl; [|split_and!; try set_solver; naive_solver].
    destruct media as [[]|e]; simpl; [|split_and!; try set_solver; naive_solver].
    split_and!; try (set_solver || naive_solver).
    + intros _. exists [ActBind; ActStartTurn; ActInitMedia], [ActCloseTurn]. done.
  - destruct media as [[]|e]; simpl; [|split_and!; try set_solver; naive_solver].
    split_and!; try (set_solver || naive_solver).
    intros _. exists [ActBind; ActInitMedia], []. split; [done|]. set_solver.
Qed.

(** ** The entry point ([src/src/main.rs]) *)

(** The first argument after the program's name. *)
Definition config_path (args : list string) : string := default "config.toml" (args !! 1%nat).

(** [main]; [load] is [Config::load] with the files and the environment of the process, and
    [run] is [server::run]. *)
Definition main (args : list string) (load : string → outcome Config)
    (run : Config → list server_action * result unit) : outcome (list server_action * result unit) :=
  let path := config_path args in
  match load path with
  | Panicked => Panicked
  | Returned (Err e) =>
      Returned (Ok ([], Err ("Failed to load config from '" +:+ path +:+ "': " +:+ e)))
  | Returned (Ok c) => Returned (Ok (run c))
  end.

(** Nothing runs on a configuration that was not read from the named file, expanded,
    overridden and validated: a process that binds or starts anything has passed all of
    these, and every failure on the way is reported with the path. *)
Theorem main_runs_validated parse_toml deserialize env read args bind turn_start media serve out :
  let load path := Config_load parse_toml deserialize env path (read path) in
  main args load (λ c, server_run c (bind c) (turn_start c) (media c) (serve c)) = Returned (Ok out) →
  (∃ e, out = ([], Err ("Failed to load config from '" +:+ config_path args +:+ "': " +:+ e)) ∧
        load (config_path args) = Returned (Err e)) ∨
  ∃ c raw, read (config_path args) = Ok raw ∧ Config_validate c = Ok tt ∧
    out = server_run c (bind c) (turn_start c) (media c) (serve c).
Proof.
  intros load. unfold main. destruct (load (config_path args)) as [[c|e]|] eqn:Hl; [| |done].
  - intros [= <-]. right. apply load_validates in Hl as (Hv & raw & ? & ? & ? & Hraw & _).
    by exists c, raw.
  - intros [= <-]. left. by exists e.
Qed.
