(* ===== verification/System.v ===== *)
(** * The whole server: WebSocket handlers, event tasks, sessions and TURN credentials

    The components of the server run as tasks that share the session manager, the TURN
    service and the connection slots of the endpoint: a handler per WebSocket
    ([src/src/ws/handler.rs]), an event task per session ([process_events] in
    [src/src/session.rs]) and the main task ([run] in [src/src/server.rs]). A state holds
    the shared parts, where each handler and the main task is, and (in the manager's heap)
    where each event task is. A step is what one task does between two points at which
    others can run; a sequence of steps is an interleaving. The process ends when the main
    task returns ([#[tokio::main]] in [src/src/main.rs] drops the runtime, and with it every
    task that is left, wherever it is): [process_step] is a step before that. What is shown
    of all sequences of [system_step] holds of the shorter ones of the process as well.

    Connection ids are UUIDs: a new handler gets one that no handler, living or gone, has. *)

From Stdlib Require Import ZArith Lia.
From stdpp Require Import base tactics list gmap strings option sets fin_maps.
From S2P Require Import Prelude Messages Net Credentials Config Speakers Voice MumbleClient.
From S2P Require Import Negotiation Semaphore TurnService Session Manager Server.
Local Open Scope Z_scope.

(** Where the handler of a connection is: in its receive loop; past the shutdown test of
    [connect_user]; in [connect_user] with a slot; out of the loop; in [disconnect_user]
    with the session it took out of the map; before [revoke_turn]; returned. *)
Inductive HandlerTask :=
| HServing
| HChecked
| HConnecting (tid : nat)
| HLeaving
| HClosing (gen : nat)
| HRevoking
| HGone.

(** Where the main task is: in [axum::serve]; in [SessionManager::close], before it has
    read the keys of the map, then with the ids left and the session it is shutting down;
    past [turn.close]. *)
Inductive MainTask :=
| MainServing
| MainListing
| MainClosing (ids : list string) (current : option nat)
| MainDone.

Section System.
Context {P Sender S : Type} `{PeerConnection P} `{Semaphore S}.
Variable generate_auth_key : string → string → string → list Z.
Context `{!MapValues string Credential}.
Variable config : Config.

Record System := mkSystem {
  sy_manager : Manager P Sender S;
  sy_endpoint : AppState (S := S);
  sy_handlers : gmap string HandlerTask;
  sy_turn : option TurnService;
  sy_main : MainTask
}.

(** [run] once everything is started; [turn] is the result of [TurnService::start]. *)
Definition system_start (turn : option TurnService) : System :=
  mkSystem (SessionManager_new (sv_max_connections (server config))) (create_router config) ∅
    turn MainServing.

Definition set_manager (s : System) (m : Manager P Sender S) : System :=
  mkSystem m (sy_endpoint s) (sy_handlers s) (sy_turn s) (sy_main s).
Definition set_endpoint (s : System) (a : AppState) : System :=
  mkSystem (sy_manager s) a (sy_handlers s) (sy_turn s) (sy_main s).
Definition set_handler (s : System) (c : string) (h : HandlerTask) : System :=
  mkSystem (sy_manager s) (sy_endpoint s) (<[c := h]> (sy_handlers s)) (sy_turn s) (sy_main s).
Definition set_turn (s : System) (t : option TurnService) : System :=
  mkSystem (sy_manager s) (sy_endpoint s) (sy_handlers s) t (sy_main s).
Definition set_main (s : System) (t : MainTask) : System :=
  mkSystem (sy_manager s) (sy_endpoint s) (sy_handlers s) (sy_turn s) t.

(** [SessionManager::ice_config] and the call in [process_events]: the store afterwards. *)
Definition issue_turn (s : System) (c : string) (now : Z) (u : uuids) : System :=
  set_turn s (session_ice_config generate_auth_key config (sy_turn s) c now u).1.

(** [SessionManager::revoke_turn] and the last call of [process_events]. *)
Definition revoke_turn (s : System) (c : string) (alive : nat → bool) : System :=
  set_turn s ((λ t, (TurnService_revoke t c alive).1) <$> sy_turn s).

(** [disconnect_user] goes on with the session it removed, if there was one. *)
Definition after_remove (s : System) (c : string) : HandlerTask :=
  match mg_sessions (sy_manager s) !! c with Some g => HClosing g | None => HRevoking end.

(** Steps of an event task that only touch the manager. *)
Definition event_label (l : manager_label) : bool :=
  match l with
  | LEventStart _ | LSession _ | LConnected _ | LFinishShutdown _ | LFinishRemove _ _ _ => true
  | _ => false
  end.

(** Whether the session has been closed, so that [close_notify] holds a permit. *)
Definition session_closed (m : Manager P Sender S) (g : nat) : bool :=
  match mg_heap m !! g with Some e => se_closed (en_session e) | None => false end.

(** Steps a task takes on its own: it waits neither for the browser nor for the Mumble
    server. The loop of an event task ends on its own once the session is closed. *)
Definition event_progress (m : Manager P Sender S) (l : manager_label) : bool :=
  match l with
  | LEventStart _ | LFinishRemove _ _ _ => true
  | LFinishShutdown g => session_closed m g
  | _ => false
  end.

(** A step of a handler; the flag says whether it is progress in the sense above. Connecting
    is progress: its waits are bounded by ten and fifteen seconds. A handler that returns
    gives its connection slot back. *)
Inductive handler_step : System → bool → System → Prop :=
| SysAccept s c origin a msg frame :
    sy_main s = MainServing → sy_handlers s !! c = None →
    ws_upgrade (sy_endpoint s) origin = (a, Upgraded msg frame) →
    handler_step s false (set_endpoint (set_handler s c HServing) a)
| SysCheck s c :
    sy_handlers s !! c = Some HServing → mg_shutdown (sy_manager s) = false →
    handler_step s false (set_handler s c HChecked)
| SysReserve s c tid m :
    sy_handlers s !! c = Some HChecked → mg_sessions (sy_manager s) !! c = None →
    manager_step (sy_manager s) (LReserve tid c) m →
    handler_step s true (set_manager (set_handler s c (HConnecting tid)) m)
| SysRefuse s c :
    sy_handlers s !! c = Some HChecked →
    is_Some (mg_sessions (sy_manager s) !! c) ∨ try_acquire (mg_slots (sy_manager s)) = None →
    handler_step s true (set_handler s c HServing)
| SysAbandon s c tid m (timed_out : bool) :
    sy_handlers s !! c = Some (HConnecting tid) →
    manager_step (sy_manager s) (LAbandon tid) m →
    handler_step s true (set_manager (set_handler s c (if timed_out then HLeaving else HServing)) m)
| SysPublish s c tid gen m :
    sy_handlers s !! c = Some (HConnecting tid) →
    manager_step (sy_manager s) (LPublish tid gen c) m →
    handler_step s true (set_manager (set_handler s c HServing) m)
| SysRefreshIce s c g e now u :
    sy_handlers s !! c = Some HServing → mg_heap (sy_manager s) !! g = Some e →
    en_conn e = c → is_Some (se_session_id (en_session e)) →
    handler_step s false (issue_turn s c now u)
| SysLeave s c h :
    sy_handlers s !! c = Some h → h = HServing ∨ h = HChecked →
    handler_step s (mg_shutdown (sy_manager s)) (set_handler s c HLeaving)
| SysDisconnectRemove s c m :
    sy_handlers s !! c = Some HLeaving →
    manager_step (sy_manager s) (LDisconnectRemove c) m →
    handler_step s true (set_manager (set_handler s c (after_remove s c)) m)
| SysDisconnectShutdown s c g m :
    sy_handlers s !! c = Some (HClosing g) →
    manager_step (sy_manager s) (LDisconnectShutdown g) m →
    handler_step s true (set_manager (set_handler s c HRevoking) m)
| SysRevokeTurn s c alive :
    sy_handlers s !! c = Some HRevoking →
    handler_step s true
      (set_endpoint (revoke_turn (set_handler s c HGone) c alive) (ws_closed (sy_endpoint s))).

(** A step of an event task, or a request a handler runs under a session's lock. *)
Inductive event_task_step : System → bool → System → Prop :=
| SysEvent s l m :
    event_label l = true → manager_step (sy_manager s) l m →
    event_task_step s (event_progress (sy_manager s) l) (set_manager s m)
| SysTaskIssue s g e now u m :
    mg_heap (sy_manager s) !! g = Some e → manager_step (sy_manager s) (LIssued g) m →
    event_task_step s (se_closed (en_session e)) (issue_turn (set_manager s m) (en_conn e) now u)
| SysTaskRevoke s g e alive m :
    mg_heap (sy_manager s) !! g = Some e → manager_step (sy_manager s) (LRevoked g) m →
    event_task_step s true (revoke_turn (set_manager s m) (en_conn e) alive).

(** A step of the main task: the signal handler inside [axum::serve], its return, the loop
    of [SessionManager::close] and [TurnService::close]. *)
Inductive main_step : System → bool → System → Prop :=
| SysSignal s m :
    sy_main s = MainServing → manager_step (sy_manager s) LBeginShutdown m →
    main_step s false (set_manager s m)
| SysServeEnded s m :
    sy_main s = MainServing → manager_step (sy_manager s) LBeginShutdown m →
    main_step s false (set_main (set_manager s m) MainListing)
| SysCloseList s ids :
    sy_main s = MainListing → ids ≡ₚ (map_to_list (mg_sessions (sy_manager s))).*1 →
    main_step s true (set_main s (MainClosing ids None))
| SysCloseRemove s c ids m :
    sy_main s = MainClosing (c :: ids) None →
    manager_step (sy_manager s) (LDisconnectRemove c) m →
    main_step s true (set_main (set_manager s m)
      (MainClosing ids (mg_sessions (sy_manager s) !! c)))
| SysCloseShutdown s g ids m :
    sy_main s = MainClosing ids (Some g) →
    manager_step (sy_manager s) (LDisconnectShutdown g) m →
    main_step s true (set_main (set_manager s m) (MainClosing ids None))
| SysMainDone s :
    sy_main s = MainClosing [] None →
    main_step s true (set_main (set_turn s (TurnService_close <$> sy_turn s)) MainDone).

(** A step of any task; the stream listeners of the TURN service bring servers up. *)
Inductive system_step (s : System) (b : bool) (s' : System) : Prop :=
| StepHandler : handler_step s b s' → system_step s b s'
| StepEventTask : event_task_step s b s' → system_step s b s'
| StepMain : main_step s b s' → system_step s b s'
| StepTurnServer t new_server alive :
    b = false → sy_turn s = Some t →
    s' = set_turn s (Some (TurnService_make_server t new_server alive).1) → system_step s b s'.

(** A step of the process: once the main task has returned there is none. *)
Definition process_step (s : System) (b : bool) (s' : System) : Prop :=
  sy_main s ≠ MainDone ∧ system_step s b s'.

(** The states of the server that started with an empty credential store. *)
Inductive system_reachable : System → Prop :=
| sys_start turn :
    (∀ t, turn = Some t → cs_entries (tv_credentials t) = ∅) →
    system_reachable (system_start turn)
| sys_step s b s' :
    system_reachable s → system_step s b s' → system_reachable s'.

(** ** What the manager's steps do to the rest *)

Implicit Types (m : Manager P Sender S) (s : System).

(** Steps inside a session: the map may only lose entries, the heap keeps its sessions, and
    connects and disconnects in flight are untouched. *)
Definition internal_label (l : manager_label) : bool :=
  match l with LIssued _ | LRevoked _ => true | _ => event_label l end.

Definition keeps_heap m m' : Prop := ∀ g e, mg_heap m !! g = Some e →
  ∃ e', mg_heap m' !! g = Some e' ∧ en_conn e' = en_conn e.

Lemma keeps_heap_insert m g e e' :
  mg_heap m !! g = Some e → en_conn e' = en_conn e →
  keeps_heap m (set_heap m (<[g := e']> (mg_heap m))).
Proof.
  intros Hg Hc g0 e0 He0. simpl. destruct (decide (g0 = g)) as [->|Hne].
  - exists e'. rewrite lookup_insert_eq. split; [done|]. congruence.
  - exists e0. by rewrite lookup_insert_ne.
Qed.

Lemma close_session_frame m g e t :
  let m' := close_session m g e t in
  mg_sessions m' = mg_sessions m ∧ mg_connecting m' = mg_connecting m ∧
  mg_closing m' = mg_closing m ∧ mg_shutdown m' = mg_shutdown m ∧
  mg_heap m' = <[g := mkEntry (en_conn e) (shutdown_user_session (en_session e)).1 t]> (mg_heap m).
Proof. unfold close_session. by destruct (se_slot _). Qed.

Lemma internal_frame m l m' :
  internal_label l = true → manager_step m l m' →
  mg_connecting m' = mg_connecting m ∧ mg_closing m' = mg_closing m ∧
  mg_shutdown m' = mg_shutdown m ∧ keeps_heap m m' ∧
  (∀ c g, mg_sessions m' !! c = Some g → mg_sessions m !! c = Some g).
Proof.
  intros Hl Hs. destruct Hs; try done.
  - split_and!; try done. eapply keeps_heap_insert; [done|]. by destruct (process_events_start _).
  - split_and!; try done. by eapply keeps_heap_insert.
  - split_and!; try done. by eapply keeps_heap_insert.
  - split_and!; try done. by eapply keeps_heap_insert.
  - destruct (close_session_frame m gen e (TaskFinishing terminal)) as (Hf1 & Hf2 & Hf3 & Hf4 & Hf5).
    split_and!; [done..| |by rewrite Hf1]. intros g0 e0 He0. rewrite Hf5.
    apply (keeps_heap_insert m gen e); done.
  - match goal with Hf : finish_remove _ _ _ _ = _ |- _ => unfold finish_remove in Hf end.
    destruct (bool_decide _); simplify_eq; split_and!; try done; try by eapply keeps_heap_insert.
    intros c g. simpl. rewrite lookup_delete_Some. naive_solver.
  - split_and!; try done. by eapply keeps_heap_insert.
Qed.

(** ** Reachable states *)

(** Handlers that may have a session in the map. *)
Definition holds_session (h : HandlerTask) : bool :=
  match h with HServing | HChecked | HLeaving => true | _ => false end.

Definition main_current (t : MainTask) : option nat :=
  match t with MainClosing _ current => current | _ => None end.

(** Who holds what: a connect in flight belongs to the handler that made it; a session in
    the map to a handler that is serving or about to leave; a session that is being shut
    down to exactly one handler or to the main task. *)
Record owners_inv (s : System) : Prop := {
  ow_connecting : ∀ tid c, mg_connecting (sy_manager s) !! tid = Some c ↔
    sy_handlers s !! c = Some (HConnecting tid);
  ow_map : ∀ c g, mg_sessions (sy_manager s) !! c = Some g →
    ∃ h, sy_handlers s !! c = Some h ∧ holds_session h = true;
  ow_nodup : NoDup (mg_closing (sy_manager s));
  ow_closing : ∀ g, g ∈ mg_closing (sy_manager s) →
    main_current (sy_main s) = Some g ∨ ∃ c, sy_handlers s !! c = Some (HClosing g);
  ow_main : ∀ g, main_current (sy_main s) = Some g →
    g ∈ mg_closing (sy_manager s) ∧ ∀ c, sy_handlers s !! c ≠ Some (HClosing g);
  ow_handler : ∀ c g, sy_handlers s !! c = Some (HClosing g) →
    g ∈ mg_closing (sy_manager s) ∧ ∃ e, mg_heap (sy_manager s) !! g = Some e ∧ en_conn e = c
}.

Context `{!SemaphoreLaws S}.

(** A step that changes only the manager, inside a session. *)
Lemma owners_internal s m :
  owners_inv s → mg_connecting m = mg_connecting (sy_manager s) →
  mg_closing m = mg_closing (sy_manager s) → keeps_heap (sy_manager s) m →
  (∀ c g, mg_sessions m !! c = Some g → mg_sessions (sy_manager s) !! c = Some g) →
  owners_inv (set_manager s m).
Proof.
  intros [H1 H2 H3 H4 H5 H6] Hc Hcl Hh Hs. split; simpl; rewrite ?Hc, ?Hcl; eauto.
  intros c g Hg. destruct (H6 c g Hg) as [Hin (e & He & Hce)]. split; [done|].
  destruct (Hh g e He) as (e' & He' & Hc'). exists e'. split; [done|congruence].
Qed.

(** A step of a handler between two places that hold nothing but a session in the map. *)
Lemma owners_handler s c h h' :
  owners_inv s → (sy_handlers s !! c = None ∨ sy_handlers s !! c = Some h ∧ holds_session h = true) →
  holds_session h' = true → owners_inv (set_handler s c h').
Proof.
  intros [H1 H2 H3 H4 H5 H6] Hold Hnew.
  assert (Hc : ∀ c' h0, (<[c := h']> (sy_handlers s)) !! c' = Some h0 → holds_session h0 = false →
    sy_handlers s !! c' = Some h0).
  { intros c' h0. rewrite lookup_insert_Some. intros [[_ <-]|[_ ?]] ?; congruence. }
  assert (Hk : ∀ c' h0, sy_handlers s !! c' = Some h0 → holds_session h0 = false →
    (<[c := h']> (sy_handlers s)) !! c' = Some h0).
  { intros c' h0 Hh Hf. rewrite lookup_insert_ne; [done|]. intros <-. destruct Hold as [?|[??]]; congruence. }
  split; simpl; try done.
  - intros tid c'. rewrite H1. split; intros Hh; [by apply Hk|by apply Hc].
  - intros c' g Hg. destruct (decide (c' = c)) as [->|Hne]; [|rewrite lookup_insert_ne by done; eauto].
    exists h'. by rewrite lookup_insert_eq.
  - intros g Hg. destruct (H4 g Hg) as [?|[c' Hc']]; [by left|right]. exists c'. by apply Hk.
  - intros g Hg. destruct (H5 g Hg) as [Hin Hn]. split; [done|]. intros c' Hc'.
    by eapply Hn, Hc.
  - intros c' g Hg. apply H6. by apply Hc.
Qed.

Lemma owners_reserve s c tid m :
  owners_inv s → sy_handlers s !! c = Some HChecked → mg_sessions (sy_manager s) !! c = None →
  manager_step (sy_manager s) (LReserve tid c) m →
  owners_inv (set_manager (set_handler s c (HConnecting tid)) m).
Proof.
  intros [H1 H2 H3 H4 H5 H6] Hh Hm Hstep. inversion Hstep as [m0 tid0 c0 m1 Ht Hr| | | | | | | | | | | |]; subst.
  unfold connect_reserve in Hr. destruct (try_acquire _) as [sl|]; [|done]. injection Hr as <-.
  split; simpl; try done.
  - intros tid' c'. rewrite !lookup_insert_Some, H1. split.
    + intros [[-> ->]|[Hne Hc']]; [by left|right]. split; [congruence|done].
    + intros [[-> [= ->]]|[Hne Hc']]; [by left|right]. split; [|done]. intros ->.
      apply H1 in Hc'. congruence.
  - intros c' g Hg. destruct (decide (c' = c)) as [->|Hne]; [congruence|].
    rewrite lookup_insert_ne by done. eauto.
  - intros g Hg. destruct (H4 g Hg) as [?|[c' Hc']]; [by left|right]. exists c'.
    rewrite lookup_insert_ne; [done|congruence].
  - intros g Hg. destruct (H5 g Hg) as [Hin Hn]. split; [done|]. intros c'.
    rewrite lookup_insert_Some. intros [[_ ?]|[_ ?]]; [done|by eapply Hn].
  - intros c' g. rewrite lookup_insert_Some. intros [[_ ?]|[_ ?]]; [done|by apply H6].
Qed.

(** A connect ends: the call leaves [mg_connecting] and its handler goes on. *)
Lemma owners_end_connect s c tid h m :
  owners_inv s → sy_handlers s !! c = Some (HConnecting tid) → holds_session h = true →
  mg_connecting m = delete tid (mg_connecting (sy_manager s)) →
  mg_closing m = mg_closing (sy_manager s) → keeps_heap (sy_manager s) m →
  (∀ c' g, mg_sessions m !! c' = Some g → c' ≠ c → mg_sessions (sy_manager s) !! c' = Some g) →
  owners_inv (set_manager (set_handler s c h) m).
Proof.
  intros [H1 H2 H3 H4 H5 H6] Hh Hnew Hcon Hcl Hheap Hs.
  split; simpl; rewrite ?Hcon, ?Hcl; try done.
  - intros tid' c'. rewrite lookup_delete_Some, lookup_insert_Some, H1. split.
    + intros [Hne Hc']. right. split; [|done]. intros ->. congruence.
    + intros [[-> ->]|[Hne Hc']]; [done|]. split; [|done]. intros ->.
      apply H1 in Hc', Hh. congruence.
  - intros c' g Hg. destruct (decide (c' = c)) as [->|Hne]; [exists h; by rewrite lookup_insert_eq|].
    rewrite lookup_insert_ne by done. eauto.
  - intros g Hg. destruct (H4 g Hg) as [?|[c' Hc']]; [by left|right]. exists c'.
    rewrite lookup_insert_ne; [done|congruence].
  - intros g Hg. destruct (H5 g Hg) as [Hin Hn]. split; [done|]. intros c'.
    rewrite lookup_insert_Some. intros [[_ ->]|[_ ?]]; [done|by eapply Hn].
  - intros c' g. rewrite lookup_insert_Some. intros [[_ ->]|[_ Hg]]; [done|].
    destruct (H6 c' g Hg) as [Hin (e & He & Hce)]. split; [done|].
    destruct (Hheap g e He) as (e' & He' & Hc'). exists e'. split; [done|congruence].
Qed.

Lemma publish_frame m tid gen c m' :
  manager_step m (LPublish tid gen c) m' →
  mg_connecting m !! tid = Some c ∧ mg_heap m !! gen = None ∧
  mg_connecting m' = delete tid (mg_connecting m) ∧ mg_closing m' = mg_closing m ∧
  mg_shutdown m' = mg_shutdown m ∧
  ∃ e, mg_heap m' = <[gen := e]> (mg_heap m) ∧ en_conn e = c ∧
    (mg_sessions m' = mg_sessions m ∧ en_task e = TaskDone ∧ is_Some (mg_sessions m !! c) ∨
     mg_sessions m' = <[c := gen]> (mg_sessions m) ∧ en_task e = TaskSpawned ∧
       mg_sessions m !! c = None).
Proof.
  intros Hs. inversion Hs as [| |m0 tid0 c0 gen0 peer username m1 r Ht Hg Hp| | | | | | | | | |]; subst.
  unfold connect_publish in Hp. destruct (mg_sessions m !! c) eqn:Hm; simplify_eq.
  - destruct (close_session_frame (set_connecting m (delete tid (mg_connecting m))) gen
      (mkEntry c (UserSession_new peer username) TaskDone) TaskDone) as (-> & -> & -> & -> & ->).
    split_and!; try done. eexists. split_and!; [done|done|left]. eauto.
  - split_and!; try done. eexists. split_and!; [done|done|right]. done.
Qed.

Lemma keeps_heap_publish m tid gen c m' : manager_step m (LPublish tid gen c) m' → keeps_heap m m'.
Proof.
  intros (_ & Hg & _ & _ & _ & e & He & _)%publish_frame g0 e0 He0. rewrite He. exists e0.
  rewrite lookup_insert_ne; [done|]. congruence.
Qed.

Abbreviation cap := (sv_max_connections (server config)).

(** A session in the map is not being shut down, and belongs to its connection. *)
Lemma mapped_session m c g :
  manager_inv cap m → mg_sessions m !! c = Some g →
  (g ∉ mg_closing m) ∧ ∃ e, mg_heap m !! g = Some e ∧ en_conn e = c.
Proof.
  intros Hinv Hc. destruct (inv_map _ _ Hinv c g Hc) as (e & He & Hce & _).
  split; [|eauto]. intros Hin. destruct (inv_closing _ _ Hinv g Hin) as (e' & He' & Hn).
  simplify_eq.
Qed.

Lemma owners_handler_remove s c :
  manager_inv cap (sy_manager s) → owners_inv s → sy_handlers s !! c = Some HLeaving →
  owners_inv (set_manager (set_handler s c (after_remove s c)) (disconnect_remove (sy_manager s) c)).
Proof.
  intros Hinv [H1 H2 H3 H4 H5 H6] Hh. unfold after_remove, disconnect_remove.
  destruct (mg_sessions (sy_manager s) !! c) as [g|] eqn:Hc.
  - destruct (mapped_session _ _ _ Hinv Hc) as (Hn & e & He & Hce). split; simpl; try done.
    + intros tid c'. rewrite H1, lookup_insert_Some. split; [|naive_solver].
      intros Hc'. right. split; [congruence|done].
    + intros c' g'. rewrite lookup_delete_Some. intros [Hne Hg'].
      rewrite lookup_insert_ne by done. eauto.
    + by constructor.
    + intros g' [->|Hg']%elem_of_cons; [right; exists c; by rewrite lookup_insert_eq|].
      destruct (H4 g' Hg') as [?|[c' Hc']]; [by left|right]. exists c'.
      rewrite lookup_insert_ne; [done|congruence].
    + intros g' Hg'. destruct (H5 g' Hg') as [Hin Hn']. split; [by right|]. intros c'.
      rewrite lookup_insert_Some. intros [[_ [= ->]]|[_ ?]]; [done|by eapply Hn'].
    + intros c' g'. rewrite lookup_insert_Some. intros [[<- [= <-]]|[_ Hg']].
      * split; [left|]. eauto.
      * destruct (H6 c' g' Hg') as [Hin He']. split; [by right|done].
  - split; simpl; try done.
    + intros tid c'. rewrite H1, lookup_insert_Some. split; [|naive_solver].
      intros Hc'. right. split; [congruence|done].
    + intros c' g' Hg'. rewrite lookup_insert_ne by congruence. eauto.
    + intros g' Hg'. destruct (H4 g' Hg') as [?|[c' Hc']]; [by left|right]. exists c'.
      rewrite lookup_insert_ne; [done|congruence].
    + intros g' Hg'. destruct (H5 g' Hg') as [Hin Hn']. split; [done|]. intros c'.
      rewrite lookup_insert_Some. intros [[_ ?]|[_ ?]]; [done|by eapply Hn'].
    + intros c' g'. rewrite lookup_insert_Some. intros [[_ ?]|[_ Hg']]; [done|by apply H6].
Qed.

Lemma owners_main_remove s c ids ids' :
  manager_inv cap (sy_manager s) → owners_inv s → sy_main s = MainClosing ids None →
  owners_inv (set_main (set_manager s (disconnect_remove (sy_manager s) c))
    (MainClosing ids' (mg_sessions (sy_manager s) !! c))).
Proof.
  intros Hinv [H1 H2 H3 H4 H5 H6] Hmain. unfold disconnect_remove. rewrite Hmain in *. simpl in *.
  destruct (mg_sessions (sy_manager s) !! c) as [g|] eqn:Hc.
  - destruct (mapped_session _ _ _ Hinv Hc) as (Hn & e & He & Hce). split; simpl; try done.
    + intros c' g'. rewrite lookup_delete_Some. intros [Hne Hg']. eauto.
    + by constructor.
    + intros g' [->|Hg']%elem_of_cons; [by left|]. destruct (H4 g' Hg') as [?|?]; [done|by right].
    + intros g' [= <-]. split; [left|]. intros c' Hc'. by apply H6 in Hc' as [? _].
    + intros c' g' Hg'. destruct (H6 c' g' Hg') as [Hin He']. split; [by right|done].
  - split; simpl; try done; eauto.
Qed.

Lemma remove_one_nodup g (l : list nat) :
  NoDup l → NoDup (remove_one g l) ∧ g ∉ remove_one g l.
Proof.
  induction 1 as [|x l Hx Hl [IH1 IH2]]; simpl; [split; [constructor|apply not_elem_of_nil]|].
  destruct (Nat.eqb_spec x g) as [->|Hne]; [done|]. split.
  - constructor; [|done]. by intros ?%elem_of_remove_one.
  - rewrite not_elem_of_cons. by split.
Qed.

Lemma disconnect_shutdown_frame m g m' :
  manager_step m (LDisconnectShutdown g) m' →
  g ∈ mg_closing m ∧ mg_sessions m' = mg_sessions m ∧ mg_connecting m' = mg_connecting m ∧
  mg_closing m' = remove_one g (mg_closing m) ∧ mg_shutdown m' = mg_shutdown m ∧
  ∃ e, mg_heap m !! g = Some e ∧
    mg_heap m' = <[g := mkEntry (en_conn e) (shutdown_user_session (en_session e)).1 (en_task e)]>
                   (mg_heap m).
Proof.
  intros Hs. inversion Hs as [| | | |m0 g0 e Hin He| | | | | | | |]; subst.
  destruct (close_session_frame m g e (en_task e)) as (Hf1 & Hf2 & Hf3 & Hf4 & Hf5).
  unfold disconnect_shutdown. simpl. split_and!; try done. exists e. by rewrite Hf5.
Qed.

(** A shutdown ends: the session leaves [mg_closing], and whoever ran it goes on. *)
Lemma owners_end_shutdown s g m hs main' :
  owners_inv s → manager_step (sy_manager s) (LDisconnectShutdown g) m →
  (∀ c h, hs !! c = Some h → sy_handlers s !! c = Some h ∨ h = HRevoking ∧ sy_handlers s !! c = Some (HClosing g)) →
  (∀ c h, sy_handlers s !! c = Some h → h ≠ HClosing g → hs !! c = Some h) →
  (∀ c, hs !! c ≠ Some (HClosing g)) →
  (∀ g', main_current main' = Some g' ↔ main_current (sy_main s) = Some g' ∧ g' ≠ g) →
  owners_inv (mkSystem m (sy_endpoint s) hs (sy_turn s) main').
Proof.
  intros [H1 H2 H3 H4 H5 H6] (Hin & Hf1 & Hf2 & Hf3 & _ & e & He & Hf5)%disconnect_shutdown_frame Hnew Hold Hng Hmain.
  destruct (remove_one_nodup g _ H3) as [Hnd Hnin]. split; simpl; rewrite ?Hf1, ?Hf2, ?Hf3; try done.
  - intros tid c. rewrite H1. split; intros Hc; [by apply Hold|]. by destruct (Hnew c _ Hc) as [?|[??]].
  - intros c g' Hg'. destruct (H2 c g' Hg') as (h & Hh & Hhold). exists h. split; [|done].
    apply Hold; [done|]. by intros ->.
  - intros g' Hg'. assert (g' ≠ g) as Hne by (intros ->; done). apply elem_of_remove_one in Hg'.
    destruct (H4 g' Hg') as [?|[c Hc]]; [left; by apply Hmain|right]. exists c. apply Hold; [done|congruence].
  - intros g' [Hg' Hne]%Hmain. destruct (H5 g' Hg') as [Hi Hn]. split; [by apply elem_of_remove_one_ne|].
    intros c Hc. destruct (Hnew c _ Hc) as [?|[??]]; [by eapply Hn|done].
  - intros c g' Hc. assert (g' ≠ g) as Hne by (intros ->; by eapply Hng).
    destruct (Hnew c _ Hc) as [Hc'|[??]]; [|done]. destruct (H6 c g' Hc') as [Hi (e' & He' & Hce)].
    split; [by apply elem_of_remove_one_ne|]. exists e'. by rewrite Hf5, lookup_insert_ne.
Qed.

(** Only the handler map, the manager and the main task matter for ownership. *)
Lemma owners_ext s s' :
  owners_inv s → sy_manager s' = sy_manager s → sy_handlers s' = sy_handlers s →
  main_current (sy_main s') = main_current (sy_main s) → owners_inv s'.
Proof. intros [] Hm Hh Ht. by split; rewrite ?Hm, ?Hh, ?Ht. Qed.

Lemma begin_shutdown_frame m m' :
  manager_step m LBeginShutdown m' → m' = begin_shutdown m.
Proof. by inversion 1. Qed.

Lemma disconnect_remove_frame m c m' :
  manager_step m (LDisconnectRemove c) m' → m' = disconnect_remove m c.
Proof. by inversion 1. Qed.

Lemma abandon_frame m tid m' : manager_step m (LAbandon tid) m' → m' = connect_abandon m tid.
Proof. by inversion 1. Qed.

Lemma owners_gone s c h :
  owners_inv s → sy_handlers s !! c = Some HRevoking → h = HGone → owners_inv (set_handler s c h).
Proof.
  intros [H1 H2 H3 H4 H5 H6] Hh ->. split; simpl; try done.
  - intros tid c'. rewrite H1, lookup_insert_Some. split; [|naive_solver].
    intros Hc'. right. split; [congruence|done].
  - intros c' g' Hg'. destruct (H2 c' g' Hg') as (h & Hh' & Hhold).
    rewrite lookup_insert_ne; [eauto|]. intros ->. by simplify_eq.
  - intros g' Hg'. destruct (H4 g' Hg') as [?|[c' Hc']]; [by left|right]. exists c'.
    rewrite lookup_insert_ne; [done|congruence].
  - intros g' Hg'. destruct (H5 g' Hg') as [Hin Hn']. split; [done|]. intros c'.
    rewrite lookup_insert_Some. intros [[_ ?]|[_ ?]]; [done|by eapply Hn'].
  - intros c' g'. rewrite lookup_insert_Some. intros [[_ ?]|[_ Hg']]; [done|by apply H6].
Qed.

Lemma owners_handler_step s b s' :
  manager_inv cap (sy_manager s) → owners_inv s → handler_step s b s' → owners_inv s'.
Proof.
  intros Hinv Hown Hs. destruct Hs as [s c origin a msg frame Hm Hh Hu|s c Hh Hsd|s c tid m Hh Hm Hs
    |s c Hh Hr|s c tid m to Hh Hs|s c tid gen m Hh Hs|s c g e now u Hh He Hc Hi|s c h Hh Hor
    |s c m Hh Hs|s c g m Hh Hs|s c alive Hh].
  - apply (owners_ext (set_handler s c HServing)); [|done..]. apply (owners_handler _ _ HServing); auto.
  - eapply owners_handler; eauto.
  - by apply owners_reserve.
  - eapply owners_handler; eauto.
  - apply abandon_frame in Hs as ->. eapply owners_end_connect; try done.
    + by destruct to.
    + intros g e He. eauto.
  - pose proof (keeps_heap_publish _ _ _ _ _ Hs) as Hk.
    apply publish_frame in Hs as (_ & _ & Hcon & Hcl & _ & e & _ & _ & Hmap).
    eapply owners_end_connect; try done. intros c' g Hg Hne.
    destruct Hmap as [(Hmap & _)|(Hmap & _)]; rewrite Hmap in Hg; [done|].
    by rewrite lookup_insert_ne in Hg.
  - by apply (owners_ext s).
  - eapply owners_handler; [done|right; split; [done|]|done]. by destruct Hor as [->| ->].
  - apply disconnect_remove_frame in Hs as ->. by apply owners_handler_remove.
  - assert (Hcg : main_current (sy_main s) ≠ Some g).
    { intros Hmc. destruct (ow_main _ Hown g Hmc) as [_ Hn]. by eapply Hn. }
    eapply (owners_end_shutdown s g m (<[c := HRevoking]> (sy_handlers s)) (sy_main s)); try done.
    + intros c' h. rewrite lookup_insert_Some. naive_solver.
    + intros c' h Hh' Hne. rewrite lookup_insert_ne; [done|congruence].
    + intros c'. rewrite lookup_insert_Some. intros [[_ ?]|[Hne Hc']]; [done|].
      destruct (ow_handler _ Hown c g Hh) as [_ (e & He & <-)].
      destruct (ow_handler _ Hown c' g Hc') as [_ (e' & He' & <-)]. congruence.
    + intros g'. split; [|naive_solver]. intros Hg'. split; [done|congruence].
  - apply (owners_ext (set_handler s c HGone)); [|done..]. by apply owners_gone.
Qed.

Lemma owners_event_step s b s' : owners_inv s → event_task_step s b s' → owners_inv s'.
Proof.
  intros Hown Hs. destruct Hs as [s l m Hl Hs|s g e now u m He Hs|s g e alive m He Hs];
    apply internal_frame in Hs as (Hf1 & Hf2 & _ & Hf4 & Hf5); try done.
  - by apply owners_internal.
  - by destruct l.
  - apply (owners_ext (set_manager s m)); [|done..]. by apply owners_internal.
  - apply (owners_ext (set_manager s m)); [|done..]. by apply owners_internal.
Qed.

Lemma owners_main_step s b s' :
  manager_inv cap (sy_manager s) → owners_inv s → main_step s b s' → owners_inv s'.
Proof.
  intros Hinv Hown Hs. destruct Hs as [s m Hm Hs|s m Hm Hs|s ids Hm Hids|s c ids m Hm Hs
    |s g ids m Hm Hs|s Hm].
  - apply begin_shutdown_frame in Hs as ->. destruct Hown. by split.
  - apply begin_shutdown_frame in Hs as ->. destruct Hown. rewrite Hm in *. by split.
  - apply (owners_ext s); [done..|]. by rewrite Hm.
  - apply disconnect_remove_frame in Hs as ->. by apply (owners_main_remove s c (c :: ids)).
  - eapply (owners_end_shutdown s g m (sy_handlers s) (MainClosing ids None)); try done.
    + by left.
    + intros c. apply (ow_main _ Hown). by rewrite Hm.
    + intros g'. rewrite Hm. simpl. naive_solver.
  - apply (owners_ext s); [done..|]. by rewrite Hm.
Qed.

(** Outside [axum::serve] the shutdown flag is set; the slots of the endpoint are those of
    the handlers that have not returned. *)
Definition open_weight (h : HandlerTask) : nat := match h with HGone => 0 | _ => 1 end.

Record system_inv (s : System) : Prop := {
  sv_manager : reachable cap (sy_manager s);
  sv_owners : owners_inv s;
  sv_flag : sy_main s ≠ MainServing → mg_shutdown (sy_manager s) = true;
  sv_endpoint : endpoint_inv config (sy_endpoint s);
  sv_open : as_open (sy_endpoint s) = map_weight open_weight (sy_handlers s)
}.

(** Every step takes the manager along one of its own steps, if any. *)
Lemma system_step_manager s b s' :
  system_step s b s' →
  sy_manager s' = sy_manager s ∨ ∃ l, manager_step (sy_manager s) l (sy_manager s').
Proof. intros [Hs|Hs|Hs|t ns al -> Ht ->]; [destruct Hs..|]; simpl; eauto. Qed.

(** The shutdown flag is never cleared. *)
Lemma shutdown_flag_stays m l m' :
  manager_step m l m' → mg_shutdown m = true → mg_shutdown m' = true.
Proof.
  intros Hs Hf. destruct (internal_label l) eqn:Hl.
  { destruct (internal_frame _ _ _ Hl Hs) as (_ & _ & -> & _). done. }
  destruct l; try done.
  - inversion Hs as [m0 tid0 c0 m1 Ht Hr| | | | | | | | | | | |]; subst.
    unfold connect_reserve in Hr. destruct (try_acquire _); [|done]. by injection Hr as <-.
  - by apply abandon_frame in Hs as ->.
  - by apply publish_frame in Hs as (_ & _ & _ & _ & -> & _).
  - apply disconnect_remove_frame in Hs as ->. unfold disconnect_remove. by destruct (_ !! _).
  - by apply disconnect_shutdown_frame in Hs as (_ & _ & _ & _ & -> & _).
  - by apply begin_shutdown_frame in Hs as ->.
Qed.

Lemma handler_weight_same s c h h' :
  sy_handlers s !! c = Some h → open_weight h' = open_weight h →
  map_weight open_weight (<[c := h']> (sy_handlers s)) = map_weight open_weight (sy_handlers s).
Proof. intros Hc Hw. pose proof (map_weight_insert open_weight _ c h h' Hc). lia. Qed.

Lemma after_remove_open s c : open_weight (after_remove s c) = 1%nat.
Proof. unfold after_remove. by destruct (_ !! c). Qed.

(** The endpoint changes only when a handler starts or returns. *)
Lemma endpoint_handler_step s b s' :
  endpoint_inv config (sy_endpoint s) →
  as_open (sy_endpoint s) = map_weight open_weight (sy_handlers s) → handler_step s b s' →
  endpoint_inv config (sy_endpoint s') ∧
  as_open (sy_endpoint s') = map_weight open_weight (sy_handlers s').
Proof.
  intros Hep Hopen Hs. destruct Hs as [s c origin a msg frame Hm Hh Hu|s c Hh Hsd|s c tid m Hh Hm Hs
    |s c Hh Hr|s c tid m to Hh Hs|s c tid gen m Hh Hs|s c g e now u Hh He Hc Hi|s c h Hh Hor
    |s c m Hh Hs|s c g m Hh Hs|s c alive Hh]; simpl;
    try (split; [done|]; erewrite handler_weight_same; [done..|]; first
      [by destruct to | by destruct Hor as [->| ->] | by rewrite after_remove_open | done]).
  - pose proof (endpoint_step_inv config _ (OpUpgrade origin) Hep) as Hi. simpl in Hi.
    rewrite Hu in Hi. split; [done|]. unfold ws_upgrade in Hu.
    destruct (negb _); [done|]. destruct (try_acquire _); [|done]. injection Hu as <- <- <-. simpl.
    rewrite map_weight_insert_new by done. simpl. by rewrite Hopen.
  - done.
  - pose proof (map_weight_insert open_weight _ c HRevoking HGone Hh) as Hw. simpl in Hw.
    split; [|simpl; lia].
    pose proof (endpoint_step_inv config _ OpClosed Hep) as Hi. simpl in Hi.
    destruct (Nat.ltb_spec 0 (as_open (sy_endpoint s))); [done|lia].
Qed.

Lemma endpoint_step_system s b s' :
  endpoint_inv config (sy_endpoint s) →
  as_open (sy_endpoint s) = map_weight open_weight (sy_handlers s) → system_step s b s' →
  endpoint_inv config (sy_endpoint s') ∧
  as_open (sy_endpoint s') = map_weight open_weight (sy_handlers s').
Proof.
  intros He Ho Hs. destruct Hs as [Hs|Hs|Hs|t ns al -> Ht ->];
    [by eapply endpoint_handler_step|by destruct Hs|by destruct Hs|done].
Qed.

Lemma system_flag_step s b s' :
  (sy_main s ≠ MainServing → mg_shutdown (sy_manager s) = true) → system_step s b s' →
  sy_main s' ≠ MainServing → mg_shutdown (sy_manager s') = true.
Proof.
  intros Hf Hs Hm'. destruct (decide (mg_shutdown (sy_manager s) = true)) as [Hsd|Hsd].
  { destruct (system_step_manager s b s' Hs) as [->|[l Hl]]; [done|by eapply shutdown_flag_stays]. }
  assert (Hm : sy_main s = MainServing) by (destruct (sy_main s); naive_solver).
  destruct Hs as [Hs|Hs|Hs|t ns al -> Ht ->]; [destruct Hs|destruct Hs|destruct Hs|]; simpl in *; try congruence.
  match goal with Hs : manager_step _ LBeginShutdown _ |- _ => by apply begin_shutdown_frame in Hs as -> end.
Qed.

Hypothesis max_connections_nonneg : 0 ≤ cap.

Lemma system_inv_step s b s' : system_inv s → system_step s b s' → system_inv s'.
Proof.
  intros [Hr Ho Hf He Hop] Hs. pose proof (reachable_inv _ _ max_connections_nonneg Hr) as Hinv. split.
  - destruct (system_step_manager s b s' Hs) as [->|[l Hl]]; [done|by eapply reach_step].
  - destruct Hs as [Hs|Hs|Hs|t ns al -> Ht ->].
    + by eapply owners_handler_step.
    + by eapply owners_event_step.
    + by eapply owners_main_step.
    + by apply (owners_ext s).
  - by eapply system_flag_step.
  - by eapply endpoint_step_system.
  - by eapply endpoint_step_system.
Qed.

Lemma system_reachable_inv s : system_reachable s → system_inv s.
Proof.
  induction 1 as [turn Hturn|s b s' _ IH Hs]; [|by eapply system_inv_step]. split; simpl; try done.
  - constructor.
  - split; simpl; try done.
    + constructor.
    + intros g Hg. by apply elem_of_nil in Hg.
  - split; [done|]. by apply slots_new.
Qed.

(** ** The life of a credential *)

(** An event task that may still revoke. *)
Definition task_in_flight (t : EventTask) : bool :=
  match t with TaskSpawned | TaskDone => false | _ => true end.

(** Somebody is left who will revoke the credentials of the connection. *)
Definition conn_live (s : System) (c : string) : Prop :=
  (∃ h, sy_handlers s !! c = Some h ∧ h ≠ HGone) ∨
  ∃ g e, mg_heap (sy_manager s) !! g = Some e ∧ en_conn e = c ∧ task_in_flight (en_task e) = true.

Definition credentials_owned (s : System) : Prop :=
  ∀ t name cr, sy_turn s = Some t → cs_entries (tv_credentials t) !! name = Some cr →
    conn_live s (cr_session cr).

(** An event task stays in flight until it has revoked. *)
Lemma in_flight_stays m l m' g e :
  manager_step m l m' → l ≠ LRevoked g → mg_heap m !! g = Some e →
  task_in_flight (en_task e) = true →
  ∃ e', mg_heap m' !! g = Some e' ∧ en_conn e' = en_conn e ∧ task_in_flight (en_task e') = true.
Proof.
  intros Hs Hl He Hf.
  assert (Hins : ∀ h g0 e0 e1, h = <[g0 := e1]> (mg_heap m) → mg_heap m !! g0 = Some e0 →
    en_conn e1 = en_conn e0 → (task_in_flight (en_task e0) = true → task_in_flight (en_task e1) = true) →
    ∃ e', h !! g = Some e' ∧ en_conn e' = en_conn e ∧ task_in_flight (en_task e') = true).
  { intros h g0 e0 e1 -> H1 H2 H3. destruct (decide (g = g0)) as [->|Hne].
    - exists e1. rewrite lookup_insert_eq. simplify_eq. auto.
    - exists e. by rewrite lookup_insert_ne. }
  destruct Hs as [m tid c' m' Ht Hr|m tid c' Ht|m tid c' g' p u m' r Ht Hg Hp
    |m c'|m g' e' Hg He'|m g' e' He' Ht|m g' e' s He' Hop|m g' e' um ev cfg now at_ rt s um' ef He' Ht Hlo Hp
    |m g' e' He' Ht|m g' e' t He' Ht|m g' e' t m' ms b He' Ht Hfr|m g' e' He' Ht|m].
  - unfold connect_reserve in Hr. destruct (try_acquire _); [|done]. injection Hr as <-. eauto.
  - eauto.
  - destruct (publish_frame m tid g' c' m') as (_ & _ & _ & _ & _ & e1 & -> & _).
    { by eapply StepPublish. }
    exists e. rewrite lookup_insert_ne; [done|congruence].
  - unfold disconnect_remove. destruct (mg_sessions m !! c'); eauto.
  - destruct (close_session_frame m g' e' (en_task e')) as (_ & _ & _ & _ & Hc5).
    eapply Hins; [exact Hc5|done|done|done].
  - eapply Hins; [done|done|by destruct (process_events_start _)|]. by rewrite Ht.
  - by eapply Hins.
  - by eapply Hins.
  - by eapply Hins.
  - destruct (close_session_frame m g' e' (TaskFinishing t)) as (_ & _ & _ & _ & Hc5).
    eapply Hins; [exact Hc5|done|done|done].
  - unfold finish_remove in Hfr. destruct (bool_decide _); simplify_eq; by eapply Hins.
  - exists e. simpl. rewrite lookup_insert_ne; [done|congruence].
  - eauto.
Qed.

(** Issuing adds at most a credential of that connection; revoking removes them all. *)
Lemma issue_turn_entries s c now u t name cr :
  sy_turn (issue_turn s c now u) = Some t → cs_entries (tv_credentials t) !! name = Some cr →
  cr_session cr = c ∨ ∃ t0, sy_turn s = Some t0 ∧ cs_entries (tv_credentials t0) !! name = Some cr.
Proof.
  unfold issue_turn, session_ice_config. simpl. destruct (sy_turn s) as [t0|]; [|done].
  unfold TurnService_ice_config, Credentials_issue_at, issue_credential.
  destruct (List.find _ _) as [cr0|]; simpl; intros [= <-]; simpl.
  - rewrite live_lookup. intros [? _]. eauto.
  - rewrite lookup_insert_Some, live_lookup. intros [[_ <-]|(_ & ? & _)]; [|eauto].
    left. apply fresh_session.
Qed.

Lemma revoke_turn_entries s c alive t name cr :
  sy_turn (revoke_turn s c alive) = Some t → cs_entries (tv_credentials t) !! name = Some cr →
  cr_session cr ≠ c ∧ ∃ t0, sy_turn s = Some t0 ∧ cs_entries (tv_credentials t0) !! name = Some cr.
Proof.
  unfold revoke_turn. simpl. destruct (sy_turn s) as [t0|]; [|done]. simpl. intros [= <-]. simpl.
  rewrite map_lookup_filter_Some. simpl. naive_solver.
Qed.

(** A living connection stays so while its handler is not gone, unless the step is the
    revocation of one of its event tasks. *)
Lemma conn_live_step s s' c :
  conn_live s c →
  (∀ h, sy_handlers s !! c = Some h → h ≠ HGone → ∃ h', sy_handlers s' !! c = Some h' ∧ h' ≠ HGone) →
  (sy_manager s' = sy_manager s ∨ ∃ l, manager_step (sy_manager s) l (sy_manager s') ∧
     ∀ g e, l = LRevoked g → mg_heap (sy_manager s) !! g = Some e → en_conn e ≠ c) →
  conn_live s' c.
Proof.
  intros [(h & Hh & Hne)|(g & e & He & Hc & Hf)] Hh' Hm.
  - left. eauto.
  - right. destruct Hm as [->|(l & Hl & Hn)]; [eauto|].
    destruct (in_flight_stays _ _ _ g e Hl) as (e' & He' & Hc' & Hf'); [|done|done|].
    + intros ->. by eapply Hn.
    + exists g, e'. split_and!; [done|congruence|done].
Qed.

Lemma handler_keeps_alive s s' c0 h0 c h :
  sy_handlers s' = <[c0 := h0]> (sy_handlers s) → h0 ≠ HGone →
  sy_handlers s !! c = Some h → h ≠ HGone → ∃ h', sy_handlers s' !! c = Some h' ∧ h' ≠ HGone.
Proof.
  intros -> Hne Hh Hg. destruct (decide (c = c0)) as [->|]; [exists h0; by rewrite lookup_insert_eq|].
  exists h. by rewrite lookup_insert_ne.
Qed.

Lemma after_remove_not_gone s c : after_remove s c ≠ HGone.
Proof. unfold after_remove. by destruct (_ !! c). Qed.

Lemma credentials_handler_step s b s' :
  credentials_owned s → handler_step s b s' → credentials_owned s'.
Proof.
  intros Hown Hs. destruct Hs as [s c origin a msg frame Hm Hh Hu|s c Hh Hsd|s c tid m Hh Hm Hs
    |s c Hh Hr|s c tid m to Hh Hs|s c tid gen m Hh Hs|s c g e now u Hh He Hc Hi|s c h Hh Hor
    |s c m Hh Hs|s c g m Hh Hs|s c alive Hh]; intros t name cr Ht Hcr.
  1-6, 8-10: eapply conn_live_step; [by eapply Hown|intros h' Hh' Hne;
      eapply handler_keeps_alive; [done| |exact Hh'|done]|simpl; eauto 6].
  all: try done.
  - by destruct to.
  - apply after_remove_not_gone.
  - destruct (issue_turn_entries s c now u t name cr Ht Hcr) as [->|(t0 & Ht0 & Hcr0)].
    + left. exists HServing. done.
    + by eapply (Hown t0).
  - assert (Ht' : sy_turn (revoke_turn s c alive) = Some t) by done.
    destruct (revoke_turn_entries s c alive t name cr Ht' Hcr) as (Hne & t0 & Ht0 & Hcr0).
    destruct (Hown t0 name cr Ht0 Hcr0) as [(h & Hh' & Hg)|?]; [left|by right].
    exists h. simpl. by rewrite lookup_insert_ne.
Qed.

Lemma credentials_event_step s b s' :
  credentials_owned s → event_task_step s b s' → credentials_owned s'.
Proof.
  intros Hown Hs. destruct Hs as [s l m Hl Hs|s g e now u m He Hs|s g e alive m He Hs];
    intros t name cr Ht Hcr.
  - eapply conn_live_step; [by eapply Hown|eauto|]. right. exists l. split; [done|]. by intros ? ? ->.
  - destruct (issue_turn_entries (set_manager s m) _ _ _ _ _ _ Ht Hcr) as [->|(t0 & Ht0 & Hcr0)].
    + right. inversion Hs as [| | | | | | | |m0 g0 e0 He0 Htask| | | |]; subst.
      exists g, (with_task e TaskRunning). simpl. rewrite lookup_insert_eq. by simplify_eq.
    + eapply conn_live_step; [by eapply Hown|eauto|]. right. exists (LIssued g). split; [done|]. done.
  - destruct (revoke_turn_entries (set_manager s m) _ _ _ _ _ Ht Hcr) as (Hne & t0 & Ht0 & Hcr0).
    eapply conn_live_step; [by eapply Hown|eauto|]. right. exists (LRevoked g). split; [done|].
    intros g' e' [= <-] He'. congruence.
Qed.

Lemma credentials_main_step s b s' :
  credentials_owned s → main_step s b s' → credentials_owned s'.
Proof.
  intros Hown Hs. destruct Hs as [s m Hm Hs|s m Hm Hs|s ids Hm Hids|s c ids m Hm Hs
    |s g ids m Hm Hs|s Hm]; intros t name cr Ht Hcr.
  1-5: eapply conn_live_step; [by eapply Hown|eauto|simpl; eauto 6].
  simpl in Ht. destruct (sy_turn s) as [t0|] eqn:Ht0; [|done]. injection Ht as <-.
  by eapply (Hown t0).
Qed.

Lemma credentials_reachable s : system_reachable s → credentials_owned s.
Proof.
  induction 1 as [turn Hturn|s b s' _ IH [Hs|Hs|Hs|t ns al -> Ht ->]].
  - intros t name cr Ht Hcr. simpl in Ht. rewrite (Hturn t Ht) in Hcr. by rewrite lookup_empty in Hcr.
  - by eapply credentials_handler_step.
  - by eapply credentials_event_step.
  - by eapply credentials_main_step.
  - intros t' name cr [= <-] Hcr. apply (IH t name cr Ht). revert Hcr.
    unfold TurnService_make_server. destruct (ok_or _ _); [|done]. by destruct (ns _).
Qed.

(** C1: no TURN credential outlives its connection. In every interleaving of handlers, event
    tasks, credential refreshes and shutdown, a credential in the store belongs to a
    connection whose handler or one of whose event tasks is still going to revoke it; so
    once the handler of a WebSocket has returned and the event tasks of its sessions are
    over, the store has no credential of that connection. *)
Theorem no_credential_outlives_connection s t :
  system_reachable s → sy_turn s = Some t →
  (∀ name cr, cs_entries (tv_credentials t) !! name = Some cr → conn_live s (cr_session cr)) ∧
  ∀ c, sy_handlers s !! c = Some HGone →
    (∀ g e, mg_heap (sy_manager s) !! g = Some e → en_conn e = c → en_task e = TaskDone) →
    ∀ name cr, cs_entries (tv_credentials t) !! name = Some cr → cr_session cr ≠ c.
Proof.
  intros Hr Ht. pose proof (credentials_reachable s Hr t) as Hown. split; [by eauto|].
  intros c Hh Htasks name cr Hcr <-.
  destruct (Hown name cr Ht Hcr) as [(h & Hh' & Hne)|(g & e & He & Hc & Hf)]; [congruence|].
  by rewrite (Htasks g e He Hc) in Hf.
Qed.

(** C17: a WebSocket that is gone leaves nothing behind. Once its handler has returned and the
    main task is not in the middle of shutting its session down, the connection has no
    session in the map, no connect in flight and no slot; and the event tasks of its
    sessions, if some still run, find their session closed and are on their way out. *)
Theorem gone_connection_leaves_nothing s c :
  system_reachable s → sy_handlers s !! c = Some HGone →
  (∀ g e, main_current (sy_main s) = Some g → mg_heap (sy_manager s) !! g = Some e → en_conn e ≠ c) →
  mg_sessions (sy_manager s) !! c = None ∧
  (∀ tid, mg_connecting (sy_manager s) !! tid ≠ Some c) ∧
  ∀ g e, mg_heap (sy_manager s) !! g = Some e → en_conn e = c →
    se_slot (en_session e) = false ∧ se_closed (en_session e) = true.
Proof.
  intros Hr Hh Hmain. destruct (system_reachable_inv s Hr) as [Hm Ho _ _ _].
  pose proof (reachable_inv _ _ max_connections_nonneg Hm) as Hinv.
  assert (Hmap : mg_sessions (sy_manager s) !! c = None).
  { apply eq_None_not_Some. intros [g Hg]. destruct (ow_map s Ho c g Hg) as (h & Hh' & Hhold). by simplify_eq. }
  split_and!; [done| |].
  - intros tid Ht%(ow_connecting s Ho). congruence.
  - intros g e He Hc. destruct (inv_heap _ _ Hinv g e He) as [Hcl _].
    destruct (se_slot (en_session e)) eqn:Hs; [|by rewrite Hcl].
    exfalso. destruct (inv_owned _ _ Hinv g e He Hs) as [Hin|Hin]; [congruence|].
    destruct (ow_closing s Ho g Hin) as [Hcur|[c' Hc']]; [by eapply Hmain|].
    destruct (ow_handler s Ho c' g Hc') as [_ (e' & He' & Hce)]. congruence.
Qed.

(** ** Capacity *)

(** The connections that hold a session slot: connecting, or with a session not shut down. *)
Definition slot_conns (m : Manager P Sender S) : list string :=
  (map_to_list (mg_connecting m)).*2
  ++ ((λ ge, en_conn ge.2) <$> map_to_list (slot_holders (mg_heap m))).

Lemma slot_conns_length m : length (slot_conns m) = slots_held m.
Proof.
  unfold slot_conns, slots_held. by rewrite length_app, !length_fmap, !length_map_to_list.
Qed.

Lemma slot_conns_elem m c :
  c ∈ slot_conns m ↔ (∃ tid, mg_connecting m !! tid = Some c) ∨
    ∃ g e, mg_heap m !! g = Some e ∧ se_slot (en_session e) = true ∧ en_conn e = c.
Proof.
  unfold slot_conns. rewrite elem_of_app, !list_elem_of_fmap. split.
  - intros [([tid c'] & -> & Hin)|([g e] & -> & Hin)]; apply elem_of_map_to_list in Hin; [eauto|].
    apply map_lookup_filter_Some in Hin as [??]. right. eauto.
  - intros [(tid & Ht)|(g & e & He & Hs & <-)]; [left; exists (tid, c)|right; exists (g, e)];
      (split; [done|]); apply elem_of_map_to_list; [done|]. by apply map_lookup_filter_Some.
Qed.

(** Outside the main task's own shutdowns, a slot of a session belongs to its handler. *)
Lemma slot_owner s g e :
  system_inv s → main_current (sy_main s) = None → mg_heap (sy_manager s) !! g = Some e →
  se_slot (en_session e) = true →
  mg_sessions (sy_manager s) !! en_conn e = Some g ∨ sy_handlers s !! en_conn e = Some (HClosing g).
Proof.
  intros [Hm Ho _ _ _] Hmain He Hs. pose proof (reachable_inv _ _ max_connections_nonneg Hm) as Hinv.
  destruct (inv_owned _ _ Hinv g e He Hs) as [Hin|Hin]; [by left|right].
  destruct (ow_closing s Ho g Hin) as [Hcur|[c' Hc']]; [congruence|].
  destruct (ow_handler s Ho c' g Hc') as [_ (e' & He' & <-)]. by simplify_eq.
Qed.

Lemma slot_conns_nodup s :
  system_inv s → main_current (sy_main s) = None → NoDup (slot_conns (sy_manager s)).
Proof.
  intros Hinv Hmain. destruct Hinv as [Hm Ho Hf He Hop] eqn:Heq. clear Heq.
  assert (Hown : ∀ g e, mg_heap (sy_manager s) !! g = Some e → se_slot (en_session e) = true →
    mg_sessions (sy_manager s) !! en_conn e = Some g ∨ sy_handlers s !! en_conn e = Some (HClosing g)).
  { intros g e. by apply slot_owner. }
  apply NoDup_app. split_and!.
  - apply NoDup_fmap_2_strong; [|apply NoDup_map_to_list].
    intros [t1 c1] [t2 c2] H1%elem_of_map_to_list H2%elem_of_map_to_list Heq. simpl in Heq. subst.
    apply (ow_connecting s Ho) in H1, H2. congruence.
  - intros c [[tid c'] [-> Ht%elem_of_map_to_list]]%list_elem_of_fmap.
    intros [[g e] [Heq Hg%elem_of_map_to_list]]%list_elem_of_fmap. simpl in *.
    apply map_lookup_filter_Some in Hg as [Hg Hs]. apply (ow_connecting s Ho) in Ht. rewrite Heq in Ht.
    destruct (Hown g e Hg Hs) as [Hin|Hin]; [|congruence].
    destruct (ow_map s Ho _ _ Hin) as (h & Hh & Hhold). by simplify_eq.
  - apply NoDup_fmap_2_strong; [|apply NoDup_map_to_list].
    intros [g1 e1] [g2 e2] H1%elem_of_map_to_list H2%elem_of_map_to_list Heq. simpl in Heq.
    apply map_lookup_filter_Some in H1 as [H1 Hs1], H2 as [H2 Hs2]. simpl in *.
    assert (g1 = g2) as ->; [|by simplify_eq].
    destruct (Hown g1 e1 H1 Hs1) as [Hin1|Hin1], (Hown g2 e2 H2 Hs2) as [Hin2|Hin2];
      rewrite Heq in Hin1; try congruence;
      [destruct (ow_map s Ho _ _ Hin1) as (h & Hh & Hhold)|destruct (ow_map s Ho _ _ Hin2) as (h & Hh & Hhold)];
      by simplify_eq.
Qed.

End System.
Arguments System P Sender S : clear implicits.

(** ** A concrete run: a browser connects, logs in, gets a credential and leaves *)

Module Run.
Abbreviation sys := (System TestPeer unit Z).

Definition entry_at (s : sys) (g : nat) : Entry TestPeer unit :=
  default (mkEntry EmptyString (UserSession_new TestPeer_new EmptyString) TaskDone)
    (mg_heap (sy_manager s) !! g).

Definition put (s : sys) (g : nat) (e : Entry TestPeer unit) : sys :=
  set_manager s (set_heap (sy_manager s) (<[g := e]> (mg_heap (sy_manager s)))).

Definition accept (s : sys) (c : string) : sys :=
  set_endpoint (set_handler s c HServing) (ws_upgrade (sy_endpoint s) None).1.
Definition check (s : sys) (c : string) : sys := set_handler s c HChecked.
Definition reserve (s : sys) (c : string) (tid : nat) : sys :=
  set_manager (set_handler s c (HConnecting tid))
    (match connect_reserve (sy_manager s) tid c with Ok m => m | Err _ => sy_manager s end).
Definition publish (s : sys) (c : string) (tid g : nat) : sys :=
  set_manager (set_handler s c HServing)
    (connect_publish (sy_manager s) tid g c (UserSession_new TestPeer_new "u")).1.
Definition start (s : sys) (g : nat) : sys :=
  let e := entry_at s g in
  put s g (match process_events_start (en_session e) with
           | Some s => mkEntry (en_conn e) s TaskRunning
           | None => with_task e TaskDone
           end).
Definition login (s : sys) (g : nat) : sys :=
  let e := entry_at s g in
  put s g (mkEntry (en_conn e)
    (process_mumble_event (en_session e) ∅ (Some (MeConnected 7 [] [])) (mkIceConfig [] None) 0
       (λ _, Ok tt) (λ _, Ok tt)).1.1.1 TaskIssuing).
Definition issue (s : sys) (g : nat) (u : uuids) : sys :=
  issue_turn test_auth_key test_config (put s g (with_task (entry_at s g) TaskRunning))
    (en_conn (entry_at s g)) 1000 u.
Definition finish (s : sys) (g : nat) : sys :=
  set_manager s (close_session (sy_manager s) g (entry_at s g) (TaskFinishing None)).
Definition remove (s : sys) (g : nat) : sys :=
  set_manager s (finish_remove (sy_manager s) g (entry_at s g) None).1.1.
Definition task_revoke (s : sys) (g : nat) : sys :=
  revoke_turn (put s g (with_task (entry_at s g) TaskDone)) (en_conn (entry_at s g)) (λ _, true).
Definition leave (s : sys) (c : string) : sys := set_handler s c HLeaving.
Definition handler_remove (s : sys) (c : string) : sys :=
  set_manager (set_handler s c (after_remove s c)) (disconnect_remove (sy_manager s) c).
Definition handler_shutdown (s : sys) (c : string) (g : nat) : sys :=
  set_manager (set_handler s c HRevoking) (disconnect_shutdown (sy_manager s) g (entry_at s g)).
Definition handler_revoke (s : sys) (c : string) : sys :=
  set_endpoint (revoke_turn (set_handler s c HGone) c (λ _, true)) (ws_closed (sy_endpoint s)).

Abbreviation reach := (system_reachable (P := TestPeer) (Sender := unit) (S := Z) test_auth_key test_config).

(** Each of these is a step of the system where the task is in the right place. *)

Lemma entry_at_lookup s g e : mg_heap (sy_manager s) !! g = Some e → entry_at s g = e.
Proof. unfold entry_at. by intros ->. Qed.

Lemma handler_reach s b s' : reach s → handler_step test_auth_key test_config s b s' → reach s'.
Proof. intros Hr Hs. eapply sys_step; [exact Hr|]. by apply StepHandler. Qed.

Lemma task_reach s b s' : reach s → event_task_step test_auth_key test_config s b s' → reach s'.
Proof. intros Hr Hs. eapply sys_step; [exact Hr|]. by apply StepEventTask. Qed.

Lemma accept_reach s c a :
  reach s → sy_main s = MainServing → sy_handlers s !! c = None →
  ws_upgrade (sy_endpoint s) None = (a, Upgraded 131072 131072) → reach (accept s c).
Proof. intros Hr Hm Hc Hu. unfold accept. rewrite Hu. eapply handler_reach; [exact Hr|]. by eapply SysAccept. Qed.

Lemma check_reach s c :
  reach s → sy_handlers s !! c = Some HServing → mg_shutdown (sy_manager s) = false → reach (check s c).
Proof. intros Hr Hc Hm. eapply handler_reach; [exact Hr|]. by apply SysCheck. Qed.

Lemma reserve_reach s c tid :
  reach s → sy_handlers s !! c = Some HChecked → mg_sessions (sy_manager s) !! c = None →
  mg_connecting (sy_manager s) !! tid = None → is_ok (connect_reserve (sy_manager s) tid c) = true →
  reach (reserve s c tid).
Proof.
  intros Hr Hc Hm Ht Hok. eapply handler_reach; [exact Hr|]. apply SysReserve; [done..|].
  destruct (connect_reserve (sy_manager s) tid c) eqn:Hres; [|done]. by apply StepReserve.
Qed.

Lemma publish_reach s c tid g :
  reach s → sy_handlers s !! c = Some (HConnecting tid) → mg_connecting (sy_manager s) !! tid = Some c →
  mg_heap (sy_manager s) !! g = None → reach (publish s c tid g).
Proof.
  intros Hr Hc Ht Hg. eapply handler_reach; [exact Hr|]. eapply SysPublish; [done|].
  eapply StepPublish; [done..|]. apply surjective_pairing.
Qed.

Lemma start_reach s g e :
  reach s → mg_heap (sy_manager s) !! g = Some e → en_task e = TaskSpawned → reach (start s g).
Proof.
  intros Hr He Ht. eapply task_reach; [exact Hr|]. apply (SysEvent _ _ s (LEventStart g)); [done|].
  rewrite (entry_at_lookup s g e He). by apply StepEventStart.
Qed.

Lemma login_reach s g e :
  reach s → mg_heap (sy_manager s) !! g = Some e → en_task e = TaskRunning →
  se_closed (en_session e) = false → reach (login s g).
Proof.
  intros Hr He Ht Hc. eapply task_reach; [exact Hr|]. apply (SysEvent _ _ s (LConnected g)); [done|].
  rewrite (entry_at_lookup s g e He).
  eapply (StepConnected _ g e ∅ (Some (MeConnected 7 [] [])) (mkIceConfig [] None) 0
    (λ _, Ok tt) (λ _, Ok tt)); [done..|]. simpl. by rewrite Hc.
Qed.

Lemma issue_reach s g e u :
  reach s → mg_heap (sy_manager s) !! g = Some e → en_task e = TaskIssuing → reach (issue s g u).
Proof.
  intros Hr He Ht. unfold issue. rewrite (entry_at_lookup s g e He).
  eapply task_reach; [exact Hr|]. eapply SysTaskIssue; [exact He|]. by apply StepIssued.
Qed.

Lemma finish_reach s g e :
  reach s → mg_heap (sy_manager s) !! g = Some e → en_task e = TaskRunning → reach (finish s g).
Proof.
  intros Hr He Ht. unfold finish. rewrite (entry_at_lookup s g e He). eapply task_reach; [exact Hr|].
  apply (SysEvent _ _ s (LFinishShutdown g)); [done|]. by apply StepFinishShutdown.
Qed.

Lemma remove_reach s g e :
  reach s → mg_heap (sy_manager s) !! g = Some e → en_task e = TaskFinishing None → reach (remove s g).
Proof.
  intros Hr He Ht. unfold remove. rewrite (entry_at_lookup s g e He).
  destruct (finish_remove (sy_manager s) g e None) as [[m msgs] b] eqn:Hf. simpl.
  eapply task_reach; [exact Hr|]. apply (SysEvent _ _ s (LFinishRemove g (en_conn e) msgs)); [done|].
  by eapply StepFinishRemove.
Qed.

Lemma task_revoke_reach s g e :
  reach s → mg_heap (sy_manager s) !! g = Some e → en_task e = TaskRevoking → reach (task_revoke s g).
Proof.
  intros Hr He Ht. unfold task_revoke. rewrite (entry_at_lookup s g e He).
  eapply task_reach; [exact Hr|]. eapply SysTaskRevoke; [exact He|]. by apply StepRevoked.
Qed.

Lemma leave_reach s c : reach s → sy_handlers s !! c = Some HServing → reach (leave s c).
Proof. intros Hr Hc. eapply handler_reach; [exact Hr|]. eapply SysLeave; [done|by left]. Qed.

Lemma handler_remove_reach s c :
  reach s → sy_handlers s !! c = Some HLeaving → reach (handler_remove s c).
Proof.
  intros Hr Hc. eapply handler_reach; [exact Hr|]. apply SysDisconnectRemove; [done|].
  apply StepDisconnectRemove.
Qed.

Lemma handler_shutdown_reach s c g e :
  reach s → sy_handlers s !! c = Some (HClosing g) → g ∈ mg_closing (sy_manager s) →
  mg_heap (sy_manager s) !! g = Some e → reach (handler_shutdown s c g).
Proof.
  intros Hr Hc Hg He. unfold handler_shutdown. rewrite (entry_at_lookup s g e He).
  eapply handler_reach; [exact Hr|]. eapply SysDisconnectShutdown; [done|]. by apply StepDisconnectShutdown.
Qed.

Lemma handler_revoke_reach s c :
  reach s → sy_handlers s !! c = Some HRevoking → reach (handler_revoke s c).
Proof. intros Hr Hc. eapply handler_reach; [exact Hr|]. by apply SysRevokeTurn. Qed.

(** All event tasks are over, as a test. *)
Definition tasks_done (s : sys) : bool :=
  forallb (λ ge, match en_task ge.2 with TaskDone => true | _ => false end)
    (map_to_list (mg_heap (sy_manager s))).

Lemma tasks_done_spec s :
  tasks_done s = true → ∀ g e, mg_heap (sy_manager s) !! g = Some e → en_task e = TaskDone.
Proof.
  unfold tasks_done. rewrite forallb_forall. intros Hall g e He.
  specialize (Hall (g, e)). simpl in Hall. destruct (en_task e); try done;
    discriminate Hall; by apply list_elem_of_In, elem_of_map_to_list.
Qed.

Ltac at_state := vm_compute; reflexivity.

Definition s0 : sys := system_start test_config (Some test_service).
Definition s1 := check (accept s0 "c") "c".
Definition s2 := publish (reserve s1 "c" 1) "c" 1 10.
Definition s3 := issue (login (start s2 10) 10) 10 ("u1", "u2", "u3").

Lemma s1_reach : reach s1.
Proof.
  apply check_reach; [eapply accept_reach|at_state..]; [|at_state..].
  constructor. by intros t [= <-].
Qed.

Lemma s2_reach : reach s2.
Proof. apply publish_reach; [apply reserve_reach; [apply s1_reach|at_state..]|at_state..]. Qed.

Lemma s3_reach : reach s3.
Proof.
  eapply issue_reach; [eapply login_reach; [eapply start_reach; [apply s2_reach|at_state..]|at_state..]|at_state..].
Qed.

(** The browser leaves: its handler cleans up, then the event task. *)
Definition s4 := handler_revoke (handler_shutdown (handler_remove (leave s3 "c") "c") "c" 10) "c".
Definition s5 := task_revoke (remove (finish s4 10) 10) 10.

Lemma s4_reach : reach s4.
Proof.
  apply handler_revoke_reach; [|at_state].
  eapply handler_shutdown_reach; [apply handler_remove_reach; [apply leave_reach; [apply s3_reach|at_state]|at_state]
    |at_state|vm_compute; left|at_state].
Qed.

Lemma s5_reach : reach s5.
Proof.
  eapply task_revoke_reach; [eapply remove_reach; [eapply finish_reach; [apply s4_reach|at_state..]|at_state..]
    |at_state..].
Qed.

(** A reconnect on the same WebSocket after the Mumble connection was lost: the event task
    of the first session is still before its revocation when the second logs in. *)
Definition s6 := remove (finish s3 10) 10.
Definition s7 := publish (reserve (check s6 "c") "c" 2) "c" 2 11.
Definition s8 := issue (login (start s7 11) 11) 11 ("u4", "u5", "u6").
Definition s9 := task_revoke s8 10.

Lemma s9_reach : reach s9.
Proof.
  assert (H6 : reach s6).
  { eapply remove_reach; [eapply finish_reach; [apply s3_reach|at_state..]|at_state..]. }
  assert (H7 : reach s7).
  { apply publish_reach; [apply reserve_reach; [apply check_reach; [exact H6|at_state..]|at_state..]|at_state..]. }
  eapply task_revoke_reach; [|at_state..].
  eapply issue_reach; [eapply login_reach; [eapply start_reach; [exact H7|at_state..]|at_state..]|at_state..].
Qed.
End Run.

(** The credentials of a service, by user name. *)
Definition store_of (s : Run.sys) : gmap string Credential :=
  match sy_turn s with Some t => cs_entries (tv_credentials t) | None => ∅ end.

Lemma no_credential_outlives_connection_witness :
  is_Some (store_of Run.s3 !! "4600:u1") ∧ conn_live Run.s3 "c" ∧
  ∀ name cr, store_of Run.s5 !! name = Some cr → cr_session cr ≠ "c".
Proof.
  split_and!.
  - vm_compute. eauto.
  - refine (proj1 (no_credential_outlives_connection test_auth_key test_config Run.s3
      (default test_service (sy_turn Run.s3)) Run.s3_reach _) "4600:u1"
      (mkCredential "c" "4600:u1" "u2u3" _ 4600) _).
    + vm_compute. reflexivity.
    + vm_compute. reflexivity.
  - refine (proj2 (no_credential_outlives_connection test_auth_key test_config Run.s5
      (default test_service (sy_turn Run.s5)) Run.s5_reach _) "c" _ _).
    + vm_compute. reflexivity.
    + vm_compute. reflexivity.
    + intros g e He _. apply (Run.tasks_done_spec Run.s5 (eq_refl : Run.tasks_done Run.s5 = true) g e He).
Defined.

Lemma gone_connection_leaves_nothing_witness :
  mg_sessions (sy_manager Run.s4) !! "c" = None ∧
  se_closed (en_session (Run.entry_at Run.s4 10)) = true.
Proof.
  destruct (gone_connection_leaves_nothing test_auth_key test_config ltac:(simpl; lia) Run.s4 "c" Run.s4_reach)
    as (H1 & _ & H3).
  - vm_compute. reflexivity.
  - intros g e Hm. vm_compute in Hm. discriminate Hm.
  - split; [exact H1|]. exact (proj2 (H3 10%nat (Run.entry_at Run.s4 10) eq_refl eq_refl)).
Defined.


(** The revocation of an old event task reaches the credentials of a reconnect: the new
    session is in the map, logged in and running, and the user name its browser was given
    has just been removed from the store. *)
Example stale_revocation_hits_reconnect :
  Run.reach Run.s9 ∧ mg_sessions (sy_manager Run.s9) !! "c" = Some 11%nat ∧
  en_task (Run.entry_at Run.s9 11) = TaskRunning ∧
  se_session_id (en_session (Run.entry_at Run.s9 11)) = Some 7 ∧
  is_Some (store_of Run.s8 !! "4600:u1") ∧ store_of Run.s9 = ∅.
Proof. split; [apply Run.s9_reach|]. split_and!; vm_compute; eauto. Qed.
