(* ===== verification/Shutdown.v ===== *)
(** * Shutting the server down ([SessionManager::close] in [src/src/session.rs], [run] in
      [src/src/server.rs]): termination and completeness

    Once [axum::serve] has returned, the main task closes the sessions and the TURN service
    and returns, while the handlers and the event tasks go on beside it until the process
    ends. The remaining work of a state is a number: every step a task takes on its own makes
    it smaller, and no step of the environment makes it larger. What becomes of the sessions
    is an invariant of the process: each one is still ahead of the main task, or closed, or
    held by the one task that is shutting it down. *)

From Stdlib Require Import ZArith Lia.
From stdpp Require Import base tactics list gmap strings option sets fin_maps.
From S2P Require Import Prelude Messages Credentials Config Speakers Voice MumbleClient.
From S2P Require Import Negotiation Semaphore TurnService Session Manager Server System.
Local Open Scope Z_scope.

Section Shutdown.
Context {P Sender S : Type} `{PeerConnection P} `{Semaphore S}.
Variable generate_auth_key : string → string → string → list Z.
Context `{!MapValues string Credential}.
Variable config : Config.
Implicit Types (m : Manager P Sender S) (s : System P Sender S).

Abbreviation step := (system_step generate_auth_key config).
Abbreviation cap := (sv_max_connections (server config)).

(** ** The work left *)

Definition handler_weight (h : HandlerTask) : nat :=
  match h with
  | HChecked => 14 | HConnecting _ => 13 | HServing => 4 | HLeaving => 3 | HClosing _ => 2
  | HRevoking => 1 | HGone => 0
  end.

(** A session that has not been closed may still see a login, so the two places of its
    loop weigh the same. *)
Definition entry_weight (e : Entry P Sender) : nat :=
  match en_task e with
  | TaskSpawned => 6
  | TaskRunning => if se_closed (en_session e) then 3 else 5
  | TaskIssuing => if se_closed (en_session e) then 4 else 5
  | TaskFinishing _ => 2
  | TaskRevoking => 1
  | TaskDone => 0
  end.

Definition main_weight (s : System P Sender S) : nat :=
  match sy_main s with
  | MainServing => 0
  | MainListing => 2 + 2 * size (mg_sessions (sy_manager s))
  | MainClosing ids current => 1 + 2 * length ids + match current with Some _ => 1 | None => 0 end
  | MainDone => 0
  end.

Definition work (s : System P Sender S) : nat :=
  map_weight handler_weight (sy_handlers s) + map_weight entry_weight (mg_heap (sy_manager s))
  + main_weight s.

(** ** Steps inside a session *)

Lemma shutdown_closed (s0 : UserSession P Sender) :
  se_closed s0 = negb (se_slot s0) → se_closed (shutdown_user_session s0).1 = true.
Proof. unfold shutdown_user_session. by destruct (se_slot s0). Qed.

Lemma entry_weight_replace m g e e' :
  mg_heap m !! g = Some e →
  (map_weight entry_weight (<[g := e']> (mg_heap m)) + entry_weight e
   = map_weight entry_weight (mg_heap m) + entry_weight e')%nat.
Proof. apply map_weight_insert. Qed.

Lemma sessions_finish_size m g e t m' msgs b :
  finish_remove m g e t = (m', msgs, b) → (size (mg_sessions m') ≤ size (mg_sessions m))%nat.
Proof.
  unfold finish_remove. destruct (bool_decide _); intros [= <- <- <-]; simpl; [|done].
  rewrite map_size_delete. destruct (mg_sessions m !! en_conn e); simpl; lia.
Qed.

(** An event task's step never adds work; its own steps take some away. *)
Lemma internal_work m l m' :
  internal_label l = true → (∀ g e, mg_heap m !! g = Some e → entry_ok e) → manager_step m l m' →
  (size (mg_sessions m') ≤ size (mg_sessions m))%nat ∧
  (map_weight entry_weight (mg_heap m') ≤ map_weight entry_weight (mg_heap m))%nat ∧
  (event_progress m l = true ∨ (∃ g, l = LRevoked g ∨ l = LIssued g ∧ session_closed m g = true) →
   map_weight entry_weight (mg_heap m') < map_weight entry_weight (mg_heap m))%nat.
Proof.
  intros Hl Hok Hs. destruct Hs as [ | | | | |m g e He Ht|m g e s0 He Hop
    |m g e um ev cfg now at_ rt s0 um' ef He Ht Hlo Hp|m g e He Ht|m g e t He Ht|m g e t m' ms b He Ht Hfr
    |m g e He Ht| ]; try done; pose proof (Hok g e He) as [Hcl _].
  - pose proof (entry_weight_replace m g e (match process_events_start (en_session e) with
      | Some s => mkEntry (en_conn e) s TaskRunning | None => with_task e TaskDone end) He) as Hw.
    unfold entry_weight at 2 4 in Hw. rewrite Ht in Hw. simpl.
    unfold process_events_start in *. destruct (se_closed (en_session e)) eqn:Hc; simpl in *; try rewrite Hc in *; lia.
  - pose proof (entry_weight_replace m g e (with_session e s0) He) as Hw.
    apply session_op_keeps in Hop as [_ Hc]. unfold entry_weight at 2 4 in Hw. simpl in *. rewrite Hc in Hw.
    split_and!; [done|lia|]. intros [?|(g' & [?|[? _]])]; done.
  - pose proof (entry_weight_replace m g e (mkEntry (en_conn e) s0 TaskIssuing) He) as Hw.
    destruct (login_event_keeps _ _ _ _ _ _ _ _ _ _ Hlo Hp) as (Hc & _ & _ & Hc' & _).
    unfold entry_weight at 2 4 in Hw. rewrite Ht in Hw. simpl in *. rewrite Hc' in Hw. rewrite Hc in Hw. simpl in Hw.
    split_and!; [done|lia|]. intros [?|(g' & [?|[? _]])]; done.
  - pose proof (entry_weight_replace m g e (with_task e TaskRunning) He) as Hw.
    unfold entry_weight at 2 4 in Hw. rewrite Ht in Hw. simpl in *.
    split_and!; [done|destruct (se_closed (en_session e)); lia|].
    intros [?|(g' & [?|[[= <-] Hc]])]; [done|done|]. unfold session_closed in Hc. rewrite He in Hc. rewrite Hc in Hw. lia.
  - destruct (close_session_frame m g e (TaskFinishing t)) as (-> & _ & _ & _ & ->).
    pose proof (entry_weight_replace m g e (mkEntry (en_conn e) (shutdown_user_session (en_session e)).1 (TaskFinishing t)) He) as Hw.
    unfold entry_weight at 2 4 in Hw. rewrite Ht in Hw. simpl in *.
    destruct (se_closed (en_session e)); lia.
  - pose proof (sessions_finish_size _ _ _ _ _ _ _ Hfr) as Hsz. split; [done|].
    pose proof (entry_weight_replace m g e (with_task e TaskRevoking) He) as Hw.
    unfold entry_weight at 2 4 in Hw. rewrite Ht in Hw. simpl in *.
    unfold finish_remove in Hfr. destruct (bool_decide _); simplify_eq; simpl; lia.
  - pose proof (entry_weight_replace m g e (with_task e TaskDone) He) as Hw.
    unfold entry_weight at 2 4 in Hw. rewrite Ht in Hw. simpl in *. lia.
Qed.

(** ** Steps of the system *)

Lemma main_weight_sessions s s' k :
  sy_main s' = sy_main s →
  (size (mg_sessions (sy_manager s')) ≤ size (mg_sessions (sy_manager s)) + k)%nat →
  (main_weight s' ≤ main_weight s + 2 * k)%nat.
Proof. unfold main_weight. intros ->. destruct (sy_main s); lia. Qed.

Lemma disconnect_remove_size m c :
  (size (mg_sessions (disconnect_remove m c)) ≤ size (mg_sessions m))%nat.
Proof.
  unfold disconnect_remove. destruct (mg_sessions m !! c) eqn:Hc; simpl; [|lia].
  rewrite map_size_delete, Hc. simpl. lia.
Qed.

Lemma disconnect_remove_heap m c : mg_heap (disconnect_remove m c) = mg_heap m.
Proof. unfold disconnect_remove. by destruct (mg_sessions m !! c). Qed.

Lemma disconnect_shutdown_work m g m' :
  (∀ g e, mg_heap m !! g = Some e → entry_ok e) → manager_step m (LDisconnectShutdown g) m' →
  mg_sessions m' = mg_sessions m ∧
  (map_weight entry_weight (mg_heap m') ≤ map_weight entry_weight (mg_heap m))%nat.
Proof.
  intros Hok (_ & Hs & _ & _ & _ & e & He & ->)%disconnect_shutdown_frame. split; [done|].
  pose proof (entry_weight_replace m g e
    (mkEntry (en_conn e) (shutdown_user_session (en_session e)).1 (en_task e)) He) as Hw.
  pose proof (shutdown_closed _ (proj1 (Hok g e He))) as Hc.
  unfold entry_weight at 2 4 in Hw. simpl in Hw. rewrite Hc in Hw.
  destruct (en_task e), (se_closed (en_session e)); lia.
Qed.

Lemma publish_work m tid gen c m' :
  manager_step m (LPublish tid gen c) m' →
  (size (mg_sessions m') ≤ size (mg_sessions m) + 1)%nat ∧
  (map_weight entry_weight (mg_heap m') ≤ map_weight entry_weight (mg_heap m) + 6)%nat.
Proof.
  intros (_ & Hg & _ & _ & _ & e & -> & _ & Hm)%publish_frame.
  rewrite map_weight_insert_new by done. unfold entry_weight at 1.
  destruct Hm as [(-> & -> & _)|(-> & -> & Hc)]; [lia|]. rewrite map_size_insert_None by done. lia.
Qed.

Lemma handler_move s c h h' k :
  sy_handlers s !! c = Some h → (handler_weight h' + k ≤ handler_weight h)%nat →
  (map_weight handler_weight (<[c := h']> (sy_handlers s)) + k
   ≤ map_weight handler_weight (sy_handlers s))%nat.
Proof. intros Hc Hw. pose proof (map_weight_insert handler_weight _ c h h' Hc). lia. Qed.

Lemma reserve_frame m tid c m' :
  manager_step m (LReserve tid c) m' → mg_sessions m' = mg_sessions m ∧ mg_heap m' = mg_heap m.
Proof.
  intros Hs. inversion Hs as [m0 tid0 c0 m1 Ht Hr| | | | | | | | | | | |]; subst.
  unfold connect_reserve in Hr. destruct (try_acquire _); [|done]. by injection Hr as <-.
Qed.

Lemma handler_step_work s b s' :
  (∀ g e, mg_heap (sy_manager s) !! g = Some e → entry_ok e) →
  sy_main s ≠ MainServing → mg_shutdown (sy_manager s) = true →
  handler_step generate_auth_key config s b s' → (work s' + (if b then 1 else 0) ≤ work s)%nat.
Proof.
  intros Hok Hmain Hsd Hs. destruct Hs as [s c origin a msg frame Hm Hh Hu|s c Hh Hsd'|s c tid m Hh Hm Hs
    |s c Hh Hr|s c tid m to Hh Hs|s c tid gen m Hh Hs|s c g e now u Hh He Hc Hi|s c h Hh Hor
    |s c m Hh Hs|s c g m Hh Hs|s c alive Hh]; unfold work; simpl; try congruence; rewrite ?Hsd.
  - apply reserve_frame in Hs as [Hs1 Hs2]. rewrite Hs2.
    pose proof (handler_move s c _ (HConnecting tid) 1 Hh ltac:(simpl; lia)).
    pose proof (main_weight_sessions s (set_manager (set_handler s c (HConnecting tid)) m) 0 eq_refl ltac:(simpl; rewrite Hs1; lia)). lia.
  - pose proof (handler_move s c _ HServing 1 Hh ltac:(simpl; lia)). unfold main_weight. simpl. lia.
  - apply abandon_frame in Hs as ->. simpl.
    pose proof (handler_move s c _ (if to then HLeaving else HServing) 1 Hh ltac:(destruct to; simpl; lia)).
    unfold main_weight. simpl. lia.
  - apply publish_work in Hs as [Hs1 Hs2].
    pose proof (handler_move s c _ HServing 9 Hh ltac:(simpl; lia)).
    pose proof (main_weight_sessions s (set_manager (set_handler s c HServing) m) 1 eq_refl ltac:(simpl; lia)). lia.
  - unfold main_weight. simpl. lia.
  - pose proof (handler_move s c _ HLeaving 1 Hh ltac:(destruct Hor as [->| ->]; simpl; lia)).
    unfold main_weight. simpl. lia.
  - apply disconnect_remove_frame in Hs as ->. rewrite disconnect_remove_heap.
    pose proof (handler_move s c _ (after_remove s c) 1 Hh
      ltac:(unfold after_remove; destruct (mg_sessions (sy_manager s) !! c); simpl; lia)).
    pose proof (main_weight_sessions s (set_manager (set_handler s c (after_remove s c))
      (disconnect_remove (sy_manager s) c)) 0 eq_refl
      ltac:(simpl; pose proof (disconnect_remove_size (sy_manager s) c); lia)). lia.
  - apply disconnect_shutdown_work in Hs as [Hs1 Hs2]; [|done].
    pose proof (handler_move s c _ HRevoking 1 Hh ltac:(simpl; lia)).
    pose proof (main_weight_sessions s (set_manager (set_handler s c HRevoking) m) 0 eq_refl
      ltac:(simpl; rewrite Hs1; lia)). lia.
  - pose proof (handler_move s c _ HGone 1 Hh ltac:(simpl; lia)). unfold main_weight. simpl. lia.
Qed.

Lemma event_step_work s b s' :
  (∀ g e, mg_heap (sy_manager s) !! g = Some e → entry_ok e) →
  event_task_step generate_auth_key config s b s' → (work s' + (if b then 1 else 0) ≤ work s)%nat.
Proof.
  intros Hok Hs. destruct Hs as [s l m Hl Hs|s g e now u m He Hs|s g e alive m He Hs]; unfold work; simpl.
  - assert (Hi : internal_label l = true) by (by destruct l).
    destruct (internal_work _ _ _ Hi Hok Hs) as (H1 & H2 & H3).
    pose proof (main_weight_sessions s (set_manager s m) 0 eq_refl ltac:(simpl; lia)).
    destruct (event_progress (sy_manager s) l); [specialize (H3 (or_introl eq_refl))|]; lia.
  - destruct (internal_work _ (LIssued g) _ eq_refl Hok Hs) as (H1 & H2 & H3).
    pose proof (main_weight_sessions s (issue_turn generate_auth_key config (set_manager s m)
      (en_conn e) now u) 0 eq_refl ltac:(simpl; lia)).
    destruct (se_closed (en_session e)) eqn:Hc; [|lia].
    assert (session_closed (sy_manager s) g = true) by (unfold session_closed; by rewrite He).
    specialize (H3 ltac:(eauto)). lia.
  - destruct (internal_work _ (LRevoked g) _ eq_refl Hok Hs) as (H1 & H2 & H3).
    pose proof (main_weight_sessions s (revoke_turn (set_manager s m) (en_conn e) alive) 0 eq_refl
      ltac:(simpl; lia)).
    specialize (H3 ltac:(eauto)). lia.
Qed.

Lemma main_step_work s b s' :
  (∀ g e, mg_heap (sy_manager s) !! g = Some e → entry_ok e) →
  sy_main s ≠ MainServing → main_step s b s' → (work s' + (if b then 1 else 0) ≤ work s)%nat.
Proof.
  intros Hok Hmain Hs. destruct Hs as [s m Hm Hs|s m Hm Hs|s ids Hm Hids|s c ids m Hm Hs
    |s g ids m Hm Hs|s Hm]; try congruence; unfold work, main_weight; simpl; rewrite Hm; simpl.
  - apply Permutation_length in Hids. rewrite length_fmap, length_map_to_list in Hids. lia.
  - apply disconnect_remove_frame in Hs as ->. rewrite disconnect_remove_heap.
    destruct (mg_sessions (sy_manager s) !! c); lia.
  - apply disconnect_shutdown_work in Hs as [_ Hs2]; [lia|done].
  - lia.
Qed.

Context `{!SemaphoreLaws S}.
Hypothesis max_connections_nonneg : 0 ≤ cap.
Abbreviation reachable_system := (system_reachable generate_auth_key config).

Lemma step_work s b s' :
  system_inv config s → sy_main s ≠ MainServing → step s b s' →
  (work s' + (if b then 1 else 0) ≤ work s)%nat ∧ sy_main s' ≠ MainServing.
Proof.
  intros [Hm _ Hf _ _] Hmain Hs. specialize (Hf Hmain).
  assert (Hok : ∀ g e, mg_heap (sy_manager s) !! g = Some e → entry_ok e).
  { intros g e. apply (inv_heap cap). by apply reachable_inv. }
  destruct Hs as [Hs|Hs|Hs|t ns al -> Ht ->].
  - split; [by apply handler_step_work|]. by destruct Hs.
  - split; [by apply event_step_work|]. by destruct Hs.
  - split; [by apply main_step_work|]. by destruct Hs; simpl; try congruence.
  - split; [|done]. unfold work, main_weight. simpl. lia.
Qed.

(** A run, with the number of steps in it that are progress. *)
Inductive system_run : System P Sender S → nat → System P Sender S → Prop :=
| run_nil s : system_run s 0 s
| run_cons s b s' n s'' :
    step s b s' → system_run s' n s'' → system_run s ((if b then 1 else 0) + n) s''.

Lemma run_reachable s n s' : reachable_system s → system_run s n s' → reachable_system s'.
Proof. intros Hr Hrun. induction Hrun; [done|]. apply IHHrun. by eapply sys_step. Qed.

Lemma run_work s n s' :
  reachable_system s → sy_main s ≠ MainServing → system_run s n s' →
  (n + work s' ≤ work s)%nat ∧ sy_main s' ≠ MainServing.
Proof.
  intros Hr Hmain Hrun. induction Hrun as [s|s b s1 n s2 Hs Hrun IH]; [by split; [lia|]|].
  destruct (step_work s b s1 (system_reachable_inv _ _ max_connections_nonneg s Hr) Hmain Hs) as [Hw Hm].
  destruct (IH ltac:(by eapply sys_step) Hm) as [IH1 IH2]. split; [|done]. destruct b; lia.
Qed.

(** ** The process and its main task *)

(** A run of the process, with the number of steps in it that are progress. *)
Inductive process_run : System P Sender S → nat → System P Sender S → Prop :=
| process_nil s : process_run s 0 s
| process_cons s b s' n s'' :
    process_step generate_auth_key config s b s' → process_run s' n s'' →
    process_run s ((if b then 1 else 0) + n) s''.

Lemma process_system_run s n s' : process_run s n s' → system_run s n s'.
Proof. induction 1 as [s|s b s1 n s2 [_ Hs] _ IH]; [constructor|by eapply run_cons]. Qed.

Lemma main_can_progress s :
  system_inv config s → sy_main s ≠ MainServing → sy_main s ≠ MainDone → ∃ s', main_step s true s'.
Proof.
  intros [Hm Ho _ _ _] Hns Hnd. pose proof (reachable_inv _ _ max_connections_nonneg Hm) as Hinv.
  destruct (sy_main s) as [| |ids current|] eqn:Hmain; try done.
  - eexists. by apply SysCloseList.
  - destruct current as [g|].
    + destruct (ow_main s Ho g) as [Hin _]; [by rewrite Hmain|].
      destruct (inv_closing _ _ Hinv g Hin) as (e & He & _).
      eexists. eapply SysCloseShutdown; [done|]. by eapply StepDisconnectShutdown.
    + destruct ids as [|c ids].
      * eexists. by apply SysMainDone.
      * eexists. eapply SysCloseRemove; [done|]. apply StepDisconnectRemove.
Qed.

(** The main task needs nobody else to return. *)
Lemma main_returns k : ∀ s,
  (work s ≤ k)%nat → reachable_system s → sy_main s ≠ MainServing →
  ∃ s', rtc (λ a b, main_step a true b) s s' ∧ sy_main s' = MainDone.
Proof.
  induction k as [|k IH]; intros s Hk Hr Hmain;
    pose proof (system_reachable_inv _ _ max_connections_nonneg s Hr) as Hsys;
    (destruct (sy_main s) as [| |ids current|] eqn:Hm; [done| | |by exists s; split; [constructor|]]);
    (destruct (main_can_progress s Hsys) as [s1 Hs1]; [congruence..|]);
    (destruct (step_work s true s1 Hsys) as [Hw Hm1]; [congruence|by apply StepMain|]); simpl in Hw;
    try lia;
    (destruct (IH s1) as (s' & Hrun & Hd); [lia|by eapply sys_step, StepMain|done|]);
    (exists s'; split; [by eapply rtc_l|done]).
Qed.

(** ** The sessions the main task finds *)

Lemma session_closed_stays m l m' g :
  manager_step m l m' → session_closed m g = true → session_closed m' g = true.
Proof.
  unfold session_closed. intros Hs Hc. destruct (mg_heap m !! g) as [e|] eqn:He; [|done].
  destruct (step_heap_keeps _ _ _ _ _ Hs He) as [e' He']. rewrite He'.
  pose proof (step_entry _ _ _ _ _ Hs He') as Hes. rewrite He in Hes. by eapply entry_step_closed.
Qed.

Lemma shutdown_step_closes m g m' :
  (∀ e, mg_heap m !! g = Some e → entry_ok e) →
  manager_step m (LDisconnectShutdown g) m' → session_closed m' g = true.
Proof.
  intros Hok (_ & _ & _ & _ & _ & e & He & Hh)%disconnect_shutdown_frame. unfold session_closed.
  rewrite Hh, lookup_insert_eq. apply shutdown_closed. by destruct (Hok e He).
Qed.

(** A session leaves the map in [disconnect_user], or closed. *)
Lemma step_unmaps m l m' c g :
  (∀ e, mg_heap m !! g = Some e → entry_ok e) →
  manager_step m l m' → mg_sessions m !! c = Some g →
  mg_sessions m' !! c = Some g ∨ session_closed m' g = true ∨ l = LDisconnectRemove c.
Proof.
  intros Hok Hs Hc. destruct Hs as [m tid c' m' Ht Hr|m tid c' Ht|m tid c' g' p u m' r Ht Hg Hp
    |m c'|m g' e Hg He|m g' e He Ht|m g' e s He Hop|m g' e um ev cfg now at_ rt s um' ef He Ht Hl Hp
    |m g' e He Ht|m g' e t He Ht|m g' e t m' ms b He Ht Hf|m g' e He Ht|m]; try (by left).
  - unfold connect_reserve in Hr. destruct (try_acquire _); [|done]. injection Hr as <-. by left.
  - left. unfold connect_publish in Hp. destruct (mg_sessions m !! c') eqn:Hc'; injection Hp as <- _.
    + by destruct (close_session_frame (set_connecting m (delete tid (mg_connecting m))) g'
        (mkEntry c' (UserSession_new p u) TaskDone) TaskDone) as (-> & _).
    + simpl. rewrite lookup_insert_ne; [done|]. congruence.
  - destruct (decide (c' = c)) as [->|Hne]; [by auto|]. left. unfold disconnect_remove.
    destruct (mg_sessions m !! c'); [|done]. simpl. by rewrite lookup_delete_ne.
  - left. by destruct (close_session_frame m g' e (en_task e)) as (Hf & _); simpl; rewrite Hf.
  - left. by destruct (close_session_frame m g' e (TaskFinishing t)) as (-> & _).
  - unfold finish_remove in Hf. destruct (bool_decide (mg_sessions m !! en_conn e = Some g')) eqn:Hb;
      injection Hf as <- _ _; [|by left].
    apply bool_decide_eq_true in Hb. destruct (decide (en_conn e = c)) as [<-|Hne].
    + right. left. assert (g' = g) as -> by congruence. unfold session_closed. simpl.
      rewrite lookup_insert_eq. simpl. destruct (Hok e He) as [-> Hsl]. rewrite Ht in Hsl. by rewrite Hsl.
    + left. simpl. by rewrite lookup_delete_ne.
Qed.

(** The map does not get a session back. *)
Lemma step_maps m l m' c g :
  manager_step m l m' → is_Some (mg_heap m !! g) → mg_sessions m' !! c = Some g →
  mg_sessions m !! c = Some g.
Proof.
  intros Hs [e0 He0] Hc. destruct (internal_label l) eqn:Hl.
  { destruct (internal_frame _ _ _ Hl Hs) as (_ & _ & _ & _ & Hm). by apply Hm. }
  destruct l; try done.
  - inversion Hs as [m0 tid0 c0 m1 Ht Hr| | | | | | | | | | | |]; subst.
    unfold connect_reserve in Hr. destruct (try_acquire _); [|done]. by injection Hr as <-.
  - by apply abandon_frame in Hs as ->.
  - apply publish_frame in Hs as (_ & Hg & _ & _ & _ & e & _ & _ & [(Hm & _)|(Hm & _)]);
      rewrite Hm in Hc; [done|]. apply lookup_insert_Some in Hc as [[_ <-]|[_ ?]]; [congruence|done].
  - apply disconnect_remove_frame in Hs as ->. unfold disconnect_remove in Hc.
    destruct (mg_sessions m !! conn_id); [|done]. simpl in Hc. by apply lookup_delete_Some in Hc as [_ ?].
  - apply disconnect_shutdown_frame in Hs as (_ & Hm & _). by rewrite Hm in Hc.
  - by apply begin_shutdown_frame in Hs as ->.
Qed.

(** The session [g] of connection [c] while [SessionManager::close] runs: it is in the map
    only as long as the main task has not come to it, and otherwise closed or in the hands
    of the one task that took it out. *)
Record being_closed (c : string) (g : nat) (s : System P Sender S) : Prop := {
  bc_heap : is_Some (mg_heap (sy_manager s) !! g);
  bc_main : sy_main s ≠ MainServing;
  bc_ahead : mg_sessions (sy_manager s) !! c = Some g →
    sy_main s = MainListing ∨ ∃ ids current, sy_main s = MainClosing ids current ∧ c ∈ ids;
  bc_held : mg_sessions (sy_manager s) !! c = Some g ∨ session_closed (sy_manager s) g = true ∨
    sy_handlers s !! c = Some (HClosing g) ∨ main_current (sy_main s) = Some g
}.

(** A step that leaves the main task where it is, and the session to whoever has it. *)
Lemma being_closed_frame c g s s' :
  (∀ e, mg_heap (sy_manager s) !! g = Some e → entry_ok e) → being_closed c g s →
  sy_main s' = sy_main s →
  sy_manager s' = sy_manager s ∨
    (∃ l, manager_step (sy_manager s) l (sy_manager s') ∧ l ≠ LDisconnectRemove c) →
  (sy_handlers s !! c = Some (HClosing g) →
   sy_handlers s' !! c = Some (HClosing g) ∨ session_closed (sy_manager s') g = true) →
  being_closed c g s'.
Proof.
  intros Hok [H1 H2 H3 H4] Hm Hman Hh.
  assert (Hk : is_Some (mg_heap (sy_manager s') !! g) ∧
    (mg_sessions (sy_manager s') !! c = Some g → mg_sessions (sy_manager s) !! c = Some g) ∧
    (mg_sessions (sy_manager s) !! c = Some g →
     mg_sessions (sy_manager s') !! c = Some g ∨ session_closed (sy_manager s') g = true) ∧
    (session_closed (sy_manager s) g = true → session_closed (sy_manager s') g = true)).
  { destruct Hman as [->|(l & Hs & Hl)]; [by auto|]. destruct H1 as [e He].
    split_and!; [by eapply step_heap_keeps|by eapply step_maps| |by eapply session_closed_stays].
    intros Hc. destruct (step_unmaps _ _ _ _ _ Hok Hs Hc) as [?|[?|?]]; auto. }
  destruct Hk as (K1 & K2 & K3 & K4). split; rewrite ?Hm; auto.
  destruct H4 as [?%K3|[?%K4|[?%Hh|?]]]; naive_solver.
Qed.

Lemma being_closed_handler c g s b s' :
  (∀ e, mg_heap (sy_manager s) !! g = Some e → entry_ok e) → being_closed c g s →
  handler_step generate_auth_key config s b s' → being_closed c g s'.
Proof.
  intros Hok Hbc Hs.
  assert (Hset : ∀ c' h h', sy_handlers s !! c' = h → h ≠ Some (HClosing g) →
    sy_handlers s !! c = Some (HClosing g) → <[c' := h']> (sy_handlers s) !! c = Some (HClosing g)).
  { intros c' h h' Hh Hne Hc. rewrite lookup_insert_ne; [done|]. intros ->. congruence. }
  destruct Hs as [s c' origin a msg frame Hm Hh Hw|s c' Hh Hf|s c' tid m Hh Hc' Hs|s c' Hh Hf
    |s c' tid m to Hh Hs|s c' tid gen m Hh Hs|s c' g' e now u Hh He Hc' Hi|s c' h Hh Hor|s c' m Hh Hs
    |s c' g' m Hh Hs|s c' alive Hh];
    try (apply (being_closed_frame c g s); [done..|by eauto|]; simpl; intros Hc; left;
      by first [eapply Hset; [exact Hh|destruct_or?; simplify_eq|exact Hc]|exact Hc]).
  - destruct (decide (c' = c)) as [->|Hne].
    + apply disconnect_remove_frame in Hs as ->. destruct Hbc as [H1 H2 H3 H4].
      assert (Hheap : mg_heap (disconnect_remove (sy_manager s) c) = mg_heap (sy_manager s))
        by apply disconnect_remove_heap.
      unfold after_remove. split; simpl; rewrite ?Hheap; auto.
      * unfold disconnect_remove. destruct (mg_sessions (sy_manager s) !! c) eqn:Hc; simpl;
          [rewrite lookup_delete_eq|rewrite Hc]; done.
      * unfold session_closed in *. rewrite Hheap, lookup_insert_eq.
        destruct H4 as [->|[?|[?|?]]]; [by auto|by auto|congruence|by auto].
    + apply (being_closed_frame c g s); [done..| |].
      * right. exists (LDisconnectRemove c'). split; [done|congruence].
      * simpl. intros Hc. left. by rewrite lookup_insert_ne.
  - apply (being_closed_frame c g s); [done..|by eauto|]. simpl. intros Hc.
    destruct (decide (c' = c)) as [->|Hne]; [right|left; by rewrite lookup_insert_ne].
    assert (g' = g) as -> by congruence. by eapply shutdown_step_closes.
Qed.

Lemma being_closed_main c g s b s' :
  (∀ e, mg_heap (sy_manager s) !! g = Some e → entry_ok e) → being_closed c g s →
  main_step s b s' → being_closed c g s'.
Proof.
  intros Hok [H1 H2 H3 H4] Hs. destruct Hs as [s m Hm Hs|s m Hm Hs|s ids Hm Hids|s c' ids m Hm Hs
    |s g' ids m Hm Hs|s Hm]; try done.
  - split; simpl; try done.
    + intros Hc. right. exists ids, None. split; [done|]. rewrite Hids. apply list_elem_of_fmap.
      exists (c, g). split; [done|]. by apply elem_of_map_to_list.
    + rewrite Hm in H4. destruct H4 as [?|[?|[?|?]]]; auto.
  - assert (Hcur : main_current (sy_main s) = None) by (by rewrite Hm).
    rewrite Hcur in H4. destruct H1 as [e He].
    split; simpl; [by eapply step_heap_keeps|done| |].
    + intros Hc. right. exists ids, (mg_sessions (sy_manager s) !! c'). split; [done|].
      assert (Hc0 : mg_sessions (sy_manager s) !! c = Some g) by (eapply step_maps; eauto).
      destruct (H3 Hc0) as [?|(ids0 & cur & Hm' & Hin)]; [congruence|]. rewrite Hm in Hm'.
      injection Hm' as <- <-. apply elem_of_cons in Hin as [->|?]; [|done].
      apply disconnect_remove_frame in Hs as ->. unfold disconnect_remove in Hc. rewrite Hc0 in Hc.
      simpl in Hc. by rewrite lookup_delete_eq in Hc.
    + destruct H4 as [Hc|[Hc|[?|?]]]; [|right; left; by eapply session_closed_stays|by auto|done].
      destruct (step_unmaps _ _ _ _ _ Hok Hs Hc) as [?|[?|[= ->]]]; auto.
  - destruct H1 as [e He]. split; simpl; [by eapply step_heap_keeps|done| |].
    + intros Hc. right. exists ids, None. split; [done|].
      destruct (H3 ltac:(eapply step_maps; eauto)) as [?|(ids0 & cur & Hm' & Hin)]; congruence.
    + rewrite Hm in H4. simpl in H4. destruct H4 as [Hc|[Hc|[?|[= ->]]]].
      * destruct (step_unmaps _ _ _ _ _ Hok Hs Hc) as [?|[?|?]]; auto; done.
      * right; left; by eapply session_closed_stays.
      * auto.
      * right; left. by eapply shutdown_step_closes.
  - split; simpl; [done|done| |].
    + intros Hc. destruct (H3 Hc) as [?|(ids0 & cur & Hm' & Hin)]; [congruence|].
      rewrite Hm in Hm'. injection Hm' as <- <-. by apply not_elem_of_nil in Hin.
    + rewrite Hm in H4. destruct H4 as [?|[?|[?|?]]]; auto.
Qed.

Lemma being_closed_step c g s b s' :
  system_inv config s → being_closed c g s → step s b s' → being_closed c g s'.
Proof.
  intros [Hm _ _ _ _] Hbc Hs.
  assert (Hok : ∀ e, mg_heap (sy_manager s) !! g = Some e → entry_ok e).
  { intros e. apply (inv_heap cap). by apply reachable_inv. }
  destruct Hs as [Hs|Hs|Hs|t ns al -> Ht ->].
  - by eapply being_closed_handler.
  - destruct Hs as [s l m Hl Hs|s g' e now u m He Hs|s g' e alive m He Hs];
      (apply (being_closed_frame c g s); [done..| |by left]); right; eexists; (split; [exact Hs|]);
      [by intros ->|done|done].
  - by eapply being_closed_main.
  - by apply (being_closed_frame c g s); auto.
Qed.

(** ** Theorems *)

Lemma handler_weight_bound h : (handler_weight h ≤ 14)%nat.
Proof. destruct h; simpl; lia. Qed.

Lemma entry_weight_bound e : (entry_weight e ≤ 6)%nat.
Proof. unfold entry_weight. destruct (en_task e), (se_closed (en_session e)); lia. Qed.

(** C9: shutting down terminates. When [axum::serve] has returned, whatever the browsers, the
    Mumble server and the scheduler do, the tasks of the server take a bounded number of
    further steps of their own before none is left: at most fourteen per WebSocket, six per
    session and two more per session of the map that the main task closes. The process may
    end earlier, with its main task. *)
Theorem shutdown_terminates s n s' :
  reachable_system s → sy_main s = MainListing → system_run s n s' →
  (n + work s' ≤ work s)%nat ∧
  (n ≤ 14 * size (sy_handlers s) + 6 * size (mg_heap (sy_manager s))
       + 2 * size (mg_sessions (sy_manager s)) + 2)%nat.
Proof.
  intros Hr Hmain Hrun. destruct (run_work s n s' Hr) as [Hw _]; [congruence|done|]. split; [done|].
  pose proof (map_weight_le handler_weight (sy_handlers s) 14 handler_weight_bound).
  pose proof (map_weight_le entry_weight (mg_heap (sy_manager s)) 6 entry_weight_bound).
  unfold work, main_weight in Hw. rewrite Hmain in Hw. unfold work in Hw. lia.
Qed.

(** When the main task returns, the TURN service has been told to stop. *)
Lemma main_done_turn s n s' :
  process_run s n s' → sy_main s ≠ MainDone → sy_main s' = MainDone →
  ∀ t, sy_turn s' = Some t → tv_shutdown t = true.
Proof.
  intros Hrun. induction Hrun as [s|s b s1 n s2 [_ Hs] Hrun IH]; [done|]. intros Hnd Hd.
  assert (Hdec : sy_main s1 = MainDone ∨ sy_main s1 ≠ MainDone) by (destruct (sy_main s1); auto).
  destruct Hdec as [Hd1|Hd1]; [|by apply IH].
  assert (s2 = s1) as -> by (inversion Hrun as [|? ? ? ? ? [? _]]; by subst).
  destruct Hs as [Hs|Hs|Hs|t ns al -> Ht ->]; [destruct Hs; done|destruct Hs; done| |done].
  destruct Hs; simpl in *; try congruence. intros t Ht. by apply fmap_Some in Ht as (t0 & _ & ->).
Qed.

Lemma being_closed_run c g s n s' :
  reachable_system s → process_run s n s' → being_closed c g s → being_closed c g s'.
Proof.
  intros Hr Hrun. revert Hr. induction Hrun as [s|s b s1 n s2 [_ Hs] _ IH]; intros Hr Hbc; [done|].
  apply IH; [by eapply sys_step|]. eapply being_closed_step; [by eapply system_reachable_inv|done..].
Qed.

(** C2: shutting down is orderly. From [axum::serve]'s return on, however the other tasks, the
    browsers and the Mumble server interfere: the process goes on until its main task has
    returned, which that task can always reach by steps of its own, and then nothing runs
    any more. At that point every session that was in the map has been taken out of it and
    shut down, except one that its own connection's [disconnect_user] took out, whose
    shutdown may be cut off by the end of the process; the TURN service has been told to
    stop, and every connect that has not passed its first test is refused. (A connect that
    had passed it may still publish a session after the map was read; that session is left
    to its handler, and to the end of the process.) *)
Theorem shutdown_completes s n s' :
  reachable_system s → sy_main s = MainListing → process_run s n s' →
  (∃ s'', rtc (λ a b, main_step a true b) s' s'' ∧ sy_main s'' = MainDone) ∧
  ((∀ s'', ¬ process_step generate_auth_key config s' true s'') ↔ sy_main s' = MainDone) ∧
  (sy_main s' = MainDone →
   (∀ c g, mg_sessions (sy_manager s) !! c = Some g →
      mg_sessions (sy_manager s') !! c ≠ Some g ∧
      (session_closed (sy_manager s') g = true ∨ sy_handlers s' !! c = Some (HClosing g))) ∧
   (∀ t, sy_turn s' = Some t → tv_shutdown t = true) ∧
   ∀ c, connect_check (sy_manager s') c = Err "Server is shutting down").
Proof.
  intros Hr Hmain Hrun. pose proof (process_system_run _ _ _ Hrun) as Hsrun.
  pose proof (run_reachable s n s' Hr Hsrun) as Hr'.
  destruct (run_work s n s' Hr) as [_ Hmain']; [congruence|done|].
  pose proof (system_reachable_inv _ _ max_connections_nonneg s' Hr') as Hsys.
  split_and!; [by eapply main_returns| |].
  - split; [|by intros Hd s'' [? _]]. intros Hstuck.
    destruct (sy_main s') as [| |ids current|] eqn:Hm; [done|exfalso..|done];
      (destruct (main_can_progress s' Hsys) as [s'' Hs'']; [congruence..|]);
      (apply (Hstuck s''); split; [congruence|by apply StepMain]).
  - intros Hd. split_and!.
    + intros c g Hc. destruct (being_closed_run c g s n s') as [_ _ Ha Hh]; [done..| |].
      { pose proof (sv_manager _ _ (system_reachable_inv _ _ max_connections_nonneg s Hr)) as Hm.
        destruct (inv_map _ _ (reachable_inv _ _ max_connections_nonneg Hm) c g Hc) as (e & He & _).
        split; [eauto|congruence|auto|auto]. }
      rewrite Hd in Ha, Hh. assert (Hn : mg_sessions (sy_manager s') !! c ≠ Some g).
      { intros Hc'. by destruct (Ha Hc') as [?|(? & ? & ? & _)]. }
      split; [done|]. by destruct Hh as [?|[?|[?|?]]]; auto.
    + eapply main_done_turn; [done|congruence|done].
    + intros c. unfold connect_check. by rewrite (sv_flag _ _ Hsys Hmain').
Qed.
End Shutdown.

(** ** A concrete shutdown: the signal comes while a browser is logged in *)

Definition test_stopping : Run.sys :=
  set_main (set_manager Run.s3 (begin_shutdown (sy_manager Run.s3))) MainListing.

Lemma test_stopping_reach : Run.reach test_stopping.
Proof.
  eapply sys_step; [apply Run.s3_reach|]. apply StepMain. apply SysServeEnded; [reflexivity|].
  apply StepBeginShutdown.
Qed.

Definition test_listed : Run.sys :=
  set_main test_stopping (MainClosing (map_to_list (mg_sessions (sy_manager test_stopping))).*1 None).

Lemma shutdown_terminates_witness :
  work test_stopping = 13%nat ∧ (1 + work test_listed ≤ work test_stopping)%nat ∧ (1 ≤ 24)%nat.
Proof.
  split; [vm_compute; reflexivity|].
  refine (shutdown_terminates test_auth_key test_config _ test_stopping 1 test_listed _ _ _).
  - simpl. lia.
  - apply test_stopping_reach.
  - reflexivity.
  - apply (run_cons _ _ test_stopping true test_listed 0 test_listed); [|apply run_nil].
    apply StepMain. apply SysCloseList; reflexivity.
Defined.

(** The main task takes the session out of the map, shuts it down and returns. *)
Definition test_removed : Run.sys :=
  set_main (set_manager test_listed (disconnect_remove (sy_manager test_listed) "c"))
    (MainClosing [] (Some 10%nat)).

Definition test_shut : Run.sys :=
  set_main (set_manager test_removed
    (disconnect_shutdown (sy_manager test_removed) 10 (Run.entry_at test_removed 10)))
    (MainClosing [] None).

Definition test_ended : Run.sys :=
  set_main (set_turn test_shut (TurnService_close <$> sy_turn test_shut)) MainDone.

Lemma test_ended_run : process_run test_auth_key test_config test_stopping 4 test_ended.
Proof.
  apply (process_cons _ _ _ true test_listed 3).
  { split; [done|]. apply StepMain. apply SysCloseList; reflexivity. }
  apply (process_cons _ _ _ true test_removed 2).
  { split; [done|]. apply StepMain. by apply (SysCloseRemove test_listed "c" []), StepDisconnectRemove. }
  apply (process_cons _ _ _ true test_shut 1).
  { split; [done|]. apply StepMain. apply (SysCloseShutdown test_removed 10 []); [reflexivity|].
    apply StepDisconnectShutdown; [vm_compute; by left|reflexivity]. }
  apply (process_cons _ _ _ true test_ended 0); [|constructor].
  split; [done|]. apply StepMain. by apply SysMainDone.
Qed.

Lemma shutdown_completes_witness :
  mg_sessions (sy_manager test_stopping) !! "c" = Some 10%nat ∧
  (session_closed (sy_manager test_ended) 10 = true ∨
   sy_handlers test_ended !! "c" = Some (HClosing 10)).
Proof.
  split; [reflexivity|].
  refine (proj2 (proj1 (proj2 (proj2 (shutdown_completes test_auth_key test_config _ test_stopping 4
    test_ended _ _ test_ended_run)) _) "c" 10%nat _)).
  - simpl. lia.
  - apply test_stopping_reach.
  - reflexivity.
  - reflexivity.
  - reflexivity.
Defined.
