(* ===== verification/Connection.v ===== *)
(** * A connection inside the whole server ([handle_ws_connection] in
      [src/src/ws/handler.rs])

    [Api] runs the handler of one WebSocket on the manager's methods; [System] has handlers
    as tasks that move from place to place. Here the first is shown to be a path of the
    second: each call of the handler is a sequence of the server's steps, and so is the whole
    connection, from the accepted WebSocket to the returned handler. What [System] and
    [Shutdown] prove of all paths therefore holds of the real handler. *)

From Stdlib Require Import ZArith Lia.
From stdpp Require Import base tactics list gmap strings option sets fin_maps relations.
From S2P Require Import Prelude Text Messages Credentials Net Config Speakers Proto MumbleClient Voice.
From S2P Require Import Negotiation Semaphore TurnService Session Await Media Manager Handler Api Server System.
Local Open Scope Z_scope.

Section Connection.
Context {P Sender S : Type} `{PeerConnection P} `{Semaphore S} `{!SetIter Z}.
Variable generate_auth_key : string → string → string → list Z.
Context `{!MapValues string Credential} `{!SemaphoreLaws S}.
Variable config : Config.
Hypothesis max_connections_nonneg : 0 ≤ sv_max_connections (server config).
Implicit Types (m : Manager P Sender S) (s : System P Sender S) (conn : string)
  (env : api_env (P := P) (Sender := Sender)).

Abbreviation step := (system_step generate_auth_key config).
Abbreviation cap := (sv_max_connections (server config)).

(** ** Paths of the server *)

Definition system_path : relation (System P Sender S) := rtc (λ s s', ∃ b, step s b s').

(** A path on which only the handler of [conn] moves, to [h], with the manager at [m]. *)
Record moves conn s (h : HandlerTask) m s' : Prop := {
  mv_path : system_path s s';
  mv_handlers : sy_handlers s' = <[conn := h]> (sy_handlers s);
  mv_manager : sy_manager s' = m;
  mv_main : sy_main s' = sy_main s
}.

Lemma moves_trans conn s h1 m1 s1 h2 m2 s2 :
  moves conn s h1 m1 s1 → moves conn s1 h2 m2 s2 → moves conn s h2 m2 s2.
Proof.
  intros [P1 H1 M1 Mn1] [P2 H2 M2 Mn2]. split; [by etrans| |done|congruence].
  by rewrite H2, H1, insert_insert_eq.
Qed.

Lemma moves_stay conn s h : sy_handlers s !! conn = Some h → moves conn s h (sy_manager s) s.
Proof. intros Hh. split; [constructor|by rewrite insert_id|done|done]. Qed.

Lemma moves_handler conn s b h m s' :
  handler_step generate_auth_key config s b s' →
  sy_handlers s' = <[conn := h]> (sy_handlers s) → sy_manager s' = m → sy_main s' = sy_main s →
  moves conn s h m s'.
Proof. intros Hs ???. split; [|done..]. apply rtc_once. exists b. by apply StepHandler. Qed.

Lemma moves_at conn s h m s' : moves conn s h m s' → sy_handlers s' !! conn = Some h.
Proof. intros [_ -> _ _]. apply lookup_insert_eq. Qed.

(** ** The calls *)

(** [connect_user] as the code runs it: the shutdown test, the test for a session, the
    permit, the setup, and the insertion or the dropped permit. *)
Lemma connect_moves s conn tid gen username setup :
  sy_handlers s !! conn = Some HServing →
  mg_connecting (sy_manager s) !! tid = None → mg_heap (sy_manager s) !! gen = None →
  ∃ s', moves conn s HServing
    (SessionManager_connect_user (sy_manager s) tid gen conn username setup).1 s'.
Proof.
  intros Hh Ht Hg. unfold SessionManager_connect_user, connect_check.
  destruct (mg_shutdown (sy_manager s)) eqn:Hsd; [exists s; by apply moves_stay|].
  assert (Hchk : moves conn s HChecked (sy_manager s) (set_handler s conn HChecked))
    by by eapply moves_handler; [apply SysCheck|..].
  assert (Href : is_Some (mg_sessions (sy_manager s) !! conn) ∨
    try_acquire (mg_slots (sy_manager s)) = None →
    ∃ s', moves conn s HServing (sy_manager s) s').
  { intros Hno. eexists. eapply moves_trans; [exact Hchk|].
    eapply moves_handler; [apply (SysRefuse _ _ _ conn)|done..]; [|done]. simpl. by rewrite lookup_insert_eq. }
  destruct (mg_sessions (sy_manager s) !! conn) as [g|] eqn:Hc; [by apply Href; left|].
  destruct (connect_reserve (sy_manager s) tid conn) as [m1|e] eqn:Hr.
  2:{ apply Href. right. unfold connect_reserve in Hr. by destruct (try_acquire _). }
  pose proof (StepReserve _ _ _ _ Ht Hr) as Hst.
  assert (Hm1 : mg_connecting m1 !! tid = Some conn ∧ mg_heap m1 = mg_heap (sy_manager s)).
  { unfold connect_reserve in Hr. destruct (try_acquire _); [|done]. injection Hr as <-.
    split; [apply lookup_insert_eq|done]. }
  destruct Hm1 as [Ht1 Hh1].
  assert (Hres : moves conn s (HConnecting tid) m1
    (set_manager (set_handler (set_handler s conn HChecked) conn (HConnecting tid)) m1)).
  { eapply moves_trans; [exact Hchk|]. eapply moves_handler; [apply SysReserve|done..]; [|done|done].
    simpl. by rewrite lookup_insert_eq. }
  destruct setup as [peer|e]; eexists; (eapply moves_trans; [exact Hres|]).
  - eapply moves_handler; [eapply (SysPublish _ _ _ conn tid gen)|done..].
    + simpl. by rewrite lookup_insert_eq.
    + simpl. eapply (StepPublish m1 tid conn gen peer username); [done|by rewrite Hh1|].
      by rewrite <- surjective_pairing.
  - eapply moves_handler; [eapply (SysAbandon _ _ _ conn tid _ false)|done..].
    + simpl. by rewrite lookup_insert_eq.
    + simpl. by eapply StepAbandon.
Qed.

Lemma moves_session s conn lab m :
  sy_handlers s !! conn = Some HServing → event_label lab = true →
  manager_step (sy_manager s) lab m → moves conn s HServing m (set_manager s m).
Proof.
  intros Hh Hl Hs. split; [|simpl; by rewrite insert_id|done|done].
  eapply rtc_once. eexists. apply StepEventTask. by eapply SysEvent.
Qed.

(** A method that works on the session under its lock. *)
Lemma on_session_moves s conn f :
  sy_handlers s !! conn = Some HServing →
  (∀ u : UserSession P Sender, (f u).1.1 = u ∨ session_op u (f u).1.1) →
  ∃ s', moves conn s HServing (on_session (sy_manager s) conn f).1.1 s'.
Proof.
  intros Hh Hf. unfold on_session, get_session.
  destruct (mg_sessions (sy_manager s) !! conn) as [g|]; simpl; [|exists s; by apply moves_stay].
  destruct (mg_heap (sy_manager s) !! g) as [e|] eqn:He; [|exists s; by apply moves_stay].
  specialize (Hf (en_session e)). destruct (f (en_session e)) as [[s1 ef] r]. simpl in Hf |- *.
  destruct Hf as [->|Hop].
  - exists s. rewrite with_session_same by done. by apply moves_stay.
  - eexists. apply (moves_session s conn (LSession g)); [done..|]. by apply StepSession.
Qed.

Lemma session_command_same env cmd (u : UserSession P Sender) :
  (session_command env cmd u).1.1 = u.
Proof. unfold session_command. by destruct (MumbleClient_send_command _ _). Qed.

Lemma path_reachable s s' :
  system_reachable generate_auth_key config s → system_path s s' →
  system_reachable generate_auth_key config s'.
Proof. intros Hr Hp. induction Hp as [|s1 s2 s3 [b Hs] _ IH]; [done|]. by eapply IH, sys_step. Qed.

Lemma moves_reachable conn s h m s' :
  system_reachable generate_auth_key config s → moves conn s h m s' →
  system_reachable generate_auth_key config s'.
Proof. intros Hr [Hp _ _ _]. by eapply path_reachable. Qed.

(** [refresh_ice] issues a credential when the user is logged in; the sessions stay as they
    are. *)
Lemma refresh_moves s conn env :
  system_reachable generate_auth_key config s → sy_handlers s !! conn = Some HServing →
  ∃ s', moves conn s HServing (SessionManager_refresh_ice (sy_manager s) conn env).1.1 s'.
Proof.
  intros Hr Hh. unfold SessionManager_refresh_ice, on_session, get_session.
  destruct (mg_sessions (sy_manager s) !! conn) as [g|] eqn:Hg; simpl; [|exists s; by apply moves_stay].
  destruct (mg_heap (sy_manager s) !! g) as [e|] eqn:He; [|exists s; by apply moves_stay].
  destruct (system_reachable_inv _ _ max_connections_nonneg s Hr) as [Hm _ _ _ _].
  destruct (inv_map _ _ (reachable_inv _ _ max_connections_nonneg Hm) conn g Hg) as (e' & He' & Hc & _).
  rewrite He in He'. injection He' as <-.
  unfold session_refresh_ice. destruct (se_session_id (en_session e)) as [id|] eqn:Hid; simpl;
    rewrite with_session_same by done.
  - exists (issue_turn generate_auth_key config s conn 0 ("", "", "")).
    apply (moves_handler conn s false); [|simpl; by rewrite insert_id|done|done].
    eapply (SysRefreshIce _ _ s conn g e); [done..|by rewrite Hid].
  - exists s. by apply moves_stay.
Qed.

(** Every call of the receive loop. *)
Lemma api_call_moves s conn env c :
  system_reachable generate_auth_key config s → sy_handlers s !! conn = Some HServing → is_cleanup c = false →
  ∃ s', moves conn s HServing (api_call config (sy_manager s) conn env c).1.1 s'.
Proof.
  intros Hr Hh Hc. destruct c; try done;
    try (apply on_session_moves; [done|intros u; by left; apply session_command_same]); simpl.
  - destruct (connect_moves s conn (fresh (dom (mg_connecting (sy_manager s))))
      (fresh (dom (mg_heap (sy_manager s)))) username (api_setup config env) Hh
      (fresh_lookup _) (fresh_lookup _)) as [s' Hs'].
    exists s'. by destruct (SessionManager_connect_user _ _ _ _ _ _).
  - apply on_session_moves; [done|]. intros u. right. apply (OpRequest u (VrAnswer sdp)).
  - apply on_session_moves; [done|]. intros u. right.
    apply (OpRequest u (VrStartVoice restart (ae_add_track env))).
  - by apply refresh_moves.
  - apply on_session_moves; [done|]. intros u. right.
    apply (OpRequest u (VrCandidate (icd_candidate data) (icd_sdp_mid data) (icd_sdp_mline_index data))).
Qed.

Lemma api_cancel_moves s conn env c :
  sy_handlers s !! conn = Some HServing →
  ∃ s', moves conn s HServing (api_cancel (sy_manager s) conn env c) s'.
Proof.
  intros Hh. destruct c; simpl; try (exists s; by apply moves_stay);
    try (apply on_session_moves; [done|]; intros u; right; apply OpDropped).
  destruct (connect_moves s conn (fresh (dom (mg_connecting (sy_manager s))))
    (fresh (dom (mg_heap (sy_manager s)))) username (Err "") Hh (fresh_lookup _) (fresh_lookup _))
    as [s' Hs'].
  exists s'. revert Hs'. unfold SessionManager_connect_user.
  destruct (connect_check _ _); [|done]. by destruct (connect_reserve _ _ _).
Qed.

Lemma run_calls_moves conn env timed_out calls : ∀ s,
  system_reachable generate_auth_key config s → sy_handlers s !! conn = Some HServing → Forall (λ c, is_cleanup c = false) calls →
  ∃ s', moves conn s HServing (run_calls config (sy_manager s) conn env timed_out calls).1 s'.
Proof.
  unfold run_calls. generalize (@nil effect). induction calls as [|c calls IH]; intros ef s Hr Hh Hc.
  { exists s. by apply moves_stay. }
  apply list.Forall_cons in Hc as [Hc Hcs]. simpl.
  assert (Hone : ∃ ef1 s1, moves conn s HServing (sy_manager s1) s1 ∧
    (if timed_out then (api_cancel (sy_manager s) conn env c, ef)
     else let '(m', e, _) := api_call config (sy_manager s) conn env c in (m', ef ++ e))
    = (sy_manager s1, ef1)).
  { destruct timed_out.
    - destruct (api_cancel_moves s conn env c Hh) as [s1 Hs1]. exists ef, s1.
      pose proof (mv_manager _ _ _ _ _ Hs1) as Hm. rewrite Hm. by split.
    - destruct (api_call_moves s conn env c Hr Hh Hc) as [s1 Hs1].
      destruct (api_call config (sy_manager s) conn env c) as [[m1 e1] r]. eexists _, s1.
      pose proof (mv_manager _ _ _ _ _ Hs1) as Hm. simpl in Hm. rewrite Hm. by split. }
  destruct Hone as (ef1 & s1 & Hs1 & ->).
  destruct (IH ef1 s1 (moves_reachable _ _ _ _ _ Hr Hs1) (moves_at _ _ _ _ _ Hs1) Hcs) as [s2 Hs2].
  exists s2. by eapply moves_trans.
Qed.

Lemma connection_loop_moves conn ins : ∀ s first,
  system_reachable generate_auth_key config s → sy_handlers s !! conn = Some HServing →
  ∃ s', moves conn s HServing (connection_loop config (sy_manager s) conn first ins).1.1.2 s'.
Proof.
  induction ins as [|[i env] ins IH]; intros s first Hr Hh; [exists s; by apply moves_stay|].
  cbn [connection_loop]. unfold connection_turn.
  pose proof (ws_step_calls (api_result config (sy_manager s) conn env) first i) as Hcalls.
  destruct (ws_step _ first i) as [next o]. simpl in Hcalls.
  destruct (run_calls_moves conn env (input_timed_out i) (wo_calls o) s Hr Hh) as [s1 Hs1].
  { eapply Forall_impl; [exact Hcalls|]. by intros c [? _]. }
  destruct (run_calls config (sy_manager s) conn env _ _) as [m1 ef1]. simpl in Hs1.
  destruct next as [first'|]; [|by exists s1].
  pose proof (mv_manager _ _ _ _ _ Hs1) as Hm. simpl in Hm. subst m1.
  destruct (IH s1 first' (moves_reachable _ _ _ _ _ Hr Hs1) (moves_at _ _ _ _ _ Hs1)) as [s2 Hs2]. exists s2.
  destruct (connection_loop config (sy_manager s1) conn first' ins) as [[[??]?]?].
  by eapply moves_trans.
Qed.

(** The cleanup: out of the loop, [disconnect_user], [revoke_turn]. *)
Lemma cleanup_moves s conn :
  system_reachable generate_auth_key config s → sy_handlers s !! conn = Some HServing →
  ∃ s', moves conn s HGone (SessionManager_disconnect_user (sy_manager s) conn) s'.
Proof.
  intros Hr Hh.
  destruct (system_reachable_inv _ _ max_connections_nonneg s Hr) as [Hm _ _ _ _].
  assert (Hleave : moves conn s HLeaving (sy_manager s) (set_handler s conn HLeaving)).
  { eapply moves_handler; [by eapply (SysLeave _ _ s conn HServing); [|left]|done..]. }
  set (s1 := set_handler s conn HLeaving) in *.
  assert (Hrm : moves conn s (after_remove s1 conn) (disconnect_remove (sy_manager s) conn)
    (set_manager (set_handler s1 conn (after_remove s1 conn)) (disconnect_remove (sy_manager s) conn))).
  { eapply moves_trans; [exact Hleave|]. eapply moves_handler; [|done..].
    apply SysDisconnectRemove; [by eapply moves_at|]. apply StepDisconnectRemove. }
  assert (Hgone : ∀ m2 s2, moves conn s HRevoking m2 s2 → ∃ s', moves conn s HGone m2 s').
  { intros m2 s2 Hs2. eexists. eapply moves_trans; [exact Hs2|].
    eapply moves_handler; [apply (SysRevokeTurn _ _ _ conn (λ _, true)); by eapply moves_at|done| |done].
    simpl. by apply (mv_manager _ _ _ _ _ Hs2). }
  unfold SessionManager_disconnect_user. unfold after_remove in Hrm. simpl (sy_manager s1) in Hrm.
  destruct (mg_sessions (sy_manager s) !! conn) as [g|] eqn:Hg.
  - destruct (inv_map _ _ (reachable_inv _ _ max_connections_nonneg Hm) conn g Hg) as (e & He & _).
    assert (Hd : disconnect_remove (sy_manager s) conn
      = set_closing (set_sessions (sy_manager s) (delete conn (mg_sessions (sy_manager s))))
          (g :: mg_closing (sy_manager s))) by (unfold disconnect_remove; by rewrite Hg).
    rewrite Hd in *. simpl (mg_heap _). rewrite He. eapply Hgone. eapply moves_trans; [exact Hrm|].
    eapply moves_handler; [apply (SysDisconnectShutdown _ _ _ conn g)|done..].
    + by eapply moves_at.
    + simpl. apply StepDisconnectShutdown; [simpl; left|done].
  - assert (Hd : disconnect_remove (sy_manager s) conn = sy_manager s)
      by (unfold disconnect_remove; by rewrite Hg).
    rewrite Hd in Hrm. by eapply Hgone.
Qed.

(** C12: the handler is a path of the server. From any reachable state of the server in which a
    WebSocket has been accepted, whatever its browser sends and however its calls go, the
    run of its handler to the end is a path of the server's steps on which no other handler
    and not the main task moves, and it ends with this handler gone, the manager as the
    handler's calls left it, and no session of the connection in the map. *)
Theorem connection_refines_system s conn ins m' effects sent :
  system_reachable generate_auth_key config s → sy_handlers s !! conn = Some HServing →
  connection_run config (sy_manager s) conn ins = (true, m', effects, sent) →
  ∃ s', system_path s s' ∧ system_reachable generate_auth_key config s' ∧
    sy_manager s' = m' ∧ sy_handlers s' = <[conn := HGone]> (sy_handlers s) ∧
    sy_main s' = sy_main s ∧ mg_sessions m' !! conn = None.
Proof.
  intros Hr Hh. unfold connection_run.
  destruct (connection_loop_moves conn ins s true Hr Hh) as [s1 Hs1].
  destruct (connection_loop config (sy_manager s) conn true ins) as [[[en m1] ef] st].
  simpl in Hs1. intros Hrun. injection Hrun as -> <- <- <-.
  pose proof (mv_manager _ _ _ _ _ Hs1) as Hm. simpl in Hm. subst m1.
  pose proof (moves_reachable _ _ _ _ _ Hr Hs1) as Hr1.
  destruct (cleanup_moves s1 conn Hr1 (moves_at _ _ _ _ _ Hs1)) as [s2 Hs2].
  destruct (moves_trans _ _ _ _ _ _ _ _ Hs1 Hs2) as [H1 H2 H3 H4].
  destruct (system_reachable_inv _ _ max_connections_nonneg s1 Hr1) as [Hmr _ _ _ _].
  exists s2. split_and!; [done|exact (path_reachable _ _ Hr H1)|done|done|done|].
  by apply (disconnect_ok cap).
Qed.
End Connection.

(** ** A concrete connection: connect, a chat line, a refresh before the login, and away *)

Definition accepted_system : Run.sys := Run.accept Run.s0 "c".

Lemma accepted_reach : system_reachable test_auth_key test_config accepted_system.
Proof.
  eapply Run.accept_reach; [constructor; by intros t [= <-]|reflexivity|reflexivity|].
  vm_compute. reflexivity.
Qed.

Definition visit : list (WsInput * api_env (P := TestPeer) (Sender := unit)) :=
  [(WsText (Ok (CmConnect "v")) false, test_env); (WsText (Ok (CmChatSend 3 "hi")) false, test_env);
   (WsText (Ok CmIceRefresh) false, test_env); (WsClose, test_env)].

Lemma connection_refines_system_witness :
  let r := connection_run test_config (sy_manager accepted_system) "c" visit in
  r.2 = [ServerMessage_error "voice_error" "Mumble authentication pending"] ∧
  ∃ s', system_path test_auth_key test_config accepted_system s' ∧ sy_manager s' = r.1.1.2 ∧
    sy_handlers s' = <["c" := HGone]> (sy_handlers accepted_system) ∧
    mg_sessions r.1.1.2 !! "c" = None.
Proof.
  intros r. split; [vm_compute; reflexivity|].
  destruct (connection_refines_system test_auth_key test_config ltac:(simpl; lia) accepted_system "c"
    visit r.1.1.2 r.1.2 r.2 accepted_reach) as (s' & H1 & _ & H3 & H4 & _ & H6);
    [vm_compute; reflexivity|vm_compute; reflexivity|].
  exists s'. split_and!; [exact H1|exact H3|exact H4|exact H6].
Defined.
