(* ===== verification/EndToEnd.v ===== *)
(** * From one browser to another

    The components put together, with a Mumble server between two users of the gateway. The
    server is code of another project: what it does with a text message and with audio is
    stated as [relays_text] and [relays_audio], after the protocol. *)

From Stdlib Require Import ZArith Lia.
From stdpp Require Import base tactics list gmap strings option sets.
From S2P Require Import Prelude Messages Opus Uplink Speakers Net Config Proto MumbleClient Voice.
From S2P Require Import Negotiation Semaphore Session Await EventLoop Manager Handler Api.
Local Open Scope Z_scope.

(** ** Chat *)

Section Chat.
Context {P Sender S : Type} `{PeerConnection P} `{Semaphore S} `{!SetIter Z}.
Variable config : Config.
Variable show_state : RTCPeerConnectionState → string.
Variable CryptState : Type.
Variable new_from : list Z → list Z → list Z → CryptState.
Variables KEY_SIZE BLOCK_SIZE : Z.
Context `{!MapValues Z ChannelInfo} `{!MapValues Z UserInfo}.
Abbreviation connection_task := (client_run CryptState new_from KEY_SIZE BLOCK_SIZE).

(** What the server sends to another user of the channel when a session sends a message. *)
Variable deliver : Z → ServerboundPacket → list ControlPacket.

(** A text message goes on with its channels and text; the server fills in the actor. *)
Definition relays_text : Prop := ∀ actor msg,
  deliver actor (SbTextMessage msg)
  = [TextMessage (mkTextMessage (Some actor) (tm_channel_id msg) (tm_message msg))].

(** A text message, in a connection task that runs, is one event. *)
Lemma text_message_event t actor channel_id message :
  ct_running _ t = true →
  connection_task t [InPacket (TextMessage (mkTextMessage (Some actor) [channel_id] (Some message)))]
  = (t, mkClientOutput _ [MeChatMessage actor channel_id message] [] []).
Proof. destruct t as [st []]; [|done]. by intros _. Qed.

(** A loop that is waiting takes the event in its next turn and tells the browser. *)
Lemma chat_turn (l : Loop (P := P) (Sender := Sender)) env actor channel_id message name :
  lo_ended l = None → se_close_notify (lo_session l) = false → lo_ws_open l = true →
  lo_mumble l = [] → lo_mumble_open l = true → lo_user_map l !! actor = Some name →
  loop_run show_state l [LiMumble (MeChatMessage actor channel_id message); LiTurn env]
  = (l, [EfSend (SmChatReceived
           (mkChatReceivedData actor name channel_id message (ev_now env)))]).
Proof.
  destruct l as [s m q op w wop ws en]. simpl. intros -> Hn -> -> -> Hm.
  unfold loop_turn, loop_select. simpl. rewrite Hn. simpl. by rewrite Hm.
Qed.

(** C13: what one user types, the others read under that user's name. A browser with a session
    sends a chat line within the limit; the Mumble server relays text messages to the other
    users of the channel. Then, in the session of any of them that knows the sender from its
    roster and has caught up with its own Mumble connection, whatever happened to it before,
    the line arrives as one chat message to the browser with the sender's session and current
    name, the channel and the text, and leaves both sessions as they were. *)
Theorem chat_end_to_end (m : Manager P Sender S) conn g e env t_a actor channel_id message
    cins (s : UserSession P Sender) ins t o u env_b :
  relays_text →
  mg_sessions m !! conn = Some g → mg_heap m !! g = Some e → ae_client_open env = true →
  ct_running _ t_a = true → byte_len message ≤ 4096 →
  se_closed s = false → se_close_notify s = false →
  connection_task (client_start CryptState) cins = (t, o) →
  ct_running _ t = true → hc_connected _ (ct_state _ t) = true →
  hc_users _ (ct_state _ t) !! actor = Some u →
  let l := (loop_run show_state (loop_start s) ins).1 in
  accepted true ins = co_events _ o → lo_mumble l = [] → lo_mumble_open l = true →
  lo_ws_open l = true → lo_ended l = None → se_close_notify (lo_session l) = false →
  ∃ effects packets events,
    connection_turn config m conn false (WsText (Ok (CmChatSend channel_id message)) false) env
      = (Some false, m, effects, []) ∧
    connection_task t_a ((λ cmd, InCommand (Some cmd) true) <$> effect_commands effects)
      = (t_a, mkClientOutput _ [] packets []) ∧
    connection_task t (InPacket <$> (packets ≫= deliver actor)) = (t, mkClientOutput _ events [] []) ∧
    loop_run show_state l ((LiMumble <$> events) ++ [LiTurn env_b])
      = (l, [EfSend (SmChatReceived
               (mkChatReceivedData actor (us_name u) channel_id message (ev_now env_b)))]).
Proof.
  intros Hrel Hg He Ho Ha Hlen Hc Hn Hrun Ht Hcon Hu l Hacc Hq Hop Hws Hend Hcn.
  destruct (command_arrives config CryptState new_from KEY_SIZE BLOCK_SIZE m conn g e env
    (CmChatSend channel_id message) _ t_a Hg He Ho eq_refl Hlen Ha) as (effects & H1 & H2).
  destruct (loop_roster show_state CryptState new_from KEY_SIZE BLOCK_SIZE cins ins s t o
    Hc Hn Hrun Hacc Hq Hcon) as (_ & _ & _ & Hnames).
  eexists effects, _, [MeChatMessage actor channel_id message].
  split; [exact H1|]. split; [exact H2|]. split.
  - simpl. rewrite Hrel. by apply text_message_event.
  - apply chat_turn; auto.
Qed.
End Chat.

(** ** Voice *)

(** The audio the server passes on for a session is audio the session sent, unaltered. *)
Definition relays_audio (session : Z) (sent : list VoicePacketOut) (received : list VoiceInput) : Prop :=
  ∀ n payload now outcome,
    ViPacket (InAudio session n payload) now outcome ∈ received → ∃ target, OutAudio target n payload ∈ sent.

(** C6: what one user says, the others hear as it was said. The RTP packets of one browser's
    track go through its track handler, its uplink and its voice socket to the Mumble server,
    which passes audio on unaltered, and through another user's voice socket and downlink to
    that user's browser, the channels on the way delivering prefixes and everything else
    (losses, timings, other speakers) being arbitrary. Then every RTP packet that browser
    gets for the first user is on the track of that user and carries, unmodified, the payload
    of an RTP packet the first browser sent on an Opus audio track, well-formed Opus of whole
    10 ms frames; nobody is heard who did not speak. *)
Theorem voice_end_to_end {Sender} session kind mime_type reads evs ins_a ins_b
    write_rtp (speakers : gmap Z (Speaker Sender)) writes t p :
  Z.of_nat (length evs) ≤ 2 ^ 41 →
  prefix (evs ≫= event_packet) (setup_incoming_audio_handler kind mime_type reads) →
  prefix (outgoing_frames ins_a) (uplink_run UplinkTask_start evs).2 →
  relays_audio session (sent_audio (voice_run true ins_a).2) ins_b →
  tracks_wf speakers → prefix writes.*1.*1 (vx_incoming (voice_run true ins_b).2) →
  (session, t, p) ∈ (tracks_run write_rtp speakers writes).2 →
  t = speaker_track session ∧ reads_track kind mime_type = true ∧
  (∃ samples, opus_packet_total_samples (rp_payload p) = Ok samples ∧ samples mod 480 = 0) ∧
  ∃ seq ts now, RtpPacketRead (rp_payload p) seq ts now Sent ∈ reads.
Proof.
  intros Hlen Hrd Hch Hrel Hwf Hw Hin.
  destruct (written_origin write_rtp speakers ins_b writes session t p Hwf Hw Hin)
    as (-> & Hne & n & last & now & Hp).
  destruct (Hrel _ _ _ _ Hp) as [target Ho].
  destruct (sent_audio_origin kind mime_type reads evs ins_a target n (rp_payload p) last
    Hlen Hrd Hch Ho) as [_ Ho']. destruct last; [done|].
  destruct Ho' as (Hok & Hk & Hr). auto.
Qed.

(** ** Two users *)

Definition test_deliver (actor : Z) (packet : ServerboundPacket) : list ControlPacket :=
  match packet with
  | SbTextMessage msg =>
      [TextMessage (mkTextMessage (Some actor) (tm_channel_id msg) (tm_message msg))]
  | SbUserState msg =>
      [UserState (mkUserState (Some actor) (um_name msg) (um_channel_id msg) (um_mute msg)
                    (um_deaf msg) (um_self_mute msg) (um_self_deaf msg))]
  | _ => []
  end.

Definition listener_events : list MumbleEvent :=
  [MeConnected 7 [] [test_user 7 "me"; test_user 5 "bob"]].

Lemma chat_end_to_end_witness :
  ∃ effects packets events,
    connection_turn test_config test_connected "c" false (WsText (Ok (CmChatSend 3 "hi")) false)
      Api.test_env = (Some false, test_connected, effects, []) ∧
    client_run unit (λ _ _ _, tt) 16 16 (client_start unit)
      ((λ cmd, InCommand (Some cmd) true) <$> effect_commands effects)
      = (client_start unit, mkClientOutput _ [] packets []) ∧
    loop_run (λ _, "") (loop_run (λ _, "") (loop_start test_session)
                          ((LiMumble <$> listener_events) ++ [LiTurn Session.test_env])).1
      ((LiMumble <$> events) ++ [LiTurn Session.test_env])
      = ((loop_run (λ _, "") (loop_start test_session)
            ((LiMumble <$> listener_events) ++ [LiTurn Session.test_env])).1,
         [EfSend (SmChatReceived (mkChatReceivedData 5 "bob" 3 "hi" 0))]).
Proof.
  destruct (chat_end_to_end test_config (λ _, "") unit (λ _ _ _, tt) 16 16 test_deliver
    test_connected "c" 10 test_spawned Api.test_env (client_start unit) 5 3 "hi"
    Session.test_inputs test_session ((LiMumble <$> listener_events) ++ [LiTurn Session.test_env])
    (client_run unit (λ _ _ _, tt) 16 16 (client_start unit) Session.test_inputs).1
    (client_run unit (λ _ _ _, tt) 16 16 (client_start unit) Session.test_inputs).2
    (test_user 5 "bob") Session.test_env) as (ef & pk & ev & H1 & H2 & _ & H4);
    try (vm_compute; reflexivity); [vm_compute; discriminate|].
  exists ef, pk, ev. split; [exact H1|]. split; [exact H2|]. exact H4.
Defined.

Lemma voice_end_to_end_witness :
  ∃ seq ts now, RtpPacketRead [0xF8] seq ts now Sent
    ∈ [RtpPacketRead [0xF8] 1 480 0 Sent; RtpPacketRead [0xF8] 2 1440 0 Sent].
Proof.
  refine (proj2 (proj2 (proj2 (voice_end_to_end (Sender := unit) 7 CodecAudio "audio/opus"
    [RtpPacketRead [0xF8] 1 480 0 Sent; RtpPacketRead [0xF8] 2 1440 0 Sent]
    [RecvPacket (Some (mkIncoming [0xF8] 1 480 0)) 0 0 Sent;
     RecvPacket (Some (mkIncoming [0xF8] 2 1440 0)) 0 0 Sent]
    [ViOutgoing (Some (mkVoiceData 0 [0xF8] false)) true;
     ViOutgoing (Some (mkVoiceData 2 [0xF8] false)) true]
    [ViPacket (InAudio 7 0 (PayloadOpus [0xF8] false)) 0 Sent]
    (λ _ _, Ok tt) {[7 := mkSpeaker (speaker_track 7) tt MediaClock_default]}
    [(mkMumbleVoice 7 0 [0xF8] false 0, 0, 0)] (speaker_track 7) (mkRtp 1 0 true [0xF8])
    _ _ _ _ _ _ _)))).
  - vm_compute. discriminate.
  - exists []. reflexivity.
  - exists []. vm_compute. reflexivity.
  - intros n payload now outcome Hin. apply list_elem_of_singleton in Hin. injection Hin as -> -> -> ->.
    exists 0. vm_compute. left.
  - apply map_Forall_singleton. reflexivity.
  - exists []. reflexivity.
  - vm_compute. left.
Defined.
