(* ===== verification/Conformance.v ===== *)
(** * The repository's unit tests, run on the models

    The functions of the test modules of [src/src], statement by statement: a test is the
    conjunction of its assertions, and passes on the models by evaluation. What a test takes
    from its surroundings (sockets, identifiers, clock readings) is a concrete value here.
    The tests of [session/tests.rs], [turn/tests.rs] and [webrtc/tests.rs] need real sockets
    and peers and are not included; the smoke test runs against a server given as functions. *)

From Stdlib Require Import ZArith Lia Ascii.
From stdpp Require Import base tactics list gmap strings option.
From S2P Require Import Prelude Opus Net Text Config Deserialize Credentials Messages Json Proto MumbleClient.
From S2P Require Import Uplink Speakers Voice Relay Stream Api EndToEnd.
Local Open Scope Z_scope.

(** ** Assertions *)

(** [str::contains] *)
Fixpoint contains (s pattern : string) : bool :=
  starts_with s pattern ||
  match s with EmptyString => false | String _ s' => contains s' pattern end.

(** [assert_eq!] *)
Definition assert_eq {A} `{EqDecision A} (x y : A) : bool := bool_decide (x = y).

(** An [expect_err] whose text contains a pattern. *)
Definition err_contains {A} (r : result A) (pattern : string) : bool :=
  match r with Ok _ => false | Err e => contains e pattern end.

Definition is_err {A} (r : result A) : bool := negb (is_ok r).

Definition all_hold (l : list bool) : bool := forallb id l.

(** ** [bridge.rs] *)

Definition parses_single_frame_opus_duration : bool :=
  assert_eq (opus_packet_duration [0xF8]) (Ok (ms 20)).

Definition parses_two_frame_opus_duration : bool :=
  assert_eq (opus_packet_duration [0xF9]) (Ok (ms 40)).

Definition parses_code_three_opus_duration : bool :=
  assert_eq (opus_packet_duration [0xF3; 0x03]) (Ok (ms 30)).

Definition rejects_empty_opus_packets : bool := err_contains (opus_packet_duration []) "empty".

Definition rejects_opus_packets_longer_than_120ms : bool :=
  err_contains (opus_packet_duration [0xF3; 0x3F]) "120ms".

(** [clock.packet] in sequence: each result is compared. *)
Fixpoint uplink_results (c : UplinkClock) (l : list (Z * Z * Z * option Z)) : UplinkClock * bool :=
  match l with
  | [] => (c, true)
  | (timestamp, sequence, samples, expected) :: l =>
      let '(c, r) := UplinkClock_packet c timestamp sequence samples in
      let '(c, b) := uplink_results c l in (c, assert_eq r expected && b)
  end.

Definition uplink_counts_ten_ms_frames_and_preserves_loss_dtx_and_wraparound : bool :=
  let start := 0xFFFFFFFF - 479 in
  let '(clock, b) := uplink_results UplinkClock_default
    [(start, 65534, 960, Some 0);
     (wrapping_add 32 start 960, 65535, 1920, Some 2);
     (wrapping_add 32 start 2880, 0, 960, Some 6);
     (wrapping_add 32 start 5760, 3, 960, Some 12);
     (wrapping_add 32 start 4800, 2, 960, None);
     (wrapping_add 32 start 53760, 4, 960, Some 112)] in
  b && assert_eq (UplinkClock_end_frame clock) 114.

(** ** [webrtc/speakers.rs] *)

Definition rtp_timestamp (o : option (Z * Z * bool)) : option Z := (λ p, p.1.2) <$> o.

(** [now] is the reading of the clock when the test starts. *)
Definition speakers_keep_independent_clocks_and_preserve_gaps (now : Z) : bool :=
  let '(a, r1) := MediaClock_packet MediaClock_default 100 960 false now in
  let '(b, r2) := MediaClock_packet MediaClock_default 5 960 false now in
  let '(a, r3) := MediaClock_packet a 102 960 false (now + ms 20) in
  let '(b, r4) := MediaClock_packet b 9 960 false (now + ms 40) in
  let '(a, r5) := MediaClock_packet a 101 960 false (now + ms 30) in
  all_hold [assert_eq (rtp_timestamp r1) (Some 0); assert_eq (rtp_timestamp r2) (Some 0);
            assert_eq (rtp_timestamp r3) (Some 960); assert_eq (rtp_timestamp r4) (Some 1920);
            assert_eq r5 None].

Definition talk_restart_uses_a_continuous_rtp_clock (now : Z) : bool :=
  let '(clock, first) := MediaClock_packet MediaClock_default 10 960 true now in
  let '(_, second) := MediaClock_packet clock 0 960 false (now + ms 1000) in
  match first, second with
  | Some _, Some (_, timestamp, marker) => assert_eq timestamp 48000 && marker
  | _, _ => false
  end.

(** ** [mumble/proto.rs] *)

Definition build_text_message_targets_requested_channel : bool :=
  let msg := build_text_message 7 "hello team" in
  assert_eq (tm_channel_id msg) [7] && assert_eq (default "" (tm_message msg)) "hello team".

Definition build_user_state_channel_sets_destination_channel : bool :=
  let msg := build_user_state_channel 9 in
  bool_decide (is_Some (um_channel_id msg)) && assert_eq (default 0 (um_channel_id msg)) 9.

Definition build_user_state_deaf_also_self_mutes_when_enabled : bool :=
  let msg := build_user_state_deaf true in
  all_hold [bool_decide (is_Some (um_self_deaf msg)); default false (um_self_deaf msg);
            bool_decide (is_Some (um_self_mute msg)); default false (um_self_mute msg)].

(** ** [mumble/client.rs]

    [KEY_SIZE] and [BLOCK_SIZE] are those of the protocol, 16 bytes each. *)

Definition test_handle : ClientState unit → ControlPacket → handled unit :=
  handle_control_packet unit (λ _ _ _, tt) 16 16.

Definition zeros (n : nat) : list Z := replicate n 0.

Definition invalid_cryptsetup_disconnects_instead_of_panicking : bool :=
  let msg := mkCryptSetup (Some (zeros 8)) (Some (zeros 16)) (Some (zeros 16)) in
  let h := test_handle (mkClientState _ None true ∅ ∅ false) (CryptSetup msg) in
  assert_eq (hc_crypt_state _ (hd_state _ h)) None &&
  match hd_events _ h with
  | MeDisconnected reason :: _ => contains reason "Invalid key size"
  | _ => false
  end.

Definition connected_user_channel_move_preserves_cached_user_details : bool :=
  let alice := mkUserInfo 42 "alice" 1 true false true false in
  let msg := mkUserState (Some 42) None (Some 9) None None None None in
  let h := test_handle (mkClientState _ None false ∅ {[42 := alice]} true) (UserState msg) in
  hd_continue _ h &&
  match hd_events _ h, hc_users _ (hd_state _ h) !! 42 with
  | MeUserStateChanged state :: _, Some user =>
      all_hold [assert_eq (ud_session_id state) 42; assert_eq (ud_channel_id state) (Some 9);
                assert_eq (ud_name state) None; assert_eq (ud_mute state) None;
                assert_eq (ud_self_mute state) None;
                assert_eq (us_session_id user) 42; assert_eq (us_name user) "alice";
                assert_eq (us_channel_id user) 9; us_mute user; us_self_mute user]
  | _, _ => false
  end.

Definition text_message_emits_chat_event_for_target_channel : bool :=
  let msg := mkTextMessage (Some 7) [12] (Some "hello from test") in
  let h := test_handle (mkClientState _ None false ∅ ∅ true) (TextMessage msg) in
  hd_continue _ h &&
  match hd_events _ h with
  | MeChatMessage sender_session channel_id message :: _ =>
      all_hold [assert_eq sender_session 7; assert_eq channel_id 12;
                assert_eq message "hello from test"]
  | _ => false
  end.

(** The helpers of the smoke test, on the events still in the channel; [None] is a panic,
    running out of events the time-out. *)

Definition resolve_test_server_addr (addr : string) (to_socket_addrs : result (list SocketAddr))
    : result SocketAddr :=
  match to_socket_addrs with
  | Err err => Err ("Failed to resolve " +:+ addr +:+ ": " +:+ err)
  | Ok (a :: _) => Ok a
  | Ok [] => Err ("Failed to resolve " +:+ addr +:+ ": no socket addresses returned")
  end.

Fixpoint wait_for_connected (events : list MumbleEvent)
    : option (Z * option Z * list Z * list MumbleEvent) :=
  match events with
  | [] => None
  | MeConnected session_id channels users :: events =>
      Some (session_id,
            us_channel_id <$> List.find (λ user, us_session_id user =? session_id) users,
            ch_id <$> channels, events)
  | MeDisconnected _ :: _ => None
  | _ :: events => wait_for_connected events
  end.

Fixpoint wait_for_channel_join (session_id target_channel_id : Z) (events : list MumbleEvent)
    : option (list MumbleEvent) :=
  match events with
  | [] => None
  | MeUserStateChanged state :: events =>
      if (ud_session_id state =? session_id)
         && bool_decide (ud_channel_id state = Some target_channel_id)
      then Some events else wait_for_channel_join session_id target_channel_id events
  | MeDisconnected _ :: _ => None
  | _ :: events => wait_for_channel_join session_id target_channel_id events
  end.

Fixpoint wait_for_chat_message (sender_session target_channel_id : Z) (expected_message : string)
    (events : list MumbleEvent) : option (list MumbleEvent) :=
  match events with
  | [] => None
  | MeChatMessage actor channel_id message :: events =>
      if (actor =? sender_session) && (channel_id =? target_channel_id)
         && String.eqb message expected_message
      then Some events
      else wait_for_chat_message sender_session target_channel_id expected_message events
  | MeDisconnected _ :: _ => None
  | _ :: events => wait_for_chat_message sender_session target_channel_id expected_message events
  end.

Definition resolve_test_server_addr_accepts_hostname_with_port : bool :=
  match resolve_test_server_addr "localhost:64738" (Ok [SocketV4 LOCALHOST 64738]) with
  | Ok addr => assert_eq (addr_port addr) 64738
  | Err _ => false
  end.

Definition resolve_test_server_addr_rejects_missing_port : bool :=
  err_contains (resolve_test_server_addr "localhost" (Err "invalid socket address"))
    "Failed to resolve".

(** A client of the test: its task and the events it has not read. *)
Definition smoke_client : Type := ClientTask unit * list MumbleEvent.

Definition smoke_feed (c : smoke_client) (ins : list client_input)
    : smoke_client * list ServerboundPacket :=
  let '(t, o) := client_run unit (λ _ _ _, tt) 16 16 c.1 ins in
  ((t, c.2 ++ co_events unit o), co_sent unit o).

(** [send_command(..).expect(..)], and what the connection task sends for it. *)
Definition smoke_command (c : smoke_client) (cmd : MumbleCommand)
    : option (smoke_client * list ServerboundPacket) :=
  if ct_running unit c.1 then Some (smoke_feed c [InCommand (Some cmd) true]) else None.

(** [parse::<u32>] *)
Definition parse_u32 (s : string) : option Z :=
  if starts_with s "-" then None
  else n ← parse_i64 s; if n <? 2 ^ 32 then Some n else None.

Definition flag_set (value : option string) (unset : bool) : bool :=
  match value with
  | Some value => String.eqb value "1" || String.eqb (to_lowercase value) "true"
  | None => unset
  end.

(** [read_env]; an unset variable is a panic. *)
Definition read_env (env : environment) (name : string) : option string := env name.

Definition expect {A} (r : result A) : option A := match r with Ok a => Some a | Err _ => None end.

(** The test against a server given by whether it can be dialled, what it sends on a login
    and what it delivers, to the users of a channel and to the sender, for a packet of a
    session. *)
Definition real_mumble_smoke_connects_joins_channel_and_sends_chat
    (to_socket_addrs : string → result (list SocketAddr))
    (dial : SocketAddr → string → bool → result unit)
    (login : string → list ControlPacket) (deliver : Z → ServerboundPacket → list ControlPacket)
    (env : environment) (pid nanos : Z) : bool :=
  let username := default ("mumdota-test-" +:+ show pid) (env "MUMDOTA_TEST_USERNAME") in
  let observer_username := default (username +:+ "-observer") (env "MUMDOTA_TEST_OBSERVER_USERNAME") in
  let accept_invalid_certs := flag_set (env "MUMDOTA_TEST_ALLOW_INVALID_CERTS") true in
  let verify_chat_echo := flag_set (env "MUMDOTA_TEST_VERIFY_CHAT_ECHO") false in
  let message := "mumdota smoke " +:+ show nanos in
  let to actor packets := InPacket <$> (packets ≫= deliver actor) in
  let connect name := smoke_feed (client_start unit, []) (InPacket <$> login name) in
  default false (
    addr ← read_env env "MUMDOTA_TEST_MUMBLE_ADDR";
    server_addr ← expect (resolve_test_server_addr addr (to_socket_addrs addr));
    server_host ← read_env env "MUMDOTA_TEST_MUMBLE_HOST";
    target ← parse_u32 (default "0" (env "MUMDOTA_TEST_CHANNEL_ID"));
    _ ← expect (dial server_addr server_host accept_invalid_certs);
    let '((observer, events), _) := connect observer_username in
    '(observer_id, observer_channel, observer_channels, events) ← wait_for_connected events;
    _ ← guard (target ∈ observer_channels);
    observer ← (if bool_decide (observer_channel = Some target) then Some (observer, events)
                else '(c, sent) ← smoke_command (observer, events) (McJoinChannel target);
                     let '((c, events), _) := smoke_feed c (to observer_id sent) in
                     events ← wait_for_channel_join observer_id target events; Some (c, events));
    _ ← expect (dial server_addr server_host accept_invalid_certs);
    let '((client, events), _) := connect username in
    '(session_id, channel, channels, events) ← wait_for_connected events;
    _ ← guard (target ∈ channels);
    '(client, sent) ← smoke_command (client, events) (McJoinChannel target);
    let '(client, _) := smoke_feed client (to session_id sent) in
    let '(observer, _) := smoke_feed observer (to session_id sent) in
    client ← (if bool_decide (channel = Some target) then Some client
              else events ← wait_for_channel_join session_id target client.2; Some (client.1, events));
    '(client, sent) ← smoke_command client (McSendChat target message);
    let '(observer, _) := smoke_feed observer (to session_id sent) in
    events ← wait_for_chat_message session_id target message observer.2;
    let '(client, _) := smoke_feed client (to session_id sent) in
    _ ← (if verify_chat_echo then wait_for_chat_message session_id target message client.2
         else Some []);
    '(client, _) ← smoke_command client McDisconnect;
    '(observer, _) ← smoke_command (observer.1, events) McDisconnect;
    Some (negb (ct_running unit client.1) && negb (ct_running unit observer.1))).

(** The test with a server that can be reached, and the variables it asks for set. *)
Definition smoke_test (login : string → list ControlPacket) (env : environment) : bool :=
  real_mumble_smoke_connects_joins_channel_and_sends_chat
    (λ _, Ok [SocketV4 LOCALHOST 64738])
    (λ addr host accept, MumbleClient_connect addr host accept (λ _, Ok tt) (λ _, Ok tt) (λ _ _, Ok tt))
    login test_deliver
    (λ name, if String.eqb name "MUMDOTA_TEST_MUMBLE_ADDR" then Some "localhost:64738"
             else if String.eqb name "MUMDOTA_TEST_MUMBLE_HOST" then Some "localhost" else env name) 1 2.

(** A server with one channel besides the root, that gives the sessions 5 and 7. *)
Definition smoke_login (name : string) : list ControlPacket :=
  let id := if contains name "-observer" then 5 else 7 in
  [ChannelState (mkChannelState (Some 0) (Some "Root") None None);
   ChannelState (mkChannelState (Some 4) (Some "Lobby") (Some 0) None);
   UserState (mkUserState (Some id) (Some name) (Some 0) None None None None);
   ServerSync (Some id)].

(** ** [mumble/voice.rs] *)

(** [from_parts_for_test] *)
Definition MumbleVoice_from_parts_for_test : MumbleVoice := mkMumbleVoiceHandle true true true.

Definition shutdown_aborts_background_voice_task : bool :=
  let '(voice, aborted) := MumbleVoice_shutdown MumbleVoice_from_parts_for_test in
  aborted && negb (vo_task voice).

(** ** [turn/credentials.rs] *)

Definition server_username (c : IceConfig) (i : nat) : option string :=
  ic_ice_servers c !! i ≫= is_username.

Definition credentials_are_per_session_expire_and_are_revoked : bool :=
  let issue_at s session now u := Credentials_issue_at test_auth_key s session test_urls now u in
  let auth := Credentials_new "test" 300 in
  let '(auth, a) := issue_at auth "a" 1000 ("u1", "p1", "q1") in
  let '(auth, b) := issue_at auth "b" 1000 ("u2", "p2", "q2") in
  match server_username a 1, server_username b 1 with
  | Some user, Some user_b =>
      let '(auth1, refreshed) := issue_at auth "a" 1250 ("u3", "p3", "q3") in
      let '(auth2, revoked) := Credentials_revoke auth1 "a" in
      all_hold
        [assert_eq (ic_ice_servers a !! 0%nat ≫= is_credential) None;
         negb (assert_eq user user_b);
         is_ok (Credentials_authenticate_at auth user "test" 1299);
         is_err (Credentials_authenticate_at auth user "test" 1300);
         is_err (Credentials_authenticate_at auth user "other" 1001);
         negb (assert_eq (server_username a 1) (server_username refreshed 1));
         assert_eq (length revoked) 2%nat;
         is_err (Credentials_authenticate_at auth2 user "test" 1251);
         is_ok (Credentials_authenticate_at auth2 user_b "test" 1251)]
  | _, _ => false
  end.

(** ** [turn/relay.rs]

    The socket of the relay is the one of [Relay]; the media socket receives what was sent
    to its address and answers from there. *)

Definition relay_restricts_destination_and_maps_public_endpoint_to_local_media (media_port : Z) : bool :=
  let relay := mkRelayConn (mkSocket None []) (ipv4 203 0 113 7) media_port in
  let voice := [118; 111; 105; 99; 101] in
  let target := SocketV4 (mr_public_ip relay) (mr_media_port relay) in
  let media := SocketV4 LOCALHOST media_port in
  let '(relay1, sent) := MediaRelayConn_send_to relay voice target in
  all_hold
    [is_err (MediaRelayConn_target relay (SocketV4 (ipv4 169 254 169 254) 80));
     is_err (MediaRelayConn_target relay (SocketV4 (ipv4 203 0 113 7) 22));
     is_ok sent;
     assert_eq (conn_sent (mr_conn relay1)) [media];
     match MediaRelayConn_recv_from relay1 [Ok (voice, media)] with
     | Some (Ok (data, source), _) => assert_eq data voice && assert_eq source target
     | _ => false
     end].

(** ** [turn/stream.rs] *)

Definition stream_handles_fragmented_and_coalesced_frames_with_channel_padding : bool :=
  let addr := SocketV4 LOCALHOST 1 in
  let stun := 0 :: 1 :: zeros 18 in
  let conn := StreamConn_new [[0x40; 0]; [0; 1; 7; 0; 0; 0]; stun] addr addr in
  let '(conn, r1) := StreamConn_recv conn 1500 FrameFirst in
  let '(conn, r2) := StreamConn_recv conn 1500 FrameFirst in
  let '(conn, r3) := StreamConn_recv conn 1500 FrameFirst in
  all_hold [assert_eq r1 (Ok [0x40; 0; 0; 1; 7]); assert_eq (Z.of_nat ∘ length <$> r2) (Ok 20);
            is_err r3; StreamConn_closed_returns conn].

(** ** [config.rs] *)

Definition test_expand_env_vars_plain : bool :=
  let env name := if String.eqb name "TEST_HOST" then Some "mumble.example.com" else None in
  assert_eq (expand_env_vars env ("host = " +:+ quoted "${TEST_HOST}"))
    (Ok ("host = " +:+ quoted "mumble.example.com")).

Definition test_expand_env_vars_default : bool :=
  assert_eq (expand_env_vars (λ _, None) ("port = " +:+ quoted "${TEST_UNSET_VAR:-64738}"))
    (Ok ("port = " +:+ quoted "64738")).

Definition test_expand_env_vars_missing_no_default : bool :=
  is_err (expand_env_vars (λ _, None) ("host = " +:+ quoted "${TEST_MISSING_VAR}")).

(** The file the image ships ([config.toml]). *)
Definition shipped_file : string :=
  foldr (λ line text, line +:+ String (ascii_of_nat 10) text) EmptyString
  ["# See README.md for environment variable placeholder syntax.";
   "# All fields can also be overridden via MUMDOTA_* environment variables";
   "# (e.g. MUMDOTA_SERVER_LISTEN_PORT=9090, MUMDOTA_MUMBLE_HOST=mumble.example.com).";
   EmptyString;
   "[server]";
   "listen_addr = " +:+ quoted "${MUMDOTA_SERVER_LISTEN_ADDR:-0.0.0.0}";
   "listen_port = ${MUMDOTA_SERVER_LISTEN_PORT:-8080}";
   "max_connections = ${MUMDOTA_SERVER_MAX_CONNECTIONS:-100}";
   EmptyString;
   "[mumble]";
   "# Local default; set MUMDOTA_MUMBLE_HOST for the deployed upstream server.";
   "host = " +:+ quoted "${MUMDOTA_MUMBLE_HOST:-127.0.0.1}";
   "port = ${MUMDOTA_MUMBLE_PORT:-64738}";
   "accept_invalid_certs = true";
   EmptyString;
   "[webrtc]";
   "stun_servers = []";
   "udp_port = 50000";
   "# For public deployments, set MUMDOTA_WEBRTC_PUBLIC_IP to the node public IPv4.";
   EmptyString;
   "[turn]";
   "enabled = false";
   "# Enable with MUMDOTA_TURN_ENABLED=true, MUMDOTA_TURN_PUBLIC_IP and";
   "# MUMDOTA_TURN_PUBLIC_HOST. WebRTC and TURN public IPv4 addresses must match.";
   "port = 3478";
   "relay_min_port = 49160";
   "relay_max_port = 49999";
   "credential_ttl_secs = 3600";
   "tls_port = 5349";
   "# Set MUMDOTA_TURN_TLS_CERT and MUMDOTA_TURN_TLS_KEY to enable TLS."].

(** The parser is the library's; here it gives the table of the file when no placeholder is
    left in the text. *)
Definition shipped_default_config_loads_without_example_variables : bool :=
  match Config_load (λ text, if contains text "${" then Err "placeholder" else Ok shipped_table)
          deserialize (λ _, None) "config.toml" (Ok shipped_file) with
  | Returned (Ok config) => negb (is_empty (mb_host (mumble config)))
  | _ => false
  end.

(** ** The suite *)

(** The tests with their names, at a concrete clock reading and media port. *)
Definition unit_tests : list (string * bool) :=
  [("parses_single_frame_opus_duration", parses_single_frame_opus_duration);
   ("parses_two_frame_opus_duration", parses_two_frame_opus_duration);
   ("parses_code_three_opus_duration", parses_code_three_opus_duration);
   ("rejects_empty_opus_packets", rejects_empty_opus_packets);
   ("rejects_opus_packets_longer_than_120ms", rejects_opus_packets_longer_than_120ms);
   ("uplink_counts_ten_ms_frames_and_preserves_loss_dtx_and_wraparound",
    uplink_counts_ten_ms_frames_and_preserves_loss_dtx_and_wraparound);
   ("speakers_keep_independent_clocks_and_preserve_gaps",
    speakers_keep_independent_clocks_and_preserve_gaps (ms 5000));
   ("talk_restart_uses_a_continuous_rtp_clock", talk_restart_uses_a_continuous_rtp_clock (ms 5000));
   ("build_text_message_targets_requested_channel", build_text_message_targets_requested_channel);
   ("build_user_state_channel_sets_destination_channel",
    build_user_state_channel_sets_destination_channel);
   ("build_user_state_deaf_also_self_mutes_when_enabled",
    build_user_state_deaf_also_self_mutes_when_enabled);
   ("invalid_cryptsetup_disconnects_instead_of_panicking",
    invalid_cryptsetup_disconnects_instead_of_panicking);
   ("connected_user_channel_move_preserves_cached_user_details",
    connected_user_channel_move_preserves_cached_user_details);
   ("text_message_emits_chat_event_for_target_channel",
    text_message_emits_chat_event_for_target_channel);
   ("resolve_test_server_addr_accepts_hostname_with_port",
    resolve_test_server_addr_accepts_hostname_with_port);
   ("resolve_test_server_addr_rejects_missing_port", resolve_test_server_addr_rejects_missing_port);
   ("real_mumble_smoke_connects_joins_channel_and_sends_chat (defaults)",
    smoke_test smoke_login (λ _, None));
   ("real_mumble_smoke_connects_joins_channel_and_sends_chat (channel 4, echo)",
    smoke_test smoke_login
      (λ name, if String.eqb name "MUMDOTA_TEST_CHANNEL_ID" then Some "4"
               else if String.eqb name "MUMDOTA_TEST_VERIFY_CHAT_ECHO" then Some "True" else None));
   ("shutdown_aborts_background_voice_task", shutdown_aborts_background_voice_task);
   ("credentials_are_per_session_expire_and_are_revoked",
    credentials_are_per_session_expire_and_are_revoked);
   ("relay_restricts_destination_and_maps_public_endpoint_to_local_media",
    relay_restricts_destination_and_maps_public_endpoint_to_local_media 50000);
   ("stream_handles_fragmented_and_coalesced_frames_with_channel_padding",
    stream_handles_fragmented_and_coalesced_frames_with_channel_padding);
   ("shipped_default_config_loads_without_example_variables",
    shipped_default_config_loads_without_example_variables);
   ("test_expand_env_vars_plain", test_expand_env_vars_plain);
   ("test_expand_env_vars_default", test_expand_env_vars_default);
   ("test_expand_env_vars_missing_no_default", test_expand_env_vars_missing_no_default)].

(** The names of the tests that fail on the models: none. *)
Example unit_tests_pass : (filter (λ t, t.2 = false) unit_tests).*1 = [].
Proof. vm_compute. reflexivity. Qed.
